(* ===== verification/_CoqProject ===== *)
-Q . S2P
Prelude.v
RaftCore.v
RaftInv.v
RaftSpec.v
Crc32.v
RaftPersist.v
RaftMem.v
TestSuite.v
Wire.v
RaftTypes.v
RaftRpc.v
Election.v
RaftNet.v
LogNet.v
Cluster.v
FailureDetector.v
EventLoop.v
LoopErrno.v
Session.v
JoinFlow.v
MemberNet.v
RaftVote.v
Transport.v
TransportTest.v
KvRules.v
Logger.v
Server.v
Program.v
Namesakes.v
