(* ===== verification/Prelude.v ===== *)
(** * Distri-C (dRoole): a verification library

    Distri-C is a cluster node written in C.  It keeps a member list by gossip
    and JOIN/LEAVE messages, serves RPC requests from an event loop, and holds a
    Raft consensus module with a write-ahead log.  This library models the parts
    that carry the program's logic as executable functions and proves what they
    guarantee, and what they do not.

    ** Parts of the program and files of the library

    - [RaftCore.v]: data and operations of [include/cluster/raft.h] and
      [src/cluster/raft_core.c].  A [RaftNode] is the struct of that name.
      Operations work on a pair of the node and a world [W], on which the
      callbacks [apply], [persist] and [send_rpc] act.
    - [RaftInv.v]: the node invariant [raft_wf] and its preservation, and the
      lemmas on log merging, commit and apply.  [AsyncTransport] and
      [TransportWf] are the interfaces a [send_rpc] callback offers to the core.
    - [RaftSpec.v]: the properties of one node.
    - [Crc32.v]: the checksum of [src/cluster/raft_persistence.c].
    - [RaftPersist.v]: write-ahead log and snapshots of the same file, on a file
      system that is a finite map, with failing and short writes.
    - [RaftMem.v]: the log and peer arrays of both files as blocks in memory, slot by
      slot, with [realloc], [memmove], [free], stale slots and [raft_destroy], and
      their refinement of the lists of [RaftCore.v] and [RaftPersist.v].
    - [TestSuite.v]: the tests of [tests/test_raft.c], evaluated on the model.
    - [Wire.v]: [src/protocol/serializer.c], the packed structs, and the message
      packing of [src/cluster/raft_rpc_integration.c].
    - [RaftTypes.v]: the C types of the core's state, kept by every call.
    - [RaftRpc.v]: the rest of [raft_rpc_integration.c] (send callback, incoming
      dispatch, start-up, client writes, the callbacks as installed) with
      [rpc_send_message] and [rpc_recv_message] of [src/protocol/rpc_handler.c].
    - [Election.v]: an abstract leader election, the specification of terms,
      votes and roles.
    - [RaftNet.v]: several nodes with their disks over a network, as a step
      relation, and its refinement of [Election.v].
    - [LogNet.v]: what the steps of [RaftNet.v] do to the logs, and an executable
      scheduler for concrete runs.
    - [Cluster.v]: [src/cluster/cluster_manager.c] and the gossip, heartbeat and
      reaper callbacks of [src/main.c], with the log line of a status transition.
    - [FailureDetector.v]: those callbacks over time, as a failure detector, and the
      clock of [include/common/utils.h].
    - [EventLoop.v]: [src/common/event_loop.c], the descriptor table with its
      chains in memory, the epoll interest list and the dispatch loop.  The kernel may
      refuse any [epoll_ctl]; closing a descriptor takes it out of the list
      ([close_fd]).  [OwnDescriptor] is the contract the loop asks of callbacks.
    - [LoopErrno.v]: the error codes its functions leave, and the contract that
      [include/common/event_loop.h] documents.
    - [Session.v]: the server's session state machine, [rpc_on_client_event] of
      [src/protocol/rpc_handler.c], which calls [Cluster.v].
    - [JoinFlow.v]: both ends of a join and of a departure, [cluster_join] and
      [cluster_leave] against a session.
    - [MemberNet.v]: several nodes that start, join, gossip, serve, crash and leave,
      as an executable transition function on the whole fleet.
    - [RaftVote.v]: [raft_send_request_vote] and the callback context of
      [raft_rpc_integration.c].
    - [Transport.v]: [src/transport/tcp_transport.c], [udp_transport.c] and
      [net_utils.c], on the set of open descriptors.  A [send] on a broken connection
      ends the process (SIGPIPE).
    - [TransportTest.v]: [tests/test_udp.c], [tests/test_gossip.c] and
      [tests/test_tcp.c].
    - [KvRules.v]: [src/cluster/kv_store.c] and [src/cluster/rule_engine.c].
    - [Logger.v]: [src/common/logger.c], two threads interleaved access by access.
    - [Server.v]: the callbacks of [rpc_handler.c] and [src/main.c] on the event
      loop, with sessions in memory, and [main] from the creation of the loop to
      its return; it discharges [OwnDescriptor].
    - [Program.v]: [main] from its first line: the logger, the arguments with [atoi],
      then the node of [Server.v].
    - [Namesakes.v]: a fleet started with the documented arguments, from the command
      line through [MemberNet.v] to the heartbeats.

    This file holds what they share: machine integers, byte encodings, C
    strings, the hint databases [droole] and [droole_rw], and tactics.

    ** Modelling conventions

    Unsigned integers are [Z] with the reduction of their width written where an
    operation can leave it ([+64], [-64], [+32]).  A pointer with a count is a
    list; the allocated capacity is kept as a field where the code tests it
    ([RaftMem.v] justifies this for the node).  A char array is a byte list of its
    size, compared as a C string ([cstr], [streq], [strncpy]).  The host is little-endian with 64-bit [size_t] and
    [long].  The clock, [rand], allocation results and results of system calls
    are arguments.  Undefined behaviour (null or out-of-bounds access, signed
    overflow) is the value [Undefined] of [outcome].  Log output is left out, but for the
    one line that can be out of bounds ([update_line]).  Struct
    assignment is the record update notation.

    ** What is proved

    - One node: [raft_invariant] over sequences of calls whose obligations [raft_step]
      lists; AppendEntries against
      a reference merge, its idempotence, its refusals and the stability of
      committed entries; the vote rule; [majority_elects]; the commit rule, on what the
      peers acknowledged, for any [send_rpc]; what one heartbeat and its answer do
      ([heartbeat_exchange]);
      in-order application; [term_monotone]; and without any assumption but the
      types of the arguments, [raft_machine_types].
    - Memory of a node: [memory_refines_lists], log and peer arrays behave as lists over
      any life of the node, with no use after free, and [destroy_leaves_nothing],
      nothing leaks; [op_fits] bounds the number of entries by 2^61 so that a
      doubled capacity does not wrap.
    - Cluster of nodes: [cluster_refines_election] and [election_safety], with
      message loss, duplication and reordering, and with crashes between operations
      followed by a restart from the write-ahead log.  The callbacks of these nodes queue
      requests and store the node; those that [raft_rpc_init] installs do neither
      ([installed_persist_undefined]).  The steps hand requests and responses
      over as values, as [raft_messages_roundtrip] justifies for packed messages;
      the shipped callback does not pack them, which is shown separately.  The
      file header must reach the disk ([header_written], part of [disk_step]); entries
      need not.  Without it there can be two leaders ([lost_header_two_leaders]).
      [entries_stay_home] shows that no log entry is ever replicated, and
      [replicas_diverge] gives a run in which two members apply different commands.
    - Disk: round trip, recovery from every failed or short write, detection of
      a damaged byte, from [crc32_is_reference] and [crc32_detects_burst].
    - Wire formats: round trips.  Sessions: reassembly of requests and
      fragmentation of responses for every way the kernel splits them, and the
      bound on the passes of the callback.  Membership: join on both sides and
      end to end ([join_end_to_end]), leaving ([leave_end_to_end]), and the
      verdicts of the failure detector ([detector_verdict], [heartbeat_detected]).
    - Membership across nodes: [membership_truthful], every entry of every list is a
      real node under its ports, whatever fails; [membership_does_not_spread], lists
      grow by joins only; [documented_fleet_silent], a fleet started as the usage text
      says never sends a heartbeat.  Requests reach a node as complete headers and
      payloads, as [session_reassembles] justifies; JOIN_REQs come from nodes of the
      fleet, all other requests and datagrams are arbitrary.  The address book of the
      network is an argument ([fleet_ok] says what is relied on).
    - Event loop: [loop_refines_map], the table is a finite map whatever the kernel
      answers, with the stale pointer that a refused removal leaves until the descriptor
      is closed; [dispatch_safe], no stale pointer under the contract of callbacks, and
      [stale_pointer_dispatch], what happens without it;
      [loop_shutdown_complete]; [loop_errors_documented], the error codes.
    - Program: [server_loop_safe], no stale context or session from start-up on
      for any number of rounds, whatever the kernel refuses, and [server_stops], a
      termination signal ends it; [program_runs], the same from the command line to the
      exit status.  [excused] and [program_excused] name what these leave out: an
      unchecked allocation, an answer to the join that is malformed, numbers that are no
      [int].  [command_line_meaning]: what a command line means, and which flags do
      nothing.
    - Logger: [logger_fifo] in every interleaving, [logger_drains], what is and what is
      not flushed at shutdown, and a run that loses the last message
      ([logger_loses_last_message]).  Transport: no leaked sockets; what arrives and what
      is lost however the calls end ([tcp_exact_transfer]).  Rule store and engine:
      [kv_refines_map], [execute_rules_rejects], and [execute_rules_terminates], when
      the rule loop does not end and overflows its counter.
    - Behaviour a maintainer should know of: lost votes
      ([late_grant_ignored]), an election at every tick ([every_tick_elects]),
      commits of entries that were not compared
      ([heartbeat_commits_unchecked]), byte order of outgoing requests
      ([raw_header_rejected], [raw_request_byte_swapped]), restarts after a
      snapshot ([snapshot_restart_shifts_log]), time stamps of joined members
      ([joined_member_not_reaped]), a failing clock ([clock_failure_kills]), statuses
      from the network ([imported_status_out_of_bounds]), the test script's command line
      ([script_line_misread]) and others.

    ** Fuel

    [for_each_peer], [append_loop] and [import_members] run as many rounds as the
    loop bound of the source.  [apply_loop] and [commit_loop] take the distance
    between the two indices of the loop condition ([apply_in_order] and
    [leader_commit_rule] show that they reach the end; [commit_loop_ends], that the
    second also does when the indices are not in order, unless the last index is 2^64 - 1,
    where the loop of the source does not end).  [restore_entries] takes
    one more than the file length, [m_restore_entries] one more than what is left
    of it: a round consumes at least 29 bytes.
    [session_loop] takes three passes ([session_loop_fuel]).  Walks along chains
    take one more than the size of the heap ([chain_fuel]); chains visit no object
    twice.  [loop_rounds] runs for any fuel, as the loop itself does not end;
    [stop_ends] says when it does.  [execute_loop] reports running out of fuel as its
    own result.  [poll] makes the hundred attempts of the tests.  [decimal] has ten
    digits, enough for an [int].  [drain_steps] bounds the worker of the logger.

    ** Not modelled

    Names that are not declared where they are used ([ROLE_CONTROL] and [ROLE_WORKER]
    in [main], the request function and node fields of [raft_send_request_vote]) are
    arguments.  Left out are the messages [RaftInstallSnapshotReq] and [RaftInstallSnapshotResp], which
    nothing uses, [include/common/nodes.h], which nothing includes, the Python scripts,
    the two empty test programs, [printf] output, the set of signals, and memory
    orderings weaker than the acquire and release pairs of the logger.  System calls,
    allocation, clocks and [rand] are arguments. *)

From Stdlib Require Export ZArith Lia Strings.Byte.
From stdpp Require Export base tactics list numbers gmap strings.
From coqutil Require Byte Word.LittleEndianList.

Open Scope Z_scope.

(** ** Notation scope of the development *)

Declare Scope c_scope.
Delimit Scope c_scope with c.
Open Scope c_scope.

(** Unsigned machine integers are [Z] values; every C operation that can leave
    the range is followed by the reduction of its width. *)
Definition u8 (z : Z) : Z := z mod 2 ^ 8.
Definition u16 (z : Z) : Z := z mod 2 ^ 16.
Definition u32 (z : Z) : Z := z mod 2 ^ 32.
Definition u64 (z : Z) : Z := z mod 2 ^ 64.

Definition is_u8 (z : Z) : Prop := 0 <= z < 2 ^ 8.
Definition is_u16 (z : Z) : Prop := 0 <= z < 2 ^ 16.
Definition is_u32 (z : Z) : Prop := 0 <= z < 2 ^ 32.
Definition is_u64 (z : Z) : Prop := 0 <= z < 2 ^ 64.

Notation "x '+64' y" := (u64 (x + y)) (at level 50, left associativity) : c_scope.
Notation "x '-64' y" := (u64 (x - y)) (at level 50, left associativity) : c_scope.
Notation "x '+32' y" := (u32 (x + y)) (at level 50, left associativity) : c_scope.

(** ** Hint databases and tactics *)

Create HintDb droole.
Create Rewrite HintDb droole_rw.

(** [destruct_ifs] splits every boolean test and [match] in the goal. *)
Ltac destruct_ifs :=
  repeat match goal with
  | |- context [if ?b then _ else _] => destruct b eqn:?
  | |- context [match ?x with _ => _ end] =>
      lazymatch x with
      | context [match _ with _ => _ end] => fail
      | _ => destruct x eqn:?
      end
  end.

(** [bool_to_prop] turns the boolean comparisons of the code into
    propositions. *)
Ltac bool_to_prop :=
  repeat match goal with
  | H : (_ <? _) = true |- _ => apply Z.ltb_lt in H
  | H : (_ <? _) = false |- _ => apply Z.ltb_ge in H
  | H : (_ <=? _) = true |- _ => apply Z.leb_le in H
  | H : (_ <=? _) = false |- _ => apply Z.leb_gt in H
  | H : (_ >? _) = _ |- _ => rewrite Z.gtb_ltb in H
  | H : (_ >=? _) = _ |- _ => rewrite Z.geb_leb in H
  | H : (_ =? _) = true |- _ => apply Z.eqb_eq in H
  | H : (_ =? _) = false |- _ => apply Z.eqb_neq in H
  | H : negb _ = true |- _ => apply negb_true_iff in H
  | H : negb _ = false |- _ => apply negb_false_iff in H
  | H : (_ && _) = true |- _ => apply andb_true_iff in H; destruct H
  | H : (_ || _) = false |- _ => apply orb_false_iff in H; destruct H
  | H : bool_decide _ = true |- _ => apply bool_decide_eq_true in H
  | H : bool_decide _ = false |- _ => apply bool_decide_eq_false in H
  end.

Ltac solve_u :=
  unfold is_u8, is_u16, is_u32, is_u64 in *; lia.

(** ** Machine integers *)

Lemma u64_small (z : Z) : is_u64 z -> u64 z = z.
Proof. intros H. apply Z.mod_small, H. Qed.

Lemma u32_small (z : Z) : is_u32 z -> u32 z = z.
Proof. intros H. apply Z.mod_small, H. Qed.

Lemma u16_small (z : Z) : is_u16 z -> u16 z = z.
Proof. intros H. apply Z.mod_small, H. Qed.

Lemma u64_range (z : Z) : is_u64 (u64 z).
Proof. apply Z.mod_pos_bound. lia. Qed.

Lemma u32_range (z : Z) : is_u32 (u32 z).
Proof. apply Z.mod_pos_bound. lia. Qed.

Lemma u16_range (z : Z) : is_u16 (u16 z).
Proof. apply Z.mod_pos_bound. lia. Qed.

#[export] Hint Resolve u64_range u32_range u16_range : droole.

(** ** Bytes *)

#[export] Instance byte_eq_dec : EqDecision byte := Byte.byte_eq_dec.

Abbreviation byte_of_Z := coqutil.Byte.byte.of_Z.
Abbreviation Z_of_byte := coqutil.Byte.byte.unsigned.

(** The text of a C string literal (without its terminating NUL). *)
Definition text (s : string) : list byte := String.list_byte_of_string s.

(** Memory images of integers on the little-endian hosts the repository is
    built for ([__BYTE_ORDER__ == __ORDER_LITTLE_ENDIAN__]): [host_bytes w z] is
    what [memcpy(dest, &z, w)] copies.  [net_bytes] is the same after
    [htons]/[htonl]/[htobe64]. *)
Definition host_bytes (w : nat) (z : Z) : list byte := LittleEndianList.le_split w z.
Definition net_bytes (w : nat) (z : Z) : list byte := rev (host_bytes w z).
Definition of_host (b : list byte) : Z := LittleEndianList.le_combine b.
Definition of_net (b : list byte) : Z := of_host (rev b).

Lemma length_host_bytes (w : nat) (z : Z) : length (host_bytes w z) = w.
Proof. apply LittleEndianList.length_le_split. Qed.

Lemma length_net_bytes (w : nat) (z : Z) : length (net_bytes w z) = w.
Proof. unfold net_bytes. rewrite length_rev. apply length_host_bytes. Qed.

Lemma of_host_bytes (w : nat) (z : Z) :
  of_host (host_bytes w z) = z mod 2 ^ (Z.of_nat w * 8).
Proof. apply LittleEndianList.le_combine_split. Qed.

Lemma of_net_bytes (w : nat) (z : Z) :
  of_net (net_bytes w z) = z mod 2 ^ (Z.of_nat w * 8).
Proof. unfold of_net, net_bytes. rewrite rev_involutive. apply of_host_bytes. Qed.

Lemma net_bytes_of_net (b : list byte) : net_bytes (length b) (of_net b) = b.
Proof.
  unfold net_bytes, host_bytes, of_net, of_host. rewrite <- (length_rev b).
  rewrite LittleEndianList.split_le_combine. apply rev_involutive.
Qed.

Lemma of_host_bound (b : list byte) : 0 <= of_host b < 2 ^ (8 * Z.of_nat (length b)).
Proof. apply LittleEndianList.le_combine_bound. Qed.

Lemma of_net_bound (b : list byte) : 0 <= of_net b < 2 ^ (8 * Z.of_nat (length b)).
Proof. unfold of_net. rewrite <- (length_rev b). apply of_host_bound. Qed.

Lemma of_net_bytes4 (z : Z) : is_u32 z -> of_net (net_bytes 4 z) = z.
Proof. intros H. rewrite of_net_bytes. apply Z.mod_small. exact H. Qed.

Lemma of_net_bytes2 (z : Z) : is_u16 z -> of_net (net_bytes 2 z) = z.
Proof. intros H. rewrite of_net_bytes. apply Z.mod_small. exact H. Qed.

Lemma of_net_bytes8 (z : Z) : is_u64 z -> of_net (net_bytes 8 z) = z.
Proof. intros H. rewrite of_net_bytes. apply Z.mod_small. exact H. Qed.

#[export] Hint Rewrite length_host_bytes length_net_bytes : droole_rw.
#[export] Hint Rewrite @length_app @length_replicate @length_take @length_drop : droole_rw.

(** ** C strings in fixed-size char arrays *)

(** The C string held by an array: the bytes before the first NUL. *)
Fixpoint cstr (b : list byte) : list byte :=
  match b with
  | [] => []
  | c :: b' => if decide (c = x00) then [] else c :: cstr b'
  end.

Definition zeros (n : nat) : list byte := replicate n x00.

(** [strcmp(a, b) == 0] *)
Definition streq (a b : list byte) : bool := bool_decide (cstr a = cstr b).

Definition strlen (a : list byte) : Z := Z.of_nat (length (cstr a)).

(** [strncpy(dst, src, n)]: at most [n] characters of [src], NUL-padded up to
    [n]; the rest of the array is untouched. *)
Definition strncpy (dst src : list byte) (n : nat) : list byte :=
  take n (cstr src) ++ zeros (n - length (cstr src)) ++ drop n dst.

(** A char array of [sz] bytes that holds a NUL-terminated string. *)
Definition char_array (sz : nat) (b : list byte) : Prop :=
  length b = sz /\ b !! (sz - 1)%nat = Some x00.

Lemma cstr_no_nul (b : list byte) : x00 ∉ cstr b.
Proof.
  induction b as [|c b IH]; simpl; [set_solver|].
  case_decide; set_solver.
Qed.

Lemma cstr_id (s : list byte) : x00 ∉ s -> cstr s = s.
Proof.
  induction s as [|c s IH]; intros H; simpl; [done|].
  rewrite decide_False by set_solver. rewrite IH; [done|set_solver].
Qed.

Lemma cstr_app_nul (s t : list byte) : x00 ∉ s -> cstr (s ++ x00 :: t) = s.
Proof.
  induction s as [|c s IH]; intros H; simpl.
  - done.
  - rewrite decide_False by set_solver. rewrite IH; [done|set_solver].
Qed.

Lemma cstr_cstr (b : list byte) : cstr (cstr b) = cstr b.
Proof. apply cstr_id, cstr_no_nul. Qed.

Lemma cstr_take (b : list byte) (n : nat) : cstr (take n b) = take n (cstr b).
Proof.
  revert n. induction b as [|c b IH]; intros [|n]; simpl; try done.
  case_decide; simpl; [done|]. by rewrite IH.
Qed.

Lemma cstr_length (b : list byte) : (length (cstr b) <= length b)%nat.
Proof. induction b as [|c b IH]; simpl; [done|]. case_decide; simpl; lia. Qed.

Lemma cstr_char_array_length (sz : nat) (b : list byte) :
  (0 < sz)%nat -> char_array sz b -> (length (cstr b) < sz)%nat.
Proof.
  intros _ [<- Hl]. revert Hl.
  induction b as [|c b IH]; simpl; [done|].
  intros Hl. case_decide; simpl; [lia|].
  destruct b as [|c' b']; simpl in *; [congruence|].
  rewrite Nat.sub_0_r in IH. specialize (IH Hl). lia.
Qed.

Lemma zeros_cstr (n : nat) : cstr (zeros n) = [].
Proof. destruct n; done. Qed.

Lemma char_array_zeros (sz : nat) : (0 < sz)%nat -> char_array sz (zeros sz).
Proof.
  intros H. split; [apply length_replicate|].
  apply lookup_replicate_2. lia.
Qed.

Lemma length_strncpy (dst src : list byte) (n : nat) :
  (n <= length dst)%nat -> length (strncpy dst src n) = length dst.
Proof.
  intros H. unfold strncpy, zeros.
  rewrite !length_app, length_take, length_replicate, length_drop. lia.
Qed.

(** The idiom [strncpy(dst, src, sizeof(dst) - 1)] of the repository keeps the
    array terminated and stores the truncated source string. *)
Lemma strncpy_char_array (sz : nat) (dst src : list byte) :
  (0 < sz)%nat -> char_array sz dst -> char_array sz (strncpy dst src (sz - 1)).
Proof.
  intros Hsz [Hlen Hlast]. split.
  - rewrite length_strncpy; lia.
  - unfold strncpy, zeros. rewrite lookup_app_r by (rewrite length_take; lia).
    rewrite lookup_app_r by (rewrite length_take, length_replicate; lia).
    rewrite length_take, length_replicate, lookup_drop.
    replace (_ + _)%nat with (sz - 1)%nat by lia. done.
Qed.

Lemma cstr_strncpy (sz : nat) (dst src : list byte) :
  (0 < sz)%nat -> char_array sz dst ->
  cstr (strncpy dst src (sz - 1)) = take (sz - 1) (cstr src).
Proof.
  intros Hsz [Hlen Hlast]. unfold strncpy.
  assert (exists t, zeros (sz - 1 - length (cstr src)) ++ drop (sz - 1) dst = x00 :: t)
    as [t ->].
  { destruct (sz - 1 - length (cstr src))%nat; simpl; [|eauto].
    destruct (drop (sz - 1) dst) as [|c t] eqn:E.
    - apply (f_equal length) in E. rewrite length_drop in E. simpl in E. lia.
    - exists t.
      assert (drop (sz - 1) dst !! 0%nat = Some c) as Hc by by rewrite E.
      rewrite lookup_drop, Nat.add_0_r, Hlast in Hc. simplify_eq. done. }
  apply cstr_app_nul. intros Hin. apply (cstr_no_nul src).
  eapply elem_of_take in Hin as (i & Hi & _). by apply list_elem_of_lookup_2 in Hi.
Qed.

Lemma cstr_strncpy_fits (sz : nat) (dst src : list byte) :
  (0 < sz)%nat -> char_array sz dst -> (length (cstr src) < sz)%nat ->
  cstr (strncpy dst src (sz - 1)) = cstr src.
Proof.
  intros Hsz Hd Hs. rewrite cstr_strncpy by done. apply take_ge. lia.
Qed.

Lemma streq_true (a b : list byte) : streq a b = true <-> cstr a = cstr b.
Proof. apply bool_decide_eq_true. Qed.

Lemma streq_false (a b : list byte) : streq a b = false <-> cstr a <> cstr b.
Proof. apply bool_decide_eq_false. Qed.



#[global] Arguments strncpy : simpl never.
#[global] Arguments zeros : simpl never.
#[global] Arguments cstr : simpl nomatch.
#[global] Arguments host_bytes : simpl never.
#[global] Arguments net_bytes : simpl never.
#[global] Arguments u64 : simpl never.
#[global] Arguments u32 : simpl never.
#[global] Arguments u16 : simpl never.
#[global] Arguments u8 : simpl never.

(** Ids ([char\[37\]]) and addresses ([char\[46\]]). *)
Lemma strncpy37 (dst src : list byte) :
  char_array 37 dst -> char_array 37 (strncpy dst src 36).
Proof. apply (strncpy_char_array 37). lia. Qed.

Lemma strncpy46 (dst src : list byte) :
  char_array 46 dst -> char_array 46 (strncpy dst src 45).
Proof. apply (strncpy_char_array 46). lia. Qed.

Lemma zeros37 : char_array 37 (zeros 37).
Proof. apply char_array_zeros. lia. Qed.

Lemma zeros46 : char_array 46 (zeros 46).
Proof. apply char_array_zeros. lia. Qed.

Lemma cstr_strncpy37 (dst src : list byte) :
  char_array 37 dst -> (length (cstr src) < 37)%nat -> cstr (strncpy dst src 36) = cstr src.
Proof. apply (cstr_strncpy_fits 37). lia. Qed.

Lemma cstr_length37 (b : list byte) : char_array 37 b -> (length (cstr b) < 37)%nat.
Proof. apply cstr_char_array_length. lia. Qed.

#[export] Hint Resolve strncpy37 strncpy46 zeros37 zeros46 cstr_length37 : droole.

#[export] Instance byte_countable : Countable byte.
Proof.
  refine (inj_countable Byte.to_nat Byte.of_nat _). intros b. apply Byte.of_to_nat.
Defined.

(** ** Fields of packed structs *)

(** The [w] bytes at offset [off]. *)
Definition field (off w : nat) (b : list byte) : list byte := take w (drop off b).

Lemma field_skip (off w : nat) (a b : list byte) :
  (length a <= off)%nat -> field off w (a ++ b) = field (off - length a) w b.
Proof. intros H. unfold field. by rewrite drop_app_ge. Qed.

Lemma field_here (w : nat) (a b : list byte) : length a = w -> field 0 w (a ++ b) = a.
Proof. intros <-. unfold field. by rewrite drop_0, take_app_length. Qed.

Lemma field_all (w : nat) (a : list byte) : length a = w -> field 0 w a = a.
Proof. intros <-. unfold field. by rewrite drop_0, firstn_all. Qed.

Lemma length_zeros (n : nat) : length (zeros n) = n.
Proof. apply length_replicate. Qed.

#[export] Hint Rewrite length_zeros : droole_rw.

(** Side conditions about the length of a concatenation of fields. *)
Ltac len := autorewrite with droole_rw; cbn [length]; try lia.

(** Reads the fields of a concatenation of fields of known lengths. *)
Ltac read_fields :=
  repeat first
    [ rewrite field_here by (len; done)
    | rewrite field_all by (len; done)
    | (rewrite field_skip by len); autorewrite with droole_rw; cbn [length Nat.sub] ].

(** Adjacent fields join. *)
Lemma field_join (off w1 w2 : nat) (b : list byte) :
  field off w1 b ++ field (off + w1) w2 b = field off (w1 + w2) b.
Proof. unfold field. by rewrite <- drop_drop, take_take_drop. Qed.

Lemma length_field (off w : nat) (b : list byte) :
  (off + w <= length b)%nat -> length (field off w b) = w.
Proof. intros H. unfold field. rewrite length_take, length_drop. lia. Qed.

Lemma net_bytes_field (off w : nat) (b : list byte) :
  (off + w <= length b)%nat -> net_bytes w (of_net (field off w b)) = field off w b.
Proof.
  intros H. pose proof (net_bytes_of_net (field off w b)) as Hn.
  by rewrite length_field in Hn.
Qed.

Lemma of_net_bytes1 (z : Z) : is_u8 z -> of_net (net_bytes 1 z) = z.
Proof. intros H. rewrite of_net_bytes. apply Z.mod_small. exact H. Qed.

(** Joins a concatenation of adjacent fields of a buffer. *)
Ltac join_fields :=
  repeat match goal with
  | |- context [field ?o ?w ?b ++ field ?o' ?w' ?b] =>
      let w2 := eval cbv in (w + w')%nat in
      rewrite (field_join o w w' b : field o w b ++ field o' w' b = field o w2 b)
  end.

