(* ===== verification/RaftCore.v ===== *)
(** * Raft core: data model and operations

    Models [include/cluster/raft.h] and [src/cluster/raft_core.c].  A
    [RaftNode] is the C struct of the same name; a pair of a pointer and a
    count is a list ([log]/[log_count], [peers]/[peer_count],
    [data]/[data_len], [snapshot_data]/[snapshot_size]), the allocated capacity
    stays a field.  Char arrays are byte lists of the array's size.

    Every operation is a function on [RaftNode * W], where [W] is whatever the
    callbacks act on (the [void *context]).  The clock, [rand()] and the
    outcome of every allocation are arguments.  The [send_rpc] callback may
    change the node: the one the repository installs handles the peer's
    response before it returns. *)

From S2P Require Import Prelude.

(** ** Constants *)

Definition RAFT_ELECTION_TIMEOUT_MIN_MS : Z := 150.
Definition RAFT_ELECTION_TIMEOUT_MAX_MS : Z := 300.
Definition RAFT_HEARTBEAT_INTERVAL_MS : Z := 50.

(** ** Data *)

Inductive RaftState : Type :=
  | RAFT_STATE_FOLLOWER
  | RAFT_STATE_CANDIDATE
  | RAFT_STATE_LEADER.

#[export] Instance RaftState_eq_dec : EqDecision RaftState.
Proof. solve_decision. Defined.

(** [entry_type]: 0 = command, 1 = configuration, 2 = no-op. *)
Record RaftLogEntry : Type := {
  e_term : Z;
  e_index : Z;
  e_data : list byte;
  e_type : Z;
}.

#[export] Instance RaftLogEntry_eq_dec : EqDecision RaftLogEntry.
Proof. solve_decision. Defined.

Record RaftPeer : Type := {
  p_node_id : list byte;
  p_ip_address : list byte;
  p_port : Z;
  next_index : Z;
  match_index : Z;
  last_contact_ms : Z;
  inflight_rpcs : Z;
  vote_granted : bool;
}.

Record RaftNode : Type := {
  node_id : list byte;
  current_term : Z;
  voted_for : list byte;
  log : list RaftLogEntry;
  log_capacity : Z;
  state : RaftState;
  commit_index : Z;
  last_applied : Z;
  peers : list RaftPeer;
  peer_capacity : Z;
  election_timeout_ms : Z;
  last_heartbeat_ms : Z;
  last_election_ms : Z;
  leader_id : list byte;
  votes_received : Z;
  last_snapshot_index : Z;
  last_snapshot_term : Z;
  snapshot_data : list byte;
  elections_started : Z;
  heartbeats_sent : Z;
  heartbeats_received : Z;
}.

Definition log_count (n : RaftNode) : Z := Z.of_nat (length (log n)).
Definition peer_count (n : RaftNode) : Z := Z.of_nat (length (peers n)).

(** ** RPC messages *)

Record RaftRequestVoteReq : Type := {
  rv_term : Z;
  rv_candidate_id : list byte;
  rv_last_log_index : Z;
  rv_last_log_term : Z;
}.

Record RaftRequestVoteResp : Type := {
  rvr_term : Z;
  rvr_vote_granted : Z;
}.

Record RaftAppendEntriesReq : Type := {
  ae_term : Z;
  ae_leader_id : list byte;
  ae_prev_log_index : Z;
  ae_prev_log_term : Z;
  ae_leader_commit : Z;
  ae_entry_count : Z;
}.

Record RaftAppendEntriesResp : Type := {
  aer_term : Z;
  aer_success : Z;
  aer_match_index : Z;
}.

(** What [send_rpc] is handed: the core passes a pointer to one of the two
    request structs and its size. *)
Inductive RaftRequest : Type :=
  | RequestVote (req : RaftRequestVoteReq)
  | AppendEntries (req : RaftAppendEntriesReq).

(** Outcome of the [realloc] and of the [malloc] of one operation. *)
Record Alloc : Type := {
  realloc_ok : bool;
  malloc_ok : bool;
}.

Definition alloc_ok : Alloc := {| realloc_ok := true; malloc_ok := true |}.

(** [Undefined] is undefined behaviour of the C program: a null or
    out-of-bounds access. *)
Inductive outcome (A : Type) : Type :=
  | Returns (a : A)
  | Undefined.
Arguments Returns {A} a.
Arguments Undefined {A}.

(** ** Log access *)

Definition last_log_index (n : RaftNode) : Z :=
  match last (log n) with
  | None => last_snapshot_index n
  | Some e => e_index e
  end.

Definition last_log_term (n : RaftNode) : Z :=
  match last (log n) with
  | None => last_snapshot_term n
  | Some e => e_term e
  end.

Definition get_log_entry (n : RaftNode) (index : Z) : option RaftLogEntry :=
  if index <=? last_snapshot_index n then None
  else
    let array_idx := index - last_snapshot_index n - 1 in
    if array_idx >=? log_count n then None
    else log n !! Z.to_nat array_idx.

Definition term_at_index (n : RaftNode) (index : Z) : Z :=
  if index =? 0 then 0
  else if index =? last_snapshot_index n then last_snapshot_term n
  else match get_log_entry n index with
       | Some entry => e_term entry
       | None => 0
       end.

(** [find_peer]: position and contents of the first peer with that id. *)
Definition find_peer (n : RaftNode) (peer_id : list byte) : option (nat * RaftPeer) :=
  list_find (fun p => streq (p_node_id p) peer_id = true) (peers n).

Definition ensure_log_capacity (al : Alloc) (n : RaftNode) : RaftNode :=
  if log_count n >=? log_capacity n then
    let new_cap := if log_capacity n =? 0 then 16 else u64 (log_capacity n * 2) in
    if realloc_ok al then {| n with log_capacity := new_cap |} else n
  else n.

Definition random_election_timeout (rnd : Z) : Z :=
  RAFT_ELECTION_TIMEOUT_MIN_MS
  + rnd mod (RAFT_ELECTION_TIMEOUT_MAX_MS - RAFT_ELECTION_TIMEOUT_MIN_MS).

Definition raft_state_string (s : RaftState) : string :=
  match s with
  | RAFT_STATE_FOLLOWER => "FOLLOWER"
  | RAFT_STATE_CANDIDATE => "CANDIDATE"
  | RAFT_STATE_LEADER => "LEADER"
  end.

(** ** Construction and membership *)

(** [raft_init]: [None] when [calloc] fails. *)
Definition raft_init (al : Alloc) (id : list byte) (rnd : Z) : option RaftNode :=
  if malloc_ok al then
    Some {| node_id := strncpy (zeros 37) id 36;
            current_term := 0;
            voted_for := zeros 37;
            log := []; log_capacity := 0;
            state := RAFT_STATE_FOLLOWER;
            commit_index := 0; last_applied := 0;
            peers := []; peer_capacity := 0;
            election_timeout_ms := random_election_timeout rnd;
            last_heartbeat_ms := 0; last_election_ms := 0;
            leader_id := zeros 37; votes_received := 0;
            last_snapshot_index := 0; last_snapshot_term := 0;
            snapshot_data := [];
            elections_started := 0; heartbeats_sent := 0; heartbeats_received := 0 |}
  else None.

Definition new_peer (peer_id ip : list byte) (port : Z) : RaftPeer :=
  {| p_node_id := strncpy (zeros 37) peer_id 36;
     p_ip_address := strncpy (zeros 46) ip 45;
     p_port := port;
     next_index := 0; match_index := 0; last_contact_ms := 0;
     inflight_rpcs := 0; vote_granted := false |}.

Definition raft_add_peer (al : Alloc) (n : RaftNode) (peer_id ip : list byte) (port : Z)
  : Z * RaftNode :=
  match find_peer n peer_id with
  | Some _ => (-1, n)
  | None =>
      let full := peer_count n >=? peer_capacity n in
      if full && negb (realloc_ok al) then (-1, n)
      else
        let cap := if full
                   then (if peer_capacity n =? 0 then 8 else u64 (peer_capacity n * 2))
                   else peer_capacity n in
        (0, {| n with peer_capacity := cap;
                      peers := peers n ++ [new_peer peer_id ip port] |})
  end.

Definition raft_remove_peer (n : RaftNode) (peer_id : list byte) : Z * RaftNode :=
  match find_peer n peer_id with
  | Some (i, _) => (0, {| n with peers := delete i (peers n) |})
  | None => (-1, n)
  end.

Definition raft_start (now : Z) (n : RaftNode) : Z * RaftNode :=
  (0, {| n with last_heartbeat_ms := now |}).

(** ** Operations that run callbacks *)

Section Operations.
Context {W : Type}.

(** [node->callbacks]: a null function pointer is [None].  [apply] and
    [persist] only read the node; [send_rpc] may change it. *)
Record Callbacks : Type := {
  cb_apply : option (W -> list byte -> W);
  cb_persist : option (RaftNode -> W -> W);
  cb_send_rpc : option (list byte -> RaftRequest -> RaftNode * W -> RaftNode * W);
}.

Variable cb : Callbacks.

Definition persist_state (s : RaftNode * W) : RaftNode * W :=
  match cb_persist cb with
  | Some f => (s.1, f s.1 s.2)
  | None => s
  end.

Definition send_rpc (peer_id : list byte) (req : RaftRequest) (s : RaftNode * W)
  : RaftNode * W :=
  match cb_send_rpc cb with
  | Some f => f peer_id req s
  | None => s
  end.

Definition become_follower (s : RaftNode * W) (term : Z) : RaftNode * W :=
  persist_state
    ({| (s.1) with state := RAFT_STATE_FOLLOWER;
                 current_term := term;
                 voted_for := zeros 37;
                 leader_id := zeros 37;
                 votes_received := 0 |}, s.2).

(** One loop over the peers that hands a request to [send_rpc] for each; the
    node is read again in every round, because the callback may have changed
    it.  [fuel] is the peer count at loop entry. *)
Fixpoint for_each_peer (fuel : nat) (i : nat)
    (mk : RaftNode -> RaftPeer -> RaftRequest) (s : RaftNode * W) : RaftNode * W :=
  match fuel with
  | O => s
  | S fuel' =>
      match peers s.1 !! i with
      | None => s
      | Some peer =>
          for_each_peer fuel' (S i) mk (send_rpc (p_node_id peer) (mk s.1 peer) s)
      end
  end.

(** [now] is the clock read inside [become_candidate]. *)
Definition become_candidate (now rnd : Z) (s : RaftNode * W) : RaftNode * W :=
  let n := s.1 in
  let n1 := {| n with
    state := RAFT_STATE_CANDIDATE;
    current_term := current_term n +64 1;
    voted_for := strncpy (voted_for n) (node_id n) 36;
    votes_received := 1;
    last_election_ms := now;
    election_timeout_ms := random_election_timeout rnd;
    elections_started := elections_started n +64 1;
    leader_id := zeros 37;
    peers := map (fun p => {| p with vote_granted := false |}) (peers n) |} in
  let s2 := persist_state (n1, s.2) in
  let req := {| rv_term := current_term s2.1;
                rv_candidate_id := strncpy (zeros 37) (node_id s2.1) 36;
                rv_last_log_index := last_log_index s2.1;
                rv_last_log_term := last_log_term s2.1 |} in
  for_each_peer (length (peers s2.1)) 0 (fun _ _ => RequestVote req) s2.

Definition raft_submit (al : Alloc) (s : RaftNode * W) (data : list byte)
  : Z * (RaftNode * W) :=
  if decide (state s.1 <> RAFT_STATE_LEADER) then (-1, s)
  else
    let n := ensure_log_capacity al s.1 in
    if log_count n >=? log_capacity n then (-2, (n, s.2))
    else
      let new_index := last_log_index n +64 1 in
      if negb (malloc_ok al) then (-2, (n, s.2))
      else
        let entry := {| e_term := current_term n; e_index := new_index;
                        e_data := data; e_type := 0 |} in
        (0, persist_state ({| n with log := log n ++ [entry] |}, s.2)).

Definition become_leader (al : Alloc) (s : RaftNode * W) : RaftNode * W :=
  let n := s.1 in
  let next_idx := last_log_index n +64 1 in
  let n1 := {| n with
    state := RAFT_STATE_LEADER;
    leader_id := strncpy (leader_id n) (node_id n) 36;
    peers := map (fun p => {| p with next_index := next_idx; match_index := 0;
                                     inflight_rpcs := 0 |}) (peers n) |} in
  let s2 := (raft_submit al (n1, s.2) [x00]).2 in
  ({| (s2.1) with last_heartbeat_ms := 0 |}, s2.2).

(** ** Periodic tick *)

Definition apply_entry (s : RaftNode * W) (e : RaftLogEntry) : RaftNode * W :=
  match cb_apply cb with
  | Some f => (s.1, f s.2 (e_data e))
  | None => s
  end.

(** The [while] loop of [apply_committed_entries]; [fuel] is the number of
    rounds the loop condition allows. *)
Fixpoint apply_loop (fuel : nat) (s : RaftNode * W) : RaftNode * W :=
  match fuel with
  | O => s
  | S fuel' =>
      if last_applied s.1 <? commit_index s.1 then
        let s1 := ({| (s.1) with last_applied := last_applied s.1 +64 1 |}, s.2) in
        match get_log_entry s1.1 (last_applied s1.1) with
        | None => s1
        | Some e => apply_loop fuel' (apply_entry s1 e)
        end
      else s
  end.

Definition apply_committed_entries (s : RaftNode * W) : RaftNode * W :=
  apply_loop (Z.to_nat (commit_index s.1 - last_applied s.1)) s.

Definition heartbeat_req (n : RaftNode) (peer : RaftPeer) : RaftRequest :=
  AppendEntries
    {| ae_term := current_term n;
       ae_leader_id := strncpy (zeros 37) (node_id n) 36;
       ae_prev_log_index := next_index peer -64 1;
       ae_prev_log_term := term_at_index n (next_index peer -64 1);
       ae_leader_commit := commit_index n;
       ae_entry_count := 0 |}.

(** The leader itself plus every peer whose [match_index] reached [idx]. *)
Definition replicas (n : RaftNode) (idx : Z) : Z :=
  foldl (fun r p => if match_index p >=? idx then r +32 1 else r) 1 (peers n).

Definition has_majority (n : RaftNode) (votes : Z) : bool :=
  votes >? (peer_count n + 1) / 2.

(** The loop [for (n = commit_index + 1; n <= last_log_index(node); n++)]. *)
Fixpoint commit_loop (fuel : nat) (idx : Z) (n : RaftNode) : RaftNode :=
  match fuel with
  | O => n
  | S fuel' =>
      if idx <=? last_log_index n then
        let n1 :=
          if negb (term_at_index n idx =? current_term n) then n
          else if has_majority n (replicas n idx) then {| n with commit_index := idx |}
          else n in
        commit_loop fuel' (idx +64 1) n1
      else n
  end.

(** The whole loop, from the first index to the last: these rounds end it whenever
    the last index is not 2^64 - 1 ([commit_loop_ends]); with that index the loop
    of the source would never end. *)
Definition advance_commit_index (n : RaftNode) : RaftNode :=
  let first := commit_index n +64 1 in
  commit_loop (Z.to_nat (last_log_index n - first + 1)) first n.

(** The heartbeats of [leader_tick]. *)
Definition leader_heartbeats (now : Z) (s : RaftNode * W) : RaftNode * W :=
  if (now -64 last_heartbeat_ms s.1) >=? RAFT_HEARTBEAT_INTERVAL_MS then
    let n1 := {| (s.1) with last_heartbeat_ms := now;
                          heartbeats_sent := heartbeats_sent s.1 +64 1 |} in
    for_each_peer (length (peers n1)) 0 heartbeat_req (n1, s.2)
  else s.

Definition leader_tick (now : Z) (s : RaftNode * W) : RaftNode * W :=
  let s1 := leader_heartbeats now s in
  (advance_commit_index s1.1, s1.2).

Definition follower_candidate_tick (now now' rnd : Z) (s : RaftNode * W) : RaftNode * W :=
  if (now -64 last_heartbeat_ms s.1) >=? election_timeout_ms s.1
  then become_candidate now' rnd s
  else s.

(** [now] is the clock read at the start of the tick, [now'] the one read by
    [become_candidate]. *)
Definition raft_tick (now now' rnd : Z) (s : RaftNode * W) : RaftNode * W :=
  apply_committed_entries
    (if decide (state s.1 = RAFT_STATE_LEADER)
     then leader_tick now s
     else follower_candidate_tick now now' rnd s).

(** ** RPC handlers *)

Definition log_up_to_date (n : RaftNode) (req : RaftRequestVoteReq) : bool :=
  (rv_last_log_term req >? last_log_term n)
  || ((rv_last_log_term req =? last_log_term n)
      && (rv_last_log_index req >=? last_log_index n)).

(** Step down if we see a higher term. *)
Definition step_down_if_newer (s : RaftNode * W) (term : Z) : RaftNode * W :=
  if term >? current_term s.1 then become_follower s term else s.

Definition raft_handle_request_vote (now : Z) (s : RaftNode * W)
    (req : RaftRequestVoteReq) : RaftRequestVoteResp * (RaftNode * W) :=
  let resp := {| rvr_term := current_term s.1; rvr_vote_granted := 0 |} in
  let s1 := step_down_if_newer s (rv_term req) in
  if rv_term req <? current_term s1.1 then (resp, s1)
  else
    let already_voted := (strlen (voted_for s1.1) >? 0)
                         && negb (streq (voted_for s1.1) (rv_candidate_id req)) in
    if already_voted then (resp, s1)
    else if negb (log_up_to_date s1.1 req) then (resp, s1)
    else
      let s2 := persist_state
        ({| (s1.1) with voted_for := strncpy (voted_for s1.1) (rv_candidate_id req) 36 |},
         s1.2) in
      ({| resp with rvr_vote_granted := 1 |},
       ({| (s2.1) with last_heartbeat_ms := now |}, s2.2)).

(** One round of the append loop: truncate at a conflict, append when the index
    is not there. *)
Definition append_one (al : Alloc) (n : RaftNode) (new_entry : RaftLogEntry)
  : outcome RaftNode :=
  let n1 :=
    match get_log_entry n (e_index new_entry) with
    | Some existing =>
        if negb (e_term existing =? e_term new_entry) then
          {| n with log := take (Z.to_nat (e_index new_entry - last_snapshot_index n - 1))
                                (log n) |}
        else n
    | None => n
    end in
  match get_log_entry n1 (e_index new_entry) with
  | Some _ => Returns n1
  | None =>
      let n2 := ensure_log_capacity al n1 in
      if log_count n2 >=? log_capacity n2 then Undefined
      else if negb (malloc_ok al) then Undefined
      else Returns {| n2 with log := log n2 ++ [new_entry] |}
  end.

(** [for (i = 0; i < entry_count; i++)]; [entries = None] is the null pointer,
    [al i] the allocations of round [i]. *)
Fixpoint append_loop (al : nat -> Alloc) (entries : option (list RaftLogEntry))
    (i : nat) (rounds : nat) (n : RaftNode) : outcome RaftNode :=
  match rounds with
  | O => Returns n
  | S rounds' =>
      match entries ≫= (fun es => es !! i) with
      | None => Undefined
      | Some new_entry =>
          match append_one (al i) n new_entry with
          | Undefined => Undefined
          | Returns n1 => append_loop al entries (S i) rounds' n1
          end
      end
  end.

Definition log_matches (n : RaftNode) (req : RaftAppendEntriesReq) : bool :=
  negb (ae_prev_log_index req >? 0)
  || (term_at_index n (ae_prev_log_index req) =? ae_prev_log_term req).

Definition update_commit (n : RaftNode) (leader_commit : Z) : RaftNode :=
  if leader_commit >? commit_index n then
    {| n with commit_index :=
         if last_log_index n <? leader_commit then last_log_index n else leader_commit |}
  else n.

(** A valid leader for this term: reset the election timer, note the leader,
    and return to follower if needed. *)
Definition accept_leader (now : Z) (s : RaftNode * W) (req : RaftAppendEntriesReq)
  : RaftNode * W :=
  let n := {| (s.1) with
    last_heartbeat_ms := now;
    heartbeats_received := heartbeats_received s.1 +64 1;
    leader_id := strncpy (leader_id s.1) (ae_leader_id req) 36 |} in
  if decide (state n <> RAFT_STATE_FOLLOWER)
  then become_follower (n, s.2) (ae_term req) else (n, s.2).

Definition raft_handle_append_entries (al : nat -> Alloc) (now : Z) (s : RaftNode * W)
    (req : RaftAppendEntriesReq) (entries : option (list RaftLogEntry)) (entry_count : Z)
  : outcome (RaftAppendEntriesResp * (RaftNode * W)) :=
  let resp := {| aer_term := current_term s.1; aer_success := 0; aer_match_index := 0 |} in
  let s1 := step_down_if_newer s (ae_term req) in
  if ae_term req <? current_term s1.1 then Returns (resp, s1)
  else
    let s3 := accept_leader now s1 req in
    if negb (log_matches s3.1 req) then
      Returns ({| resp with aer_match_index := last_snapshot_index s3.1 |}, s3)
    else
      match append_loop al entries 0 (Z.to_nat entry_count) s3.1 with
      | Undefined => Undefined
      | Returns n4 =>
          let s5 := persist_state (n4, s3.2) in
          let n6 := update_commit s5.1 (ae_leader_commit req) in
          Returns ({| resp with aer_success := 1; aer_match_index := last_log_index n6 |},
                   (n6, s5.2))
      end.

Definition raft_handle_request_vote_response (al : Alloc) (s : RaftNode * W)
    (peer_id : list byte) (resp : RaftRequestVoteResp) : RaftNode * W :=
  let n := s.1 in
  if rvr_term resp >? current_term n then become_follower s (rvr_term resp)
  else if bool_decide (state n <> RAFT_STATE_CANDIDATE) || (rvr_term resp <? current_term n)
  then s
  else
    match find_peer n peer_id with
    | None => s
    | Some (i, peer) =>
        if negb (rvr_vote_granted resp =? 0) && negb (vote_granted peer) then
          let n1 := {| n with
            peers := <[i := {| peer with vote_granted := true |}]> (peers n);
            votes_received := votes_received n +32 1 |} in
          if has_majority n1 (votes_received n1) then become_leader al (n1, s.2)
          else (n1, s.2)
        else s
    end.

Definition raft_handle_append_entries_response (s : RaftNode * W) (peer_id : list byte)
    (resp : RaftAppendEntriesResp) : RaftNode * W :=
  let n := s.1 in
  if aer_term resp >? current_term n then become_follower s (aer_term resp)
  else if bool_decide (state n <> RAFT_STATE_LEADER) || (aer_term resp <? current_term n)
  then s
  else
    match find_peer n peer_id with
    | None => s
    | Some (i, peer) =>
        let peer1 :=
          if negb (aer_success resp =? 0) then
            {| peer with match_index := aer_match_index resp;
                         next_index := aer_match_index resp +64 1 |}
          else if next_index peer >? 1 then
            {| peer with next_index := next_index peer -64 1 |}
          else peer in
        ({| n with peers := <[i := peer1]> (peers n) |}, s.2)
    end.

(** The snapshot handler only reports the term: installation is not written
    yet in the source. *)
Definition raft_handle_install_snapshot (n : RaftNode) : Z := current_term n.

End Operations.

Arguments Callbacks : clear implicits.

(** ** Query API *)

Definition raft_is_leader (n : RaftNode) : bool := bool_decide (state n = RAFT_STATE_LEADER).
Definition raft_get_leader_id (n : RaftNode) : list byte := leader_id n.
Definition raft_get_term (n : RaftNode) : Z := current_term n.
Definition raft_get_commit_index (n : RaftNode) : Z := commit_index n.
