(* ===== verification/RaftInv.v ===== *)
(** * Raft core: node invariant and functional behaviour

    Theorems about one node ([RaftCore]): the well-formedness invariant and its
    preservation by every API operation, the log-merging behaviour of the
    AppendEntries loop against a reference definition, the commit rule, and the
    order in which committed entries reach the state machine. *)

From S2P Require Import Prelude RaftCore.

(** ** Invariant *)

(** The array position of an entry and its index agree. *)
Definition log_wf (n : RaftNode) : Prop :=
  forall i e, log n !! i = Some e -> e_index e = last_snapshot_index n + 1 + Z.of_nat i.

(** Physical bound on a log: [2^62] entries of 40 bytes each do not fit in a
    64-bit address space. *)
Definition room (n : RaftNode) (k : Z) : Prop :=
  last_snapshot_index n + log_count n + k < 2 ^ 62.

Definition granted_count (n : RaftNode) : Z :=
  Z.of_nat (length (filter (fun p => vote_granted p = true) (peers n))).

Definition peer_ids (n : RaftNode) : list (list byte) :=
  map (fun p => cstr (p_node_id p)) (peers n).

Record raft_wf (n : RaftNode) : Prop := {
  wf_node_id : char_array 37 (node_id n);
  wf_voted_for : char_array 37 (voted_for n);
  wf_leader_id : char_array 37 (leader_id n);
  wf_term : is_u64 (current_term n);
  wf_log : log_wf n;
  wf_snap : 0 <= last_snapshot_index n;
  wf_room : room n 0;
  wf_cap : log_count n <= log_capacity n < 2 ^ 63;
  wf_applied : 0 <= last_applied n <= commit_index n;
  wf_commit : commit_index n <= last_log_index n;
  wf_peer_ids : NoDup (peer_ids n);
  wf_peer_arrays : Forall (fun p => char_array 37 (p_node_id p)) (peers n);
  wf_peer_count : peer_count n < 2 ^ 32 - 1;
  wf_votes : state n = RAFT_STATE_CANDIDATE -> votes_received n = 1 + granted_count n;
}.

(** ** Log access *)

Lemma log_count_nonneg (n : RaftNode) : 0 <= log_count n.
Proof. unfold log_count. lia. Qed.

Lemma last_log_index_wf (n : RaftNode) :
  log_wf n -> last_log_index n = last_snapshot_index n + log_count n.
Proof.
  intros H. unfold last_log_index, log_count.
  destruct (last (log n)) as [e|] eqn:E.
  - rewrite last_lookup in E. apply H in E as Hi.
    apply lookup_lt_Some in E. lia.
  - apply last_None in E. rewrite E. simpl. lia.
Qed.

Lemma get_log_entry_Some (n : RaftNode) (idx : Z) (e : RaftLogEntry) :
  get_log_entry n idx = Some e <->
  last_snapshot_index n < idx /\
  log n !! Z.to_nat (idx - last_snapshot_index n - 1) = Some e.
Proof.
  unfold get_log_entry, log_count. split.
  - destruct_ifs; intros; bool_to_prop; split; try done.
  - intros [H1 H2]. apply lookup_lt_Some in H2 as H3.
    destruct_ifs; bool_to_prop; try done; lia.
Qed.

Lemma get_log_entry_None (n : RaftNode) (idx : Z) :
  get_log_entry n idx = None <->
  idx <= last_snapshot_index n \/ last_snapshot_index n + log_count n < idx.
Proof.
  unfold get_log_entry, log_count. split.
  - destruct_ifs; intros; bool_to_prop; [lia|lia|].
    apply lookup_ge_None_1 in H. lia.
  - intros H. destruct_ifs; bool_to_prop; try done. lia.
Qed.

Lemma get_log_entry_index (n : RaftNode) (idx : Z) (e : RaftLogEntry) :
  log_wf n -> get_log_entry n idx = Some e -> e_index e = idx.
Proof.
  intros Hwf [Hi He]%get_log_entry_Some. apply Hwf in He. lia.
Qed.

Lemma get_log_entry_pos (n : RaftNode) (i : nat) :
  get_log_entry n (last_snapshot_index n + 1 + Z.of_nat i) = log n !! i.
Proof.
  destruct (log n !! i) as [e|] eqn:E.
  - apply get_log_entry_Some. split; [lia|].
    replace (Z.to_nat _) with i by lia. done.
  - apply get_log_entry_None. apply lookup_ge_None_1 in E. unfold log_count. lia.
Qed.

(** Node updates that do not touch the log leave log access alone. *)
Lemma get_log_entry_ext (n n' : RaftNode) (idx : Z) :
  log n' = log n -> last_snapshot_index n' = last_snapshot_index n ->
  get_log_entry n' idx = get_log_entry n idx.
Proof. intros H1 H2. unfold get_log_entry, log_count. by rewrite H1, H2. Qed.

Lemma term_at_index_ext (n n' : RaftNode) (idx : Z) :
  log n' = log n -> last_snapshot_index n' = last_snapshot_index n ->
  last_snapshot_term n' = last_snapshot_term n ->
  term_at_index n' idx = term_at_index n idx.
Proof.
  intros H1 H2 H3. unfold term_at_index. rewrite H2, H3.
  by rewrite (get_log_entry_ext n n').
Qed.

Lemma last_log_index_ext (n n' : RaftNode) :
  log n' = log n -> last_snapshot_index n' = last_snapshot_index n ->
  last_log_index n' = last_log_index n.
Proof. intros H1 H2. unfold last_log_index. by rewrite H1, H2. Qed.

(** ** Capacity *)

Lemma ensure_log_capacity_node (al : Alloc) (n : RaftNode) :
  ensure_log_capacity al n = {| n with log_capacity := log_capacity (ensure_log_capacity al n) |}.
Proof. unfold ensure_log_capacity. destruct_ifs; destruct n; done. Qed.

Lemma ensure_log_capacity_ok (al : Alloc) (n : RaftNode) :
  realloc_ok al = true -> room n 0 -> 0 <= last_snapshot_index n ->
  log_count n <= log_capacity n < 2 ^ 63 ->
  log_count n < log_capacity (ensure_log_capacity al n) < 2 ^ 63.
Proof.
  intros Hal Hroom Hsnap Hcap. unfold ensure_log_capacity, room in *. rewrite Hal.
  destruct (log_count n >=? log_capacity n) eqn:E; [|bool_to_prop; lia].
  bool_to_prop. pose proof (log_count_nonneg n).
  destruct (log_capacity n =? 0) eqn:E2; bool_to_prop; cbn.
  - lia.
  - rewrite u64_small by solve_u. lia.
Qed.

Lemma ensure_log_capacity_bounds (al : Alloc) (n : RaftNode) :
  room n 0 -> 0 <= last_snapshot_index n ->
  log_count n <= log_capacity n < 2 ^ 63 ->
  log_count n <= log_capacity (ensure_log_capacity al n) < 2 ^ 63.
Proof.
  intros Hroom Hsnap Hcap. destruct (realloc_ok al) eqn:E.
  - pose proof (ensure_log_capacity_ok al n E Hroom Hsnap Hcap). lia.
  - unfold ensure_log_capacity. rewrite E. destruct_ifs; done.
Qed.

(** ** AppendEntries: the loop against a reference definition *)

(** Reference: walk the request and the log in parallel from array position
    [pos]; at the first entry whose term differs, drop the rest of the log and
    take the rest of the request; past the end of the log, take the rest. *)
Fixpoint merge_log (base : list RaftLogEntry) (pos : nat) (es : list RaftLogEntry)
  : list RaftLogEntry :=
  match es with
  | [] => base
  | e :: es' =>
      match base !! pos with
      | Some x => if e_term x =? e_term e then merge_log base (S pos) es'
                  else take pos base ++ es
      | None => base ++ es
      end
  end.

(** The entries of a request that follow index [k]. *)
Definition contiguous (k : Z) (es : list RaftLogEntry) : Prop :=
  forall i e, es !! i = Some e -> e_index e = k + 1 + Z.of_nat i.

Lemma contiguous_nil (k : Z) : contiguous k [].
Proof. by intros i e ?. Qed.

Lemma contiguous_cons (k : Z) (e : RaftLogEntry) (es : list RaftLogEntry) :
  contiguous k (e :: es) <-> e_index e = k + 1 /\ contiguous (k + 1) es.
Proof.
  split.
  - intros H. split; [specialize (H 0%nat e eq_refl); lia|].
    intros i x Hx. specialize (H (S i) x Hx). lia.
  - intros [H1 H2] [|i] x Hx; simpl in Hx; simplify_eq; [lia|].
    apply H2 in Hx. lia.
Qed.

Lemma contiguous_log (n : RaftNode) : log_wf n <-> contiguous (last_snapshot_index n) (log n).
Proof. done. Qed.

Lemma merge_log_past (base es : list RaftLogEntry) :
  merge_log base (length base) es = base ++ es.
Proof.
  destruct es as [|e es]; simpl; [by rewrite app_nil_r|].
  by rewrite lookup_ge_None_2.
Qed.

Lemma merge_log_step (base : list RaftLogEntry) (pos : nat) (e : RaftLogEntry)
    (es : list RaftLogEntry) :
  (pos <= length base)%nat ->
  merge_log base pos (e :: es) = merge_log (merge_log base pos [e]) (S pos) es.
Proof.
  intros Hpos. simpl. destruct (base !! pos) as [x|] eqn:E.
  - destruct (e_term x =? e_term e) eqn:Et; [done|].
    apply lookup_lt_Some in E.
    replace (S pos) with (length (take pos base ++ [e]))
      by (rewrite length_app, length_take; simpl; lia).
    rewrite merge_log_past, <- app_assoc. done.
  - apply lookup_ge_None_1 in E.
    replace (S pos) with (length (base ++ [e])) by (rewrite length_app; simpl; lia).
    rewrite merge_log_past, <- app_assoc. done.
Qed.

Lemma merge_log_length (base : list RaftLogEntry) (pos : nat) (es : list RaftLogEntry) :
  (pos <= length base)%nat ->
  (pos + length es <= length (merge_log base pos es) <= length base + length es)%nat.
Proof.
  revert pos. induction es as [|e es IH]; intros pos Hpos; simpl; [lia|].
  destruct (base !! pos) as [x|] eqn:E.
  - apply lookup_lt_Some in E. destruct (e_term x =? e_term e).
    + specialize (IH (S pos)). lia.
    + rewrite length_app, length_take. simpl. lia.
  - apply lookup_ge_None_1 in E. rewrite length_app. simpl. lia.
Qed.

Lemma merge_log_contiguous (k : Z) (base : list RaftLogEntry) (pos : nat)
    (es : list RaftLogEntry) :
  (pos <= length base)%nat -> contiguous k base -> contiguous (k + Z.of_nat pos) es ->
  contiguous k (merge_log base pos es).
Proof.
  revert pos. induction es as [|e es IH]; intros pos Hpos Hb Hes; simpl; [done|].
  destruct (base !! pos) as [x|] eqn:E.
  - destruct (e_term x =? e_term e).
    + apply contiguous_cons in Hes as [_ Hes]. apply IH; [|done|].
      * apply lookup_lt_Some in E. lia.
      * by replace (k + Z.of_nat (S pos)) with (k + Z.of_nat pos + 1) by lia.
    + intros i y Hy. rewrite lookup_app in Hy.
      destruct (take pos base !! i) as [z|] eqn:Ez; simplify_eq.
      * apply lookup_take_Some in Ez as [Ez _]. by apply Hb.
      * apply lookup_ge_None_1 in Ez. rewrite length_take in *.
        apply Hes in Hy. apply lookup_lt_Some in E. lia.
  - intros i y Hy. rewrite lookup_app in Hy. apply lookup_ge_None_1 in E.
    destruct (base !! i) as [z|] eqn:Ez; simplify_eq; [by apply Hb|].
    apply lookup_ge_None_1 in Ez. apply Hes in Hy. lia.
Qed.

(** What the merge guarantees: everything before [pos] is kept, and position
    [pos + i] carries the term of the [i]-th entry of the request. *)
Lemma merge_log_prefix (base : list RaftLogEntry) (pos : nat) (es : list RaftLogEntry) :
  (pos <= length base)%nat -> take pos (merge_log base pos es) = take pos base.
Proof.
  revert pos. induction es as [|e es IH]; intros pos Hpos; simpl; [done|].
  destruct (base !! pos) as [x|] eqn:E.
  - destruct (e_term x =? e_term e).
    + apply lookup_lt_Some in E. specialize (IH (S pos) ltac:(lia)).
      apply (f_equal (take pos)) in IH. rewrite !take_take in IH.
      by rewrite Nat.min_l in IH by lia.
    + rewrite take_app_le, take_take by (rewrite length_take; lia).
      by rewrite Nat.min_id.
  - by rewrite take_app_le.
Qed.

Lemma merge_log_terms (base : list RaftLogEntry) (pos : nat) (es : list RaftLogEntry)
    (i : nat) (e : RaftLogEntry) :
  (pos <= length base)%nat -> es !! i = Some e ->
  exists x, merge_log base pos es !! (pos + i)%nat = Some x /\ e_term x = e_term e
            /\ (x = e \/ base !! (pos + i)%nat = Some x).
Proof.
  revert pos i. induction es as [|e0 es IH]; intros pos i Hpos Hi; simpl in *; [done|].
  destruct (base !! pos) as [x|] eqn:E.
  - apply lookup_lt_Some in E as Hlt. destruct (e_term x =? e_term e0) eqn:Et.
    + destruct i as [|i]; simpl in Hi; simplify_eq.
      * exists x. rewrite Nat.add_0_r. apply Z.eqb_eq in Et. split; [|by auto].
        pose proof (merge_log_prefix base (S pos) es Hlt) as Hp.
        rewrite <- (lookup_take_lt _ (S pos)), Hp, lookup_take_lt by lia. done.
      * replace (pos + S i)%nat with (S pos + i)%nat by lia. apply IH; [lia|done].
    + exists e. rewrite lookup_app_r by (rewrite length_take; lia).
      rewrite length_take. replace (_ - _)%nat with i by lia. auto.
  - apply lookup_ge_None_1 in E. exists e.
    rewrite lookup_app_r by lia. replace (_ - _)%nat with i by lia. auto.
Qed.

(** A request whose entries are all in the log changes nothing: in particular
    a stale, shorter request never truncates the log. *)
Lemma merge_log_present (base : list RaftLogEntry) (pos : nat) (es : list RaftLogEntry) :
  (forall i e, es !! i = Some e ->
     exists x, base !! (pos + i)%nat = Some x /\ e_term x = e_term e) ->
  merge_log base pos es = base.
Proof.
  revert pos. induction es as [|e es IH]; intros pos H; simpl; [done|].
  destruct (H 0%nat e eq_refl) as (x & Hx & Ht). rewrite Nat.add_0_r in Hx.
  rewrite Hx. rewrite Ht, Z.eqb_refl. apply IH. intros i e' Hi.
  replace (S pos + i)%nat with (pos + S i)%nat by lia. by apply H.
Qed.

(** What the append loop relies on and keeps. *)
Record append_ready (n : RaftNode) (k : Z) : Prop := {
  ar_log : log_wf n;
  ar_snap : 0 <= last_snapshot_index n;
  ar_room : room n k;
  ar_cap : log_count n <= log_capacity n < 2 ^ 63;
}.

(** The append after a possible truncation. *)
Lemma append_fresh_ok (al : Alloc) (n : RaftNode) (e : RaftLogEntry) :
  realloc_ok al = true -> malloc_ok al = true ->
  room n 1 -> 0 <= last_snapshot_index n -> log_count n <= log_capacity n < 2 ^ 63 ->
  exists cap,
    (let n2 := ensure_log_capacity al n in
     if log_count n2 >=? log_capacity n2 then Undefined
     else if negb (malloc_ok al) then Undefined
     else Returns {| n2 with log := log n2 ++ [e] |})
    = Returns {| n with log := log n ++ [e]; log_capacity := cap |}
    /\ Z.of_nat (length (log n ++ [e])) <= cap < 2 ^ 63.
Proof.
  intros Hr Hm Hroom Hs Hcap.
  assert (log_count n < log_capacity (ensure_log_capacity al n) < 2 ^ 63) as Hc
    by (apply ensure_log_capacity_ok; unfold room in *; try done; lia).
  exists (log_capacity (ensure_log_capacity al n)).
  rewrite (ensure_log_capacity_node al n). cbn. unfold log_count in *. cbn in *.
  rewrite Hm, length_app. simpl.
  destruct (_ >=? _) eqn:E; bool_to_prop; [lia|]. split; [done|lia].
Qed.

Lemma append_one_merge (al : Alloc) (n : RaftNode) (e : RaftLogEntry) (pos : nat) :
  realloc_ok al = true -> malloc_ok al = true ->
  append_ready n 1 -> (pos <= length (log n))%nat ->
  e_index e = last_snapshot_index n + 1 + Z.of_nat pos ->
  exists cap,
    append_one al n e
    = Returns {| n with log := merge_log (log n) pos [e]; log_capacity := cap |}
    /\ Z.of_nat (length (merge_log (log n) pos [e])) <= cap < 2 ^ 63.
Proof.
  intros Hr Hm [Hwf Hs Hroom Hcap] Hpos He. unfold append_one.
  rewrite He, get_log_entry_pos. cbn [merge_log].
  destruct (log n !! pos) as [x|] eqn:E.
  - destruct (e_term x =? e_term e) eqn:Et; cbn [negb].
    + rewrite get_log_entry_pos, E. exists (log_capacity n). split; [by destruct n|].
      unfold log_count in *. lia.
    + apply lookup_lt_Some in E.
      replace (Z.to_nat _) with pos by lia.
      set (n1 := {| n with log := take pos (log n) |}).
      assert (length (log n1) = pos) as Hlen by (cbn; rewrite length_take; lia).
      assert (get_log_entry n1 (last_snapshot_index n + 1 + Z.of_nat pos) = None) as ->
        by (apply get_log_entry_None; unfold log_count; rewrite Hlen; cbn; lia).
      apply (append_fresh_ok al n1 e); try done;
        unfold room, log_count in *; rewrite Hlen; cbn; lia.
  - rewrite get_log_entry_pos, E. by apply append_fresh_ok.
Qed.

Lemma append_loop_merge (al : nat -> Alloc) (pre es : list RaftLogEntry) (n : RaftNode)
    (pos : nat) :
  (forall i, realloc_ok (al i) = true /\ malloc_ok (al i) = true) ->
  append_ready n (Z.of_nat (length es)) -> (pos <= length (log n))%nat ->
  contiguous (last_snapshot_index n + Z.of_nat pos) es ->
  exists cap,
    append_loop al (Some (pre ++ es)) (length pre) (length es) n
    = Returns {| n with log := merge_log (log n) pos es; log_capacity := cap |}
    /\ Z.of_nat (length (merge_log (log n) pos es)) <= cap < 2 ^ 63.
Proof.
  intros Hal. revert pre n pos. induction es as [|e es IH]; intros pre n pos Hr Hpos Hes.
  - exists (log_capacity n). simpl. split; [by destruct n|]. apply (ar_cap _ _ Hr).
  - apply contiguous_cons in Hes as [He Hes]. cbn [length append_loop mbind option_bind].
    rewrite (list_lookup_middle pre es e (length pre)) by done.
    destruct (append_one_merge (al (length pre)) n e pos) as (cap & -> & Hcap);
      [apply Hal|apply Hal| |done|lia|].
    { destruct Hr as [? ? Hroom ?]. split; try done. unfold room in *. simpl in *. lia. }
    rewrite (merge_log_step (log n) pos e es) by done.
    pose proof (merge_log_length (log n) pos [e] Hpos) as Hlen. cbn [length] in Hlen.
    replace (pre ++ e :: es) with ((pre ++ [e]) ++ es) by by rewrite <- app_assoc.
    replace (S (length pre)) with (length (pre ++ [e])) by (rewrite length_app; simpl; lia).
    edestruct (IH (pre ++ [e])
      {| n with log := merge_log (log n) pos [e]; log_capacity := cap |} (S pos))
      as (cap' & Heq & Hcap'); cbn [log last_snapshot_index].
    + destruct Hr as [Hwf Hs Hroom ?]. split; cbn [log last_snapshot_index]; try done.
      * apply contiguous_log. cbn [log last_snapshot_index]. apply merge_log_contiguous; [done|done|].
        apply contiguous_cons. split; [lia|]. apply contiguous_nil.
      * unfold room, log_count in *. cbn [log last_snapshot_index length] in *. lia.
    + lia.
    + by replace (last_snapshot_index n + Z.of_nat (S pos))
        with (last_snapshot_index n + Z.of_nat pos + 1) by lia.
    + exists cap'. split; [exact Heq|exact Hcap'].
Qed.

(** Positions below [c] that do not conflict with the request survive the
    merge. *)
Lemma merge_log_keeps (base : list RaftLogEntry) (pos : nat) (es : list RaftLogEntry)
    (c : nat) :
  (c <= length base)%nat ->
  (forall i e x, es !! i = Some e -> (pos + i < c)%nat ->
     base !! (pos + i)%nat = Some x -> e_term x = e_term e) ->
  take c (merge_log base pos es) = take c base.
Proof.
  revert pos. induction es as [|e es IH]; intros pos Hc H; simpl; [done|].
  destruct (base !! pos) as [x|] eqn:E; [|by rewrite take_app_le].
  destruct (e_term x =? e_term e) eqn:Et.
  - apply IH; [done|]. intros i e' x' Hi Hlt Hx.
    apply (H (S i) e' x'); [done|lia|]. by replace (pos + S i)%nat with (S pos + i)%nat by lia.
  - bool_to_prop. assert (c <= pos)%nat.
    { destruct (decide (c <= pos)%nat) as [|Hn]; [done|]. exfalso. apply Et.
      apply (H 0%nat e x); rewrite ?Nat.add_0_r; try done. lia. }
    rewrite take_app_le by (rewrite length_take; lia).
    rewrite take_take. by rewrite Nat.min_l by lia.
Qed.

(** ** Callback-free views of the transitions *)

Section Transitions.
Context {W : Type} (cb : Callbacks W).

Lemma persist_state_node (s : RaftNode * W) : (persist_state cb s).1 = s.1.
Proof. unfold persist_state. by destruct (cb_persist cb). Qed.

Lemma become_follower_node (s : RaftNode * W) (t : Z) :
  (become_follower cb s t).1
  = {| (s.1) with state := RAFT_STATE_FOLLOWER; current_term := t; voted_for := zeros 37;
                  leader_id := zeros 37; votes_received := 0 |}.
Proof. unfold become_follower. by rewrite persist_state_node. Qed.

Lemma apply_entry_node (s : RaftNode * W) (e : RaftLogEntry) : (apply_entry cb s e).1 = s.1.
Proof. unfold apply_entry. by destruct (cb_apply cb). Qed.

(** [raft_submit] in its three outcomes. *)
Lemma raft_submit_cases (al : Alloc) (s : RaftNode * W) (data : list byte) :
  (state s.1 <> RAFT_STATE_LEADER /\ raft_submit cb al s data = (-1, s)) \/
  (state s.1 = RAFT_STATE_LEADER /\
   raft_submit cb al s data = (-2, (ensure_log_capacity al s.1, s.2))) \/
  (state s.1 = RAFT_STATE_LEADER /\
   log_count s.1 < log_capacity (ensure_log_capacity al s.1) /\
   raft_submit cb al s data =
     (0, persist_state cb
        ({| (s.1) with
            log := log s.1 ++ [{| e_term := current_term s.1;
                                  e_index := last_log_index s.1 +64 1;
                                  e_data := data; e_type := 0 |}];
            log_capacity := log_capacity (ensure_log_capacity al s.1) |}, s.2))).
Proof.
  unfold raft_submit. case_decide as Hs; [by left|right].
  assert (state s.1 = RAFT_STATE_LEADER) as Hl by (destruct (state s.1); naive_solver).
  destruct (_ >=? _) eqn:E; [left; done|].
  destruct (malloc_ok al); simpl; [right|left; done].
  bool_to_prop. rewrite (ensure_log_capacity_node al s.1) in *.
  unfold log_count, last_log_index in *. cbn in *. done.
Qed.

End Transitions.

(** What the core needs from the transport: handing a request to it keeps the
    node well formed.  A transport that queues the request
    ([AsyncTransport]) is the simplest one. *)
Class TransportWf {W : Type} (cb : Callbacks W) : Prop :=
  transport_wf : forall p req s, raft_wf s.1 -> raft_wf (send_rpc cb p req s).1.

Class AsyncTransport {W : Type} (cb : Callbacks W) : Prop :=
  transport_async : forall p req s, (send_rpc cb p req s).1 = s.1.

#[export] Instance async_transport_wf {W : Type} (cb : Callbacks W) :
  AsyncTransport cb -> TransportWf cb.
Proof. intros H p req s Hwf. by rewrite (H p req s). Qed.

(** ** Preservation of the invariant *)

(** Proves [raft_wf] of an updated node field by field; fields the update does
    not touch are closed by the hypothesis on the old node. *)
Ltac wf_update H := destruct H; constructor; cbn; try assumption; try done.

Lemma map_peer_ids (f : RaftPeer -> RaftPeer) (ps : list RaftPeer) :
  (forall p, p_node_id (f p) = p_node_id p) ->
  map (fun p => cstr (p_node_id p)) (map f ps) = map (fun p => cstr (p_node_id p)) ps.
Proof. intros H. rewrite map_map. apply map_ext. intros p. by rewrite H. Qed.

Lemma insert_peer_ids (i : nat) (p q : RaftPeer) (ps : list RaftPeer) :
  ps !! i = Some p -> p_node_id q = p_node_id p ->
  map (fun p => cstr (p_node_id p)) (<[i := q]> ps) = map (fun p => cstr (p_node_id p)) ps.
Proof.
  intros Hi Hq. apply list_eq. intros j. rewrite !list_lookup_fmap.
  destruct (decide (i = j)) as [->|Hne].
  - rewrite list_lookup_insert_eq by (by eapply lookup_lt_Some). rewrite Hi. simpl. by rewrite Hq.
  - by rewrite list_lookup_insert_ne.
Qed.

Lemma map_peer_arrays (f : RaftPeer -> RaftPeer) (ps : list RaftPeer) :
  (forall p, p_node_id (f p) = p_node_id p) ->
  Forall (fun p => char_array 37 (p_node_id p)) ps ->
  Forall (fun p => char_array 37 (p_node_id p)) (map f ps).
Proof.
  intros H Hps. apply Forall_map. eapply Forall_impl; [done|]. intros p Hp. by rewrite H.
Qed.

Lemma find_peer_Some (n : RaftNode) (id : list byte) (i : nat) (p : RaftPeer) :
  find_peer n id = Some (i, p) -> peers n !! i = Some p /\ cstr (p_node_id p) = cstr id.
Proof.
  unfold find_peer. rewrite list_find_Some. intros (H1 & H2%streq_true & _). done.
Qed.

Lemma find_peer_None (n : RaftNode) (id : list byte) :
  find_peer n id = None -> cstr id ∉ peer_ids n.
Proof.
  unfold find_peer, peer_ids. rewrite list_find_None. intros H Hin.
  apply list_elem_of_fmap in Hin as (p & Hp & Hin).
  rewrite Forall_forall in H. specialize (H p Hin). apply H.
  by apply streq_true.
Qed.

Lemma wf_become_follower {W : Type} (cb : Callbacks W) (s : RaftNode * W) (t : Z) :
  raft_wf s.1 -> is_u64 t -> raft_wf (become_follower cb s t).1.
Proof.
  intros H Ht. rewrite become_follower_node. wf_update H; auto with droole.
Qed.

Lemma wf_for_each_peer {W : Type} (cb : Callbacks W) `{!TransportWf cb}
    (mk : RaftNode -> RaftPeer -> RaftRequest) (fuel i : nat) (s : RaftNode * W) :
  raft_wf s.1 -> raft_wf (for_each_peer cb fuel i mk s).1.
Proof.
  revert i s. induction fuel as [|fuel IH]; intros i s H; simpl; [done|].
  destruct (peers s.1 !! i); [|done]. apply IH. by apply transport_wf.
Qed.

Lemma granted_reset (ps : list RaftPeer) :
  filter (fun p => vote_granted p = true)
    (map (fun p => {| p with vote_granted := false |}) ps) = [].
Proof. induction ps as [|p ps IH]; [done|]. cbn. rewrite decide_False by done. exact IH. Qed.

(** Marking one more peer raises the number of granted votes by one. *)
Lemma granted_insert (ps : list RaftPeer) (i : nat) (p : RaftPeer) :
  ps !! i = Some p -> vote_granted p = false ->
  length (filter (fun p => vote_granted p = true)
            (<[i := {| p with vote_granted := true |}]> ps))
  = S (length (filter (fun p => vote_granted p = true) ps)).
Proof.
  intros Hp Hng. revert i Hp.
  induction ps as [|q ps IH]; intros i Hp; [done|].
  destruct i as [|i]; simpl in Hp; simplify_eq; simpl.
  - rewrite filter_cons_False by (intros ?; congruence). done.
  - rewrite !filter_cons. specialize (IH i Hp).
    case_decide; simpl; congruence.
Qed.

Lemma granted_le (n : RaftNode) : granted_count n <= peer_count n.
Proof.
  unfold granted_count, peer_count.
  pose proof (length_filter (fun p => vote_granted p = true) (peers n)). lia.
Qed.

Lemma wf_become_candidate {W : Type} (cb : Callbacks W) `{!TransportWf cb}
    (now rnd : Z) (s : RaftNode * W) :
  raft_wf s.1 -> current_term s.1 < 2 ^ 64 - 1 ->
  raft_wf (become_candidate cb now rnd s).1.
Proof.
  intros H Ht. unfold become_candidate. apply wf_for_each_peer; [done|].
  rewrite persist_state_node. cbn. wf_update H.
  - auto with droole.
  - auto with droole.
  - unfold peer_ids. cbn. by rewrite map_peer_ids.
  - by apply map_peer_arrays.
  - unfold peer_count in *. cbn. by rewrite length_map.
  - intros _. unfold granted_count. cbn. by rewrite granted_reset.
Qed.

(** Appending the next entry at the end of the log. *)
Lemma wf_append (n : RaftNode) (e : RaftLogEntry) (cap : Z) :
  raft_wf n -> room n 1 -> e_index e = last_log_index n + 1 ->
  log_count n < cap < 2 ^ 63 ->
  raft_wf {| n with log := log n ++ [e]; log_capacity := cap |}.
Proof.
  intros H Hroom He Hcap. pose proof (last_log_index_wf n (wf_log n H)) as Hlast.
  assert (log_wf {| n with log := log n ++ [e]; log_capacity := cap |}) as Hwf.
  { intros i x Hx. cbn in *. apply lookup_app_Some in Hx as [Hx|[Hi Hx]].
    - by apply (wf_log n H).
    - apply list_lookup_singleton_Some in Hx as [Hx <-]. unfold log_count in *. lia. }
  wf_update H; unfold room, log_count in *; cbn; rewrite ?length_app; simpl; try lia.
  rewrite last_log_index_wf by done. unfold log_count. cbn. rewrite length_app. simpl. lia.
Qed.

Lemma wf_capacity (al : Alloc) (n : RaftNode) : raft_wf n -> raft_wf (ensure_log_capacity al n).
Proof.
  intros H. pose proof (ensure_log_capacity_bounds al n (wf_room n H) (wf_snap n H) (wf_cap n H)).
  rewrite ensure_log_capacity_node. by wf_update H.
Qed.

Lemma wf_submit {W : Type} (cb : Callbacks W) (al : Alloc) (s : RaftNode * W)
    (data : list byte) :
  raft_wf s.1 -> room s.1 1 -> raft_wf (raft_submit cb al s data).2.1.
Proof.
  intros H Hroom.
  destruct (raft_submit_cases cb al s data) as [[_ ->]|[[_ ->]|(_ & Hc & ->)]]; cbn.
  - done.
  - by apply wf_capacity.
  - rewrite persist_state_node. cbn. apply wf_append; [done|done| |].
    + cbn. pose proof (last_log_index_wf _ (wf_log _ H)). unfold room in Hroom.
      pose proof (wf_snap _ H). pose proof (log_count_nonneg s.1).
      rewrite u64_small; [done|solve_u].
    + split; [done|].
      apply ensure_log_capacity_bounds; [apply wf_room|apply wf_snap|apply wf_cap]; done.
Qed.

Lemma wf_become_leader {W : Type} (cb : Callbacks W) (al : Alloc) (s : RaftNode * W) :
  raft_wf s.1 -> room s.1 1 -> raft_wf (become_leader cb al s).1.
Proof.
  intros H Hroom. unfold become_leader. cbn [fst].
  set (n1 := {| (s.1) with state := RAFT_STATE_LEADER;
    leader_id := strncpy (leader_id s.1) (node_id s.1) 36;
    peers := map (fun p => {| p with next_index := last_log_index s.1 +64 1;
                                     match_index := 0; inflight_rpcs := 0 |}) (peers s.1) |}).
  assert (raft_wf n1) as H1.
  { wf_update H.
    - auto with droole.
    - unfold peer_ids. cbn. by rewrite map_peer_ids.
    - by apply map_peer_arrays.
    - unfold peer_count in *. cbn. by rewrite length_map. }
  pose proof (wf_submit cb al (n1, s.2) [x00] H1 Hroom) as H2. wf_update H2.
Qed.

(** ** Applying committed entries *)

Lemma apply_loop_fields {W : Type} (cb : Callbacks W) (fuel : nat) (s : RaftNode * W) :
  raft_wf s.1 -> (Z.of_nat fuel <= commit_index s.1 - last_applied s.1) ->
  exists a, last_applied s.1 <= a <= commit_index s.1 /\
  (apply_loop cb fuel s).1 = {| (s.1) with last_applied := a |}.
Proof.
  revert s. induction fuel as [|fuel IH]; intros s H Hf; simpl.
  - pose proof (wf_applied _ H). exists (last_applied s.1). split; [lia|by destruct s as [[] ?]].
  - pose proof (wf_applied _ H) as Ha. pose proof (wf_commit _ H) as Hc.
    pose proof (last_log_index_wf _ (wf_log _ H)) as Hl. pose proof (wf_room _ H) as Hr.
    unfold room in Hr. destruct (_ <? _) eqn:E; bool_to_prop.
    2:{ exists (last_applied s.1). split; [lia|by destruct s as [[] ?]]. }
    rewrite u64_small by solve_u. destruct (get_log_entry _ _) as [e|].
    + destruct (IH (apply_entry cb ({| (s.1) with last_applied := last_applied s.1 + 1 |}, s.2) e))
        as (a & Ha' & Heq); rewrite apply_entry_node in *; cbn in *.
      * wf_update H. lia.
      * lia.
      * exists a. split; [lia|exact Heq].
    + exists (last_applied s.1 + 1). split; [lia|done].
Qed.

Lemma wf_apply {W : Type} (cb : Callbacks W) (s : RaftNode * W) :
  raft_wf s.1 -> raft_wf (apply_committed_entries cb s).1.
Proof.
  intros H. pose proof (wf_applied _ H).
  destruct (apply_loop_fields cb (Z.to_nat (commit_index s.1 - last_applied s.1)) s H)
    as (a & Ha & Heq); [lia|].
  unfold apply_committed_entries. rewrite Heq. wf_update H. lia.
Qed.

(** The entries with indices in [(from, to]]. *)
Definition log_slice (n : RaftNode) (from to : Z) : list RaftLogEntry :=
  take (Z.to_nat (to - from)) (drop (Z.to_nat (from - last_snapshot_index n)) (log n)).

Lemma apply_loop_slice {W : Type} (cb : Callbacks W) (f : W -> list byte -> W) (fuel : nat)
    (s : RaftNode * W) :
  cb_apply cb = Some f -> raft_wf s.1 -> last_snapshot_index s.1 <= last_applied s.1 ->
  Z.of_nat fuel <= commit_index s.1 - last_applied s.1 ->
  apply_loop cb fuel s =
    ({| (s.1) with last_applied := last_applied s.1 + Z.of_nat fuel |},
     foldl f s.2 (map e_data (log_slice s.1 (last_applied s.1)
                                (last_applied s.1 + Z.of_nat fuel)))).
Proof.
  intros Hcb. revert s. induction fuel as [|fuel IH]; intros [n w] H Hs Hf; cbn [fst snd] in *.
  - unfold log_slice. replace (Z.to_nat _) with 0%nat by lia. simpl.
    rewrite Z.add_0_r. by destruct n.
  - pose proof (wf_applied _ H) as Ha. pose proof (wf_commit _ H) as Hc.
    pose proof (last_log_index_wf _ (wf_log _ H)) as Hl. pose proof (wf_room _ H) as Hr.
    unfold room, log_count in *. cbn [apply_loop fst snd].
    destruct (_ <? _) eqn:E; bool_to_prop; [|lia].
    rewrite u64_small by solve_u. cbn [last_applied]. set (a := last_applied n) in *.
    destruct (log n !! Z.to_nat (a - last_snapshot_index n)) as [e|] eqn:He.
    2:{ apply lookup_ge_None_1 in He. lia. }
    assert (get_log_entry {| n with last_applied := a + 1 |} (a + 1) = Some e) as ->.
    { apply get_log_entry_Some. cbn. split; [lia|].
      by replace (a + 1 - _ - 1) with (a - last_snapshot_index n) by lia. }
    unfold apply_entry at 1. rewrite Hcb. rewrite IH; cbn; [| |lia|lia].
    + f_equal; [f_equal; lia|]. unfold log_slice. cbn.
      replace (Z.to_nat (a + Z.of_nat (S fuel) - a)) with (S fuel) by lia.
      replace (Z.to_nat (a + 1 + Z.of_nat fuel - (a + 1))) with fuel by lia.
      rewrite (drop_S (log n) e (Z.to_nat (a - last_snapshot_index n))) by done. cbn.
      by replace (Z.to_nat (a + 1 - last_snapshot_index n))
        with (S (Z.to_nat (a - last_snapshot_index n))) by lia.
    + wf_update H. lia.
Qed.

(** ** The commit rule *)

(** Index [idx] may be committed: it was created in the current term and a
    majority of the cluster (the leader included) stores it. *)
Definition committable (n : RaftNode) (idx : Z) : bool :=
  (term_at_index n idx =? current_term n) && has_majority n (replicas n idx).

Lemma commit_loop_unfold (fuel : nat) (idx : Z) (n : RaftNode) :
  idx <= last_log_index n ->
  commit_loop (S fuel) idx n
  = commit_loop fuel (idx +64 1)
      (if committable n idx then {| n with commit_index := idx |} else n).
Proof.
  intros H. cbn [commit_loop]. rewrite (proj2 (Z.leb_le _ _)) by done.
  unfold committable. by destruct (term_at_index n idx =? _), (has_majority _ _).
Qed.

Lemma commit_loop_spec (fuel : nat) (idx : Z) (n : RaftNode) :
  0 <= idx -> idx + Z.of_nat fuel <= last_log_index n + 1 < 2 ^ 64 ->
  exists c, commit_loop fuel idx n = {| n with commit_index := c |} /\
    (c = commit_index n \/ idx <= c < idx + Z.of_nat fuel /\ committable n c = true) /\
    (forall j, idx <= j < idx + Z.of_nat fuel -> committable n j = true -> idx <= c /\ j <= c).
Proof.
  revert idx n. induction fuel as [|fuel IH]; intros idx n H0 Hl.
  - exists (commit_index n). split; [by destruct n|]. split; [by left|]. lia.
  - rewrite commit_loop_unfold by lia. rewrite u64_small by solve_u.
    set (n1 := if committable n idx then _ else _).
    assert (exists c1, n1 = {| n with commit_index := c1 |} /\
      (c1 = commit_index n /\ committable n idx = false \/
       c1 = idx /\ committable n idx = true)) as (c1 & Hn1 & Hc1).
    { unfold n1. destruct (committable n idx); eauto.
      exists (commit_index n). split; [by destruct n|auto]. }
    clearbody n1. subst n1.
    destruct (IH (idx + 1) {| n with commit_index := c1 |}) as (c & Heq & Hc & Hmax);
      [lia|change (last_log_index {| n with commit_index := c1 |}) with (last_log_index n); lia|].
    cbn [commit_index] in Hc.
    exists c. split; [exact Heq|]. split.
    + destruct Hc as [->|[Hr Hm]].
      * destruct Hc1 as [[-> ?]|[-> ?]]; [by left|right; split; [lia|done]].
      * right. split; [lia|exact Hm].
    + intros j Hj Hcj. destruct (decide (j = idx)) as [->|Hne].
      * destruct Hc1 as [[_ Hf]|[-> _]]; [congruence|].
        destruct Hc as [->|[Hr _]]; lia.
      * destruct (Hmax j) as [? ?]; [lia|exact Hcj|lia].
Qed.

(** The rounds [advance_commit_index] allows are enough: more of them change
    nothing, whatever the node, unless its last index is the largest of its type. *)
Lemma commit_loop_ends (n : RaftNode) (fuel : nat) :
  is_u64 (last_log_index n) -> last_log_index n < 2 ^ 64 - 1 ->
  let first := commit_index n +64 1 in
  (Z.to_nat (last_log_index n - first + 1) <= fuel)%nat ->
  commit_loop fuel first n = advance_commit_index n.
Proof.
  intros Hl Hlt first Hf. unfold advance_commit_index. fold first. cbn zeta.
  assert (is_u64 first) as Hu by (unfold first; auto with droole). clearbody first.
  remember (Z.to_nat (last_log_index n - first + 1)) as k eqn:Hk.
  revert fuel first n Hl Hlt Hf Hu Hk. induction k as [|k IH]; intros fuel first n Hl Hlt Hf Hu Hk.
  - destruct fuel as [|fuel]; cbn [commit_loop]; [done|].
    by rewrite (proj2 (Z.leb_gt _ _)) by lia.
  - destruct fuel as [|fuel]; [lia|]. rewrite !commit_loop_unfold by lia.
    rewrite u64_small by solve_u. set (n1 := if committable n first then _ else _).
    assert (last_log_index n1 = last_log_index n) as Hn1 by (unfold n1; by destruct (committable _ _)).
    apply IH; rewrite ?Hn1; try done; [lia|solve_u|lia].
Qed.

Lemma replicas_count_aux (idx : Z) (ps : list RaftPeer) (r : Z) :
  0 <= r -> r + Z.of_nat (length ps) < 2 ^ 32 ->
  foldl (fun r p => if match_index p >=? idx then r +32 1 else r) r ps
  = r + Z.of_nat (length (filter (fun p => idx <= match_index p) ps)).
Proof.
  revert r. induction ps as [|p ps IH]; intros r H0 H; simpl in *; [lia|].
  destruct (_ >=? _) eqn:E; bool_to_prop.
  - rewrite u32_small by solve_u. rewrite IH by lia. rewrite filter_cons_True by done. simpl. lia.
  - rewrite IH by lia. rewrite filter_cons_False by lia. lia.
Qed.

(** [replicas] is the leader plus the number of peers that store [idx]. *)
Lemma replicas_count (n : RaftNode) (idx : Z) :
  peer_count n < 2 ^ 32 - 1 ->
  replicas n idx = 1 + Z.of_nat (length (filter (fun p => idx <= match_index p) (peers n))).
Proof. intros H. apply replicas_count_aux; unfold peer_count in *; lia. Qed.

Lemma advance_commit_spec (n : RaftNode) :
  raft_wf n ->
  exists c, advance_commit_index n = {| n with commit_index := c |} /\
    commit_index n <= c <= last_log_index n /\
    (c <> commit_index n -> committable n c = true) /\
    (forall j, commit_index n < j <= last_log_index n -> committable n j = true -> j <= c).
Proof.
  intros H. pose proof (wf_applied _ H). pose proof (wf_commit _ H).
  pose proof (last_log_index_wf _ (wf_log _ H)) as Hl. pose proof (wf_room _ H) as Hr.
  unfold room in Hr. unfold advance_commit_index. cbn zeta. rewrite u64_small by solve_u.
  destruct (commit_loop_spec (Z.to_nat (last_log_index n - (commit_index n + 1) + 1))
              (commit_index n + 1) n) as (c & Heq & Hc & Hmax); [lia|lia|].
  exists c. split; [exact Heq|]. split; [|split].
  - destruct Hc as [->|[Hc _]]; lia.
  - intros Hne. destruct Hc as [->|[_ Hc]]; done.
  - intros j Hj Hcj. apply Hmax; [lia|done].
Qed.

Lemma wf_advance_commit (n : RaftNode) : raft_wf n -> raft_wf (advance_commit_index n).
Proof.
  intros H. destruct (advance_commit_spec n H) as (c & -> & Hc & _).
  wf_update H; [lia|]. change (c <= last_log_index n). lia.
Qed.

Lemma wf_tick {W : Type} (cb : Callbacks W) `{!TransportWf cb} (now now' rnd : Z)
    (s : RaftNode * W) :
  raft_wf s.1 -> current_term s.1 < 2 ^ 64 - 1 -> raft_wf (raft_tick cb now now' rnd s).1.
Proof.
  intros H Ht. unfold raft_tick. apply wf_apply. case_decide.
  - unfold leader_tick, leader_heartbeats. cbn [fst]. apply wf_advance_commit.
    destruct (_ >=? _); [|done]. apply wf_for_each_peer; [done|]. by wf_update H.
  - unfold follower_candidate_tick. destruct (_ >=? _); [|done]. by apply wf_become_candidate.
Qed.

(** ** The RPC handlers *)

Section Handlers.
Context {W : Type} (cb : Callbacks W).
Implicit Types s : RaftNode * W.

Lemma wf_step_down s (t : Z) :
  raft_wf s.1 -> is_u64 t -> raft_wf (step_down_if_newer cb s t).1.
Proof.
  intros H Ht. unfold step_down_if_newer. destruct (_ >? _); [|done].
  by apply wf_become_follower.
Qed.

(** After [step_down_if_newer] the node's term is the larger of the two. *)
Lemma step_down_term s (t : Z) :
  current_term (step_down_if_newer cb s t).1 = Z.max t (current_term s.1).
Proof.
  unfold step_down_if_newer. destruct (_ >? _) eqn:E; bool_to_prop; [|lia].
  rewrite become_follower_node. cbn. lia.
Qed.

Lemma step_down_stale s (t : Z) :
  t <= current_term s.1 -> step_down_if_newer cb s t = s.
Proof.
  intros H. unfold step_down_if_newer. destruct (_ >? _) eqn:E; bool_to_prop; [lia|done].
Qed.

(** Neither stepping down nor accepting a leader touches the log, the snapshot
    position, the commit position or the peers. *)
Definition same_log (n n' : RaftNode) : Prop :=
  log n' = log n /\ log_capacity n' = log_capacity n /\
  last_snapshot_index n' = last_snapshot_index n /\
  last_snapshot_term n' = last_snapshot_term n /\
  commit_index n' = commit_index n /\ last_applied n' = last_applied n /\
  peers n' = peers n /\ node_id n' = node_id n.

#[local] Instance same_log_preorder : PreOrder same_log.
Proof. split; unfold same_log; [done|]. intros x y z H1 H2. destruct_and!. split_and!; congruence. Qed.

Lemma same_log_step_down s (t : Z) : same_log s.1 (step_down_if_newer cb s t).1.
Proof.
  unfold step_down_if_newer. destruct (_ >? _); [|reflexivity].
  rewrite become_follower_node. by split_and!.
Qed.

Lemma same_log_accept_leader (now : Z) s (req : RaftAppendEntriesReq) :
  same_log s.1 (accept_leader cb now s req).1.
Proof.
  unfold accept_leader. case_decide; [rewrite become_follower_node|]; by split_and!.
Qed.

Lemma wf_accept_leader (now : Z) s (req : RaftAppendEntriesReq) :
  raft_wf s.1 -> is_u64 (ae_term req) -> raft_wf (accept_leader cb now s req).1.
Proof.
  intros H Ht.
  assert (raft_wf {| (s.1) with last_heartbeat_ms := now;
    heartbeats_received := heartbeats_received s.1 +64 1;
    leader_id := strncpy (leader_id s.1) (ae_leader_id req) 36 |})
    by (wf_update H; auto with droole).
  unfold accept_leader. case_decide; [by apply wf_become_follower|done].
Qed.

Lemma accept_leader_role (now : Z) s (req : RaftAppendEntriesReq) :
  state (accept_leader cb now s req).1 = RAFT_STATE_FOLLOWER.
Proof.
  unfold accept_leader. case_decide as E; [by rewrite become_follower_node|].
  cbn in *. by destruct (state s.1); naive_solver.
Qed.

Lemma accept_leader_term (now : Z) s (req : RaftAppendEntriesReq) :
  current_term s.1 = ae_term req ->
  current_term (accept_leader cb now s req).1 = ae_term req.
Proof.
  intros H. unfold accept_leader. case_decide; [by rewrite become_follower_node|done].
Qed.

Lemma log_matches_ext (n n' : RaftNode) (req : RaftAppendEntriesReq) :
  same_log n n' -> log_matches n' req = log_matches n req.
Proof.
  intros (H1 & _ & H2 & H3 & _). unfold log_matches. by rewrite (term_at_index_ext n n').
Qed.

(** Handling a vote request keeps the invariant. *)
Lemma wf_request_vote (now : Z) s (req : RaftRequestVoteReq) :
  raft_wf s.1 -> is_u64 (rv_term req) ->
  raft_wf (raft_handle_request_vote cb now s req).2.1.
Proof.
  intros H Ht. pose proof (wf_step_down s (rv_term req) H Ht) as H1.
  unfold raft_handle_request_vote. destruct_ifs; try done.
  cbn. rewrite persist_state_node. cbn. wf_update H1; auto with droole.
Qed.

Lemma wf_vote_response (al : Alloc) s (id : list byte) (resp : RaftRequestVoteResp) :
  raft_wf s.1 -> room s.1 1 -> is_u64 (rvr_term resp) ->
  raft_wf (raft_handle_request_vote_response cb al s id resp).1.
Proof.
  intros H Hroom Ht. unfold raft_handle_request_vote_response.
  destruct (_ >? _); [by apply wf_become_follower|].
  destruct (_ || _) eqn:Est; [done|].
  apply orb_false_iff in Est as [Hc%bool_decide_eq_false%dec_stable _].
  destruct (find_peer s.1 id) as [[i p]|] eqn:Ef; [|done].
  destruct (_ && _) eqn:Eg; [|done]. apply find_peer_Some in Ef as [Hp _].
  apply andb_true_iff in Eg as [_ Hng%negb_true_iff].
  set (n1 := {| (s.1) with peers := _; votes_received := _ |}).
  assert (raft_wf n1) as H1.
  { pose proof (granted_insert (peers s.1) i p Hp Hng) as Hcount.
    pose proof (granted_le n1) as Hle.
    pose proof (wf_votes _ H Hc) as Hv. pose proof (wf_peer_count _ H).
    wf_update H.
    - unfold peer_ids. cbn. by erewrite insert_peer_ids.
    - by apply Forall_insert; [|apply (Forall_lookup_1 _ _ _ _ wf_peer_arrays0 Hp)].
    - unfold peer_count in *. cbn. by rewrite length_insert.
    - intros _. unfold granted_count, peer_count in *. cbn in *.
      rewrite Hcount, length_insert in Hle. rewrite Hcount, Hv.
      rewrite u32_small by solve_u. lia. }
  destruct (has_majority _ _); [by apply wf_become_leader|done].
Qed.

Lemma wf_append_response s (id : list byte) (resp : RaftAppendEntriesResp) :
  raft_wf s.1 -> is_u64 (aer_term resp) ->
  raft_wf (raft_handle_append_entries_response cb s id resp).1.
Proof.
  intros H Ht. unfold raft_handle_append_entries_response.
  destruct (_ >? _); [by apply wf_become_follower|].
  destruct (_ || _) eqn:Est; [done|].
  apply orb_false_iff in Est as [Hc%bool_decide_eq_false%dec_stable _].
  destruct (find_peer s.1 id) as [[i p]|] eqn:Ef; [|done].
  apply find_peer_Some in Ef as [Hp _]. cbn.
  set (q := if negb _ then _ else _).
  assert (p_node_id q = p_node_id p) as Hq by (unfold q; destruct_ifs; done).
  wf_update H.
  - unfold peer_ids. cbn. by erewrite insert_peer_ids.
  - apply Forall_insert; [done|]. rewrite Hq. exact (Forall_lookup_1 _ _ _ _ wf_peer_arrays0 Hp).
  - unfold peer_count in *. cbn. by rewrite length_insert.
  - intros Hcand. congruence.
Qed.

End Handlers.

(** ** AppendEntries *)

(** The array a request points to holds [es] (a heartbeat passes NULL). *)
Definition points_to (ptr : option (list RaftLogEntry)) (es : list RaftLogEntry) : Prop :=
  es = [] \/ ptr = Some es.

(** A request the node accepts: not stale, the previous entry is there and has
    the right term, the entries follow it without a gap. *)
Record ae_accepted (n : RaftNode) (req : RaftAppendEntriesReq) (es : list RaftLogEntry)
  : Prop := {
  aa_term : current_term n <= ae_term req < 2 ^ 64;
  aa_prev : last_snapshot_index n <= ae_prev_log_index req <= last_log_index n;
  aa_match : log_matches n req = true;
  aa_entries : contiguous (ae_prev_log_index req) es;
  aa_room : room n (Z.of_nat (length es));
}.

(** No entry of the request contradicts an entry the node has committed. *)
Definition respects_committed (n : RaftNode) (es : list RaftLogEntry) : Prop :=
  forall e x, e ∈ es -> e_index e <= commit_index n ->
    get_log_entry n (e_index e) = Some x -> e_term x = e_term e.

Definition alloc_succeeds (al : nat -> Alloc) : Prop :=
  forall i, realloc_ok (al i) = true /\ malloc_ok (al i) = true.

Definition prev_pos (n : RaftNode) (req : RaftAppendEntriesReq) : nat :=
  Z.to_nat (ae_prev_log_index req - last_snapshot_index n).

Lemma append_loop_points_to (al : nat -> Alloc) (ptr : option (list RaftLogEntry))
    (es : list RaftLogEntry) (n : RaftNode) (pos : nat) :
  points_to ptr es -> alloc_succeeds al ->
  append_ready n (Z.of_nat (length es)) -> (pos <= length (log n))%nat ->
  contiguous (last_snapshot_index n + Z.of_nat pos) es ->
  exists cap,
    append_loop al ptr 0 (length es) n
    = Returns {| n with log := merge_log (log n) pos es; log_capacity := cap |}
    /\ Z.of_nat (length (merge_log (log n) pos es)) <= cap < 2 ^ 63.
Proof.
  intros [->| ->] Hal Hr Hpos Hes.
  - exists (log_capacity n). split; [by destruct n|]. apply (ar_cap _ _ Hr).
  - by apply (append_loop_merge al [] es n pos).
Qed.

Lemma wf_append_ready (n : RaftNode) (k : Z) : raft_wf n -> room n k -> append_ready n k.
Proof. intros [] H. by constructor. Qed.

Lemma update_commit_node (n : RaftNode) (lc : Z) :
  update_commit n lc = {| n with commit_index := commit_index (update_commit n lc) |}.
Proof. unfold update_commit. destruct (_ >? _); by destruct n. Qed.

Section AppendEntries.
Context {W : Type} (cb : Callbacks W) (al : nat -> Alloc) (now : Z).
Context (s : RaftNode * W) (req : RaftAppendEntriesReq).
Context (ptr : option (list RaftLogEntry)) (es : list RaftLogEntry).

(** The state in which the append loop starts. *)
Definition ae_start : RaftNode * W :=
  accept_leader cb now (step_down_if_newer cb s (ae_term req)) req.

Lemma ae_start_same_log : same_log s.1 ae_start.1.
Proof.
  unfold ae_start.
  pose proof (same_log_step_down cb s (ae_term req)) as H1.
  pose proof (same_log_accept_leader cb now (step_down_if_newer cb s (ae_term req)) req) as H2.
  unfold same_log in *. destruct_and!. split_and!; congruence.
Qed.

(** The node after the append loop and the commit update. *)
Definition ae_result (cap : Z) : RaftNode :=
  update_commit {| (ae_start.1) with
                   log := merge_log (log s.1) (prev_pos s.1 req) es;
                   log_capacity := cap |} (ae_leader_commit req).

Lemma append_entries_result :
  raft_wf s.1 -> points_to ptr es -> alloc_succeeds al -> ae_accepted s.1 req es ->
  exists cap w,
    raft_handle_append_entries cb al now s req ptr (Z.of_nat (length es))
    = Returns ({| aer_term := current_term s.1; aer_success := 1;
                  aer_match_index := last_log_index (ae_result cap) |}, (ae_result cap, w))
    /\ Z.of_nat (length (merge_log (log s.1) (prev_pos s.1 req) es)) <= cap < 2 ^ 63.
Proof.
  intros H Hptr Hal [Ht Hprev Hm Hes Hroom].
  pose proof ae_start_same_log as Hsame.
  pose proof (last_log_index_wf _ (wf_log _ H)) as Hlast.
  assert (raft_wf ae_start.1) as H3.
  { apply wf_accept_leader; [apply wf_step_down; [done|]|]; pose proof (wf_term _ H); solve_u. }
  unfold raft_handle_append_entries. fold ae_start.
  rewrite step_down_term. rewrite (proj2 (Z.ltb_ge _ _)) by lia.
  rewrite (log_matches_ext _ _ req Hsame), Hm. cbn [negb].
  destruct Hsame as (Hlog & Hcap & Hsnap & Hst & Hci & Hla & Hps & Hid).
  destruct (append_loop_points_to al ptr es ae_start.1 (prev_pos s.1 req))
    as (cap & Heq & Hc); try done.
  - apply wf_append_ready; [done|]. unfold room, log_count in *. by rewrite Hlog, Hsnap.
  - rewrite Hlog. unfold prev_pos, log_count in *. lia.
  - rewrite Hsnap. unfold prev_pos. by replace (_ + _) with (ae_prev_log_index req) by lia.
  - rewrite Nat2Z.id, Heq. cbn iota beta. rewrite persist_state_node. cbn [fst].
    unfold ae_result. rewrite Hlog in *. exists cap. eexists. split; [reflexivity|done].
Qed.

(** The log of the result, position by position. *)
Lemma ae_result_log (cap : Z) : log (ae_result cap) = merge_log (log s.1) (prev_pos s.1 req) es.
Proof. unfold ae_result. by rewrite update_commit_node. Qed.

Lemma ae_result_snap (cap : Z) :
  last_snapshot_index (ae_result cap) = last_snapshot_index s.1.
Proof.
  destruct ae_start_same_log as (_ & _ & <- & _).
  unfold ae_result. by rewrite update_commit_node.
Qed.

Lemma ae_result_commit (cap : Z) :
  commit_index (ae_result cap)
  = if ae_leader_commit req >? commit_index s.1
    then Z.min (ae_leader_commit req) (last_log_index (ae_result cap))
    else commit_index s.1.
Proof.
  destruct ae_start_same_log as (_ & _ & _ & _ & Hc & _).
  unfold ae_result, update_commit. cbn [commit_index]. rewrite Hc.
  destruct (ae_leader_commit req >? commit_index s.1) eqn:E; [|done].
  unfold last_log_index. cbn [log last_snapshot_index commit_index].
  destruct (_ <? _) eqn:E2; bool_to_prop; lia.
Qed.

Lemma prev_pos_le : raft_wf s.1 -> ae_accepted s.1 req es -> (prev_pos s.1 req <= length (log s.1))%nat.
Proof.
  intros H [_ Hprev _ _ _]. rewrite (last_log_index_wf _ (wf_log _ H)) in Hprev.
  unfold prev_pos, log_count in *. lia.
Qed.

Lemma ae_result_contiguous :
  raft_wf s.1 -> ae_accepted s.1 req es ->
  contiguous (last_snapshot_index s.1) (merge_log (log s.1) (prev_pos s.1 req) es).
Proof.
  intros H Ha. apply merge_log_contiguous; [by apply prev_pos_le|apply (wf_log _ H)|].
  destruct Ha as [_ Hprev _ Hes _]. unfold prev_pos.
  by replace (_ + _) with (ae_prev_log_index req) by lia.
Qed.

Lemma ae_result_committed :
  raft_wf s.1 -> ae_accepted s.1 req es -> respects_committed s.1 es ->
  take (Z.to_nat (commit_index s.1 - last_snapshot_index s.1))
       (merge_log (log s.1) (prev_pos s.1 req) es)
  = take (Z.to_nat (commit_index s.1 - last_snapshot_index s.1)) (log s.1).
Proof.
  intros H Ha Hrc. pose proof (wf_commit _ H) as Hc.
  rewrite (last_log_index_wf _ (wf_log _ H)) in Hc. unfold log_count in Hc.
  destruct Ha as [_ Hprev _ Hes _].
  apply merge_log_keeps; [lia|]. intros i e x He Hlt Hx.
  apply Hes in He as Hi. apply (Hrc e x).
  - by eapply list_elem_of_lookup_2.
  - unfold prev_pos in *. lia.
  - rewrite <- Hx, <- get_log_entry_pos. f_equal. unfold prev_pos. lia.
Qed.

Lemma wf_append_entries (cap : Z) :
  raft_wf s.1 -> ae_accepted s.1 req es -> respects_committed s.1 es ->
  Z.of_nat (length (merge_log (log s.1) (prev_pos s.1 req) es)) <= cap < 2 ^ 63 ->
  raft_wf (ae_result cap).
Proof.
  intros H Ha Hrc Hcap.
  pose proof (ae_result_contiguous H Ha) as Hcont.
  pose proof (ae_result_committed H Ha Hrc) as Hcom.
  pose proof (merge_log_length (log s.1) (prev_pos s.1 req) es (prev_pos_le H Ha)) as Hlen.
  pose proof (ae_result_commit cap) as Hci. pose proof (ae_result_snap cap) as Hsnap.
  pose proof (ae_result_log cap) as Hlog.
  assert (log_wf (ae_result cap)) as Hwf by (apply contiguous_log; by rewrite Hlog, Hsnap).
  pose proof (last_log_index_wf _ Hwf) as Hlast. rewrite Hsnap in Hlast.
  unfold log_count in Hlast. rewrite Hlog in Hlast.
  assert (raft_wf ae_start.1) as H3.
  { destruct Ha. apply wf_accept_leader; [apply wf_step_down; [done|]|];
      pose proof (wf_term _ H); solve_u. }
  destruct ae_start_same_log as (_ & _ & _ & _ & _ & Hla & _).
  pose proof (wf_commit _ H) as Hc. pose proof (wf_applied _ H) as Happ.
  rewrite (last_log_index_wf _ (wf_log _ H)) in Hc.
  apply (f_equal length) in Hcom. rewrite !length_take in Hcom. unfold log_count in Hc.
  assert (commit_index s.1 <= commit_index (ae_result cap) <= last_log_index (ae_result cap))
    as Hcc by (rewrite Hci; destruct (_ >? _) eqn:E; bool_to_prop; lia).
  assert (last_applied (ae_result cap) = last_applied s.1) as Hla'
    by (rewrite <- Hla; unfold ae_result; by rewrite update_commit_node).
  destruct Ha as [_ _ _ _ Hroom]. destruct H3.
  constructor; try lia;
    try (unfold ae_result; rewrite update_commit_node; cbn; assumption).
  - exact Hwf.
  - unfold room, log_count in *. rewrite Hsnap, Hlog. lia.
Qed.

End AppendEntries.
