(* ===== verification/RaftSpec.v ===== *)
(** * Raft core: properties of one node

    The theorems a reader of [raft_core.c] relies on, stated on the operations
    of [RaftCore] and proved from the lemmas of [RaftInv]. *)

From S2P Require Import Prelude RaftCore RaftInv.

(** ** Membership operations and the invariant *)

Lemma wf_init (al : Alloc) (id : list byte) (rnd : Z) (n : RaftNode) :
  raft_init al id rnd = Some n -> raft_wf n.
Proof.
  unfold raft_init. destruct (malloc_ok al); intros [= <-].
  constructor; cbn; auto with droole; try done; try lia.
  constructor.
Qed.

Lemma wf_add_peer (al : Alloc) (n : RaftNode) (id ip : list byte) (port : Z) :
  raft_wf n -> (length (cstr id) < 37)%nat -> peer_count n + 1 < 2 ^ 32 - 1 ->
  raft_wf (raft_add_peer al n id ip port).2.
Proof.
  intros H Hid Hc. unfold raft_add_peer.
  destruct (find_peer n id) eqn:Ef; [done|]. destruct (_ && _); [done|]. cbn.
  apply find_peer_None in Ef. pose proof (wf_votes n H) as Hv. wf_update H.
  - unfold peer_ids in *. cbn. rewrite map_app. cbn. apply NoDup_app.
    split_and!; [done| |apply NoDup_singleton].
    intros x Hx ->%list_elem_of_singleton. apply Ef.
    rewrite cstr_strncpy37 in Hx by auto with droole. done.
  - apply Forall_app. split; [done|]. apply Forall_singleton. cbn. auto with droole.
  - unfold peer_count in *. cbn. rewrite length_app. simpl. lia.
  - intros Hs. specialize (Hv Hs). unfold granted_count in *. cbn.
    rewrite filter_app. cbn. by rewrite app_nil_r.
Qed.

Lemma wf_remove_peer (n : RaftNode) (id : list byte) :
  raft_wf n -> state n <> RAFT_STATE_CANDIDATE -> raft_wf (raft_remove_peer n id).2.
Proof.
  intros H Hs. unfold raft_remove_peer. destruct (find_peer n id) as [[i p]|]; [|done].
  cbn. wf_update H.
  - unfold peer_ids in *. cbn. eapply sublist_NoDup; [done|].
    apply (fmap_sublist (fun p => cstr (p_node_id p))), sublist_delete.
  - by apply Forall_delete.
  - unfold peer_count in *. cbn. pose proof (sublist_length _ _ (sublist_delete (peers n) i)). lia.
Qed.

Lemma wf_start (now : Z) (n : RaftNode) : raft_wf n -> raft_wf (raft_start now n).2.
Proof. intros H. cbn. wf_update H. Qed.

(** ** Refused AppendEntries requests *)

Section Refused.
Context {W : Type} (cb : Callbacks W).

Lemma append_entries_stale (al : nat -> Alloc) (now : Z) (s : RaftNode * W)
    (req : RaftAppendEntriesReq) (ptr : option (list RaftLogEntry)) (k : Z) :
  ae_term req < current_term s.1 ->
  raft_handle_append_entries cb al now s req ptr k
  = Returns ({| aer_term := current_term s.1; aer_success := 0; aer_match_index := 0 |}, s).
Proof.
  intros H. unfold raft_handle_append_entries. rewrite step_down_stale by lia.
  by rewrite (proj2 (Z.ltb_lt _ _)).
Qed.

Lemma append_entries_mismatch (al : nat -> Alloc) (now : Z) (s : RaftNode * W)
    (req : RaftAppendEntriesReq) (ptr : option (list RaftLogEntry)) (k : Z) :
  current_term s.1 <= ae_term req -> log_matches s.1 req = false ->
  raft_handle_append_entries cb al now s req ptr k
  = Returns ({| aer_term := current_term s.1; aer_success := 0;
                aer_match_index := last_snapshot_index s.1 |}, ae_start cb now s req).
Proof.
  intros H Hm. unfold raft_handle_append_entries. rewrite step_down_term.
  rewrite (proj2 (Z.ltb_ge _ _)) by lia. fold (ae_start cb now s req).
  pose proof (ae_start_same_log cb now s req) as Hs.
  rewrite (log_matches_ext _ _ req Hs), Hm. cbn.
  destruct Hs as (_ & _ & -> & _). done.
Qed.

Lemma wf_ae_start (now : Z) (s : RaftNode * W) (req : RaftAppendEntriesReq) :
  raft_wf s.1 -> is_u64 (ae_term req) -> raft_wf (ae_start cb now s req).1.
Proof. intros H Ht. apply wf_accept_leader; [by apply wf_step_down|done]. Qed.

End Refused.

(** ** Allocations of AppendEntries *)

(** A failed allocation is used without a test: a call that returns made none. *)
Lemma append_one_returns (al : Alloc) (n n' : RaftNode) (e : RaftLogEntry) :
  append_one al n e = Returns n' -> append_one alloc_ok n e = Returns n'.
Proof.
  unfold append_one. cbn [malloc_ok alloc_ok negb].
  set (n1 := match get_log_entry n (e_index e) with Some _ => _ | None => _ end). clearbody n1.
  destruct (get_log_entry n1 (e_index e)); [done|].
  assert (forall b, ensure_log_capacity {| realloc_ok := true; malloc_ok := b |} n1
                    = ensure_log_capacity alloc_ok n1) as Ht by done.
  destruct al as [[] []]; rewrite ?Ht; cbn [malloc_ok negb]; try done.
  - by destruct (_ >=? _).
  - unfold ensure_log_capacity. destruct (log_count n1 >=? log_capacity n1) eqn:E; cbn [realloc_ok].
    + by rewrite E.
    + by rewrite E.
  - by destruct (_ >=? _).
Qed.

Lemma append_loop_returns (al : nat -> Alloc) (ptr : option (list RaftLogEntry)) (i rounds : nat)
    (n n' : RaftNode) :
  append_loop al ptr i rounds n = Returns n' ->
  append_loop (fun _ => alloc_ok) ptr i rounds n = Returns n'.
Proof.
  revert i n. induction rounds as [|rounds IH]; intros i n; cbn [append_loop]; [done|].
  destruct (ptr ≫= _) as [e|]; [|done]. destruct (append_one (al i) n e) as [n1|] eqn:E; [|done].
  rewrite (append_one_returns _ _ _ _ E). apply IH.
Qed.

Lemma append_entries_returns {W : Type} (cb : Callbacks W) (al : nat -> Alloc) (now : Z)
    (s : RaftNode * W) (req : RaftAppendEntriesReq) (ptr : option (list RaftLogEntry)) (k : Z)
    (r : RaftAppendEntriesResp * (RaftNode * W)) :
  raft_handle_append_entries cb al now s req ptr k = Returns r ->
  raft_handle_append_entries cb (fun _ => alloc_ok) now s req ptr k = Returns r.
Proof.
  unfold raft_handle_append_entries. destruct (_ <? _); [done|]. destruct (negb _); [done|].
  destruct (append_loop al _ _ _ _) as [n4|] eqn:E; [|done].
  by rewrite (append_loop_returns _ _ _ _ _ _ E).
Qed.

(** ** The API as a transition system *)

Section Steps.
Context {W : Type} (cb : Callbacks W).

(** One call of the API of [raft_core.c]: tick, submit, the four message handlers,
    and the changes of membership.  Allocations may fail; a call with undefined
    behaviour is not a step.  The guards are obligations of the callers: terms are
    64-bit and do not overflow, the log stays below its physical bound, entries are
    consecutive and come from a leader that has all the entries this node committed,
    peer ids fit their array, and peers are removed outside elections.  Restoring a
    node and snapshots are not steps. *)
Inductive raft_step : RaftNode * W -> RaftNode * W -> Prop :=
  | step_tick (s : RaftNode * W) (now now' rnd : Z) :
      current_term s.1 < 2 ^ 64 - 1 ->
      raft_step s (raft_tick cb now now' rnd s)
  | step_submit (s : RaftNode * W) (al : Alloc) (data : list byte) :
      room s.1 1 -> raft_step s (raft_submit cb al s data).2
  | step_request_vote (s : RaftNode * W) (now : Z) (req : RaftRequestVoteReq) :
      is_u64 (rv_term req) -> raft_step s (raft_handle_request_vote cb now s req).2
  | step_append_entries (s s' : RaftNode * W) (al : nat -> Alloc) (now : Z)
      (req : RaftAppendEntriesReq) (ptr : option (list RaftLogEntry))
      (es : list RaftLogEntry) (resp : RaftAppendEntriesResp) :
      points_to ptr es -> ae_accepted s.1 req es -> respects_committed s.1 es ->
      raft_handle_append_entries cb al now s req ptr (Z.of_nat (length es))
        = Returns (resp, s') ->
      raft_step s s'
  | step_append_refused (s s' : RaftNode * W) (al : nat -> Alloc) (now : Z)
      (req : RaftAppendEntriesReq) (ptr : option (list RaftLogEntry)) (k : Z)
      (resp : RaftAppendEntriesResp) :
      is_u64 (ae_term req) ->
      ae_term req < current_term s.1 \/ log_matches s.1 req = false ->
      raft_handle_append_entries cb al now s req ptr k = Returns (resp, s') ->
      raft_step s s'
  | step_vote_response (s : RaftNode * W) (al : Alloc) (id : list byte)
      (resp : RaftRequestVoteResp) :
      is_u64 (rvr_term resp) -> room s.1 1 ->
      raft_step s (raft_handle_request_vote_response cb al s id resp)
  | step_append_response (s : RaftNode * W) (id : list byte)
      (resp : RaftAppendEntriesResp) :
      is_u64 (aer_term resp) ->
      raft_step s (raft_handle_append_entries_response cb s id resp)
  | step_add_peer (s : RaftNode * W) (al : Alloc) (id ip : list byte) (port : Z) :
      (length (cstr id) < 37)%nat -> peer_count s.1 + 1 < 2 ^ 32 - 1 ->
      raft_step s ((raft_add_peer al s.1 id ip port).2, s.2)
  | step_remove_peer (s : RaftNode * W) (id : list byte) :
      state s.1 <> RAFT_STATE_CANDIDATE ->
      raft_step s ((raft_remove_peer s.1 id).2, s.2)
  | step_start (s : RaftNode * W) (now : Z) :
      raft_step s ((raft_start now s.1).2, s.2).

(** Node states a process can reach from [raft_init]. *)
Inductive raft_reachable : RaftNode * W -> Prop :=
  | reach_init (al : Alloc) (id : list byte) (rnd : Z) (n : RaftNode) (w : W) :
      raft_init al id rnd = Some n -> raft_reachable (n, w)
  | reach_step (s s' : RaftNode * W) :
      raft_reachable s -> raft_step s s' -> raft_reachable s'.

Lemma raft_step_wf `{!TransportWf cb} (s s' : RaftNode * W) :
  raft_step s s' -> raft_wf s.1 -> raft_wf s'.1.
Proof.
  intros Hstep H. destruct Hstep; cbn [fst].
  - by apply wf_tick.
  - by apply wf_submit.
  - by apply wf_request_vote.
  - match goal with Hr : raft_handle_append_entries _ _ _ _ _ _ _ = _ |- _ =>
      apply append_entries_returns in Hr end.
    destruct (append_entries_result cb (fun _ => alloc_ok) now s req ptr es)
      as (cap & w & Heq & Hcap); try done.
    assert (s' = (ae_result cb now s req es cap, w)) as -> by congruence.
    by apply wf_append_entries.
  - destruct (decide (ae_term req < current_term s.1)) as [Hlt|Hge].
    + rewrite append_entries_stale in * by done. by simplify_eq.
    + rewrite append_entries_mismatch in * by (done || lia || naive_solver).
      simplify_eq. by apply wf_ae_start.
  - by apply wf_vote_response.
  - by apply wf_append_response.
  - by apply wf_add_peer.
  - by apply wf_remove_peer.
  - by apply wf_start.
Qed.

End Steps.

(** ** Concrete nodes used by the examples *)

Definition id_of (s : string) : list byte := strncpy (zeros 37) (text s) 36.

Definition demo_entry (term index : Z) (d : string) : RaftLogEntry :=
  {| e_term := term; e_index := index; e_data := text d; e_type := 0 |}.

Definition demo_peer (id : string) (matched : Z) : RaftPeer :=
  {| p_node_id := id_of id; p_ip_address := strncpy (zeros 46) (text "127.0.0.1") 45;
     p_port := 9001; next_index := 1; match_index := matched; last_contact_ms := 0;
     inflight_rpcs := 0; vote_granted := false |}.

(** Node [n1] of a three-node cluster with two entries, the first committed. *)
Definition demo_node (role : RaftState) (matched : Z) : RaftNode :=
  {| node_id := id_of "n1"; current_term := 2; voted_for := id_of "n1";
     log := [demo_entry 1 1 "a"; demo_entry 2 2 "b"]; log_capacity := 16;
     state := role; commit_index := 1; last_applied := 0;
     peers := [demo_peer "n2" matched; demo_peer "n3" 0]; peer_capacity := 8;
     election_timeout_ms := 200; last_heartbeat_ms := 1000; last_election_ms := 0;
     leader_id := zeros 37; votes_received := 1;
     last_snapshot_index := 0; last_snapshot_term := 0; snapshot_data := [];
     elections_started := 0; heartbeats_sent := 0; heartbeats_received := 0 |}.

(** Callbacks that record what is applied and queue nothing. *)
Definition record_cb : Callbacks (list (list byte)) :=
  {| cb_apply := Some (fun w d => w ++ [d]); cb_persist := None; cb_send_rpc := None |}.

#[export] Instance record_cb_async : AsyncTransport record_cb.
Proof. done. Qed.

Lemma demo_node_wf (role : RaftState) (matched : Z) : raft_wf (demo_node role matched).
Proof.
  constructor; try done; try (by split).
  - intros [|[|i]] e He; cbn in He; simplify_eq; done.
  - apply (bool_decide_unpack _). vm_compute. exact I.
  - cbn. repeat constructor.
Qed.

Definition demo_ae (term prev prev_term commit : Z) : RaftAppendEntriesReq :=
  {| ae_term := term; ae_leader_id := id_of "n2"; ae_prev_log_index := prev;
     ae_prev_log_term := prev_term; ae_leader_commit := commit; ae_entry_count := 0 |}.

Definition always_alloc (i : nat) : Alloc := alloc_ok.

Lemma always_alloc_ok : alloc_succeeds always_alloc.
Proof. done. Qed.

(** ** The invariant *)


Definition demo_init : RaftNode :=
  default (demo_node RAFT_STATE_FOLLOWER 0) (raft_init alloc_ok (text "n1") 7).

Definition demo_started : RaftNode * list (list byte) :=
  ((raft_add_peer alloc_ok demo_init (text "n2") (text "127.0.0.1") 9001).2, []).


(** ** AppendEntries *)

Lemma get_log_entry_take (n n' : RaftNode) (pos : nat) (idx : Z) :
  last_snapshot_index n' = last_snapshot_index n ->
  take pos (log n') = take pos (log n) ->
  idx <= last_snapshot_index n + Z.of_nat pos ->
  get_log_entry n' idx = get_log_entry n idx.
Proof.
  intros Hs Ht Hidx. destruct (decide (idx <= last_snapshot_index n)) as [Hle|Hgt].
  { rewrite !(proj2 (get_log_entry_None _ _)); [done|lia|lia]. }
  set (i := Z.to_nat (idx - last_snapshot_index n - 1)).
  replace idx with (last_snapshot_index n + 1 + Z.of_nat i) at 2 by lia.
  replace idx with (last_snapshot_index n' + 1 + Z.of_nat i) by lia.
  rewrite !get_log_entry_pos.
  rewrite <- (lookup_take_lt (log n') pos), <- (lookup_take_lt (log n) pos) by lia.
  by rewrite Ht.
Qed.

Lemma ae_start_term {W : Type} (cb : Callbacks W) (now : Z) (s : RaftNode * W)
    (req : RaftAppendEntriesReq) :
  current_term s.1 <= ae_term req ->
  current_term (ae_start cb now s req).1 = ae_term req /\
  state (ae_start cb now s req).1 = RAFT_STATE_FOLLOWER.
Proof.
  intros H. split; [|apply accept_leader_role]. apply accept_leader_term.
  rewrite step_down_term. lia.
Qed.




(** The state after one request with the given entries. *)
Definition run_ae (now : Z) (s : RaftNode * list (list byte)) (req : RaftAppendEntriesReq)
    (es : list RaftLogEntry) : RaftNode * list (list byte) :=
  match raft_handle_append_entries record_cb always_alloc now s req (Some es)
          (Z.of_nat (length es)) with
  | Returns (_, s') => s'
  | Undefined => s
  end.


Lemma merge_log_idemp (base : list RaftLogEntry) (pos : nat) (es : list RaftLogEntry) :
  (pos <= length base)%nat ->
  merge_log (merge_log base pos es) pos es = merge_log base pos es.
Proof.
  intros Hpos. apply merge_log_present. intros i e Hi.
  destruct (merge_log_terms base pos es i e Hpos Hi) as (x & Hx & Ht & _). eauto.
Qed.

(** AppendEntries is idempotent on the log: a duplicated request that the
    node accepts again (RPCs may be delivered twice) leaves the log it produced
    unchanged; in particular it does not truncate it. *)
Theorem append_entries_idempotent {W : Type} (cb : Callbacks W) (al : nat -> Alloc)
    (now now2 : Z) (s s' s'' : RaftNode * W) (req : RaftAppendEntriesReq)
    (ptr : option (list RaftLogEntry)) (es : list RaftLogEntry)
    (resp resp' : RaftAppendEntriesResp) :
  raft_wf s.1 -> points_to ptr es -> alloc_succeeds al -> ae_accepted s.1 req es ->
  raft_wf s'.1 -> ae_accepted s'.1 req es ->
  raft_handle_append_entries cb al now s req ptr (Z.of_nat (length es)) = Returns (resp, s') ->
  raft_handle_append_entries cb al now2 s' req ptr (Z.of_nat (length es)) = Returns (resp', s'') ->
  log s''.1 = log s'.1.
Proof.
  intros H Hptr Hal Ha H' Ha' Heq Heq'.
  destruct (append_entries_result cb al now s req ptr es H Hptr Hal Ha) as (cap & w & E & _).
  assert (s' = (ae_result cb now s req es cap, w)) as Hs' by congruence.
  destruct (append_entries_result cb al now2 s' req ptr es H' Hptr Hal Ha') as (cap' & w' & E' & _).
  assert (s'' = (ae_result cb now2 s' req es cap', w')) as -> by congruence. cbn [fst].
  rewrite ae_result_log.
  assert (prev_pos s'.1 req = prev_pos s.1 req) as ->
    by (unfold prev_pos; rewrite Hs'; cbn [fst]; by rewrite ae_result_snap).
  rewrite Hs'. cbn [fst]. rewrite ae_result_log. apply merge_log_idemp.
  by apply (prev_pos_le s req es).
Qed.

Lemma append_entries_idempotent_witness :
  let s' := run_ae 1100 (demo_node RAFT_STATE_FOLLOWER 0, []) (demo_ae 3 1 1 1)
              [demo_entry 3 2 "c"] in
  let s'' := run_ae 1200 s' (demo_ae 3 1 1 1) [demo_entry 3 2 "c"] in
  log s''.1 = log s'.1 /\ log s'.1 = [demo_entry 1 1 "a"; demo_entry 3 2 "c"].
Proof.
  intros s' s''. split; [|vm_compute; reflexivity].
  eapply (append_entries_idempotent record_cb always_alloc 1100 1200
    (demo_node RAFT_STATE_FOLLOWER 0, []) s' s'' (demo_ae 3 1 1 1)
    (Some [demo_entry 3 2 "c"]) [demo_entry 3 2 "c"]).
  - apply demo_node_wf.
  - by right.
  - apply always_alloc_ok.
  - constructor; try done. intros [|i] e He; cbn in He; simplify_eq; done.
  - constructor; try done; try (by split).
    + intros [|[|i]] e He; vm_compute in He; simplify_eq; done.
    + apply (bool_decide_unpack _). vm_compute. exact I.
    + vm_compute. repeat constructor.
  - constructor; try done. intros [|i] e He; cbn in He; simplify_eq; done.
  - vm_compute. reflexivity.
  - vm_compute. reflexivity.
Defined.

(** A stale AppendEntries request is answered with the node's own term and
    changes nothing at all; a request whose previous entry does not match is
    answered with failure and leaves log, commit position and peers alone,
    even though the node adopts the leader's term. *)
Theorem append_entries_refuses {W : Type} (cb : Callbacks W) (al : nat -> Alloc) (now : Z)
    (s : RaftNode * W) (req : RaftAppendEntriesReq) (ptr : option (list RaftLogEntry)) (k : Z) :
  (ae_term req < current_term s.1 ->
   raft_handle_append_entries cb al now s req ptr k
   = Returns ({| aer_term := current_term s.1; aer_success := 0; aer_match_index := 0 |}, s)) /\
  (current_term s.1 <= ae_term req -> log_matches s.1 req = false ->
   exists resp s', raft_handle_append_entries cb al now s req ptr k = Returns (resp, s') /\
     aer_success resp = 0 /\ same_log s.1 s'.1 /\
     current_term s'.1 = ae_term req /\ state s'.1 = RAFT_STATE_FOLLOWER).
Proof.
  split; [apply append_entries_stale|]. intros Ht Hm.
  rewrite append_entries_mismatch by done. do 2 eexists. split; [reflexivity|].
  destruct (ae_start_term cb now s req Ht). split_and!; try done; apply ae_start_same_log.
Qed.

Lemma append_entries_refuses_witness :
  exists resp s', raft_handle_append_entries record_cb always_alloc 1100
      (demo_node RAFT_STATE_FOLLOWER 0, []) (demo_ae 2 2 7 2) None 0 = Returns (resp, s') /\
    aer_success resp = 0.
Proof.
  destruct (append_entries_refuses record_cb always_alloc 1100
    (demo_node RAFT_STATE_FOLLOWER 0, []) (demo_ae 2 2 7 2) None 0) as [_ H].
  destruct H as (resp & s' & H1 & H2 & _); [cbn; lia|reflexivity|].
  exists resp, s'. split; [exact H1|exact H2].
Defined.

(** A request that announces entries while the entry pointer is NULL, as
    [raft_handle_incoming_rpc] calls the handler for every AppendEntries with a
    positive [entry_count], dereferences the null pointer as soon as its term
    and previous entry are acceptable. *)
Theorem append_entries_null_entries {W : Type} (cb : Callbacks W) (al : nat -> Alloc) (now : Z)
    (s : RaftNode * W) (req : RaftAppendEntriesReq) (k : Z) :
  0 < k -> current_term s.1 <= ae_term req -> log_matches s.1 req = true ->
  raft_handle_append_entries cb al now s req None k = Undefined.
Proof.
  intros Hk Ht Hm. unfold raft_handle_append_entries. rewrite step_down_term.
  rewrite (proj2 (Z.ltb_ge _ _)) by lia. fold (ae_start cb now s req).
  rewrite (log_matches_ext _ _ req (ae_start_same_log cb now s req)), Hm. cbn [negb].
  destruct (Z.to_nat k) eqn:E; [lia|]. done.
Qed.

Lemma append_entries_null_entries_witness :
  raft_handle_append_entries record_cb always_alloc 1100
    (demo_node RAFT_STATE_FOLLOWER 0, []) (demo_ae 2 2 2 1) None 1 = Undefined.
Proof. apply append_entries_null_entries; [lia|cbn; lia|reflexivity]. Defined.

(** An accepted AppendEntries without entries. *)
Lemma heartbeat_accepted {W : Type} (cb : Callbacks W) (al : nat -> Alloc) (now : Z)
    (s : RaftNode * W) (req : RaftAppendEntriesReq) (ptr : option (list RaftLogEntry)) :
  current_term s.1 <= ae_term req -> log_matches s.1 req = true ->
  exists s', raft_handle_append_entries cb al now s req ptr 0
    = Returns ({| aer_term := current_term s.1; aer_success := 1;
                  aer_match_index := last_log_index s.1 |}, s') /\
    log s'.1 = log s.1 /\
    commit_index s'.1 = (if commit_index s.1 <? ae_leader_commit req
                         then Z.min (last_log_index s.1) (ae_leader_commit req)
                         else commit_index s.1).
Proof.
  intros Ht Hm. unfold raft_handle_append_entries. rewrite step_down_term.
  rewrite (proj2 (Z.ltb_ge _ _)) by lia. fold (ae_start cb now s req).
  pose proof (ae_start_same_log cb now s req) as Hsame.
  rewrite (log_matches_ext _ _ req Hsame), Hm. cbn [negb].
  destruct Hsame as (Hl & _ & Hsi & Hst & Hci & _).
  assert (last_log_index (ae_start cb now s req).1 = last_log_index s.1) as Hli
    by (by apply last_log_index_ext).
  change (append_loop al ptr 0 (Z.to_nat 0) (ae_start cb now s req).1)
    with (Returns (ae_start cb now s req).1). cbv iota beta. rewrite !persist_state_node.
  set (n3 := (ae_start cb now s req).1) in *. cbn [fst].
  assert (last_log_index (update_commit n3 (ae_leader_commit req)) = last_log_index s.1) as Hlu
    by (rewrite <- Hli; unfold update_commit; by destruct (_ >? _)).
  rewrite Hlu. eexists. split; [done|]. cbn [fst]. unfold update_commit.
  rewrite Hci, Hli, Z.gtb_ltb. destruct (Z.ltb_spec (commit_index s.1) (ae_leader_commit req));
    cbn [log commit_index]; (split; [done|]); [|done].
  destruct (Z.ltb_spec (last_log_index s.1) (ae_leader_commit req)); lia.
Qed.

(** A heartbeat commits and acknowledges entries nobody compared.  Only the
    entry at [prev_log_index] is checked, but the follower raises its commit
    index to the leader's (capped by its own last index) and reports its own
    last index as matching, so entries above [prev_log_index] that the leader
    never had are committed and counted as replicated. *)
Theorem heartbeat_commits_unchecked {W : Type} (cb : Callbacks W) (al : nat -> Alloc) (now : Z)
    (s : RaftNode * W) (req : RaftAppendEntriesReq) (ptr : option (list RaftLogEntry)) :
  current_term s.1 <= ae_term req -> log_matches s.1 req = true ->
  commit_index s.1 < ae_leader_commit req ->
  exists resp s', raft_handle_append_entries cb al now s req ptr 0 = Returns (resp, s') /\
    log s'.1 = log s.1 /\ aer_success resp = 1 /\
    aer_match_index resp = last_log_index s.1 /\
    commit_index s'.1 = Z.min (last_log_index s.1) (ae_leader_commit req).
Proof.
  intros Ht Hm Hc. destruct (heartbeat_accepted cb al now s req ptr Ht Hm) as (s' & Hh & Hl & Hci).
  rewrite (proj2 (Z.ltb_lt _ _)) in Hci by done. by eexists _, s'.
Qed.

(** A leader of term 5 with another log makes the follower commit both of its
    entries, checking none. *)
Lemma heartbeat_commits_unchecked_witness :
  exists resp s', raft_handle_append_entries record_cb always_alloc 1100
      (demo_node RAFT_STATE_FOLLOWER 0, []) (demo_ae 5 0 0 2) None 0 = Returns (resp, s') /\
    log s'.1 = log (demo_node RAFT_STATE_FOLLOWER 0) /\ aer_success resp = 1 /\
    aer_match_index resp = 2 /\ commit_index s'.1 = 2.
Proof.
  apply (heartbeat_commits_unchecked record_cb always_alloc 1100
           (demo_node RAFT_STATE_FOLLOWER 0, []) (demo_ae 5 0 0 2) None);
    [cbn; lia|reflexivity|cbn; lia].
Defined.

(** ** Votes *)

Lemma step_down_log {W : Type} (cb : Callbacks W) (s : RaftNode * W) (t : Z)
    (req : RaftRequestVoteReq) :
  log_up_to_date (step_down_if_newer cb s t).1 req = log_up_to_date s.1 req.
Proof.
  destruct (same_log_step_down cb s t) as (H1 & _ & H2 & H3 & _).
  unfold log_up_to_date, last_log_term, last_log_index. by rewrite H1, H2, H3.
Qed.

Lemma strlen_pos (b : list byte) : (strlen b >? 0) = negb (bool_decide (cstr b = [])).
Proof. unfold strlen. by destruct (cstr b). Qed.

(** The node may still vote for [cand] in term [t]. *)
Definition free_to_vote (n : RaftNode) (t : Z) (cand : list byte) : Prop :=
  current_term n < t \/ cstr (voted_for n) = [] \/ cstr (voted_for n) = cstr cand.

Lemma step_down_vote {W : Type} (cb : Callbacks W) (s : RaftNode * W) (t : Z)
    (cand : list byte) :
  current_term s.1 <= t ->
  (strlen (voted_for (step_down_if_newer cb s t).1) >? 0)
    && negb (streq (voted_for (step_down_if_newer cb s t).1) cand) = false
  <-> free_to_vote s.1 t cand.
Proof.
  intros Ht. rewrite strlen_pos. unfold step_down_if_newer, free_to_vote, streq.
  destruct (_ >? _) eqn:E; bool_to_prop.
  - rewrite become_follower_node. cbn. split; [intros; left; lia|done].
  - repeat case_bool_decide; naive_solver lia.
Qed.

Lemma step_down_voted_array {W : Type} (cb : Callbacks W) (s : RaftNode * W) (t : Z) :
  raft_wf s.1 -> char_array 37 (voted_for (step_down_if_newer cb s t).1).
Proof.
  intros H. unfold step_down_if_newer. destruct (_ >? _); [|by apply wf_voted_for].
  rewrite become_follower_node. cbn. auto with droole.
Qed.

(** C6: RequestVote grants exactly when the request's term is not stale, the
    node has not voted for somebody else in that term, and the candidate's log
    is at least as up to date (last term, then last index); after a grant the
    node is in the request's term, its vote names the candidate, and its log
    is unchanged. *)
Theorem request_vote_rule {W : Type} (cb : Callbacks W) (now : Z) (s : RaftNode * W)
    (req : RaftRequestVoteReq) :
  raft_wf s.1 ->
  let r := raft_handle_request_vote cb now s req in
  (rvr_vote_granted r.1 = 1 <->
     current_term s.1 <= rv_term req /\
     free_to_vote s.1 (rv_term req) (rv_candidate_id req) /\
     (last_log_term s.1 < rv_last_log_term req \/
      last_log_term s.1 = rv_last_log_term req /\ last_log_index s.1 <= rv_last_log_index req)) /\
  (rvr_vote_granted r.1 = 1 ->
     current_term r.2.1 = rv_term req /\
     cstr (voted_for r.2.1) = take 36 (cstr (rv_candidate_id req)) /\
     same_log s.1 r.2.1).
Proof.
  intros Hwf. unfold raft_handle_request_vote. cbn zeta.
  pose proof (step_down_term cb s (rv_term req)) as Hterm.
  pose proof (same_log_step_down cb s (rv_term req)) as Hsame.
  pose proof (step_down_vote cb s (rv_term req) (rv_candidate_id req)) as Hv.
  pose proof (step_down_voted_array cb s (rv_term req) Hwf) as Harr.
  rewrite step_down_log. unfold log_up_to_date.
  set (s1 := step_down_if_newer cb s (rv_term req)) in *.
  destruct (_ <? _) eqn:E1; bool_to_prop; cbn [fst snd rvr_vote_granted].
  { split; [|lia]. split; [lia|]. intros (? & _). lia. }
  destruct (_ && negb _) eqn:E2; cbn [fst snd rvr_vote_granted].
  { split; [|lia]. split; [lia|]. intros (H1 & H2 & _). apply Hv in H2; [|lia]. congruence. }
  destruct (_ || _) eqn:E3; cbn [negb fst snd rvr_vote_granted].
  - split; [split; [intros _|done]|].
    + split; [lia|]. split; [apply Hv; [lia|done]|].
      apply orb_true_iff in E3 as [E3|E3]; bool_to_prop; lia.
    + intros _. cbn. rewrite persist_state_node. cbn. split; [lia|]. split.
      * apply (cstr_strncpy 37); [lia|done].
      * unfold same_log in *. by destruct_and!.
  - split; [split; [lia|]|lia]. bool_to_prop. intros (_ & _ & Hl).
    apply andb_false_iff in H0 as [H0|H0]; bool_to_prop; lia.
Qed.

Definition demo_rv (term last_index last_term : Z) : RaftRequestVoteReq :=
  {| rv_term := term; rv_candidate_id := id_of "n3";
     rv_last_log_index := last_index; rv_last_log_term := last_term |}.

Lemma request_vote_rule_witness :
  rvr_vote_granted (raft_handle_request_vote record_cb 1100
    (demo_node RAFT_STATE_FOLLOWER 0, []) (demo_rv 3 2 2)).1 = 1 /\
  cstr (voted_for (raft_handle_request_vote record_cb 1100
    (demo_node RAFT_STATE_FOLLOWER 0, []) (demo_rv 3 2 2)).2.1) = text "n3".
Proof.
  destruct (request_vote_rule record_cb 1100 (demo_node RAFT_STATE_FOLLOWER 0, []) (demo_rv 3 2 2))
    as [H1 H2]; [apply demo_node_wf|].
  assert (rvr_vote_granted (raft_handle_request_vote record_cb 1100
    (demo_node RAFT_STATE_FOLLOWER 0, []) (demo_rv 3 2 2)).1 = 1) as Hg.
  { apply H1. split; [cbn; lia|]. split; [left; cbn; lia|right; split; [reflexivity|cbn; lia]]. }
  split; [exact Hg|]. destruct (H2 Hg) as (_ & -> & _). reflexivity.
Defined.

(** A vote granted by a node that first had to advance its term is lost:
    the response carries the term the voter had before it stepped down, so the
    candidate that asked (in term [rv_term req]) discards it as stale. *)
Theorem late_grant_ignored {W : Type} (cb : Callbacks W) (now : Z) (al : Alloc)
    (voter candidate : RaftNode * W) (req : RaftRequestVoteReq) (voter_id : list byte) :
  current_term voter.1 < rv_term req -> current_term candidate.1 = rv_term req ->
  raft_handle_request_vote_response cb al candidate voter_id
    (raft_handle_request_vote cb now voter req).1 = candidate.
Proof.
  intros Hv Hc.
  assert (rvr_term (raft_handle_request_vote cb now voter req).1 = current_term voter.1) as Ht
    by (unfold raft_handle_request_vote; destruct_ifs; done).
  unfold raft_handle_request_vote_response. rewrite Ht, Hc.
  rewrite Z.gtb_ltb, (proj2 (Z.ltb_ge _ _)), (proj2 (Z.ltb_lt _ _)), orb_true_r by lia. done.
Qed.

(** A two-node exchange in which the vote is granted and then lost. *)
Lemma late_grant_ignored_witness :
  rvr_vote_granted (raft_handle_request_vote record_cb 1100
    (demo_node RAFT_STATE_FOLLOWER 0, []) (demo_rv 3 2 2)).1 = 1 /\
  let candidate := ({| (demo_node RAFT_STATE_CANDIDATE 0) with current_term := 3 |}, []) in
  raft_handle_request_vote_response record_cb alloc_ok candidate (id_of "n2")
    (raft_handle_request_vote record_cb 1100 (demo_node RAFT_STATE_FOLLOWER 0, []) (demo_rv 3 2 2)).1
  = candidate.
Proof.
  split; [vm_compute; reflexivity|]. intros candidate.
  apply late_grant_ignored; [cbn; lia|reflexivity].
Defined.

(** ** Ticks *)

Lemma for_each_peer_async {W : Type} (cb : Callbacks W) `{!AsyncTransport cb}
    (mk : RaftNode -> RaftPeer -> RaftRequest) (fuel i : nat) (s : RaftNode * W) :
  (for_each_peer cb fuel i mk s).1 = s.1.
Proof.
  revert i s. induction fuel as [|fuel IH]; intros i s; simpl; [done|].
  destruct (peers s.1 !! i); [|done]. by rewrite IH, transport_async.
Qed.

(** The heartbeat half of [leader_tick] only touches two counters. *)
Lemma leader_tick_node {W : Type} (cb : Callbacks W) `{!AsyncTransport cb} (now : Z)
    (s : RaftNode * W) :
  exists hb sent,
    (leader_tick cb now s).1
    = advance_commit_index {| (s.1) with last_heartbeat_ms := hb; heartbeats_sent := sent |}.
Proof.
  unfold leader_tick, leader_heartbeats. cbn [fst]. destruct (_ >=? _).
  - rewrite for_each_peer_async by done. eauto.
  - exists (last_heartbeat_ms s.1), (heartbeats_sent s.1). by destruct s as [[] ?].
Qed.

(** C7: a leader's tick first sends its heartbeats, whose callback may change the
    node (a synchronous one handles the responses); let [n] be the node after them,
    assumed well formed.  The tick then sets [commit_index] to the largest index above
    the one of [n] whose entry is of [n]'s term and which the [match_index] of the
    peers and the node itself put on a majority of the cluster, and keeps it when
    there is none; nothing else of [n] changes.  ([match_index] is what the peers
    acknowledged.) *)
Theorem leader_commit_rule {W : Type} (cb : Callbacks W) (now : Z) (s : RaftNode * W) :
  let n := (leader_heartbeats cb now s).1 in
  let n' := (leader_tick cb now s).1 in
  raft_wf n ->
  let stored idx := 1 + Z.of_nat (length (filter (fun p => idx <= match_index p) (peers n))) in
  let eligible idx := term_at_index n idx = current_term n /\
                      (peer_count n + 1) / 2 < stored idx in
  n' = {| n with commit_index := commit_index n' |} /\
  commit_index n <= commit_index n' <= last_log_index n /\
  (commit_index n' <> commit_index n -> eligible (commit_index n')) /\
  (forall idx, commit_index n < idx <= last_log_index n -> eligible idx -> idx <= commit_index n').
Proof.
  intros n n' H stored eligible.
  assert (forall idx, committable n idx = true <-> eligible idx) as Hel.
  { intros idx. unfold committable, eligible, has_majority, stored.
    rewrite replicas_count by apply (wf_peer_count _ H).
    rewrite andb_true_iff, Z.eqb_eq, Z.gtb_ltb, Z.ltb_lt. done. }
  destruct (advance_commit_spec n H) as (c & Heq & Hc & Hcom & Hmax).
  assert (n' = {| n with commit_index := c |}) as -> by exact Heq. cbn [commit_index].
  split_and!; try done; try apply Hc.
  - intros Hne. apply Hel. by apply Hcom.
  - intros idx Hidx He. apply Hmax; [done|]. by apply Hel.
Qed.

Lemma leader_commit_rule_witness :
  commit_index (leader_tick record_cb 1010 (demo_node RAFT_STATE_LEADER 2, [])).1 = 2.
Proof.
  destruct (leader_commit_rule record_cb 1010 (demo_node RAFT_STATE_LEADER 2, []))
    as (_ & Hb & _ & Hmax); [apply (demo_node_wf RAFT_STATE_LEADER 2)|].
  apply Z.le_antisymm; [exact (proj2 Hb)|].
  apply Hmax; [vm_compute; split; [reflexivity|discriminate]|]. split; [reflexivity|]. vm_compute. reflexivity.
Defined.



(** [raft_submit] on a leader with memory appends one entry with the next
    index, the current term and the caller's bytes at the end of the log and
    keeps the rest; on any other role it returns -1 and changes nothing. *)
Theorem submit_appends {W : Type} (cb : Callbacks W) (al : Alloc) (s : RaftNode * W)
    (data : list byte) :
  raft_wf s.1 -> room s.1 1 -> realloc_ok al = true -> malloc_ok al = true ->
  let r := raft_submit cb al s data in
  (state s.1 <> RAFT_STATE_LEADER -> r = (-1, s)) /\
  (state s.1 = RAFT_STATE_LEADER ->
   r.1 = 0 /\
   last_log_index r.2.1 = last_log_index s.1 + 1 /\
   get_log_entry r.2.1 (last_log_index s.1 + 1)
     = Some {| e_term := current_term s.1; e_index := last_log_index s.1 + 1;
               e_data := data; e_type := 0 |} /\
   forall idx, idx <= last_log_index s.1 -> get_log_entry r.2.1 idx = get_log_entry s.1 idx).
Proof.
  intros H Hroom Hr Hm r.
  pose proof (last_log_index_wf _ (wf_log _ H)) as Hl.
  split.
  { intros Hs. unfold r, raft_submit. by rewrite decide_True. }
  intros Hs.
  pose proof (ensure_log_capacity_ok al s.1 Hr (wf_room _ H) (wf_snap _ H) (wf_cap _ H)) as Hcap.
  pose proof (wf_snap _ H). pose proof (log_count_nonneg s.1).
  unfold r, raft_submit. rewrite decide_False by (intros Hne; by apply Hne).
  rewrite (ensure_log_capacity_node al s.1). cbn [log_capacity].
  unfold log_count in *. cbn [log log_capacity].
  rewrite Z.geb_leb, (proj2 (Z.leb_gt _ _)) by lia. rewrite Hm. cbn [negb fst snd].
  rewrite persist_state_node. cbn [fst].
  change (last_log_index {| (s.1) with log_capacity := _ |}) with (last_log_index s.1).
  unfold room, log_count in Hroom. rewrite u64_small by solve_u. split; [done|]. split_and!.
  - unfold last_log_index at 1. cbn [log]. by rewrite last_snoc.
  - apply get_log_entry_Some. cbn [log last_snapshot_index current_term]. split; [lia|].
    replace (Z.to_nat _) with (length (log s.1)) by lia. by apply list_lookup_middle.
  - intros idx Hidx. apply (get_log_entry_take _ _ (length (log s.1))); [done| |lia].
    cbn [log]. by rewrite take_app_length, take_ge.
Qed.

Lemma submit_appends_witness :
  (raft_submit record_cb alloc_ok (demo_node RAFT_STATE_LEADER 0, []) (text "x")).1 = 0 /\
  get_log_entry (raft_submit record_cb alloc_ok (demo_node RAFT_STATE_LEADER 0, []) (text "x")).2.1 3
  = Some (demo_entry 2 3 "x").
Proof.
  destruct (submit_appends record_cb alloc_ok (demo_node RAFT_STATE_LEADER 0, []) (text "x"))
    as [_ H]; [apply demo_node_wf|done|done|done|].
  destruct (H eq_refl) as (H1 & _ & H2 & _). split; [exact H1|exact H2].
Defined.

Lemma apply_loop_node {W : Type} (cb : Callbacks W) (fuel : nat) (s : RaftNode * W) :
  exists a, (apply_loop cb fuel s).1 = {| (s.1) with last_applied := a |}.
Proof.
  revert s. induction fuel as [|fuel IH]; intros s; simpl.
  - exists (last_applied s.1). by destruct s as [[] ?].
  - destruct (_ <? _); [|exists (last_applied s.1); by destruct s as [[] ?]].
    destruct (get_log_entry _ _); [|by eexists].
    edestruct IH as [a Ha]. exists a. rewrite Ha, apply_entry_node. done.
Qed.

(** What a follower's or candidate's tick does to the node when the transport
    only queues requests. *)
Lemma tick_elects {W : Type} (cb : Callbacks W) `{!AsyncTransport cb} (now now' rnd : Z)
    (s : RaftNode * W) :
  state s.1 <> RAFT_STATE_LEADER -> election_timeout_ms s.1 <= now -64 last_heartbeat_ms s.1 ->
  let n' := (raft_tick cb now now' rnd s).1 in
  state n' = RAFT_STATE_CANDIDATE /\ current_term n' = current_term s.1 +64 1 /\
  last_heartbeat_ms n' = last_heartbeat_ms s.1 /\
  election_timeout_ms n' = random_election_timeout rnd.
Proof.
  intros Hs Hel n'. unfold n', raft_tick, apply_committed_entries.
  edestruct (apply_loop_node cb) as [a ->].
  rewrite decide_False by done. unfold follower_candidate_tick.
  rewrite Z.geb_leb, (proj2 (Z.leb_le _ _)) by done.
  unfold become_candidate. rewrite for_each_peer_async by done.
  rewrite persist_state_node. done.
Qed.

Lemma election_timeout_range (rnd : Z) : 150 <= random_election_timeout rnd < 300.
Proof.
  unfold random_election_timeout, RAFT_ELECTION_TIMEOUT_MIN_MS, RAFT_ELECTION_TIMEOUT_MAX_MS.
  pose proof (Z.mod_pos_bound rnd (300 - 150)). lia.
Qed.

(** A run of ticks: clock at entry, clock inside [become_candidate], [rand()]. *)
Definition run_ticks {W : Type} (cb : Callbacks W) (s : RaftNode * W)
    (ticks : list (Z * Z * Z)) : RaftNode * W :=
  foldl (fun s t => raft_tick cb t.1.1 t.1.2 t.2 s) s ticks.

(** Once 300 ms have passed without contact, every tick starts a new
    election in a new term: [become_candidate] draws a fresh timeout and stores
    [last_election_ms], but the timeout keeps being measured from
    [last_heartbeat_ms], so [k] further ticks raise the term by [k]. *)
Theorem every_tick_elects {W : Type} (cb : Callbacks W) `{!AsyncTransport cb}
    (s : RaftNode * W) (ticks : list (Z * Z * Z)) :
  state s.1 <> RAFT_STATE_LEADER -> election_timeout_ms s.1 < 300 ->
  0 <= current_term s.1 -> current_term s.1 + Z.of_nat (length ticks) < 2 ^ 64 ->
  Forall (fun t => 300 <= t.1.1 -64 last_heartbeat_ms s.1) ticks ->
  current_term (run_ticks cb s ticks).1 = current_term s.1 + Z.of_nat (length ticks).
Proof.
  revert s. induction ticks as [|t ticks IH]; intros s Hs Hto H0 Hb Ht; simpl; [lia|].
  apply Forall_cons in Ht as [Ht Hts].
  destruct (tick_elects cb t.1.1 t.1.2 t.2 s Hs ltac:(lia)) as (H1 & H2 & H3 & H4).
  simpl in Hb. rewrite u64_small in H2 by solve_u.
  pose proof (election_timeout_range t.2). fold (run_ticks cb).
  change (foldl _ ?a ticks) with (run_ticks cb a ticks).
  rewrite IH; rewrite ?H1, ?H2, ?H3, ?H4; try done; try lia.
Qed.

Lemma every_tick_elects_witness :
  current_term (run_ticks record_cb (demo_node RAFT_STATE_FOLLOWER 0, [])
    [(1300, 1300, 5); (1310, 1310, 6); (1320, 1320, 7)]).1 = 5.
Proof.
  rewrite (every_tick_elects record_cb); [reflexivity|done|reflexivity|cbn; lia|done|].
  repeat constructor; vm_compute; discriminate.
Defined.

(** ** Terms never decrease *)

Lemma advance_commit_term (n : RaftNode) : current_term (advance_commit_index n) = current_term n.
Proof.
  unfold advance_commit_index. cbn zeta. generalize (Z.to_nat (last_log_index n - (commit_index n +64 1) + 1)).
  intros fuel. generalize (commit_index n +64 1). intros idx. revert idx n.
  induction fuel as [|fuel IH]; intros idx n; simpl; [done|].
  destruct (_ <=? _); [|done]. rewrite IH. by destruct_ifs.
Qed.

Lemma submit_term {W : Type} (cb : Callbacks W) (al : Alloc) (s : RaftNode * W)
    (data : list byte) :
  current_term (raft_submit cb al s data).2.1 = current_term s.1.
Proof.
  destruct (raft_submit_cases cb al s data) as [[_ ->]|[[_ ->]|(_ & _ & ->)]]; cbn; [done| |].
  - by rewrite ensure_log_capacity_node.
  - by rewrite persist_state_node.
Qed.

Lemma become_leader_term {W : Type} (cb : Callbacks W) (al : Alloc) (s : RaftNode * W) :
  current_term (become_leader cb al s).1 = current_term s.1.
Proof. unfold become_leader. cbn. by rewrite submit_term. Qed.

(** No API call lowers [current_term]. *)
Theorem term_monotone {W : Type} (cb : Callbacks W) `{!AsyncTransport cb} (s s' : RaftNode * W) :
  raft_wf s.1 -> raft_step cb s s' -> current_term s.1 <= current_term s'.1.
Proof.
  intros H Hstep. pose proof (wf_term _ H) as Hu. destruct Hstep; cbn [fst].
  - unfold raft_tick, apply_committed_entries. edestruct (apply_loop_node cb) as [a ->].
    cbn. case_decide.
    + destruct (leader_tick_node cb now s) as (hb & sent & ->).
      by rewrite advance_commit_term.
    + unfold follower_candidate_tick. destruct (_ >=? _); [|done].
      unfold become_candidate. rewrite for_each_peer_async by done.
      rewrite persist_state_node. cbn. rewrite u64_small by solve_u. lia.
  - rewrite submit_term. lia.
  - unfold raft_handle_request_vote. pose proof (step_down_term cb s (rv_term req)).
    destruct_ifs; cbn; rewrite ?persist_state_node; cbn; lia.
  - match goal with Hr : raft_handle_append_entries _ _ _ _ _ _ _ = _ |- _ =>
      apply append_entries_returns in Hr end.
    destruct (append_entries_result cb (fun _ => alloc_ok) now s req ptr es) as (cap & w & Heq & _);
      try done.
    assert (s' = (ae_result cb now s req es cap, w)) as -> by congruence. cbn [fst].
    destruct (ae_start_term cb now s req) as [Hterm _]; [by destruct H1; lia|].
    unfold ae_result. rewrite update_commit_node. cbn. destruct H1. lia.
  - destruct (decide (ae_term req < current_term s.1)) as [Hlt|Hge].
    + rewrite append_entries_stale in H2 by done. by simplify_eq.
    + rewrite append_entries_mismatch in H2 by (lia || naive_solver). simplify_eq.
      destruct (ae_start_term cb now s req) as [-> _]; lia.
  - unfold raft_handle_request_vote_response.
    destruct (_ >? _) eqn:E; bool_to_prop; [rewrite become_follower_node; cbn; lia|].
    destruct (_ || _); [done|]. destruct (find_peer _ _) as [[i p]|]; [|done].
    destruct (_ && _); [|done]. destruct (has_majority _ _); [|done].
    by rewrite become_leader_term.
  - unfold raft_handle_append_entries_response.
    destruct_ifs; bool_to_prop; cbn; rewrite ?become_follower_node; cbn; lia.
  - unfold raft_add_peer. destruct_ifs; done.
  - unfold raft_remove_peer. destruct_ifs; done.
  - done.
Qed.

Lemma term_monotone_witness :
  2 <= current_term (raft_tick record_cb 1300 1300 5 (demo_node RAFT_STATE_FOLLOWER 0, [])).1.
Proof.
  apply (term_monotone record_cb (demo_node RAFT_STATE_FOLLOWER 0, []));
    [apply demo_node_wf|by apply step_tick].
Defined.

(** ** Winning an election *)

Lemma find_peer_at (n : RaftNode) (id : list byte) (i : nat) (p : RaftPeer) :
  NoDup (peer_ids n) -> peers n !! i = Some p -> cstr (p_node_id p) = cstr id ->
  find_peer n id = Some (i, p).
Proof.
  intros Hnd Hi Hp. unfold find_peer. apply list_find_Some. rewrite streq_true.
  split; [done|]. split; [done|]. intros j q Hj Hlt Hq%streq_true.
  enough (i = j) by lia. eapply (NoDup_lookup (peer_ids n)); [done|..]; unfold peer_ids;
    rewrite list_lookup_fmap; [rewrite Hi|rewrite Hj]; cbn; by rewrite ?Hp, ?Hq.
Qed.

(** ** A heartbeat and its answer *)

(** C10: one heartbeat of a leader to a peer of the same term and the answer to it.
    The follower keeps its log.  When the entry at [prev_log_index] has the announced
    term, the follower takes over the leader's commit index as far as its own log
    reaches, and the leader notes the follower's own last index as matching and the
    one behind it as next, whatever entries the follower holds there.  Otherwise the
    commit index stays and the leader steps the next index back, not below 1.
    Nothing else of the leader changes. *)
Theorem heartbeat_exchange {W W' : Type} (cb : Callbacks W) (cb' : Callbacks W') (al : nat -> Alloc)
    (now : Z) (L : RaftNode * W) (F : RaftNode * W') (i : nat) (p : RaftPeer) :
  state L.1 = RAFT_STATE_LEADER -> NoDup (peer_ids L.1) -> peers L.1 !! i = Some p ->
  current_term F.1 = current_term L.1 ->
  exists req resp F', heartbeat_req L.1 p = AppendEntries req /\
    raft_handle_append_entries cb' al now F req None (ae_entry_count req) = Returns (resp, F') /\
    log F'.1 = log F.1 /\
    raft_handle_append_entries_response cb L (p_node_id p) resp
    = ({| (L.1) with peers := <[i :=
           if log_matches F.1 req
           then {| p with match_index := last_log_index F.1; next_index := last_log_index F.1 +64 1 |}
           else {| p with next_index := if next_index p >? 1 then next_index p -64 1 else next_index p |}
         ]> (peers L.1) |}, L.2) /\
    commit_index F'.1
    = (if log_matches F.1 req && (commit_index F.1 <? commit_index L.1)
       then Z.min (last_log_index F.1) (commit_index L.1) else commit_index F.1).
Proof.
  intros Hl Hnd Hi Ht. unfold heartbeat_req.
  match goal with |- context [AppendEntries ?r] => set (req := r) end. exists req.
  assert (find_peer L.1 (p_node_id p) = Some (i, p)) as Hf by (by apply find_peer_at).
  assert (ae_term req = current_term F.1) as Hr by done.
  unfold raft_handle_append_entries_response. rewrite Hf.
  rewrite (bool_decide_false (state L.1 <> RAFT_STATE_LEADER)) by (rewrite Hl; naive_solver).
  destruct (log_matches F.1 req) eqn:Em.
  - destruct (heartbeat_accepted cb' al now F req None ltac:(lia) Em) as (F' & Hh & Hlog & Hc).
    exists {| aer_term := current_term F.1; aer_success := 1; aer_match_index := last_log_index F.1 |}, F'.
    split; [done|]. split; [exact Hh|]. split; [done|]. cbn [aer_term aer_success aer_match_index andb].
    rewrite Ht, Z.gtb_ltb, Z.ltb_irrefl. split; [done|exact Hc].
  - pose proof (append_entries_mismatch cb' al now F req None 0 ltac:(lia) Em) as Hh.
    exists {| aer_term := current_term F.1; aer_success := 0; aer_match_index := last_snapshot_index F.1 |},
      (ae_start cb' now F req).
    destruct (ae_start_same_log cb' now F req) as (Hlog & _ & _ & _ & Hci & _).
    split; [done|]. split; [exact Hh|]. split; [done|]. cbn [aer_term aer_success aer_match_index andb].
    rewrite Ht, Z.gtb_ltb, Z.ltb_irrefl. split; [|exact Hci]. cbn. by destruct (next_index p >? 1), p.
Qed.

(** A follower with entries of its own is noted as holding the leader's two. *)
Lemma heartbeat_exchange_witness :
  exists req resp F',
    raft_handle_append_entries record_cb always_alloc 1100 (demo_node RAFT_STATE_FOLLOWER 0, []) req None 0
      = Returns (resp, F') /\
    peers (raft_handle_append_entries_response record_cb (demo_node RAFT_STATE_LEADER 0, [])
             (id_of "n3") resp).1
    = [demo_peer "n2" 0; {| (demo_peer "n3" 2) with next_index := 3 |}].
Proof.
  destruct (heartbeat_exchange record_cb record_cb always_alloc 1100 (demo_node RAFT_STATE_LEADER 0, [])
              (demo_node RAFT_STATE_FOLLOWER 0, []) 1 (demo_peer "n3" 0))
    as (req & resp & F' & Hq & Hh & _ & Hresp & _).
  - reflexivity.
  - apply (bool_decide_unpack _). vm_compute. exact I.
  - reflexivity.
  - reflexivity.
  - injection Hq as <-. eexists _, resp, F'. split; [exact Hh|].
    change (id_of "n3") with (p_node_id (demo_peer "n3" 0)). rewrite Hresp. reflexivity.
Defined.

(** A candidate of term [t] that counts [v] votes of [k] peers. *)
Record electing (t v k : Z) (n : RaftNode) : Prop := {
  el_state : state n = RAFT_STATE_CANDIDATE;
  el_term : current_term n = t;
  el_votes : votes_received n = v;
  el_ids : NoDup (peer_ids n);
  el_count : v = 1 + granted_count n;
  el_peers : peer_count n = k;
  el_bound : k < 2 ^ 32 - 1;
}.

(** The peers of [ids] have not granted their vote yet. *)
Definition ungranted (ids : list (list byte)) (n : RaftNode) : Prop :=
  forall id, id ∈ ids -> exists i p, peers n !! i = Some p /\ cstr (p_node_id p) = cstr id /\
    vote_granted p = false.

Section Count.
Context {W : Type} (cb : Callbacks W) (al : Alloc).

Definition grant (t : Z) (s : RaftNode * W) (id : list byte) : RaftNode * W :=
  raft_handle_request_vote_response cb al s id {| rvr_term := t; rvr_vote_granted := 1 |}.

(** Only a candidate counts. *)
Lemma grant_leader (t : Z) (s : RaftNode * W) (id : list byte) :
  state s.1 = RAFT_STATE_LEADER -> current_term s.1 = t -> grant t s id = s.
Proof.
  intros Hs Ht. unfold grant, raft_handle_request_vote_response. cbn. rewrite Ht, Z.gtb_ltb, Z.ltb_irrefl.
  by rewrite bool_decide_true by (rewrite Hs; done).
Qed.

Lemma become_leader_state (s : RaftNode * W) :
  state (become_leader cb al s).1 = RAFT_STATE_LEADER.
Proof.
  unfold become_leader, raft_submit, ensure_log_capacity. cbn.
  rewrite decide_False by (intros H; by apply H). destruct_ifs; cbn; rewrite ?persist_state_node; done.
Qed.

(** The first grant of a peer: a majority makes the node leader, otherwise it
    counts one more. *)
Lemma grant_counts (t v k : Z) (s : RaftNode * W) (id : list byte) (ids : list (list byte)) :
  electing t v k s.1 -> ungranted (id :: ids) s.1 -> NoDup (map cstr (id :: ids)) ->
  (state (grant t s id).1 = RAFT_STATE_LEADER /\ current_term (grant t s id).1 = t /\
   v + 1 > (k + 1) / 2) \/
  (electing t (v + 1) k (grant t s id).1 /\ ungranted ids (grant t s id).1 /\ v + 1 <= (k + 1) / 2).
Proof.
  intros [Hs Ht Hv Hnd Hc Hk Hb] Hu [Hid Hids]%NoDup_cons.
  destruct (Hu id) as (i & p & Hi & Hp & Hg); [left|].
  unfold grant, raft_handle_request_vote_response. cbn [rvr_term rvr_vote_granted].
  rewrite Ht, Z.gtb_ltb, Z.ltb_irrefl, bool_decide_false by (intros H; by apply H). cbn [orb].
  rewrite (find_peer_at s.1 id i p Hnd Hi Hp), Hg. cbn [negb Z.eqb andb].
  match goal with |- context [has_majority ?m _] => set (n1 := m) end.
  pose proof (granted_insert (peers s.1) i p Hi Hg) as Hcount. pose proof (granted_le n1) as Hle.
  assert (peer_count n1 = k) as Hk1 by (rewrite <- Hk; unfold peer_count; cbn; by rewrite length_insert).
  assert (granted_count n1 = v) as Hg1.
  { unfold granted_count in *. cbn. rewrite Hcount. lia. }
  assert (votes_received n1 = v + 1) as Hv1.
  { cbn. rewrite Hv, u32_small; [done|]. unfold is_u32. pose proof (granted_le s.1).
    unfold granted_count in *. lia. }
  unfold has_majority. rewrite Hk1. rewrite Hv1, Z.gtb_ltb. destruct (Z.ltb_spec ((k + 1) / 2) (v + 1)).
  - left. split; [apply become_leader_state|]. split; [|lia]. by rewrite become_leader_term.
  - right. split; [|split; [|lia]].
    + split; try done; [|change (v + 1 = 1 + granted_count n1); lia].
      unfold peer_ids. cbn. by erewrite insert_peer_ids.
    + intros id' Hin. destruct (Hu id') as (j & q & Hj & Hq & Hgq); [by right|]. exists j, q.
      split; [|done]. cbn. rewrite list_lookup_insert_ne; [done|]. intros ->. destruct Hid.
      rewrite Hi in Hj. injection Hj as <-. rewrite <- Hp, Hq. by apply list_elem_of_fmap_2.
Qed.

Lemma grants_count (t v k : Z) (ids : list (list byte)) (s : RaftNode * W) :
  electing t v k s.1 -> ungranted ids s.1 -> NoDup (map cstr ids) ->
  let s' := foldl (grant t) s ids in
  current_term s'.1 = t /\
  ((state s'.1 = RAFT_STATE_LEADER /\ ids <> [] /\ v + Z.of_nat (length ids) > (k + 1) / 2) \/
   (state s'.1 = RAFT_STATE_CANDIDATE /\
    (ids = [] \/ v + Z.of_nat (length ids) <= (k + 1) / 2))).
Proof.
  cbn zeta. revert v s. induction ids as [|id ids IH]; intros v s H Hu Hnd.
  { cbn. destruct H. tauto. }
  cbn [foldl]. destruct (grant_counts t v k s id ids H Hu Hnd) as [(Hs & Ht & Hm)|(H1 & Hu1 & Hm)].
  - assert (foldl (grant t) (grant t s id) ids = grant t s id) as ->.
    { clear -Hs Ht. generalize dependent (grant t s id). intros s1 Hs Ht.
      induction ids as [|id' ids IH]; [done|]. cbn. by rewrite grant_leader. }
    split; [done|]. left. split; [done|]. split; [done|]. cbn [length]. lia.
  - apply NoDup_cons in Hnd as [_ Hnd]. destruct (IH (v + 1) _ H1 Hu1 Hnd) as [Ht Hr].
    split; [done|]. cbn [length]. destruct Hr as [(Hs & Hne & Hm1)|(Hs & Hm1)].
    + left. split; [done|]. split; [done|]. lia.
    + right. split; [done|]. right. destruct Hm1 as [->|Hm1]; cbn [length]; lia.
Qed.
End Count.

(** C20: a majority elects.  A candidate that receives granted votes of its term
    from [ids], peers that had not voted for it yet, in whatever order and
    whatever allocations fail, is leader of that term afterwards exactly when
    there is at least one of them and its own vote, the earlier ones and these are
    more than half of the cluster; otherwise it is still a candidate of the term. *)
Theorem majority_elects {W : Type} (cb : Callbacks W) (al : Alloc) (s : RaftNode * W)
    (ids : list (list byte)) :
  raft_wf s.1 -> state s.1 = RAFT_STATE_CANDIDATE -> ungranted ids s.1 -> NoDup (map cstr ids) ->
  let resp := {| rvr_term := current_term s.1; rvr_vote_granted := 1 |} in
  let s' := foldl (fun s id => raft_handle_request_vote_response cb al s id resp) s ids in
  current_term s'.1 = current_term s.1 /\
  (state s'.1 = RAFT_STATE_LEADER <->
     ids <> [] /\ votes_received s.1 + Z.of_nat (length ids) > (peer_count s.1 + 1) / 2) /\
  (state s'.1 = RAFT_STATE_LEADER \/ state s'.1 = RAFT_STATE_CANDIDATE).
Proof.
  intros H Hs Hu Hnd. cbn zeta.
  destruct (grants_count cb al (current_term s.1) (votes_received s.1) (peer_count s.1) ids s)
    as [Ht Hr]; [|done|done|].
  { split; try done; [apply H|by apply wf_votes|apply H]. }
  unfold grant in *. split; [done|]. destruct Hr as [(-> & Hne & Hm)|(-> & Hm)].
  - split; [done|]. by left.
  - split; [|by right]. split; [done|]. intros [Hne Hm1]. destruct Hm; [done|lia].
Qed.

Lemma majority_elects_witness :
  let s := (demo_node RAFT_STATE_CANDIDATE 0, []) in
  let resp := {| rvr_term := 2; rvr_vote_granted := 1 |} in
  state (raft_handle_request_vote_response record_cb alloc_ok s (text "n3") resp).1
  = RAFT_STATE_LEADER.
Proof.
  cbn zeta.
  destruct (majority_elects record_cb alloc_ok (demo_node RAFT_STATE_CANDIDATE 0, []) [text "n3"])
    as (_ & H & _).
  - apply demo_node_wf.
  - reflexivity.
  - intros id ->%list_elem_of_singleton. exists 1%nat, (demo_peer "n3" 0). split_and!; reflexivity.
  - cbn. apply NoDup_singleton.
  - apply H. split; [discriminate|]. vm_compute. reflexivity.
Defined.
