(* ===== verification/Crc32.v ===== *)
(** * CRC-32 of the write-ahead log

    Models [crc32_table] and [crc32] of [src/cluster/raft_persistence.c] and
    proves them against the bit-by-bit definition of the reflected CRC-32
    (polynomial 0xEDB88320), from which the detection of single-byte errors
    follows. *)

From S2P Require Import Prelude.

(** ** The code *)

Definition crc32_table : list Z := [
  0x00000000; 0x77073096; 0xee0e612c; 0x990951ba; 0x076dc419; 0x706af48f;
  0xe963a535; 0x9e6495a3; 0x0edb8832; 0x79dcb8a4; 0xe0d5e91e; 0x97d2d988;
  0x09b64c2b; 0x7eb17cbd; 0xe7b82d07; 0x90bf1d91; 0x1db71064; 0x6ab020f2;
  0xf3b97148; 0x84be41de; 0x1adad47d; 0x6ddde4eb; 0xf4d4b551; 0x83d385c7;
  0x136c9856; 0x646ba8c0; 0xfd62f97a; 0x8a65c9ec; 0x14015c4f; 0x63066cd9;
  0xfa0f3d63; 0x8d080df5; 0x3b6e20c8; 0x4c69105e; 0xd56041e4; 0xa2677172;
  0x3c03e4d1; 0x4b04d447; 0xd20d85fd; 0xa50ab56b; 0x35b5a8fa; 0x42b2986c;
  0xdbbbc9d6; 0xacbcf940; 0x32d86ce3; 0x45df5c75; 0xdcd60dcf; 0xabd13d59;
  0x26d930ac; 0x51de003a; 0xc8d75180; 0xbfd06116; 0x21b4f4b5; 0x56b3c423;
  0xcfba9599; 0xb8bda50f; 0x2802b89e; 0x5f058808; 0xc60cd9b2; 0xb10be924;
  0x2f6f7c87; 0x58684c11; 0xc1611dab; 0xb6662d3d; 0x76dc4190; 0x01db7106;
  0x98d220bc; 0xefd5102a; 0x71b18589; 0x06b6b51f; 0x9fbfe4a5; 0xe8b8d433;
  0x7807c9a2; 0x0f00f934; 0x9609a88e; 0xe10e9818; 0x7f6a0dbb; 0x086d3d2d;
  0x91646c97; 0xe6635c01; 0x6b6b51f4; 0x1c6c6162; 0x856530d8; 0xf262004e;
  0x6c0695ed; 0x1b01a57b; 0x8208f4c1; 0xf50fc457; 0x65b0d9c6; 0x12b7e950;
  0x8bbeb8ea; 0xfcb9887c; 0x62dd1ddf; 0x15da2d49; 0x8cd37cf3; 0xfbd44c65;
  0x4db26158; 0x3ab551ce; 0xa3bc0074; 0xd4bb30e2; 0x4adfa541; 0x3dd895d7;
  0xa4d1c46d; 0xd3d6f4fb; 0x4369e96a; 0x346ed9fc; 0xad678846; 0xda60b8d0;
  0x44042d73; 0x33031de5; 0xaa0a4c5f; 0xdd0d7cc9; 0x5005713c; 0x270241aa;
  0xbe0b1010; 0xc90c2086; 0x5768b525; 0x206f85b3; 0xb966d409; 0xce61e49f;
  0x5edef90e; 0x29d9c998; 0xb0d09822; 0xc7d7a8b4; 0x59b33d17; 0x2eb40d81;
  0xb7bd5c3b; 0xc0ba6cad; 0xedb88320; 0x9abfb3b6; 0x03b6e20c; 0x74b1d29a;
  0xead54739; 0x9dd277af; 0x04db2615; 0x73dc1683; 0xe3630b12; 0x94643b84;
  0x0d6d6a3e; 0x7a6a5aa8; 0xe40ecf0b; 0x9309ff9d; 0x0a00ae27; 0x7d079eb1;
  0xf00f9344; 0x8708a3d2; 0x1e01f268; 0x6906c2fe; 0xf762575d; 0x806567cb;
  0x196c3671; 0x6e6b06e7; 0xfed41b76; 0x89d32be0; 0x10da7a5a; 0x67dd4acc;
  0xf9b9df6f; 0x8ebeeff9; 0x17b7be43; 0x60b08ed5; 0xd6d6a3e8; 0xa1d1937e;
  0x38d8c2c4; 0x4fdff252; 0xd1bb67f1; 0xa6bc5767; 0x3fb506dd; 0x48b2364b;
  0xd80d2bda; 0xaf0a1b4c; 0x36034af6; 0x41047a60; 0xdf60efc3; 0xa867df55;
  0x316e8eef; 0x4669be79; 0xcb61b38c; 0xbc66831a; 0x256fd2a0; 0x5268e236;
  0xcc0c7795; 0xbb0b4703; 0x220216b9; 0x5505262f; 0xc5ba3bbe; 0xb2bd0b28;
  0x2bb45a92; 0x5cb36a04; 0xc2d7ffa7; 0xb5d0cf31; 0x2cd99e8b; 0x5bdeae1d;
  0x9b64c2b0; 0xec63f226; 0x756aa39c; 0x026d930a; 0x9c0906a9; 0xeb0e363f;
  0x72076785; 0x05005713; 0x95bf4a82; 0xe2b87a14; 0x7bb12bae; 0x0cb61b38;
  0x92d28e9b; 0xe5d5be0d; 0x7cdcefb7; 0x0bdbdf21; 0x86d3d2d4; 0xf1d4e242;
  0x68ddb3f8; 0x1fda836e; 0x81be16cd; 0xf6b9265b; 0x6fb077e1; 0x18b74777;
  0x88085ae6; 0xff0f6a70; 0x66063bca; 0x11010b5c; 0x8f659eff; 0xf862ae69;
  0x616bffd3; 0x166ccf45; 0xa00ae278; 0xd70dd2ee; 0x4e048354; 0x3903b3c2;
  0xa7672661; 0xd06016f7; 0x4969474d; 0x3e6e77db; 0xaed16a4a; 0xd9d65adc;
  0x40df0b66; 0x37d83bf0; 0xa9bcae53; 0xdebb9ec5; 0x47b2cf7f; 0x30b5ffe9;
  0xbdbdf21c; 0xcabac28a; 0x53b39330; 0x24b4a3a6; 0xbad03605; 0xcdd70693;
  0x54de5729; 0x23d967bf; 0xb3667a2e; 0xc4614ab8; 0x5d681b02; 0x2a6f2b94;
  0xb40bbe37; 0xc30c8ea1; 0x5a05df1b; 0x2d02ef8d
].

(** One round: [crc = crc32_table[(crc ^ data[i]) & 0xFF] ^ (crc >> 8)]. *)
Definition crc32_update (crc : Z) (b : byte) : Z :=
  Z.lxor (nth (Z.to_nat (Z.land (Z.lxor crc (Z_of_byte b)) 0xFF)) crc32_table 0)
         (Z.shiftr crc 8).

Definition crc32 (data : list byte) : Z :=
  Z.lxor (foldl crc32_update 0xFFFFFFFF data) 0xFFFFFFFF.

(** ** Reference: one bit at a time *)

Definition crc_bit (c : Z) : Z :=
  Z.lxor (Z.shiftr c 1) (if Z.testbit c 0 then 0xEDB88320 else 0).

Definition crc_byte (c : Z) : Z :=
  crc_bit (crc_bit (crc_bit (crc_bit (crc_bit (crc_bit (crc_bit (crc_bit c))))))).

Definition crc32_ref (data : list byte) : Z :=
  Z.lxor (foldl (fun c b => crc_byte (Z.lxor c (Z_of_byte b))) 0xFFFFFFFF data) 0xFFFFFFFF.

(** ** Bit-level lemmas *)

Lemma crc_bit_lxor (a b : Z) : crc_bit (Z.lxor a b) = Z.lxor (crc_bit a) (crc_bit b).
Proof.
  unfold crc_bit. rewrite Z.shiftr_lxor, Z.lxor_spec.
  apply Z.bits_inj'. intros n _. rewrite !Z.lxor_spec.
  destruct (Z.testbit a 0), (Z.testbit b 0); cbn [xorb];
    rewrite ?Z.bits_0;
    repeat match goal with |- context [Z.testbit ?x n] => destruct (Z.testbit x n) end; done.
Qed.

Lemma crc_byte_lxor (a b : Z) : crc_byte (Z.lxor a b) = Z.lxor (crc_byte a) (crc_byte b).
Proof. unfold crc_byte. by rewrite !crc_bit_lxor. Qed.

Lemma crc_bit_even (y : Z) (k : Z) : 0 < k -> crc_bit (Z.shiftl y k) = Z.shiftl y (k - 1).
Proof.
  intros Hk. unfold crc_bit. rewrite Z.shiftl_spec_low by lia. rewrite Z.lxor_0_r.
  rewrite Z.shiftr_shiftl_l by lia. done.
Qed.

Lemma crc_byte_high (y : Z) : crc_byte (Z.shiftl y 8) = y.
Proof.
  unfold crc_byte. rewrite !crc_bit_even by lia.
  apply Z.shiftl_0_r.
Qed.

Lemma split_low_byte (c : Z) : c = Z.lxor (Z.land c 0xFF) (Z.shiftl (Z.shiftr c 8) 8).
Proof.
  apply Z.bits_inj'. intros n Hn. rewrite Z.lxor_spec.
  change 0xFF with (Z.ones 8). rewrite Z.land_spec.
  destruct (decide (n < 8)) as [H|H].
  - rewrite Z.ones_spec_low, Z.shiftl_spec_low by lia. by destruct (Z.testbit c n).
  - rewrite Z.ones_spec_high, Z.shiftl_spec, Z.shiftr_spec by lia.
    rewrite andb_false_r. by replace (n - 8 + 8) with n by lia.
Qed.

(** The 256 constants of the table are the reference values. *)
Lemma crc32_table_correct : crc32_table = map (fun i => crc_byte (Z.of_nat i)) (seq 0 256).
Proof. vm_compute. reflexivity. Qed.

Lemma crc32_table_lookup (i : Z) :
  0 <= i < 256 -> nth (Z.to_nat i) crc32_table 0 = crc_byte i.
Proof.
  intros Hi. rewrite crc32_table_correct.
  rewrite (nth_indep _ 0 (crc_byte (Z.of_nat 0))) by (rewrite length_map, length_seq; lia).
  rewrite (map_nth (fun i => crc_byte (Z.of_nat i))), seq_nth by lia.
  by rewrite Nat.add_0_l, Z2Nat.id by lia.
Qed.

Lemma byte_high_zero (b : byte) : Z.shiftr (Z_of_byte b) 8 = 0.
Proof.
  pose proof (coqutil.Byte.byte.unsigned_range b). rewrite Z.shiftr_div_pow2 by lia.
  apply Z.div_small. lia.
Qed.

(** One table round is eight bit rounds. *)
Lemma crc32_update_byte (c : Z) (b : byte) :
  crc32_update c b = crc_byte (Z.lxor c (Z_of_byte b)).
Proof.
  unfold crc32_update. set (x := Z.lxor c (Z_of_byte b)).
  assert (0 <= Z.land x 0xFF < 256) as Hr.
  { change 0xFF with (Z.ones 8). rewrite Z.land_ones by lia. apply Z.mod_pos_bound. lia. }
  rewrite crc32_table_lookup by done.
  rewrite (split_low_byte x) at 2. rewrite crc_byte_lxor, crc_byte_high. f_equal.
  unfold x. rewrite Z.shiftr_lxor, byte_high_zero. by rewrite Z.lxor_0_r.
Qed.

(** C31: the table-driven checksum equals the bit-by-bit CRC-32 on every byte
    string. *)
Theorem crc32_is_reference (data : list byte) : crc32 data = crc32_ref data.
Proof.
  unfold crc32, crc32_ref. f_equal. generalize 0xFFFFFFFF. intros c. revert c.
  induction data as [|b data IH]; intros c; simpl; [done|]. by rewrite crc32_update_byte.
Qed.

(** The check value of the CRC-32 catalogue. *)
Example crc32_check_value : crc32 (text "123456789") = 0xCBF43926.
Proof. vm_compute. reflexivity. Qed.

(** ** Error detection *)

Definition is_crc (c : Z) : Prop := 0 <= c < 2 ^ 32.

Lemma is_crc_bits (c : Z) : is_crc c <-> 0 <= c /\ forall n, 32 <= n -> Z.testbit c n = false.
Proof.
  unfold is_crc. split.
  - intros [H0 H]. split; [done|]. intros n Hn.
    destruct (decide (c = 0)) as [->|Hne]; [apply Z.bits_0|].
    apply Z.bits_above_log2; [done|]. apply Z.log2_lt_pow2; [lia|].
    eapply Z.lt_le_trans; [exact H|]. apply Z.pow_le_mono_r; lia.
  - intros [H0 H]. split; [done|]. destruct (decide (c = 0)) as [->|Hne]; [lia|].
    apply Z.log2_lt_pow2; [lia|]. destruct (decide (Z.log2 c < 32)) as [|Hge]; [done|].
    specialize (H (Z.log2 c) ltac:(lia)). rewrite Z.bit_log2 in H by lia. done.
Qed.

Lemma is_crc_lxor (a b : Z) : is_crc a -> is_crc b -> is_crc (Z.lxor a b).
Proof.
  rewrite !is_crc_bits. intros [Ha0 Ha] [Hb0 Hb]. split.
  - apply Z.lxor_nonneg. lia.
  - intros n Hn. by rewrite Z.lxor_spec, Ha, Hb.
Qed.

Lemma is_crc_byte_value (b : byte) : is_crc (Z_of_byte b).
Proof. pose proof (coqutil.Byte.byte.unsigned_range b). unfold is_crc. lia. Qed.

Lemma is_crc_shiftr (c : Z) : is_crc c -> 0 <= Z.shiftr c 1 < 2 ^ 31.
Proof.
  unfold is_crc. intros H. rewrite Z.shiftr_div_pow2 by lia.
  split; [apply Z.div_pos; lia|apply Z.div_lt_upper_bound; lia].
Qed.

Lemma is_crc_crc_bit (c : Z) : is_crc c -> is_crc (crc_bit c).
Proof.
  intros H. unfold crc_bit. apply is_crc_lxor.
  - pose proof (is_crc_shiftr c H). unfold is_crc. lia.
  - destruct (Z.testbit c 0); by unfold is_crc.
Qed.

(** The top bit of a round tells the bit that was shifted out, so a round can
    be undone. *)
Lemma crc_bit_top (c : Z) : is_crc c -> Z.testbit (crc_bit c) 31 = Z.testbit c 0.
Proof.
  intros H. unfold crc_bit. rewrite Z.lxor_spec.
  assert (Z.testbit (Z.shiftr c 1) 31 = false) as ->.
  { rewrite Z.shiftr_spec by lia. apply is_crc_bits in H as [_ H]. by apply H. }
  by destruct (Z.testbit c 0).
Qed.

Lemma crc_bit_inj (a b : Z) : is_crc a -> is_crc b -> crc_bit a = crc_bit b -> a = b.
Proof.
  intros Ha Hb Heq. pose proof (crc_bit_top a Ha) as Ta. pose proof (crc_bit_top b Hb) as Tb.
  rewrite Heq, Tb in Ta. unfold crc_bit in Heq. rewrite Ta in Heq.
  apply Z.bits_inj'. intros n Hn. destruct (decide (n = 0)) as [->|Hne]; [done|].
  apply (f_equal (fun z => Z.testbit z (n - 1))) in Heq. rewrite !Z.lxor_spec in Heq.
  rewrite !Z.shiftr_spec in Heq by lia. replace (n - 1 + 1) with n in Heq by lia.
  by destruct (Z.testbit a n), (Z.testbit b n), (Z.testbit (if Z.testbit a 0 then _ else _) _).
Qed.

Lemma is_crc_crc_byte (c : Z) : is_crc c -> is_crc (crc_byte c).
Proof. intros H. unfold crc_byte. do 8 apply is_crc_crc_bit. done. Qed.

Lemma crc_byte_inj (a b : Z) : is_crc a -> is_crc b -> crc_byte a = crc_byte b -> a = b.
Proof.
  intros Ha Hb H. unfold crc_byte in H.
  do 8 (apply crc_bit_inj in H; [|by auto 12 using is_crc_crc_bit|by auto 12 using is_crc_crc_bit]).
  done.
Qed.

Lemma lxor_cancel_l (a b c : Z) : Z.lxor c a = Z.lxor c b -> a = b.
Proof.
  intros H. apply (f_equal (Z.lxor c)) in H.
  by rewrite <- !Z.lxor_assoc, Z.lxor_nilpotent, !Z.lxor_0_l in H.
Qed.

Lemma lxor_cancel_r (a b c : Z) : Z.lxor a c = Z.lxor b c -> a = b.
Proof. rewrite !(Z.lxor_comm _ c). apply lxor_cancel_l. Qed.

Lemma is_crc_fold (data : list byte) (c : Z) : is_crc c -> is_crc (foldl crc32_update c data).
Proof.
  revert c. induction data as [|b data IH]; intros c H; simpl; [done|].
  apply IH. rewrite crc32_update_byte. apply is_crc_crc_byte, is_crc_lxor; [done|].
  apply is_crc_byte_value.
Qed.

Lemma crc_fold_inj (data : list byte) (c d : Z) :
  is_crc c -> is_crc d -> foldl crc32_update c data = foldl crc32_update d data -> c = d.
Proof.
  revert c d. induction data as [|b data IH]; intros c d Hc Hd; simpl; [done|].
  intros H. apply IH in H; [|by apply (is_crc_fold [b])|by apply (is_crc_fold [b])].
  rewrite !crc32_update_byte in H.
  apply crc_byte_inj in H; [|apply is_crc_lxor; [done|apply is_crc_byte_value]
                            |apply is_crc_lxor; [done|apply is_crc_byte_value]].
  by apply lxor_cancel_r in H.
Qed.

Lemma crc32_range (data : list byte) : is_u32 (crc32 data).
Proof. apply is_crc_lxor; [by apply is_crc_fold|by unfold is_crc]. Qed.

(** Consecutive bytes enter the register as one word: they are exclusive-ored
    into it before its shifts. *)
Definition crc_bytes (k : nat) (c : Z) : Z := Nat.iter k crc_byte c.

Lemma le_byte_lxor (b : byte) (h : Z) :
  Z.lor (Z_of_byte b) (Z.shiftl h 8) = Z.lxor (Z_of_byte b) (Z.shiftl h 8).
Proof.
  apply Z.bits_inj'. intros n Hn. rewrite Z.lor_spec, Z.lxor_spec.
  destruct (decide (n < 8)) as [H|H].
  - rewrite Z.shiftl_spec_low by lia. by rewrite orb_false_r, xorb_false_r.
  - assert (Z.testbit (Z_of_byte b) n = false) as ->.
    { replace n with (n - 8 + 8) by lia. rewrite <- Z.shiftr_spec by lia.
      by rewrite byte_high_zero, Z.bits_0. }
    by destruct (Z.testbit _ n).
Qed.

Lemma crc_fold_word (bs : list byte) (c : Z) :
  foldl crc32_update c bs = crc_bytes (length bs) (Z.lxor c (of_host bs)).
Proof.
  unfold crc_bytes, of_host. revert c. induction bs as [|b bs IH]; intros c.
  - symmetry. apply Z.lxor_0_r.
  - cbn [foldl length]. rewrite IH, Nat.iter_succ_r.
    change (LittleEndianList.le_combine (b :: bs))
      with (Z.lor (Z_of_byte b) (Z.shiftl (LittleEndianList.le_combine bs) 8)).
    rewrite le_byte_lxor, <- Z.lxor_assoc, crc_byte_lxor, crc_byte_high.
    by rewrite crc32_update_byte.
Qed.

Lemma is_crc_bytes (k : nat) (c : Z) : is_crc c -> is_crc (crc_bytes k c).
Proof.
  intros Hc. induction k as [|k IH]; [done|]. by apply is_crc_crc_byte.
Qed.

Lemma crc_bytes_inj (k : nat) (a b : Z) :
  is_crc a -> is_crc b -> crc_bytes k a = crc_bytes k b -> a = b.
Proof.
  intros Ha Hb. induction k as [|k IH]; [done|]. intros H.
  apply IH. apply crc_byte_inj in H; [done|by apply is_crc_bytes..].
Qed.

(** The checksum detects every burst of up to 32 bits: two byte strings of
    the same length that differ only within four consecutive bytes have
    different checksums. *)
Theorem crc32_detects_burst (pre post xs ys : list byte) :
  length xs = length ys -> (length xs <= 4)%nat -> xs <> ys ->
  crc32 (pre ++ xs ++ post) <> crc32 (pre ++ ys ++ post).
Proof.
  intros Hlen H4 Hne H. apply Hne. unfold crc32 in H. apply lxor_cancel_r in H.
  rewrite !foldl_app in H. set (c := foldl crc32_update 0xFFFFFFFF pre) in H.
  assert (is_crc c) as Hc by (by apply is_crc_fold).
  apply crc_fold_inj in H; [|by apply is_crc_fold..].
  assert (forall zs, (length zs <= 4)%nat -> is_crc (of_host zs)) as Hw.
  { intros zs Hz. pose proof (of_host_bound zs). unfold is_crc.
    assert (2 ^ (8 * Z.of_nat (length zs)) <= 2 ^ 32) by (apply Z.pow_le_mono_r; lia). lia. }
  rewrite !crc_fold_word, <- Hlen in H.
  apply crc_bytes_inj in H; [|apply is_crc_lxor; [done|apply Hw; lia]..].
  apply lxor_cancel_l in H. by apply LittleEndianList.le_combine_inj.
Qed.

Lemma crc32_detects_burst_witness :
  crc32 (text "ab" ++ text "wxyz" ++ text "d") <> crc32 (text "ab" ++ text "1234" ++ text "d").
Proof. apply crc32_detects_burst; [reflexivity|vm_compute; lia|discriminate]. Defined.

Lemma crc32_byte_neq (pre post : list byte) (x y : byte) :
  x <> y -> crc32 (pre ++ x :: post) <> crc32 (pre ++ y :: post).
Proof.
  intros Hxy H. apply Hxy. unfold crc32 in H. apply lxor_cancel_r in H.
  rewrite !foldl_app in H. cbn [foldl] in H.
  set (c := foldl crc32_update 0xFFFFFFFF pre) in H.
  assert (is_crc c) as Hc by (by apply is_crc_fold).
  apply crc_fold_inj in H; [|by apply (is_crc_fold [x])|by apply (is_crc_fold [y])].
  rewrite !crc32_update_byte in H.
  apply crc_byte_inj in H; [|apply is_crc_lxor; [done|apply is_crc_byte_value]
                            |apply is_crc_lxor; [done|apply is_crc_byte_value]].
  apply lxor_cancel_l in H. by apply coqutil.Byte.byte.unsigned_inj.
Qed.
