(* ===== verification/RaftPersist.v ===== *)
(** * Raft persistence: write-ahead log and snapshots

    Models [src/cluster/raft_persistence.c].  The file system is a finite map
    from paths to contents.  The results of [open], [malloc], [realloc] and the
    number of bytes every [write] stores are arguments, so that short writes
    and failures are executions of the model; reads of regular files return
    what is there. *)

From S2P Require Import Prelude RaftCore RaftInv RaftSpec Crc32.

(** ** Format *)

Definition WAL_MAGIC : Z := 0x52414654.
Definition WAL_VERSION : Z := 1.
Definition ENTRY_MAGIC : Z := 0xE0E0E0E0.
Definition SNAP_MAGIC : Z := 0x534E4150.

Abbreviation FS := (gmap (list byte) (list byte)).

(** The fallback for hosts without [htobe64]: the bytes of the result are those of
    the argument in reverse order. *)
Definition htobe64 (z : Z) : Z :=
  let src := host_bytes 8 z in
  of_host (map (fun i => nth (7 - i) src x00) (seq 0 8)).

(** [ensure_directory]: whether [stat] and [mkdir] succeed, and whether the error of
    [mkdir] is [EEXIST].  Its callers do not look at the result. *)
Definition ensure_directory (stat_ok mkdir_ok eexist : bool) : Z :=
  if negb stat_ok && negb mkdir_ok && negb eexist then -1 else 0.

(** [snprintf(path, 256, ...)] *)
Definition wal_path (id : list byte) : list byte :=
  take 255 (text "./raft_data/" ++ cstr id ++ text ".wal").

Definition snapshot_path (id : list byte) : list byte :=
  take 255 (text "./raft_data/" ++ cstr id ++ text ".snap").

(** Memory image of [WalHeader] (64 bytes) and [WalEntryHeader] (25 bytes), as
    [raft_persist_state] fills them. *)
Definition wal_header (n : RaftNode) : list byte :=
  net_bytes 4 WAL_MAGIC ++ net_bytes 4 WAL_VERSION ++ net_bytes 8 (current_term n)
  ++ strncpy (zeros 37) (voted_for n) 36 ++ zeros 11.

Definition wal_entry_header (e : RaftLogEntry) : list byte :=
  net_bytes 4 ENTRY_MAGIC ++ net_bytes 8 (e_term e) ++ net_bytes 8 (e_index e)
  ++ [byte_of_Z (e_type e)] ++ net_bytes 4 (Z.of_nat (length (e_data e))).

(** Header and data, then the checksum of both. *)
Definition wal_entry_body (e : RaftLogEntry) : list byte := wal_entry_header e ++ e_data e.
Definition wal_entry_crc (e : RaftLogEntry) : list byte := net_bytes 4 (crc32 (wal_entry_body e)).

(** ** Writing *)

(** [we_write k len] is the result of the [k]-th [write], of [len] bytes: [None]
    for -1, otherwise the number of bytes it stores, at most [len]. *)
Record WriteEnv : Type := {
  we_open : bool;
  we_alloc : nat -> bool;
  we_write : nat -> nat -> option nat;
}.

Definition write_ok : WriteEnv :=
  {| we_open := true; we_alloc := fun _ => true; we_write := fun _ len => Some len |}.

(** [write(fd, buf, len) == len] and the file afterwards. *)
Definition sys_write (r : nat -> option nat) (file buf : list byte) : bool * list byte :=
  match r (length buf) with
  | None => (false, file)
  | Some k => (bool_decide (length buf <= k)%nat, file ++ take k buf)
  end.

Fixpoint persist_entries (env : WriteEnv) (i : nat) (es : list RaftLogEntry)
    (file : list byte) : Z * list byte :=
  match es with
  | [] => (0, file)
  | e :: es' =>
      if negb (we_alloc env i) then (-1, file)
      else
        let (ok1, file1) := sys_write (we_write env (2 * i + 1)) file (wal_entry_body e) in
        if negb ok1 then (-1, file1)
        else
          let (ok2, file2) := sys_write (we_write env (2 * i + 2)) file1 (wal_entry_crc e) in
          if negb ok2 then (-1, file2)
          else persist_entries env (S i) es' file2
  end.

Definition raft_persist_state (env : WriteEnv) (fs : FS) (n : RaftNode) : Z * FS :=
  if negb (we_open env) then (-1, fs)
  else
    let (ok, file) := sys_write (we_write env 0) [] (wal_header n) in
    if negb ok then (-1, <[wal_path (node_id n) := file]> fs)
    else
      let (rc, file') := persist_entries env 0 (log n) file in
      (rc, <[wal_path (node_id n) := file']> fs).

(** ** Reading *)

Record ReadEnv : Type := {
  rd_open : bool;
  rd_data : nat -> bool;      (* malloc of the entry data *)
  rd_buf : nat -> bool;       (* malloc of the checksum buffer, not checked *)
  rd_realloc : nat -> bool;
}.

Definition read_ok : ReadEnv :=
  {| rd_open := true; rd_data := fun _ => true; rd_buf := fun _ => true;
     rd_realloc := fun _ => true |}.

(** The [while (1)] loop: [i] counts rounds, [rest] is the unread file. *)
Fixpoint restore_entries (env : ReadEnv) (fuel : nat) (i : nat) (rest : list byte)
    (n : RaftNode) : outcome RaftNode :=
  match fuel with
  | O => Returns n
  | S fuel' =>
      let hdr := take 25 rest in
      let rest1 := drop 25 rest in
      if negb (Nat.eqb (length hdr) 25) then Returns n
      else if negb (of_net (field 0 4 hdr) =? ENTRY_MAGIC) then Returns n
      else
        let data_len := of_net (field 21 4 hdr) in
        let data := take (Z.to_nat data_len) rest1 in
        let rest2 := drop (Z.to_nat data_len) rest1 in
        if negb (rd_data env i) || negb (Z.of_nat (length data) =? data_len) then Returns n
        else if negb (Nat.eqb (length (take 4 rest2)) 4) then Returns n
        else if negb (rd_buf env i) then Undefined
        else if negb (of_net (take 4 rest2) =? crc32 (hdr ++ data)) then Returns n
        else
          let full := log_count n >=? log_capacity n in
          if full && negb (rd_realloc env i) then Returns n
          else
            let cap := if full
                       then (if log_capacity n =? 0 then 16 else u64 (log_capacity n * 2))
                       else log_capacity n in
            let entry := {| e_term := of_net (field 4 8 hdr);
                            e_index := of_net (field 12 8 hdr);
                            e_data := data;
                            e_type := of_net (field 20 1 hdr) |} in
            restore_entries env fuel' (S i) (drop 4 rest2)
              {| n with log := log n ++ [entry]; log_capacity := cap |}
  end.

Definition raft_restore_state (env : ReadEnv) (fs : FS) (n : RaftNode)
  : outcome (Z * RaftNode) :=
  match fs !! wal_path (node_id n) with
  | None => Returns (0, n)
  | Some file =>
      if negb (rd_open env) then Returns (-1, n)
      else if (length file <? 64)%nat then Returns (-1, n)
      else if negb (of_net (field 0 4 file) =? WAL_MAGIC) then Returns (-1, n)
      else
        let n1 := {| n with
          current_term := of_net (field 8 8 file);
          voted_for := strncpy (voted_for n) (field 16 37 file) 36 |} in
        match restore_entries env (S (length file)) 0 (drop 64 file) n1 with
        | Undefined => Undefined
        | Returns n2 => Returns (0, n2)
        end
  end.

(** ** Snapshots *)

Definition snap_header (index term len : Z) : list byte :=
  net_bytes 4 SNAP_MAGIC ++ net_bytes 8 index ++ net_bytes 8 term ++ net_bytes 4 len.

Definition raft_save_snapshot (env : WriteEnv) (fs : FS) (n : RaftNode)
    (index term : Z) (data : list byte) : Z * FS * RaftNode :=
  let path := snapshot_path (node_id n) in
  if negb (we_open env) then (-1, fs, n)
  else
    let (ok1, file1) := sys_write (we_write env 0) []
                          (snap_header index term (Z.of_nat (length data))) in
    if negb ok1 then (-1, <[path := file1]> fs, n)
    else
      let (ok2, file2) := sys_write (we_write env 1) file1 data in
      if negb ok2 then (-1, <[path := file2]> fs, n)
      else (0, <[path := file2]> fs,
            {| n with last_snapshot_index := index;
                      last_snapshot_term := term;
                      log := filter (fun e => index < e_index e) (log n) |}).

(** Result: return code and, on success with a snapshot file, what is stored
    through the [index], [term], [data] and [len] pointers. *)
Definition raft_load_snapshot (env : ReadEnv) (fs : FS) (n : RaftNode)
  : Z * option (Z * Z * list byte) :=
  match fs !! snapshot_path (node_id n) with
  | None => (0, None)
  | Some file =>
      if negb (rd_open env) then (-1, None)
      else if (length file <? 24)%nat then (-1, None)
      else if negb (of_net (field 0 4 file) =? SNAP_MAGIC) then (-1, None)
      else
        let len := of_net (field 20 4 file) in
        let data := take (Z.to_nat len) (drop 24 file) in
        if negb (rd_data env 0) || negb (Z.of_nat (length data) =? len) then (-1, None)
        else (0, Some (of_net (field 4 8 file), of_net (field 12 8 file), data))
  end.

(** ** The image of a node on disk *)

Definition wal_entry (e : RaftLogEntry) : list byte := wal_entry_body e ++ wal_entry_crc e.

(** What a complete [raft_persist_state] leaves in the file. *)
Definition wal_image (n : RaftNode) : list byte := wal_header n ++ concat (map wal_entry (log n)).

(** Entries whose fields fit the fields of the file format. *)
Definition entry_fits (e : RaftLogEntry) : Prop :=
  is_u64 (e_term e) /\ is_u64 (e_index e) /\ is_u8 (e_type e) /\
  Z.of_nat (length (e_data e)) < 2 ^ 32.

(** The fallback leaves the big-endian image in memory, as the models of the file
    and wire formats assume. *)
Lemma htobe64_image (z : Z) : host_bytes 8 (htobe64 z) = net_bytes 8 z.
Proof.
  unfold htobe64, net_bytes. set (src := host_bytes 8 z).
  assert (map (fun i => nth (7 - i) src x00) (seq 0 8) = rev src) as ->.
  { pose proof (length_host_bytes 8 z) as Hl. fold src in Hl.
    destruct src as [|b0 [|b1 [|b2 [|b3 [|b4 [|b5 [|b6 [|b7 [|]]]]]]]]]; done. }
  rewrite <- (length_host_bytes 8 z) at 1. fold src. rewrite <- length_rev.
  apply LittleEndianList.split_le_combine.
Qed.

Lemma htobe64_involutive (z : Z) : is_u64 z -> htobe64 (htobe64 z) = z.
Proof.
  intros Hz. unfold htobe64 at 1. rewrite htobe64_image.
  assert (map (fun i => nth (7 - i) (net_bytes 8 z) x00) (seq 0 8) = host_bytes 8 z) as ->.
  { unfold net_bytes. pose proof (length_host_bytes 8 z) as Hl.
    destruct (host_bytes 8 z) as [|b0 [|b1 [|b2 [|b3 [|b4 [|b5 [|b6 [|b7 [|]]]]]]]]]; done. }
  rewrite of_host_bytes. apply Z.mod_small. exact Hz.
Qed.

Lemma length_wal_header (n : RaftNode) : length (wal_header n) = 64%nat.
Proof. unfold wal_header. rewrite !length_app, length_strncpy; len. Qed.

Lemma length_wal_entry_header (e : RaftLogEntry) : length (wal_entry_header e) = 25%nat.
Proof. unfold wal_entry_header. by len. Qed.

Lemma length_wal_entry (e : RaftLogEntry) :
  length (wal_entry e) = (29 + length (e_data e))%nat.
Proof.
  unfold wal_entry, wal_entry_body, wal_entry_crc. rewrite !length_app, length_wal_entry_header. len.
Qed.

Lemma of_net_byte (z : Z) : is_u8 z -> of_net [byte_of_Z z] = z.
Proof.
  intros H. change [byte_of_Z z] with (net_bytes 1 z). rewrite of_net_bytes.
  by apply Z.mod_small.
Qed.

(** ** Reading back entries *)

(** The checks of one round, up to the append. *)
Definition entry_of_header (hdr data : list byte) : RaftLogEntry :=
  {| e_term := of_net (field 4 8 hdr); e_index := of_net (field 12 8 hdr);
     e_data := data; e_type := of_net (field 20 1 hdr) |}.

Lemma entry_of_wal_header (e : RaftLogEntry) :
  entry_fits e ->
  entry_of_header (wal_entry_header e) (e_data e) = e /\
  of_net (field 0 4 (wal_entry_header e)) = ENTRY_MAGIC /\
  of_net (field 21 4 (wal_entry_header e)) = Z.of_nat (length (e_data e)).
Proof.
  intros (Ht & Hi & Hty & Hl). unfold entry_of_header, wal_entry_header.
  read_fields. rewrite of_net_byte, !of_net_bytes8, !of_net_bytes4 by (done || solve_u).
  split; [by destruct e|done].
Qed.

(** The capacity after one restored entry. *)
Definition grown (n : RaftNode) : Z :=
  if log_count n >=? log_capacity n
  then (if log_capacity n =? 0 then 16 else u64 (log_capacity n * 2))
  else log_capacity n.

(** A well-formed record followed by anything is consumed and appended. *)
Lemma restore_one (env : ReadEnv) (fuel i : nat) (e : RaftLogEntry) (rest : list byte)
    (n : RaftNode) :
  entry_fits e -> rd_data env i = true -> rd_buf env i = true -> rd_realloc env i = true ->
  restore_entries env (S fuel) i (wal_entry e ++ rest) n
  = restore_entries env fuel (S i) rest
      {| n with log := log n ++ [e]; log_capacity := grown n |}.
Proof.
  intros Hf Hd Hb Hr. destruct (entry_of_wal_header e Hf) as (He & Hm & Hlen).
  cbn [restore_entries]. unfold wal_entry, wal_entry_body. rewrite <- !app_assoc.
  rewrite (take_app_length' (wal_entry_header e)), (drop_app_length' (wal_entry_header e))
    by (symmetry; apply length_wal_entry_header).
  rewrite length_wal_entry_header, Hm, Hlen, Nat2Z.id.
  rewrite (take_app_length' (e_data e)), (drop_app_length' (e_data e)) by done.
  rewrite (take_app_length' (wal_entry_crc e)), (drop_app_length' (wal_entry_crc e))
    by (symmetry; apply length_net_bytes).
  unfold wal_entry_crc. rewrite length_net_bytes, of_net_bytes4 by apply crc32_range.
  unfold wal_entry_body. rewrite Hd, Hb, Hr, !Z.eqb_refl.
  cbn [negb orb Nat.eqb]. rewrite andb_false_r. unfold entry_of_header in He.
  rewrite He. done.
Qed.

(** Restoring whole records, then whatever the loop does with the rest. *)
Fixpoint grow_all (n : RaftNode) (es : list RaftLogEntry) : RaftNode :=
  match es with
  | [] => n
  | e :: es' => grow_all {| n with log := log n ++ [e]; log_capacity := grown n |} es'
  end.

Lemma grow_all_node (es : list RaftLogEntry) (n : RaftNode) :
  exists cap, grow_all n es = {| n with log := log n ++ es; log_capacity := cap |}.
Proof.
  revert n. induction es as [|e es IH]; intros n; simpl.
  - exists (log_capacity n). rewrite app_nil_r. by destruct n.
  - destruct (IH {| n with log := log n ++ [e]; log_capacity := grown n |}) as [cap Hcap].
    exists cap. rewrite Hcap. cbn. by rewrite <- app_assoc.
Qed.

Definition read_succeeds (env : ReadEnv) : Prop :=
  rd_open env = true /\
  forall i, rd_data env i = true /\ rd_buf env i = true /\ rd_realloc env i = true.

Lemma restore_many (env : ReadEnv) (es : list RaftLogEntry) (fuel i : nat)
    (rest : list byte) (n : RaftNode) :
  read_succeeds env -> Forall entry_fits es ->
  restore_entries env (length es + fuel) i (concat (map wal_entry es) ++ rest) n
  = restore_entries env fuel (i + length es) rest (grow_all n es).
Proof.
  intros [Ho Henv]. revert i n. induction es as [|e es IH]; intros i n Hf;
    cbn [length Nat.add concat map grow_all].
  - by rewrite Nat.add_0_r.
  - apply Forall_cons in Hf as [He Hes]. destruct (Henv i) as (? & ? & ?).
    rewrite <- app_assoc, restore_one by done. rewrite IH by done.
    by rewrite Nat.add_succ_r.
Qed.

(** A truncated record stops the loop. *)
Lemma restore_torn (env : ReadEnv) (fuel i k : nat) (e : RaftLogEntry) (n : RaftNode) :
  entry_fits e -> (k < length (wal_entry e))%nat ->
  restore_entries env fuel i (take k (wal_entry e)) n = Returns n.
Proof.
  intros Hf Hk. destruct fuel as [|fuel]; [done|]. cbn [restore_entries].
  destruct (entry_of_wal_header e Hf) as (_ & _ & Hlen).
  rewrite length_wal_entry in Hk. rewrite take_take.
  destruct (decide (k < 25)%nat) as [Hlt|Hge].
  { rewrite length_take, length_wal_entry. replace (_ `min` _)%nat with k by lia.
    by rewrite (proj2 (Nat.eqb_neq k 25)) by lia. }
  rewrite Nat.min_l by lia. unfold wal_entry, wal_entry_body. rewrite <- !app_assoc.
  rewrite (take_app_length' (wal_entry_header e)) by (symmetry; apply length_wal_entry_header).
  rewrite take_app, (take_ge (wal_entry_header e)), length_wal_entry_header
    by (rewrite length_wal_entry_header; lia).
  rewrite (drop_app_length' (wal_entry_header e)) by (symmetry; apply length_wal_entry_header).
  cbn [negb Nat.eqb]. destruct (_ =? ENTRY_MAGIC); [|done]. cbn [negb].
  rewrite Hlen, Nat2Z.id, take_take.
  destruct (decide (k - 25 < length (e_data e))%nat) as [Hlt|Hge'].
  { rewrite length_take, length_app. unfold wal_entry_crc. rewrite length_net_bytes.
    rewrite (proj2 (Z.eqb_neq _ _)) by lia. by rewrite orb_true_r. }
  destruct (_ || _); [done|].
  rewrite length_take, length_drop, length_take, length_app. unfold wal_entry_crc.
  rewrite length_net_bytes. by rewrite (proj2 (Nat.eqb_neq _ 4)) by lia.
Qed.

Lemma restore_empty (env : ReadEnv) (fuel i : nat) (n : RaftNode) :
  restore_entries env fuel i [] n = Returns n.
Proof. by destruct fuel. Qed.

(** The number of complete records among the first [k] bytes. *)
Fixpoint whole_records (k : nat) (es : list RaftLogEntry) : nat :=
  match es with
  | [] => 0
  | e :: es' =>
      if (length (wal_entry e) <=? k)%nat
      then S (whole_records (k - length (wal_entry e)) es') else 0
  end.

Lemma whole_records_all (es : list RaftLogEntry) (k : nat) :
  (length (concat (map wal_entry es)) <= k)%nat -> whole_records k es = length es.
Proof.
  revert k. induction es as [|e es IH]; intros k Hk;
    cbn [whole_records concat map length] in *; [done|].
  rewrite length_app in Hk. rewrite (proj2 (Nat.leb_le _ _)) by lia.
  rewrite IH; [done|lia].
Qed.

Lemma restore_prefix (env : ReadEnv) (es : list RaftLogEntry) (fuel i k : nat)
    (n : RaftNode) :
  read_succeeds env -> Forall entry_fits es -> (k < fuel)%nat ->
  restore_entries env fuel i (take k (concat (map wal_entry es))) n
  = Returns (grow_all n (take (whole_records k es) es)).
Proof.
  intros Henv. revert fuel i k n.
  induction es as [|e es IH]; intros fuel i k n Hf Hk; cbn [concat map whole_records].
  { rewrite take_nil. by rewrite restore_empty. }
  apply Forall_cons in Hf as [He Hes].
  destruct (Nat.leb_spec (length (wal_entry e)) k) as [Hle|Hlt].
  - rewrite take_app_ge by done. destruct fuel as [|fuel]; [lia|].
    destruct Henv as [Ho Hall]. destruct (Hall i) as (? & ? & ?).
    rewrite restore_one by done. rewrite length_wal_entry in *.
    rewrite IH; [done|done|lia].
  - rewrite take_app_le by lia. rewrite restore_torn by done. done.
Qed.

Lemma wal_image_take (n : RaftNode) (k : nat) :
  (64 <= k)%nat ->
  take k (wal_image n) = wal_header n ++ take (k - 64) (concat (map wal_entry (log n))).
Proof.
  intros Hk. unfold wal_image.
  rewrite take_app_ge by (rewrite length_wal_header; lia). by rewrite length_wal_header.
Qed.

Lemma wal_header_fields (n : RaftNode) (rest : list byte) :
  is_u64 (current_term n) ->
  of_net (field 0 4 (wal_header n ++ rest)) = WAL_MAGIC /\
  of_net (field 8 8 (wal_header n ++ rest)) = current_term n /\
  field 16 37 (wal_header n ++ rest) = strncpy (zeros 37) (voted_for n) 36.
Proof.
  intros Ht. unfold wal_header. rewrite <- !app_assoc.
  assert (length (strncpy (zeros 37) (voted_for n) 36) = 37%nat) as Hl
    by (rewrite length_strncpy; len).
  generalize dependent (strncpy (zeros 37) (voted_for n) 36). intros vote Hl.
  read_fields.
  by rewrite of_net_bytes4, of_net_bytes8 by (done || solve_u).
Qed.

(** The node [restore] builds from a readable header and [es]. *)
Definition restored (m n : RaftNode) (es : list RaftLogEntry) : RaftNode :=
  grow_all {| m with current_term := current_term n;
                     voted_for := strncpy (voted_for m)
                                    (strncpy (zeros 37) (voted_for n) 36) 36 |} es.

Lemma restore_image (env : ReadEnv) (fs : FS) (m n : RaftNode) (k : nat) :
  read_succeeds env -> is_u64 (current_term n) -> Forall entry_fits (log n) ->
  fs !! wal_path (node_id m) = Some (take k (wal_image n)) ->
  (k <= length (wal_image n))%nat ->
  raft_restore_state env fs m
  = if (k <? 64)%nat then Returns (-1, m)
    else Returns (0, restored m n (take (whole_records (k - 64) (log n)) (log n))).
Proof.
  intros Henv Ht Hf Hfs Hk. unfold raft_restore_state. rewrite Hfs.
  rewrite (proj1 Henv), length_take, Nat.min_l by done. cbn [negb].
  destruct (Nat.ltb_spec k 64) as [Hlt|Hge]; [done|].
  rewrite wal_image_take by done.
  destruct (wal_header_fields n (take (k - 64) (concat (map wal_entry (log n)))) Ht)
    as (-> & -> & ->).
  rewrite Z.eqb_refl. cbn [negb]. rewrite drop_app_length' by (symmetry; apply length_wal_header).
  rewrite restore_prefix by (done || lia). done.
Qed.

Lemma restored_fields (m n : RaftNode) (es : list RaftLogEntry) :
  char_array 37 (voted_for m) -> char_array 37 (voted_for n) ->
  exists cap,
    restored m n es
    = {| m with current_term := current_term n;
                voted_for := voted_for (restored m n es);
                log := log m ++ es; log_capacity := cap |} /\
    char_array 37 (voted_for (restored m n es)) /\
    cstr (voted_for (restored m n es)) = cstr (voted_for n).
Proof.
  intros Hm Hn. unfold restored. edestruct grow_all_node as [cap ->].
  exists cap. cbn. split; [done|]. split; [auto with droole|].
  rewrite !cstr_strncpy37; auto with droole.
Qed.

(** ** Writing leaves a prefix of the image *)

Lemma sys_write_prefix (r : nat -> option nat) (file buf : list byte) :
  exists k, (sys_write r file buf).2 = file ++ take k buf /\
    ((sys_write r file buf).1 = true -> take k buf = buf).
Proof.
  unfold sys_write. destruct (r (length buf)) as [k|]; cbn.
  - exists k. split; [done|]. intros H%bool_decide_eq_true. by apply take_ge.
  - exists 0%nat. rewrite take_0, app_nil_r. done.
Qed.

Lemma persist_entries_prefix (env : WriteEnv) (es : list RaftLogEntry) (i : nat)
    (file : list byte) :
  exists k, (persist_entries env i es file).2 = file ++ take k (concat (map wal_entry es)) /\
    ((persist_entries env i es file).1 = 0 ->
     take k (concat (map wal_entry es)) = concat (map wal_entry es)).
Proof.
  revert i file. induction es as [|e es IH]; intros i file; cbn [persist_entries concat map].
  { exists 0%nat. simpl. by rewrite app_nil_r. }
  destruct (we_alloc env i); cbn [negb].
  2:{ exists 0%nat. rewrite take_0, app_nil_r. done. }
  unfold wal_entry at 1 3 5. rewrite <- !app_assoc.
  destruct (sys_write_prefix (we_write env (2 * i + 1)) file (wal_entry_body e)) as (k1 & H1 & Hf1).
  destruct (sys_write _ file (wal_entry_body e)) as [[|] file1]; cbn [negb fst snd] in *; subst file1.
  2:{ exists (k1 `min` length (wal_entry_body e))%nat. split; [|done].
      rewrite take_app_le by lia. by rewrite <- (take_take _ k1), firstn_all. }
  rewrite (Hf1 eq_refl). clear k1 Hf1.
  destruct (sys_write_prefix (we_write env (2 * i + 2)) (file ++ wal_entry_body e)
              (wal_entry_crc e)) as (k2 & H2 & Hf2).
  destruct (sys_write _ _ (wal_entry_crc e)) as [[|] file2]; cbn [negb fst snd] in *; subst file2.
  2:{ exists (length (wal_entry_body e) + k2 `min` length (wal_entry_crc e))%nat. split; [|done].
      rewrite take_app_add, take_app_le by lia.
      by rewrite <- (take_take _ k2), firstn_all, app_assoc. }
  rewrite (Hf2 eq_refl). clear k2 Hf2.
  destruct (IH (S i) ((file ++ wal_entry_body e) ++ wal_entry_crc e)) as (k & Hk & Hall).
  exists (length (wal_entry_body e ++ wal_entry_crc e) + k)%nat.
  rewrite (app_assoc (wal_entry_body e)), take_app_add. split.
  - rewrite Hk. by rewrite <- !app_assoc.
  - intros H0. by rewrite Hall.
Qed.

Lemma persist_prefix (env : WriteEnv) (fs : FS) (n : RaftNode) :
  we_open env = true ->
  exists k, (k <= length (wal_image n))%nat /\
    (raft_persist_state env fs n).2 = <[wal_path (node_id n) := take k (wal_image n)]> fs /\
    ((raft_persist_state env fs n).1 = 0 -> k = length (wal_image n)).
Proof.
  intros Ho. unfold raft_persist_state. rewrite Ho. cbn [negb].
  assert (forall k, take (k `min` length (wal_image n)) (wal_image n) = take k (wal_image n)) as Hmin
    by (intros k; by rewrite <- (take_take _ k), firstn_all).
  destruct (sys_write_prefix (we_write env 0) [] (wal_header n)) as (k1 & H1 & Hf1).
  destruct (sys_write _ [] (wal_header n)) as [[|] file1]; cbn [negb fst snd] in *; subst file1.
  2:{ exists ((k1 `min` length (wal_header n)) `min` length (wal_image n))%nat.
      split; [lia|]. split; [|done]. rewrite Hmin. unfold wal_image.
      rewrite take_app_le by lia. by rewrite <- (take_take _ k1), firstn_all. }
  rewrite (Hf1 eq_refl). simpl app.
  destruct (persist_entries_prefix env (log n) 0 (wal_header n)) as (k & Hk & Hall).
  destruct (persist_entries _ _ _ _) as [rc file2]. cbn [fst snd] in *. subst file2.
  exists ((length (wal_header n) + k) `min` length (wal_image n))%nat. split; [lia|]. split.
  - rewrite Hmin. unfold wal_image. by rewrite take_app_add.
  - intros H0. specialize (Hall H0). apply (f_equal length) in Hall. rewrite length_take in Hall.
    unfold wal_image. rewrite length_app. lia.
Qed.

(** ** Recovery *)

(** A node with nothing in memory yet, under the same id: what
    [raft_restore_state] is called on at start-up. *)
Record fresh_for (n m : RaftNode) : Prop := {
  fresh_id : cstr (node_id m) = cstr (node_id n);
  fresh_voted_for : char_array 37 (voted_for m);
  fresh_log : log m = [];
}.

(** Nodes the file format can hold. *)
Record storable (n : RaftNode) : Prop := {
  st_term : is_u64 (current_term n);
  st_voted_for : char_array 37 (voted_for n);
  st_entries : Forall entry_fits (log n);
}.

(** [m'] is [m] with the persistent state of [n] cut to its first [k] entries. *)
Definition recovered (n m m' : RaftNode) (k : nat) : Prop :=
  m' = {| m with current_term := current_term n; voted_for := voted_for m';
                 log := take k (log n); log_capacity := log_capacity m' |} /\
  cstr (voted_for m') = cstr (voted_for n).

Lemma restored_recovered (n m : RaftNode) (k : nat) :
  storable n -> fresh_for n m -> recovered n m (restored m n (take k (log n))) k.
Proof.
  intros [_ Hn _] [_ Hm Hlog]. unfold recovered.
  destruct (restored_fields m n (take k (log n)) Hm Hn) as (cap & Heq & _ & Hv).
  split; [|done]. rewrite Heq at 1. rewrite Hlog. f_equal. by rewrite Heq.
Qed.

Lemma restore_image_fresh (env : ReadEnv) (fs : FS) (n m : RaftNode) (k : nat) :
  read_succeeds env -> storable n -> fresh_for n m -> (k <= length (wal_image n))%nat ->
  fs !! wal_path (node_id n) = Some (take k (wal_image n)) ->
  raft_restore_state env fs m
  = if (k <? 64)%nat then Returns (-1, m)
    else Returns (0, restored m n (take (whole_records (k - 64) (log n)) (log n))).
Proof.
  intros Henv [Ht _ He] [Hid _ _] Hk Hfs. apply restore_image; try done.
  unfold wal_path in *. by rewrite Hid.
Qed.

Lemma persist_restore (wenv : WriteEnv) (renv : ReadEnv) (fs : FS) (n m : RaftNode) :
  (raft_persist_state wenv fs n).1 = 0 -> read_succeeds renv ->
  storable n -> fresh_for n m ->
  raft_restore_state renv (raft_persist_state wenv fs n).2 m
  = Returns (0, restored m n (take (length (log n)) (log n))).
Proof.
  intros Hrc Henv Hn Hm.
  destruct (we_open wenv) eqn:Ho.
  2:{ unfold raft_persist_state in Hrc. by rewrite Ho in Hrc. }
  destruct (persist_prefix wenv fs n Ho) as (k & Hk & Hfs & Hall).
  rewrite Hfs, (restore_image_fresh renv _ n m k) by (done || apply lookup_insert_eq).
  specialize (Hall Hrc). subst k. unfold wal_image. rewrite length_app, length_wal_header.
  rewrite (proj2 (Nat.ltb_ge _ _)) by lia. by rewrite whole_records_all by lia.
Qed.

(** C27: a successful [raft_persist_state] followed by [raft_restore_state] on a
    fresh node of the same id restores the term, the vote and the whole log, and
    touches nothing else: no matter what was in the file before. *)
Theorem wal_roundtrip (wenv : WriteEnv) (renv : ReadEnv) (fs : FS) (n m : RaftNode) :
  (raft_persist_state wenv fs n).1 = 0 -> read_succeeds renv ->
  storable n -> fresh_for n m ->
  exists m', raft_restore_state renv (raft_persist_state wenv fs n).2 m = Returns (0, m') /\
    recovered n m m' (length (log n)).
Proof.
  intros Hrc Henv Hn Hm. eexists. split; [by apply persist_restore|].
  by apply restored_recovered.
Qed.

(** C12: crash safety of the log file.  Whatever allocation or [write] fails (or
    stores only part of its buffer) during [raft_persist_state], the file holds
    a prefix of the image; restoring from such a prefix refuses a torn header
    without touching the node, and otherwise yields the new term and vote with
    the entries whose records are complete: a prefix of the log, never a
    corrupted entry. *)
Theorem wal_torn_recovery (wenv : WriteEnv) (renv : ReadEnv) (fs : FS) (n m : RaftNode) :
  we_open wenv = true -> read_succeeds renv -> storable n -> fresh_for n m ->
  exists k, (raft_persist_state wenv fs n).2 !! wal_path (node_id n)
            = Some (take k (wal_image n)) /\
    ((k < 64)%nat ->
     raft_restore_state renv (raft_persist_state wenv fs n).2 m = Returns (-1, m)) /\
    ((64 <= k)%nat -> exists m',
     raft_restore_state renv (raft_persist_state wenv fs n).2 m = Returns (0, m') /\
     recovered n m m' (whole_records (k - 64) (log n))).
Proof.
  intros Ho Henv Hn Hm.
  destruct (persist_prefix wenv fs n Ho) as (k & Hk & Hfs & _).
  exists k. rewrite Hfs. split; [apply lookup_insert_eq|].
  rewrite (restore_image_fresh renv _ n m k) by (done || apply lookup_insert_eq).
  split; intros Hlt.
  - by rewrite (proj2 (Nat.ltb_lt _ _)).
  - rewrite (proj2 (Nat.ltb_ge _ _)) by done. eexists. split; [done|].
    by apply restored_recovered.
Qed.

(** ** Corruption *)

(** A complete record whose checksum does not match ends the loop. *)
Lemma restore_bad_record (env : ReadEnv) (fuel i : nat) (hdr data crc rest : list byte)
    (n : RaftNode) :
  length hdr = 25%nat -> of_net (field 21 4 hdr) = Z.of_nat (length data) ->
  length crc = 4%nat -> of_net crc <> crc32 (hdr ++ data) -> rd_buf env i = true ->
  restore_entries env fuel i (hdr ++ data ++ crc ++ rest) n = Returns n.
Proof.
  intros Hh Hd Hc Hne Hb. destruct fuel as [|fuel]; [done|]. cbn [restore_entries].
  rewrite (take_app_length' hdr), (drop_app_length' hdr) by done.
  rewrite Hh, Hd, Nat2Z.id. cbn [negb Nat.eqb].
  destruct (_ =? ENTRY_MAGIC); [|done]. cbn [negb].
  rewrite (take_app_length' data), (drop_app_length' data) by done.
  destruct (_ || _); [done|]. rewrite (take_app_length' crc) by done.
  rewrite Hc, Hb. cbn [negb Nat.eqb]. by rewrite (proj2 (Z.eqb_neq _ _)).
Qed.

Lemma crc32_insert_neq (l : list byte) (j : nat) (x b : byte) :
  l !! j = Some x -> b <> x -> crc32 (<[j := b]> l) <> crc32 l.
Proof.
  intros Hj Hb. rewrite insert_take_drop by (by eapply lookup_lt_Some).
  rewrite <- (take_drop_middle l j x Hj) at 3. by apply crc32_byte_neq.
Qed.

Lemma of_net_inj (a b : list byte) : length a = length b -> of_net a = of_net b -> a = b.
Proof.
  intros Hl H. rewrite <- (net_bytes_of_net a), <- (net_bytes_of_net b). by rewrite Hl, H.
Qed.

Lemma insert_neq (l : list byte) (j : nat) (x b : byte) :
  l !! j = Some x -> b <> x -> <[j := b]> l <> l.
Proof.
  intros Hj Hb He. apply Hb. apply (f_equal (fun l => l !! j)) in He.
  rewrite list_lookup_insert_eq, Hj in He by (by eapply lookup_lt_Some). congruence.
Qed.

(** The bytes of a record whose change the checksum can detect: all but the
    length field, which decides where the checksum is read. *)
Definition covered_byte (j : nat) : Prop := (j < 21 \/ 25 <= j)%nat.

Lemma field_insert (off w j : nat) (b : byte) (l : list byte) :
  (j < off)%nat -> field off w (<[j := b]> l) = field off w l.
Proof. intros Hj. unfold field. by rewrite drop_insert_lt. Qed.

Lemma restore_corrupt (env : ReadEnv) (fuel i j : nat) (e : RaftLogEntry) (x b : byte)
    (rest : list byte) (n : RaftNode) :
  entry_fits e -> rd_buf env i = true -> covered_byte j ->
  wal_entry e !! j = Some x -> b <> x ->
  restore_entries env fuel i (<[j := b]> (wal_entry e) ++ rest) n = Returns n.
Proof.
  intros Hf Hb Hcov Hj Hne. destruct (entry_of_wal_header e Hf) as (_ & _ & Hlen).
  pose proof (length_wal_entry_header e) as Hh. unfold wal_entry in *.
  assert (of_net (wal_entry_crc e) = crc32 (wal_entry_body e)) as Hcrc
    by apply of_net_bytes4, crc32_range.
  assert (length (wal_entry_crc e) = 4%nat) as Hc4 by apply length_net_bytes.
  destruct (decide (j < length (wal_entry_body e))%nat) as [Hin|Hout].
  - rewrite insert_app_l by done. rewrite lookup_app_l in Hj by done.
    pose proof (crc32_insert_neq _ _ _ _ Hj Hne) as Hd. rewrite <- Hcrc in Hd.
    unfold wal_entry_body in *. destruct (decide (j < 25)%nat) as [H25|H25].
    + rewrite insert_app_l in * by lia. rewrite <- !app_assoc.
      apply restore_bad_record; try done; [by rewrite length_insert|].
      destruct Hcov; [|lia]. by rewrite field_insert.
    + rewrite insert_app_r_alt in * by lia. rewrite <- !app_assoc.
      apply restore_bad_record; try done. by rewrite length_insert.
  - rewrite insert_app_r_alt by lia. rewrite lookup_app_r in Hj by lia.
    unfold wal_entry_body at 1. rewrite <- !app_assoc.
    apply restore_bad_record; try done; [by rewrite length_insert|].
    change (wal_entry_header e ++ e_data e) with (wal_entry_body e).
    rewrite <- Hcrc. intros He. apply of_net_inj in He; [|by rewrite length_insert].
    by eapply insert_neq.
Qed.

(** Where the record of entry number [k] starts in the file. *)
Definition record_offset (n : RaftNode) (k : nat) : nat :=
  64 + length (concat (map wal_entry (take k (log n)))).

Lemma wal_image_split (n : RaftNode) (k : nat) (e : RaftLogEntry) :
  log n !! k = Some e ->
  wal_image n = (wal_header n ++ concat (map wal_entry (take k (log n))))
                ++ wal_entry e ++ concat (map wal_entry (drop (S k) (log n))).
Proof.
  intros Hk. unfold wal_image. rewrite <- (take_drop_middle (log n) k e Hk) at 1.
  rewrite map_app, concat_app. cbn [map concat]. by rewrite app_assoc.
Qed.

(** C28: a log file in which one byte of the record of entry [k] was altered
    (anywhere but in its length field) is detected by the checksum: restoring
    succeeds and yields exactly the entries before the damaged one. *)
Theorem wal_corruption_detected (renv : ReadEnv) (fs : FS) (n m : RaftNode)
    (k j : nat) (e : RaftLogEntry) (x b : byte) :
  read_succeeds renv -> storable n -> fresh_for n m ->
  log n !! k = Some e -> wal_entry e !! j = Some x -> b <> x -> covered_byte j ->
  fs !! wal_path (node_id n) = Some (<[record_offset n k + j := b]> (wal_image n))%nat ->
  exists m', raft_restore_state renv fs m = Returns (0, m') /\ recovered n m m' k.
Proof.
  intros Henv Hn Hm Hk Hj Hb Hcov Hfs. exists (restored m n (take k (log n))).
  split; [|by apply restored_recovered].
  unfold raft_restore_state. destruct Hm as [Hid _ _]. destruct Hn as [Ht _ He].
  assert (wal_path (node_id m) = wal_path (node_id n)) as -> by (unfold wal_path; by rewrite Hid).
  rewrite Hfs, (proj1 Henv), length_insert. cbn [negb].
  assert (length (wal_header n ++ concat (map wal_entry (take k (log n)))) = record_offset n k)
    as Hoff by (unfold record_offset; by rewrite length_app, length_wal_header).
  rewrite (wal_image_split n k e Hk), insert_app_r_alt by lia.
  rewrite Hoff, Nat.add_sub_swap, Nat.sub_diag, Nat.add_0_l by lia.
  rewrite insert_app_l by (by eapply lookup_lt_Some).
  rewrite !length_app, length_wal_header, (proj2 (Nat.ltb_ge _ _)) by lia.
  rewrite <- app_assoc. edestruct wal_header_fields as (-> & -> & ->); [done|].
  rewrite Z.eqb_refl. cbn [negb].
  rewrite drop_app_length' by (symmetry; apply length_wal_header).
  set (rest := _ ++ concat (map wal_entry (drop (S k) _))).
  set (fuel := S _). assert (exists f, fuel = length (take k (log n)) + f)%nat as [f ->].
  { eexists (fuel - length (take k (log n)))%nat. unfold fuel.
    assert (length (take k (log n)) <= length (concat (map wal_entry (take k (log n)))))%nat; [|lia].
    clear. induction (take k (log n)) as [|e l IH]; [done|]. cbn [length map concat].
    rewrite length_app, length_wal_entry. lia. }
  rewrite restore_many by (done || by apply Forall_take). unfold rest.
  rewrite restore_corrupt with (x := x); try done; [|by apply Henv].
  by eapply Forall_lookup_1.
Qed.

(** [raft_persist_state] is not atomic.  It truncates the file before it
    writes, so when the first [write] fails it reports -1 and the state that was
    safely stored before is gone: the next restore fails and leaves the node
    empty. *)
Theorem persist_failure_loses_state (wenv : WriteEnv) (renv : ReadEnv) (fs : FS)
    (n m : RaftNode) :
  we_open wenv = true -> we_write wenv 0 64 = None ->
  rd_open renv = true -> cstr (node_id m) = cstr (node_id n) ->
  (raft_persist_state wenv fs n).1 = -1 /\
  raft_restore_state renv (raft_persist_state wenv fs n).2 m = Returns (-1, m).
Proof.
  intros Ho Hw Hr Hid. unfold raft_persist_state, raft_restore_state, sys_write.
  rewrite Ho, length_wal_header, Hw. cbn. split; [done|]. unfold wal_path. rewrite Hid, lookup_insert_eq. by rewrite Hr.
Qed.

(** ** Snapshots *)

(** In a log without gaps, keeping the entries above [index] is dropping the
    first ones. *)
Lemma filter_contiguous (es : list RaftLogEntry) (k index : Z) :
  contiguous k es ->
  filter (fun e => index < e_index e) es = drop (Z.to_nat (index - k)) es.
Proof.
  revert k. induction es as [|e es IH]; intros k Hc; [by rewrite drop_nil|].
  apply contiguous_cons in Hc as [He Hc]. rewrite filter_cons.
  destruct (decide (index < e_index e)) as [H|H].
  - rewrite (IH (k + 1)) by done.
    replace (Z.to_nat (index - (k + 1))) with 0%nat by lia.
    by replace (Z.to_nat (index - k)) with 0%nat by lia.
  - rewrite (IH (k + 1)) by done.
    by replace (Z.to_nat (index - k)) with (S (Z.to_nat (index - (k + 1)))) by lia.
Qed.

Lemma contiguous_drop (es : list RaftLogEntry) (k : Z) (d : nat) :
  contiguous k es -> contiguous (k + Z.of_nat d) (drop d es).
Proof. intros H i e He. rewrite lookup_drop in He. apply H in He. lia. Qed.

(** A snapshot between the previous one and the end of the log. *)
Definition snapshot_in_log (n : RaftNode) (index : Z) : Prop :=
  last_snapshot_index n <= index <= last_log_index n.

Section SaveSnapshot.
Context (n n' : RaftNode) (index term : Z).
Hypothesis Hwf : log_wf n.
Hypothesis Hin : snapshot_in_log n index.
Hypothesis Hn' : n' = {| n with last_snapshot_index := index; last_snapshot_term := term;
                           log := filter (fun e => index < e_index e) (log n) |}.

Let d : nat := Z.to_nat (index - last_snapshot_index n).

Lemma snapshot_log : log n' = drop d (log n).
Proof. rewrite Hn'. cbn. by apply filter_contiguous. Qed.

Lemma snapshot_d : Z.of_nat d = index - last_snapshot_index n /\ (d <= length (log n))%nat.
Proof.
  unfold snapshot_in_log in Hin. rewrite last_log_index_wf in Hin by done.
  unfold d, log_count in *. lia.
Qed.

Lemma snapshot_log_wf : log_wf n'.
Proof.
  apply contiguous_log. rewrite snapshot_log.
  replace (last_snapshot_index n') with (last_snapshot_index n + Z.of_nat d)
    by (rewrite (proj1 snapshot_d), Hn'; cbn; lia).
  by apply contiguous_drop.
Qed.

Lemma snapshot_count : log_count n' = log_count n - (index - last_snapshot_index n).
Proof.
  unfold log_count. rewrite snapshot_log, length_drop. pose proof snapshot_d. lia.
Qed.

Lemma snapshot_last : last_log_index n' = last_log_index n.
Proof.
  rewrite !last_log_index_wf by (done || apply snapshot_log_wf). rewrite snapshot_count.
  rewrite Hn'. cbn. lia.
Qed.

Lemma snapshot_entry (idx : Z) : index < idx -> get_log_entry n' idx = get_log_entry n idx.
Proof.
  intros Hi. pose proof snapshot_d as [Hd _]. destruct Hin as [Hlo _].
  apply option_eq. intros e. rewrite !get_log_entry_Some, snapshot_log, lookup_drop.
  replace (last_snapshot_index n') with index by (by rewrite Hn').
  replace (d + Z.to_nat (idx - index - 1))%nat
    with (Z.to_nat (idx - last_snapshot_index n - 1)) by lia.
  split; intros [_ H]; split; (done || lia).
Qed.

Lemma snapshot_wf : raft_wf n -> raft_wf n'.
Proof.
  intros H. pose proof snapshot_count as Hc. pose proof snapshot_last as Hl.
  pose proof snapshot_log_wf as Hw. pose proof Hin as [Hi _].
  unfold room, snapshot_in_log in *. rewrite Hn' in *.
  destruct H; constructor; try done; unfold room in *; cbn in *; lia.
Qed.
End SaveSnapshot.

Lemma save_snapshot_ok (env : WriteEnv) (fs : FS) (n : RaftNode) (index term : Z)
    (data : list byte) :
  (raft_save_snapshot env fs n index term data).1.1 = 0 ->
  raft_save_snapshot env fs n index term data
  = (0, <[snapshot_path (node_id n)
           := snap_header index term (Z.of_nat (length data)) ++ data]> fs,
     {| n with last_snapshot_index := index; last_snapshot_term := term;
               log := filter (fun e => index < e_index e) (log n) |}).
Proof.
  unfold raft_save_snapshot. destruct (we_open env); [|done]. cbn [negb].
  set (hdr := snap_header _ _ _).
  destruct (sys_write_prefix (we_write env 0) [] hdr) as (k1 & H1 & Hf1).
  destruct (sys_write _ [] hdr) as [[|] file1]; cbn [negb fst snd] in *; [|done].
  rewrite H1, (Hf1 eq_refl). cbn [app].
  destruct (sys_write_prefix (we_write env 1) hdr data) as (k2 & H2 & Hf2).
  destruct (sys_write _ hdr data) as [[|] file2]; cbn [negb fst snd] in *; [|done].
  by rewrite H2, (Hf2 eq_refl).
Qed.

(** A snapshot at an index of the log keeps the log consistent.  The
    entries above the index stay reachable under the same index, the ones up to
    it are gone, the last index does not move, [term_at_index] answers the
    snapshot's term at the snapshot index, and the node invariant holds. *)
Theorem snapshot_keeps_tail (env : WriteEnv) (fs fs' : FS) (n n' : RaftNode)
    (index term : Z) (data : list byte) :
  raft_wf n -> snapshot_in_log n index -> 0 < index ->
  raft_save_snapshot env fs n index term data = (0, fs', n') ->
  raft_wf n' /\ last_log_index n' = last_log_index n /\
  (forall idx, index < idx -> get_log_entry n' idx = get_log_entry n idx) /\
  (forall idx, idx <= index -> get_log_entry n' idx = None) /\
  term_at_index n' index = term.
Proof.
  intros Hwf Hin Hpos Hs. pose proof (wf_log n Hwf) as Hlog.
  rewrite save_snapshot_ok in Hs by (by rewrite Hs). injection Hs as _ Hn'. symmetry in Hn'.
  split; [by eapply snapshot_wf|]. split; [by eapply snapshot_last|].
  split; [intros idx; by eapply snapshot_entry|]. rewrite Hn'. split.
  - intros idx Hi. apply get_log_entry_None. by left.
  - unfold term_at_index. cbn. rewrite (proj2 (Z.eqb_neq _ _)) by lia. by rewrite Z.eqb_refl.
Qed.

(** Loading after a successful save, on any node of the same id, returns the
    index, the term and the data that were saved. *)
Theorem snapshot_roundtrip (wenv : WriteEnv) (renv : ReadEnv) (fs : FS) (n m : RaftNode)
    (index term : Z) (data : list byte) :
  (raft_save_snapshot wenv fs n index term data).1.1 = 0 -> read_succeeds renv ->
  is_u64 index -> is_u64 term -> Z.of_nat (length data) < 2 ^ 32 ->
  cstr (node_id m) = cstr (node_id n) ->
  raft_load_snapshot renv (raft_save_snapshot wenv fs n index term data).1.2 m
  = (0, Some (index, term, data)).
Proof.
  intros Hrc [Ho Henv] Hi Ht Hl Hid. rewrite save_snapshot_ok by done. cbn [fst snd].
  unfold raft_load_snapshot, snapshot_path. rewrite Hid, lookup_insert_eq, Ho. cbn [negb].
  unfold snap_header. rewrite <- !app_assoc. read_fields.
  rewrite !of_net_bytes8, !of_net_bytes4 by (done || solve_u).
  rewrite Nat2Z.id. rewrite (proj2 (Nat.ltb_ge _ _)) by len. rewrite Z.eqb_refl. cbn [negb].
  rewrite !app_assoc, drop_app_length' by len. rewrite firstn_all, (proj2 (Z.eqb_eq _ _)) by lia.
  destruct (Henv 0%nat) as [-> _]. done.
Qed.

(** A restart after a snapshot breaks log addressing.  The write-ahead log
    does not store the snapshot index and nothing calls [raft_load_snapshot] at
    start-up, so a node that took a snapshot at [index], persisted and restarted
    finds under every index the entry whose real index is [index] higher. *)
Theorem snapshot_restart_shifts_log (wenv wenv' : WriteEnv) (renv : ReadEnv) (fs fs1 : FS)
    (n n1 m : RaftNode) (index term : Z) (data : list byte) :
  raft_wf n -> storable n -> snapshot_in_log n index -> 0 < index ->
  raft_save_snapshot wenv fs n index term data = (0, fs1, n1) ->
  (raft_persist_state wenv' fs1 n1).1 = 0 ->
  read_succeeds renv -> fresh_for n1 m -> last_snapshot_index m = 0 ->
  exists m', raft_restore_state renv (raft_persist_state wenv' fs1 n1).2 m = Returns (0, m') /\
    last_snapshot_index m' = 0 /\
    forall idx e, get_log_entry m' idx = Some e -> e_index e = idx + index.
Proof.
  intros Hwf Hst Hin Hpos Hs Hrc Henv Hfresh Hm0.
  rewrite save_snapshot_ok in Hs by (by rewrite Hs). injection Hs as _ Hn1. symmetry in Hn1.
  pose proof (snapshot_log_wf n n1 index term (wf_log n Hwf) Hin Hn1) as Hlog1.
  assert (storable n1) as Hst1.
  { destruct Hst. rewrite Hn1. constructor; try done. cbn.
    apply Forall_forall. intros e [_ He]%list_elem_of_filter. by eapply Forall_forall in He. }
  eexists. split; [by apply persist_restore|].
  destruct (restored_recovered n1 m (length (log n1)) Hst1 Hfresh) as [Heq _].
  rewrite Heq. cbn. split; [done|]. intros idx e [Hi He]%get_log_entry_Some. cbn in Hi, He.
  rewrite firstn_all in He. apply Hlog1 in He.
  assert (last_snapshot_index n1 = index) by (by rewrite Hn1). lia.
Qed.

(** ** Concrete runs *)

Definition demo_stored : RaftNode := demo_node RAFT_STATE_FOLLOWER 0.

Lemma demo_storable : storable demo_stored.
Proof. split; [done|by split|]. repeat constructor; done. Qed.

Lemma demo_fresh : fresh_for demo_stored demo_init.
Proof. split; [vm_compute; reflexivity|by split|done]. Qed.

Lemma read_ok_succeeds : read_succeeds read_ok.
Proof. by split. Qed.

Lemma wal_roundtrip_witness :
  exists m', raft_restore_state read_ok (raft_persist_state write_ok ∅ demo_stored).2 demo_init
             = Returns (0, m') /\ recovered demo_stored demo_init m' 2.
Proof.
  apply (wal_roundtrip write_ok read_ok ∅ demo_stored demo_init).
  - vm_compute. reflexivity.
  - exact read_ok_succeeds.
  - exact demo_storable.
  - exact demo_fresh.
Defined.

(** The disk is full after 10 bytes of the second record. *)
Definition disk_full : WriteEnv :=
  {| we_open := true; we_alloc := fun _ => true;
     we_write := fun k len => if decide (k = 3)%nat then Some 10%nat else Some len |}.

Lemma wal_torn_recovery_witness :
  (raft_persist_state disk_full ∅ demo_stored).1 = -1 /\
  exists k, (raft_persist_state disk_full ∅ demo_stored).2 !! wal_path (node_id demo_stored)
            = Some (take k (wal_image demo_stored)) /\
    ((k < 64)%nat ->
     raft_restore_state read_ok (raft_persist_state disk_full ∅ demo_stored).2 demo_init
     = Returns (-1, demo_init)) /\
    ((64 <= k)%nat -> exists m',
     raft_restore_state read_ok (raft_persist_state disk_full ∅ demo_stored).2 demo_init
     = Returns (0, m') /\
     recovered demo_stored demo_init m' (whole_records (k - 64) (log demo_stored))).
Proof.
  split; [vm_compute; reflexivity|].
  apply (wal_torn_recovery disk_full read_ok ∅ demo_stored demo_init).
  - reflexivity.
  - exact read_ok_succeeds.
  - exact demo_storable.
  - exact demo_fresh.
Defined.

(** The command byte of the second entry flipped on disk. *)
Definition demo_damaged : FS :=
  <[wal_path (node_id demo_stored) := <[119%nat := "x"%byte]> (wal_image demo_stored)]> ∅.

Lemma wal_corruption_detected_witness :
  exists m', raft_restore_state read_ok demo_damaged demo_init = Returns (0, m') /\
    recovered demo_stored demo_init m' 1.
Proof.
  apply (wal_corruption_detected read_ok demo_damaged demo_stored demo_init 1 25
           (demo_entry 2 2 "b") "b"%byte "x"%byte).
  - exact read_ok_succeeds.
  - exact demo_storable.
  - exact demo_fresh.
  - reflexivity.
  - vm_compute. reflexivity.
  - discriminate.
  - right. lia.
  - vm_compute. reflexivity.
Defined.

Definition disk_error : WriteEnv :=
  {| we_open := true; we_alloc := fun _ => true; we_write := fun _ _ => None |}.

Lemma persist_failure_loses_state_witness :
  (raft_persist_state disk_error (raft_persist_state write_ok ∅ demo_stored).2 demo_stored).1 = -1 /\
  raft_restore_state read_ok
    (raft_persist_state disk_error (raft_persist_state write_ok ∅ demo_stored).2 demo_stored).2
    demo_init = Returns (-1, demo_init).
Proof. apply persist_failure_loses_state; vm_compute; reflexivity. Defined.

Definition demo_saved : Z * FS * RaftNode :=
  raft_save_snapshot write_ok ∅ demo_stored 1 1 (text "state").

Lemma demo_saved_ok : demo_saved = (0, demo_saved.1.2, demo_saved.2).
Proof.
  assert (demo_saved.1.1 = 0) as H by (vm_compute; reflexivity). rewrite <- H.
  by destruct demo_saved as [[? ?] ?].
Qed.

Lemma snapshot_keeps_tail_witness :
  last_log_index demo_saved.2 = 2 /\ term_at_index demo_saved.2 1 = 1 /\
  (forall idx, 1 < idx -> get_log_entry demo_saved.2 idx = get_log_entry demo_stored idx).
Proof.
  destruct (snapshot_keeps_tail write_ok ∅ demo_saved.1.2 demo_stored demo_saved.2 1 1
              (text "state")) as (_ & Hl & Hk & _ & Ht).
  - apply demo_node_wf.
  - vm_compute. split; discriminate.
  - lia.
  - exact demo_saved_ok.
  - split; [rewrite Hl; reflexivity|]. split; [exact Ht|exact Hk].
Defined.

Lemma snapshot_roundtrip_witness :
  raft_load_snapshot read_ok demo_saved.1.2 demo_init = (0, Some (1, 1, text "state")).
Proof.
  apply (snapshot_roundtrip write_ok read_ok ∅ demo_stored demo_init 1 1 (text "state")).
  - vm_compute. reflexivity.
  - exact read_ok_succeeds.
  - vm_compute. split; [discriminate|reflexivity].
  - vm_compute. split; [discriminate|reflexivity].
  - vm_compute. reflexivity.
  - vm_compute. reflexivity.
Defined.

Lemma snapshot_restart_shifts_log_witness :
  exists m', raft_restore_state read_ok
               (raft_persist_state write_ok demo_saved.1.2 demo_saved.2).2 demo_init
             = Returns (0, m') /\
    last_snapshot_index m' = 0 /\
    forall idx e, get_log_entry m' idx = Some e -> e_index e = idx + 1.
Proof.
  apply (snapshot_restart_shifts_log write_ok write_ok read_ok ∅ demo_saved.1.2 demo_stored
           demo_saved.2 demo_init 1 1 (text "state")).
  - apply demo_node_wf.
  - exact demo_storable.
  - vm_compute. split; discriminate.
  - lia.
  - exact demo_saved_ok.
  - vm_compute. reflexivity.
  - exact read_ok_succeeds.
  - split; [vm_compute; reflexivity|by split|done].
  - reflexivity.
Defined.
