(* ===== verification/RaftMem.v ===== *)
(** * The log in memory

    [RaftCore] keeps the log as a list of entries.  In [src/cluster/raft_core.c]
    and [src/cluster/raft_persistence.c] it is an array that [realloc] moves and
    grows, whose slots hold pointers to separately allocated data.  This file
    models that memory: blocks in a heap, slots that are uninitialised or stale
    beyond [log_count], and, as [Undefined], a [free] of a block that is not
    allocated and an access outside an array.

    [owns] says which blocks belong to the node beside a frame it does not touch;
    [node_at] says that the node in memory holds a given [RaftNode].  Every
    operation that allocates or frees is shown to do to the blocks what [RaftCore]
    and [RaftPersist] say of the lists, and [raft_destroy] to give back the frame. *)

From S2P Require Import Prelude RaftCore RaftInv RaftSpec Crc32 RaftPersist.

(** ** Memory *)

Abbreviation addr := positive.

(** [RaftLogEntry] with its data pointer. *)
Record MEntry : Type := {
  m_term : Z;
  m_index : Z;
  m_data : option addr;
  m_data_len : Z;
  m_entry_type : Z;
}.

(** What an allocated block holds: bytes, an array of entries (an uninitialised
    slot is [None]), an array of peers likewise, the node struct. *)
Inductive block : Type :=
  | Bytes (b : list byte)
  | Entries (slots : list (option MEntry))
  | PeerArray (slots : list (option RaftPeer))
  | NodeStruct.

Abbreviation heap := (gmap addr block).

(** The pointers and counters of a [RaftNode] that say what it owns. *)
Record MNode : Type := {
  mn_self : addr;
  mn_log : option addr;
  mn_log_count : Z;
  mn_log_capacity : Z;
  mn_peers : option addr;
  mn_peer_count : Z;
  mn_peer_capacity : Z;
  mn_snapshot_data : option addr;
  mn_last_snapshot_index : Z;
}.

(** Sequencing: what follows undefined behaviour is undefined. *)
#[export] Instance outcome_bind : MBind outcome := fun A B f x =>
  match x with Returns a => f a | Undefined => Undefined end.

(** [free]: NULL is allowed, an address that is not allocated is not. *)
Definition free (p : option addr) (h : heap) : outcome heap :=
  match p with
  | None => Returns h
  | Some a => match h !! a with Some _ => Returns (delete a h) | None => Undefined end
  end.

(** The array behind [node->log]; NULL has no slots. *)
Definition log_slots (m : MNode) (h : heap) : outcome (list (option MEntry)) :=
  match mn_log m with
  | None => Returns []
  | Some a => match h !! a with Some (Entries s) => Returns s | _ => Undefined end
  end.

(** [node->log[i]] *)
Definition log_read (m : MNode) (h : heap) (i : nat) : outcome MEntry :=
  s ← log_slots m h;
  match s !! i with Some (Some e) => Returns e | _ => Undefined end.

(** [node->log[i] = e]; [None] leaves the slot partly written. *)
Definition log_write (m : MNode) (h : heap) (i : nat) (e : option MEntry) : outcome heap :=
  match mn_log m with
  | None => Undefined
  | Some a =>
      s ← log_slots m h;
      if (i <? length s)%nat then Returns (<[a := Entries (<[i := e]> s)]> h) else Undefined
  end.

(** The array behind [node->peers]. *)
Definition peer_slots (p : option addr) (h : heap) : outcome (list (option RaftPeer)) :=
  match p with
  | None => Returns []
  | Some a => match h !! a with Some (PeerArray s) => Returns s | _ => Undefined end
  end.

(** [node->peers[i]] *)
Definition peer_read (m : MNode) (h : heap) (i : nat) : outcome RaftPeer :=
  s ← peer_slots (mn_peers m) h;
  match s !! i with Some (Some p) => Returns p | _ => Undefined end.

(** Replacing the contents of the array. *)
Definition peers_store (m : MNode) (h : heap) (s : list (option RaftPeer)) : outcome heap :=
  match mn_peers m with None => Undefined | Some a => Returns (<[a := PeerArray s]> h) end.

(** [node->peers[i] = p] *)
Definition peer_write (m : MNode) (h : heap) (i : nat) (p : RaftPeer) : outcome heap :=
  s ← peer_slots (mn_peers m) h;
  if (i <? length s)%nat then peers_store m h (<[i := Some p]> s) else Undefined.

(** [memmove] of [k] slots from position [src] to position [dst]. *)
Definition memmove_slots {A} (dst src k : nat) (s : list A) : outcome (list A) :=
  if (length s <? src + k)%nat || (length s <? dst + k)%nat then Undefined
  else Returns (take dst s ++ take k (drop src s) ++ drop (dst + k) s).

(** The slot that holds an entry whose data is at [p]. *)
Definition slot_of (x : RaftLogEntry * addr) : MEntry :=
  {| m_term := e_term x.1; m_index := e_index x.1; m_data := Some x.2;
     m_data_len := Z.of_nat (length (e_data x.1)); m_entry_type := e_type x.1 |}.

Section Memory.
(** Where [malloc] and [realloc] put a block, when they succeed. *)
Context (pick : heap -> addr) (grow : heap -> option addr -> addr).

(** [raft_init], when [calloc] succeeds. *)
Definition m_init (h : heap) : MNode * heap :=
  let a := pick h in
  ({| mn_self := a; mn_log := None; mn_log_count := 0; mn_log_capacity := 0;
      mn_peers := None; mn_peer_count := 0; mn_peer_capacity := 0;
      mn_snapshot_data := None; mn_last_snapshot_index := 0 |}, <[a := NodeStruct]> h).

(** [realloc(p, ...)]: the old block goes, the new one holds [b]. *)
Definition realloc (p : option addr) (b : block) (h : heap) : addr * heap :=
  let a := grow h p in
  (a, <[a := b]> (match p with Some q => delete q h | None => h end)).

(** [realloc(node->log, new_cap * sizeof(RaftLogEntry))]: the slots are kept as far
    as they fit, new ones are uninitialised. *)
Definition realloc_log (m : MNode) (h : heap) : outcome (MNode * heap) :=
  let new_cap := if mn_log_capacity m =? 0 then 16 else u64 (mn_log_capacity m * 2) in
  s ← log_slots m h;
  let s' := take (Z.to_nat new_cap) (s ++ replicate (Z.to_nat new_cap - length s) None) in
  let (a, h1) := realloc (mn_log m) (Entries s') h in
  Returns ({| m with mn_log := Some a; mn_log_capacity := new_cap |}, h1).

Definition m_ensure_log_capacity (al : Alloc) (m : MNode) (h : heap) : outcome (MNode * heap) :=
  if mn_log_count m >=? mn_log_capacity m then
    if realloc_ok al then realloc_log m h else Returns (m, h)
  else Returns (m, h).

(** [last_log_index] *)
Definition m_last_log_index (m : MNode) (h : heap) : outcome Z :=
  if mn_log_count m =? 0 then Returns (mn_last_snapshot_index m)
  else e ← log_read m h (Z.to_nat (mn_log_count m - 1)); Returns (m_index e).

(** [get_log_entry]: the position of the slot. *)
Definition m_get_log_entry (m : MNode) (index : Z) : option nat :=
  if index <=? mn_last_snapshot_index m then None
  else
    let array_idx := index - mn_last_snapshot_index m - 1 in
    if array_idx >=? mn_log_count m then None else Some (Z.to_nat array_idx).

(** [entry = &node->log[node->log_count++]] filled with [e], whose data is at [p]. *)
Definition store_entry (e : RaftLogEntry) (p : addr) (m : MNode) (h : heap)
  : outcome (MNode * heap) :=
  h1 ← log_write m h (Z.to_nat (mn_log_count m)) (Some (slot_of (e, p)));
  Returns ({| m with mn_log_count := mn_log_count m + 1 |}, h1).

(** [raft_submit]; [leader] and [term] are the node's state and term. *)
Definition m_submit (al : Alloc) (leader : bool) (term : Z) (data : list byte) (m : MNode) (h : heap)
  : outcome (Z * (MNode * heap)) :=
  if negb leader then Returns (-1, (m, h))
  else
    '(m1, h1) ← m_ensure_log_capacity al m h;
    if mn_log_count m1 >=? mn_log_capacity m1 then Returns (-2, (m1, h1))
    else
      last ← m_last_log_index m1 h1;
      if negb (malloc_ok al) then
        h2 ← log_write m1 h1 (Z.to_nat (mn_log_count m1)) None;
        Returns (-2, (m1, h2))
      else
        let p := pick h1 in
        let entry := {| e_term := term; e_index := last +64 1; e_data := data; e_type := 0 |} in
        r ← store_entry entry p m1 (<[p := Bytes data]> h1);
        Returns (0, r).

(** The loop that frees the data of the entries from [j] on. *)
Fixpoint free_data (rounds j : nat) (m : MNode) (h : heap) : outcome heap :=
  match rounds with
  | O => Returns h
  | S rounds' =>
      e ← log_read m h j;
      h1 ← free (m_data e) h;
      free_data rounds' (S j) m h1
  end.

(** The truncation of [raft_handle_append_entries] at a conflicting entry. *)
Definition m_truncate (new_entry : RaftLogEntry) (m : MNode) (h : heap) : outcome (MNode * heap) :=
  match m_get_log_entry m (e_index new_entry) with
  | None => Returns (m, h)
  | Some pos =>
      existing ← log_read m h pos;
      if negb (m_term existing =? e_term new_entry) then
        let del_from := e_index new_entry - mn_last_snapshot_index m - 1 in
        h1 ← free_data (Z.to_nat (mn_log_count m - del_from)) (Z.to_nat del_from) m h;
        Returns ({| m with mn_log_count := del_from |}, h1)
      else Returns (m, h)
  end.

(** The append of one entry; [memcpy] writes through the result of [malloc]
    without a test. *)
Definition m_append (al : Alloc) (new_entry : RaftLogEntry) (m : MNode) (h : heap)
  : outcome (MNode * heap) :=
  match m_get_log_entry m (e_index new_entry) with
  | Some _ => Returns (m, h)
  | None =>
      '(m1, h1) ← m_ensure_log_capacity al m h;
      if negb (malloc_ok al) then Undefined
      else
        let p := pick h1 in
        store_entry new_entry p m1 (<[p := Bytes (e_data new_entry)]> h1)
  end.

Definition m_append_one (al : Alloc) (new_entry : RaftLogEntry) (m : MNode) (h : heap)
  : outcome (MNode * heap) :=
  '(m1, h1) ← m_truncate new_entry m h; m_append al new_entry m1 h1.

Fixpoint m_append_loop (al : nat -> Alloc) (entries : option (list RaftLogEntry)) (i rounds : nat)
    (m : MNode) (h : heap) : outcome (MNode * heap) :=
  match rounds with
  | O => Returns (m, h)
  | S rounds' =>
      match entries ≫= (fun es => es !! i) with
      | None => Undefined
      | Some new_entry =>
          '(m1, h1) ← m_append_one (al i) new_entry m h;
          m_append_loop al entries (S i) rounds' m1 h1
      end
  end.

(** The compaction loop of [raft_save_snapshot]: [i] reads, [new_count] writes. *)
Fixpoint m_compact (rounds i new_count : nat) (index : Z) (m : MNode) (h : heap)
  : outcome (nat * heap) :=
  match rounds with
  | O => Returns (new_count, h)
  | S rounds' =>
      e ← log_read m h i;
      if m_index e >? index then
        h1 ← (if Nat.eqb new_count i then Returns h else log_write m h new_count (Some e));
        m_compact rounds' (S i) (S new_count) index m h1
      else
        h1 ← free (m_data e) h;
        m_compact rounds' (S i) new_count index m h1
  end.

(** The end of [raft_save_snapshot], once the file is written. *)
Definition m_snapshot (index : Z) (m : MNode) (h : heap) : outcome (MNode * heap) :=
  let m1 := {| m with mn_last_snapshot_index := index |} in
  '(k, h1) ← m_compact (Z.to_nat (mn_log_count m)) 0 0 index m1 h;
  Returns ({| m1 with mn_log_count := Z.of_nat k |}, h1).

(** [raft_save_snapshot]: a failed write leaves the log alone. *)
Definition m_save_snapshot (env : WriteEnv) (index term : Z) (data : list byte) (m : MNode) (h : heap)
  : outcome (Z * (MNode * heap)) :=
  if negb (we_open env) then Returns (-1, (m, h))
  else
    let (ok1, file1) := sys_write (we_write env 0) [] (snap_header index term (Z.of_nat (length data))) in
    if negb ok1 then Returns (-1, (m, h))
    else
      let (ok2, _) := sys_write (we_write env 1) file1 data in
      if negb ok2 then Returns (-1, (m, h))
      else r ← m_snapshot index m h; Returns (0, r).

(** The loop of [raft_restore_state]: [data] and the checksum buffer are allocated
    in every round, and freed on every way out that does not store [data]. *)
Fixpoint m_restore_entries (env : ReadEnv) (fuel i : nat) (rest : list byte) (m : MNode) (h : heap)
  : outcome (MNode * heap) :=
  match fuel with
  | O => Returns (m, h)
  | S fuel' =>
      let hdr := take 25 rest in
      let rest1 := drop 25 rest in
      if negb (Nat.eqb (length hdr) 25) then Returns (m, h)
      else if negb (of_net (field 0 4 hdr) =? ENTRY_MAGIC) then Returns (m, h)
      else
        let data_len := of_net (field 21 4 hdr) in
        let data := take (Z.to_nat data_len) rest1 in
        let rest2 := drop (Z.to_nat data_len) rest1 in
        let break p h := h1 ← free p h; Returns (m, h1) in
        if negb (rd_data env i) then break None h
        else
          let p := pick h in
          let h1 := <[p := Bytes data]> h in
          if negb (Z.of_nat (length data) =? data_len) then break (Some p) h1
          else if negb (Nat.eqb (length (take 4 rest2)) 4) then break (Some p) h1
          else if negb (rd_buf env i) then Undefined
          else
            let buf := pick h1 in
            h2 ← free (Some buf) (<[buf := Bytes (hdr ++ data)]> h1);
            if negb (of_net (take 4 rest2) =? crc32 (hdr ++ data)) then break (Some p) h2
            else
              let full := mn_log_count m >=? mn_log_capacity m in
              if full && negb (rd_realloc env i) then break (Some p) h2
              else
                '(m3, h3) ← (if full then realloc_log m h2 else Returns (m, h2));
                let entry := {| e_term := of_net (field 4 8 hdr);
                                e_index := of_net (field 12 8 hdr);
                                e_data := data;
                                e_type := of_net (field 20 1 hdr) |} in
                '(m4, h4) ← store_entry entry p m3 h3;
                m_restore_entries env fuel' (S i) (drop 4 rest2) m4 h4
  end.

(** [raft_restore_state] on the file of node [id]. *)
Definition m_restore_state (env : ReadEnv) (fs : FS) (id : list byte) (m : MNode) (h : heap)
  : outcome (Z * (MNode * heap)) :=
  match fs !! wal_path id with
  | None => Returns (0, (m, h))
  | Some file =>
      if negb (rd_open env) then Returns (-1, (m, h))
      else if (length file <? 64)%nat then Returns (-1, (m, h))
      else if negb (of_net (field 0 4 file) =? WAL_MAGIC) then Returns (-1, (m, h))
      else r ← m_restore_entries env (S (length file)) 0 (drop 64 file) m h; Returns (0, r)
  end.

(** [find_peer] and the search of [raft_remove_peer]: the position of the first peer
    with the id among the [rounds] slots from [i] on. *)
Fixpoint m_find_peer (rounds i : nat) (id : list byte) (m : MNode) (h : heap)
  : outcome (option nat) :=
  match rounds with
  | O => Returns None
  | S rounds' =>
      p ← peer_read m h i;
      if streq (p_node_id p) id then Returns (Some i) else m_find_peer rounds' (S i) id m h
  end.

(** [realloc(node->peers, new_cap * sizeof(RaftPeer))] *)
Definition realloc_peers (m : MNode) (h : heap) : outcome (MNode * heap) :=
  let new_cap := if mn_peer_capacity m =? 0 then 8 else u64 (mn_peer_capacity m * 2) in
  s ← peer_slots (mn_peers m) h;
  let s' := take (Z.to_nat new_cap) (s ++ replicate (Z.to_nat new_cap - length s) None) in
  let (a, h1) := realloc (mn_peers m) (PeerArray s') h in
  Returns ({| m with mn_peers := Some a; mn_peer_capacity := new_cap |}, h1).

(** [raft_add_peer]: the new slot is cleared and filled. *)
Definition m_add_peer (al : Alloc) (id ip : list byte) (port : Z) (m : MNode) (h : heap)
  : outcome (Z * (MNode * heap)) :=
  found ← m_find_peer (Z.to_nat (mn_peer_count m)) 0 id m h;
  match found with
  | Some _ => Returns (-1, (m, h))
  | None =>
      let full := mn_peer_count m >=? mn_peer_capacity m in
      if full && negb (realloc_ok al) then Returns (-1, (m, h))
      else
        '(m1, h1) ← (if full then realloc_peers m h else Returns (m, h));
        h2 ← peer_write m1 h1 (Z.to_nat (mn_peer_count m1)) (new_peer id ip port);
        Returns (0, ({| m1 with mn_peer_count := mn_peer_count m1 + 1 |}, h2))
  end.

(** [raft_remove_peer]: the peers behind the one found move down by one slot. *)
Definition m_remove_peer (id : list byte) (m : MNode) (h : heap) : outcome (Z * (MNode * heap)) :=
  found ← m_find_peer (Z.to_nat (mn_peer_count m)) 0 id m h;
  match found with
  | None => Returns (-1, (m, h))
  | Some i =>
      s ← peer_slots (mn_peers m) h;
      s1 ← memmove_slots i (i + 1) (Z.to_nat (mn_peer_count m) - i - 1) s;
      h1 ← peers_store m h s1;
      Returns (0, ({| m with mn_peer_count := mn_peer_count m - 1 |}, h1))
  end.

(** The loops of [become_candidate] and [become_leader] that set fields of every
    peer; [f] is the update of one. *)
Fixpoint m_each_peer (f : RaftPeer -> RaftPeer) (rounds i : nat) (m : MNode) (h : heap) : outcome heap :=
  match rounds with
  | O => Returns h
  | S rounds' =>
      p ← peer_read m h i;
      h1 ← peer_write m h i (f p);
      m_each_peer f rounds' (S i) m h1
  end.

(** The updates of the peer a response comes from, in the two response handlers. *)
Definition m_one_peer (id : list byte) (f : RaftPeer -> RaftPeer) (m : MNode) (h : heap) : outcome heap :=
  found ← m_find_peer (Z.to_nat (mn_peer_count m)) 0 id m h;
  match found with
  | None => Returns h
  | Some i => p ← peer_read m h i; peer_write m h i (f p)
  end.

(** [raft_destroy] *)
Definition m_destroy (m : MNode) (h : heap) : outcome heap :=
  h1 ← free_data (Z.to_nat (mn_log_count m)) 0 m h;
  h2 ← free (mn_log m) h1;
  h3 ← free (mn_peers m) h2;
  h4 ← free (mn_snapshot_data m) h3;
  free (Some (mn_self m)) h4.

End Memory.

(** ** Ownership *)

(** The blocks [xs] belong to the node: allocated, distinct, none of them in the
    frame [F]; everything else is the frame. *)
Record owns (F h : heap) (xs : list addr) : Prop := {
  own_nodup : NoDup xs;
  own_alloc : forall a, a ∈ xs -> is_Some (h !! a);
  own_apart : forall a, a ∈ xs -> F !! a = None;
  own_frame : forall a, a ∉ xs -> h !! a = F !! a;
}.

#[export] Instance owns_perm F h : Proper (Permutation ==> iff) (owns F h).
Proof.
  enough (forall xs ys, xs ≡ₚ ys -> owns F h xs -> owns F h ys) as Himp.
  { intros xs ys Hp. split; apply Himp; by rewrite Hp. }
  intros xs ys Hp [H1 H2 H3 H4]. split; intros; [by rewrite <- Hp|apply H2|apply H3|apply H4];
    by rewrite Hp.
Qed.

Lemma owns_fresh F h xs p : owns F h xs -> h !! p = None -> p ∉ xs.
Proof. intros Ho Hp Hin. destruct (own_alloc _ _ _ Ho p Hin). congruence. Qed.

Lemma owns_alloc F h xs p b :
  owns F h xs -> h !! p = None -> owns F (<[p := b]> h) (p :: xs).
Proof.
  intros Ho Hp. pose proof (owns_fresh _ _ _ _ Ho Hp) as Hn. destruct Ho as [H1 H2 H3 H4].
  split.
  - by apply NoDup_cons.
  - intros a. destruct (decide (a = p)) as [->|]; rewrite ?lookup_insert_eq, ?lookup_insert_ne by done;
      [eauto|set_solver].
  - intros a [->|Ha]%elem_of_cons; [by rewrite <- H4|auto].
  - intros a Ha. rewrite lookup_insert_ne by set_solver. apply H4. set_solver.
Qed.

Lemma owns_free F h xs p :
  owns F h (p :: xs) -> free (Some p) h = Returns (delete p h) /\ owns F (delete p h) xs.
Proof.
  intros [[Hn Hd]%NoDup_cons H2 H3 H4]. split.
  - unfold free. destruct (H2 p) as [b ->]; [set_solver|done].
  - split; [done| | |].
    + intros a Ha. rewrite lookup_delete_ne by set_solver. apply H2. set_solver.
    + intros a Ha. apply H3. set_solver.
    + intros a Ha. destruct (decide (a = p)) as [->|];
        rewrite ?lookup_delete_eq, ?lookup_delete_ne by done.
      * symmetry. apply H3. set_solver.
      * apply H4. set_solver.
Qed.

Lemma owns_write F h xs p b : owns F h xs -> p ∈ xs -> owns F (<[p := b]> h) xs.
Proof.
  intros [H1 H2 H3 H4] Hp. split; [done| |done|].
  - intros a Ha. destruct (decide (a = p)) as [->|];
      rewrite ?lookup_insert_eq, ?lookup_insert_ne by done; eauto.
  - intros a Ha. rewrite lookup_insert_ne by set_solver. auto.
Qed.

Lemma owns_nil F h : owns F h [] -> h = F.
Proof. intros Ho. apply map_eq. intros a. apply (own_frame _ _ _ Ho). set_solver. Qed.

(** ** The node in memory *)

(** The blocks of a node beside the data of its entries. *)
Definition base (m : MNode) : list addr :=
  mn_self m :: option_list (mn_log m) ++ option_list (mn_peers m) ++ option_list (mn_snapshot_data m).

(** The array at [p] has [cap] slots, of which the first hold the peers [ps]. *)
Definition peers_at (p : option addr) (h : heap) (ps : list RaftPeer) (cap : Z) : Prop :=
  exists slots, peer_slots p h = Returns slots /\ Z.of_nat (length slots) = cap /\
    take (length ps) slots = Some <$> ps.

(** [cells] pairs every entry of the log with the address of its data. *)
Record node_at (F : heap) (n : RaftNode) (cells : list (RaftLogEntry * addr)) (m : MNode) (h : heap)
  : Prop := {
  na_log : log n = cells.*1;
  na_count : mn_log_count m = log_count n;
  na_cap : mn_log_capacity m = log_capacity n;
  na_snap : mn_last_snapshot_index m = last_snapshot_index n;
  na_owns : owns F h (base m ++ cells.*2);
  na_slots : exists slots, log_slots m h = Returns slots /\
    Z.of_nat (length slots) = log_capacity n /\
    take (length cells) slots = Some ∘ slot_of <$> cells;
  na_data : Forall (fun x => h !! x.2 = Some (Bytes (e_data x.1))) cells;
  na_peer_count : mn_peer_count m = peer_count n;
  na_peer_cap : mn_peer_capacity m = peer_capacity n;
  na_peers : peers_at (mn_peers m) h (peers n) (peer_capacity n);
}.

Lemma na_peers_fit F n cells m h : node_at F n cells m h -> peer_count n <= peer_capacity n.
Proof.
  intros Hn. destruct (na_peers _ _ _ _ _ Hn) as (slots & _ & <- & Ht).
  apply (f_equal length) in Ht. rewrite length_take, length_fmap in Ht. unfold peer_count. lia.
Qed.

Lemma slots_prefix (slots : list (option MEntry)) (cells : list (RaftLogEntry * addr)) :
  take (length cells) slots = Some ∘ slot_of <$> cells <->
  exists rest, slots = (Some ∘ slot_of <$> cells) ++ rest.
Proof.
  split.
  - intros H. exists (drop (length cells) slots). by rewrite <- H, take_drop.
  - intros [rest ->]. rewrite <- (length_fmap (Some ∘ slot_of) cells) at 1. apply take_app_length.
Qed.

(** What a cell of the log reads as. *)
Lemma read_slot_at F n cells m h i x :
  node_at F n cells m h -> cells !! i = Some x -> log_read m h i = Returns (slot_of x).
Proof.
  intros Hn Hx. destruct (na_slots _ _ _ _ _ Hn) as (slots & Hs & _ & [rest ->]%slots_prefix).
  unfold log_read. rewrite Hs. cbn. rewrite lookup_app_l.
  - by rewrite list_lookup_fmap, Hx.
  - rewrite length_fmap. by eapply lookup_lt_Some.
Qed.

Lemma node_at_length F n cells m h : node_at F n cells m h -> log_count n = Z.of_nat (length cells).
Proof. intros Hn. unfold log_count. by rewrite (na_log _ _ _ _ _ Hn), length_fmap. Qed.

Lemma node_at_room F n cells m h : node_at F n cells m h -> log_count n <= log_capacity n.
Proof.
  intros Hn. destruct (na_slots _ _ _ _ _ Hn) as (slots & _ & <- & [rest ->]%slots_prefix).
  rewrite (node_at_length _ _ _ _ _ Hn), length_app, length_fmap. lia.
Qed.

(** Room for [k] more entries: the doubled capacity does not wrap. *)
Definition fits (n : RaftNode) (k : nat) : Prop :=
  0 <= log_capacity n < 2 ^ 62 /\ log_count n + Z.of_nat k < 2 ^ 61.

(** ** The life of a node *)

(** The operations that allocate, free, move or write blocks.  [EachPeer] is a loop
    over the peers that sets fields ([vote_granted] in [become_candidate], [next_index],
    [match_index] and [inflight_rpcs] in [become_leader]), [OnePeer] the update of the
    peer a response comes from. *)
Inductive mem_op : Type :=
  | Submit (al : Alloc) (data : list byte)
  | AppendAll (al : nat -> Alloc) (entries : option (list RaftLogEntry)) (rounds : nat)
  | Snapshot (env : WriteEnv) (fs : FS) (index term : Z) (data : list byte)
  | Restore (env : ReadEnv) (fs : FS)
  | AddPeer (al : Alloc) (id ip : list byte) (port : Z)
  | RemovePeer (id : list byte)
  | EachPeer (f : RaftPeer -> RaftPeer)
  | OnePeer (id : list byte) (f : RaftPeer -> RaftPeer).

Definition code0 {A} (r : outcome A) : outcome (Z * A) := a ← r; Returns (0, a).

(** What they do to the lists, with no callbacks installed. *)
Definition list_op (o : mem_op) (n : RaftNode) : outcome (Z * RaftNode) :=
  match o with
  | Submit al data =>
      let r := raft_submit {| cb_apply := None; cb_persist := None; cb_send_rpc := None |} al (n, tt) data in
      Returns (r.1, r.2.1)
  | AppendAll al es rounds => code0 (append_loop al es 0 rounds n)
  | Snapshot env fs index term data =>
      let r := raft_save_snapshot env fs n index term data in Returns (r.1.1, r.2)
  | Restore env fs => raft_restore_state env fs n
  | AddPeer al id ip port => Returns (raft_add_peer al n id ip port)
  | RemovePeer id => Returns (raft_remove_peer n id)
  | EachPeer f => Returns (0, {| n with peers := map f (peers n) |})
  | OnePeer id f =>
      Returns (0, match find_peer n id with
                  | Some (i, p) => {| n with peers := <[i := f p]> (peers n) |}
                  | None => n
                  end)
  end.

(** What they do to the blocks; the node gives the fields that are not pointers. *)
Definition heap_op (pick : heap -> addr) (grow : heap -> option addr -> addr) (o : mem_op)
    (n : RaftNode) (m : MNode) (h : heap) : outcome (Z * (MNode * heap)) :=
  match o with
  | Submit al data => m_submit pick grow al (raft_is_leader n) (current_term n) data m h
  | AppendAll al es rounds => code0 (m_append_loop pick grow al es 0 rounds m h)
  | Snapshot env _ index term data => m_save_snapshot env index term data m h
  | Restore env fs => m_restore_state pick grow env fs (node_id n) m h
  | AddPeer al id ip port => m_add_peer grow al id ip port m h
  | RemovePeer id => m_remove_peer id m h
  | EachPeer f => h' ← m_each_peer f (Z.to_nat (mn_peer_count m)) 0 m h; Returns (0, (m, h'))
  | OnePeer id f => h' ← m_one_peer id f m h; Returns (0, (m, h'))
  end.

(** Capacities that can be doubled: 2^61 entries, 2^63 peers. *)
Definition op_fits (o : mem_op) (n : RaftNode) : Prop :=
  peer_capacity n < 2 ^ 63 /\
  fits n (match o with
          | AppendAll _ _ rounds => rounds
          | Restore _ fs => S (length (default [] (fs !! wal_path (node_id n))))
          | _ => 1
          end).

(** A node from [raft_init] on, in a heap that held [F] before: any sequence of the
    operations, between which the other fields of the node change at will. *)
Inductive lifetime (pick : heap -> addr) (grow : heap -> option addr -> addr) (F : heap)
  : RaftNode -> MNode -> heap -> Prop :=
  | life_init al id rnd n :
      raft_init al id rnd = Some n ->
      lifetime pick grow F n (m_init pick F).1 (m_init pick F).2
  | life_op o n m h c n' c' m' h' :
      lifetime pick grow F n m h -> op_fits o n ->
      list_op o n = Returns (c, n') -> heap_op pick grow o n m h = Returns (c', (m', h')) ->
      lifetime pick grow F n' m' h'
  | life_fields n n' m h :
      lifetime pick grow F n m h ->
      log n' = log n -> log_capacity n' = log_capacity n ->
      last_snapshot_index n' = last_snapshot_index n -> peers n' = peers n ->
      peer_capacity n' = peer_capacity n ->
      lifetime pick grow F n' m h.

(** The same return code and the same node, or both undefined. *)
Definition same_answer (F : heap) (r : outcome (Z * RaftNode)) (mr : outcome (Z * (MNode * heap)))
  : Prop :=
  match r, mr with
  | Returns (c, n), Returns (c', (m, h)) => c = c' /\ exists cells, node_at F n cells m h
  | Undefined, Undefined => True
  | _, _ => False
  end.

Section Correct.
Context (pick : heap -> addr) (grow : heap -> option addr -> addr).
(** [malloc] returns a block that is not in use; [realloc] may also stay in place. *)
Hypothesis pick_fresh : forall h, h !! pick h = None.
Hypothesis grow_ok : forall h p, h !! grow h p = None \/ p = Some (grow h p).

Lemma realloc_owns F h p xs b :
  owns F h (option_list p ++ xs) ->
  let r := realloc grow p b h in
  owns F r.2 (r.1 :: xs) /\ r.2 !! r.1 = Some b /\ (forall c, c ∈ xs -> r.2 !! c = h !! c).
Proof.
  intros Ho. cbn. set (a := grow h p).
  assert (owns F (match p with Some q => delete q h | None => h end) xs /\
          (match p with Some q => delete q h | None => h end) !! a = None /\
          forall c, c ∈ xs -> (match p with Some q => delete q h | None => h end) !! c = h !! c)
    as (H1 & H2 & H3).
  { destruct p as [q|].
    - destruct (owns_free _ _ _ _ Ho) as [_ Hd]. split; [done|]. split.
      + destruct (grow_ok h (Some q)) as [Hg|[= Hg]]; fold a in Hg.
        * destruct (decide (a = q)) as [->|]; [apply lookup_delete_eq|by rewrite lookup_delete_ne].
        * rewrite <- Hg. apply lookup_delete_eq.
      + intros c Hc. apply lookup_delete_ne. intros ->.
        apply (own_nodup _ _ _) in Ho. cbn in Ho. apply NoDup_cons in Ho. by destruct Ho.
    - split; [done|]. split; [|done]. by destruct (grow_ok h None) as [Hg|Hg]. }
  split; [by apply owns_alloc|]. split; [apply lookup_insert_eq|].
  intros c Hc. rewrite lookup_insert_ne; [auto|].
  intros <-. by apply (owns_fresh _ _ _ a H1).
Qed.

(** What the blocks beside the one that was moved hold is kept. *)
Lemma data_kept (h h' : heap) (cells : list (RaftLogEntry * addr)) (xs : list addr) :
  (forall c, c ∈ xs -> h' !! c = h !! c) -> cells.*2 ⊆ xs ->
  Forall (fun x => h !! x.2 = Some (Bytes (e_data x.1))) cells ->
  Forall (fun x => h' !! x.2 = Some (Bytes (e_data x.1))) cells.
Proof.
  intros Hk Hs Hd. apply Forall_forall. intros x Hx. rewrite Hk.
  - by rewrite Forall_forall in Hd; apply Hd.
  - apply Hs. by apply list_elem_of_fmap_2.
Qed.

Lemma peers_kept (h h' : heap) (p : option addr) (ps : list RaftPeer) (cap : Z) (xs : list addr) :
  (forall c, c ∈ xs -> h' !! c = h !! c) -> option_list p ⊆ xs ->
  peers_at p h ps cap -> peers_at p h' ps cap.
Proof.
  intros Hk Hs (slots & Hsl & Hrest). exists slots. split; [|done]. rewrite <- Hsl.
  unfold peer_slots. destruct p as [a|]; [|done]. rewrite Hk; [done|set_solver].
Qed.

(** The blocks of a node, the log array first. *)
Lemma base_log (m : MNode) (ps : list addr) :
  base m ++ ps ≡ₚ option_list (mn_log m)
    ++ (mn_self m :: option_list (mn_peers m) ++ option_list (mn_snapshot_data m)) ++ ps.
Proof.
  unfold base. rewrite <- !app_comm_cons. rewrite <- Permutation_middle.
  apply perm_skip. by rewrite <- !app_assoc.
Qed.

Lemma base_peers (m : MNode) (ps : list addr) :
  base m ++ ps ≡ₚ option_list (mn_peers m)
    ++ (mn_self m :: option_list (mn_log m) ++ option_list (mn_snapshot_data m)) ++ ps.
Proof.
  unfold base. rewrite <- !app_comm_cons. rewrite <- Permutation_middle.
  apply perm_skip. rewrite <- !app_assoc. by rewrite Permutation_app_swap_app.
Qed.

Lemma grown_cap (n : RaftNode) :
  0 <= log_capacity n < 2 ^ 63 ->
  log_capacity n < (if log_capacity n =? 0 then 16 else u64 (log_capacity n * 2)) < 2 ^ 64.
Proof.
  intros Hc. destruct (log_capacity n =? 0) eqn:E; bool_to_prop; [lia|].
  rewrite u64_small by solve_u. lia.
Qed.

Lemma realloc_log_at F n cells m h :
  node_at F n cells m h -> log_capacity n < 2 ^ 63 ->
  exists m' h', realloc_log grow m h = Returns (m', h') /\
    node_at F {| n with log_capacity :=
                   if log_capacity n =? 0 then 16 else u64 (log_capacity n * 2) |} cells m' h'.
Proof.
  intros Hn Hc. destruct Hn as [Hl Hct Hcap Hsn Ho (slots & Hs & Hlen & [rest Hr]%slots_prefix) Hd
    Hpc Hpk Hp].
  pose proof (grown_cap n ltac:(lia)) as Hg. unfold realloc_log. rewrite Hs, Hcap. cbn [mbind outcome_bind].
  set (cap := if _ =? 0 then 16 else _) in *.
  rewrite base_log in Ho.
  match goal with |- context [Entries ?s] => set (s' := s) end.
  pose proof (realloc_owns F h (mn_log m) _ (Entries s') Ho) as Hro.
  destruct (realloc grow (mn_log m) (Entries s') h) as [a h1]. cbn [fst snd] in Hro.
  destruct Hro as (Ho1 & Ha & Hk). eexists _, _. split; [done|].
  split; cbn; try done.
  - unfold base. cbn. by rewrite (Permutation_swap a).
  - exists s'. unfold log_slots. cbn. rewrite Ha. split; [done|]. split.
    + subst s'. rewrite length_take, length_app, length_replicate. lia.
    + apply slots_prefix. subst s' slots. rewrite <- app_assoc, take_app_ge.
      * by eexists.
      * rewrite length_app in Hlen. lia.
  - eapply data_kept; [exact Hk| |done]. set_solver.
  - eapply peers_kept; [exact Hk| |done]. set_solver.
Qed.

Lemma ensure_at al F n cells m h :
  node_at F n cells m h -> log_capacity n < 2 ^ 63 ->
  exists m' h', m_ensure_log_capacity grow al m h = Returns (m', h') /\
    node_at F (ensure_log_capacity al n) cells m' h'.
Proof.
  intros Hn Hc. unfold m_ensure_log_capacity, ensure_log_capacity.
  rewrite (na_count _ _ _ _ _ Hn), (na_cap _ _ _ _ _ Hn).
  destruct (log_count n >=? log_capacity n), (realloc_ok al); eauto.
  by apply realloc_log_at.
Qed.

(** A block that something else allocates joins the frame; the node can take it
    over, or it can be freed. *)
Lemma owns_frame_add F h xs p b :
  owns F h xs -> h !! p = None -> owns (<[p := b]> F) (<[p := b]> h) xs.
Proof.
  intros Ho Hp. pose proof (owns_fresh _ _ _ _ Ho Hp) as Hn. destruct Ho as [H1 H2 H3 H4].
  split; [done| | |].
  - intros a Ha. rewrite lookup_insert_ne by set_solver. auto.
  - intros a Ha. rewrite lookup_insert_ne by set_solver. auto.
  - intros a Ha. destruct (decide (a = p)) as [->|];
      rewrite ?lookup_insert_eq, ?lookup_insert_ne by done; auto.
Qed.

Lemma owns_frame_take F h xs p b :
  owns (<[p := b]> F) h xs -> F !! p = None -> owns F h (p :: xs) /\ h !! p = Some b.
Proof.
  intros [H1 H2 H3 H4] Hp.
  assert (p ∉ xs) as Hn. { intros Hin. specialize (H3 p Hin). by rewrite lookup_insert_eq in H3. }
  assert (h !! p = Some b) as Hb by by rewrite H4, lookup_insert_eq.
  split; [|done]. split; [by apply NoDup_cons| | |].
  - intros a [->|Ha]%elem_of_cons; eauto.
  - intros a [->|Ha]%elem_of_cons; [done|]. specialize (H3 a Ha).
    by rewrite lookup_insert_ne in H3 by set_solver.
  - intros a Ha. rewrite H4 by set_solver. apply lookup_insert_ne. set_solver.
Qed.

Lemma slots_kept (h h' : heap) (m : MNode) (xs : list addr) :
  (forall c, c ∈ xs -> h' !! c = h !! c) -> option_list (mn_log m) ⊆ xs ->
  log_slots m h' = log_slots m h.
Proof.
  intros Hk Hs. unfold log_slots. destruct (mn_log m) as [a|]; [|done].
  rewrite Hk by set_solver. done.
Qed.

(** The node does not see a change of blocks it does not own. *)
Lemma node_at_ext F F' n cells m h h' :
  node_at F n cells m h -> owns F' h' (base m ++ cells.*2) ->
  (forall c, c ∈ base m ++ cells.*2 -> h' !! c = h !! c) -> node_at F' n cells m h'.
Proof.
  intros [] Ho Hk. split; try done.
  - erewrite slots_kept; [done|exact Hk|]. unfold base. set_solver.
  - eapply data_kept; [exact Hk| |done]. set_solver.
  - eapply peers_kept; [exact Hk| |done]. unfold base. set_solver.
Qed.

Lemma node_at_alloc F n cells m h p b :
  node_at F n cells m h -> h !! p = None -> node_at (<[p := b]> F) n cells m (<[p := b]> h).
Proof.
  intros Hn Hp. pose proof (na_owns _ _ _ _ _ Hn) as Ho. apply (node_at_ext F _ _ _ _ h); [done| |].
  - by apply owns_frame_add.
  - intros c Hc. apply lookup_insert_ne. intros ->. by apply (owns_fresh _ _ _ c Ho).
Qed.

Lemma node_at_free F n cells m h p b :
  node_at (<[p := b]> F) n cells m h -> F !! p = None ->
  free (Some p) h = Returns (delete p h) /\ node_at F n cells m (delete p h).
Proof.
  intros Hn Hp. destruct (owns_frame_take _ _ _ _ _ (na_owns _ _ _ _ _ Hn) Hp) as [Ho _].
  destruct (owns_free _ _ _ _ Ho) as [Hf Ho']. split; [done|].
  apply (node_at_ext (<[p := b]> F) _ _ _ _ h); [done..|].
  intros c Hc. apply lookup_delete_ne. intros ->.
  apply own_nodup, NoDup_cons in Ho. by destruct Ho.
Qed.

Lemma node_at_frame_fresh F n cells m h p : node_at F n cells m h -> h !! p = None -> F !! p = None.
Proof.
  intros Hn Hp. pose proof (na_owns _ _ _ _ _ Hn) as Ho.
  rewrite <- (own_frame _ _ _ Ho p); [done|]. by apply (owns_fresh _ _ _ _ Ho).
Qed.

(** Writing a slot past the end of the log. *)
Lemma write_slot_at F n cells m h e :
  node_at F n cells m h -> log_count n < log_capacity n ->
  exists a slots, mn_log m = Some a /\ h !! a = Some (Entries slots) /\
    Z.of_nat (length slots) = log_capacity n /\
    take (length cells) slots = Some ∘ slot_of <$> cells /\
    log_write m h (Z.to_nat (mn_log_count m)) e
    = Returns (<[a := Entries (<[length cells := e]> slots)]> h).
Proof.
  intros Hn Hlt. rewrite (na_count _ _ _ _ _ Hn), (node_at_length _ _ _ _ _ Hn), Nat2Z.id in *.
  destruct (na_slots _ _ _ _ _ Hn) as (slots & Hs & Hlen & Hp).
  unfold log_write. rewrite Hs. cbn [mbind outcome_bind]. unfold log_slots in Hs.
  destruct (mn_log m) as [a|]; simplify_eq; [|cbn in *; lia].
  destruct (h !! a) as [[]|] eqn:Ha; simplify_eq.
  exists a, slots. split; [done|]. split; [done|]. split; [done|]. split; [done|].
  by rewrite (proj2 (Nat.ltb_lt _ _)) by lia.
Qed.

Lemma slots_store (slots : list (option MEntry)) (cells : list (RaftLogEntry * addr)) e :
  take (length cells) slots = Some ∘ slot_of <$> cells ->
  take (length cells) (<[length cells := e]> slots) = Some ∘ slot_of <$> cells.
Proof. intros <-. by rewrite take_insert_ge by lia. Qed.

(** Overwriting the log array changes nothing else. *)
Lemma node_at_array F n cells m h a slots :
  node_at F n cells m h -> mn_log m = Some a -> Z.of_nat (length slots) = log_capacity n ->
  take (length cells) slots = Some ∘ slot_of <$> cells ->
  node_at F n cells m (<[a := Entries slots]> h).
Proof.
  intros Hn Ha Hlen Hp. pose proof (na_owns _ _ _ _ _ Hn) as Ho.
  rewrite base_log, Ha in Ho. pose proof (own_nodup _ _ _ Ho) as [Hnd _]%NoDup_cons.
  assert (forall c, c ∈ (mn_self m :: option_list (mn_peers m) ++ option_list (mn_snapshot_data m))
    ++ cells.*2 -> <[a := Entries slots]> h !! c = h !! c) as Hk.
  { intros c Hc. apply lookup_insert_ne. intros <-. by apply Hnd. }
  destruct Hn. split; try done.
  - rewrite base_log, Ha. apply owns_write; [done|]. cbn. set_solver.
  - exists slots. unfold log_slots. by rewrite Ha, lookup_insert_eq.
  - eapply data_kept; [exact Hk| |done]. set_solver.
  - eapply peers_kept; [exact Hk| |done]. set_solver.
Qed.

Lemma store_at F n cells m h e p :
  node_at (<[p := Bytes (e_data e)]> F) n cells m h -> F !! p = None ->
  log_count n < log_capacity n ->
  exists m' h', store_entry e p m h = Returns (m', h') /\
    node_at F {| n with log := log n ++ [e] |} (cells ++ [(e, p)]) m' h'.
Proof.
  intros Hn Hp Hlt.
  destruct (write_slot_at _ _ _ _ _ (Some (slot_of (e, p))) Hn Hlt)
    as (a & slots & Ha & Hh & Hlen & Hpre & Hw).
  unfold store_entry. rewrite Hw. cbn [mbind outcome_bind]. eexists _, _. split; [done|].
  assert (node_at (<[p := Bytes (e_data e)]> F) n cells m
    (<[a := Entries (<[length cells := Some (slot_of (e, p))]> slots)]> h)) as Hn'.
  { apply node_at_array; [done|done|by rewrite length_insert|by apply slots_store]. }
  rewrite (node_at_length _ _ _ _ _ Hn) in Hlt.
  set (h' := <[a := _]> h) in *. destruct Hn'.
  destruct (owns_frame_take _ _ _ _ _ na_owns0 Hp) as [Ho Hb].
  split; cbn; try done.
  - by rewrite fmap_app, na_log0.
  - rewrite na_count0. unfold log_count. cbn. rewrite length_app. cbn. lia.
  - change (base _) with (base m).
    apply (owns_perm F h' (p :: base m ++ cells.*2)); [|exact Ho].
    rewrite fmap_app, app_assoc. apply Permutation_cons_append.
  - exists (<[length cells := Some (slot_of (e, p))]> slots).
    split; [unfold log_slots; cbn; unfold h'; by rewrite Ha, lookup_insert_eq|].
    rewrite length_insert. split; [done|]. rewrite length_app, fmap_app. cbn.
    rewrite Nat.add_1_r. erewrite take_S_r.
    + by rewrite slots_store.
    + apply list_lookup_insert_eq. lia.
  - by apply Forall_app; repeat constructor.
Qed.

Lemma store_no_room F n cells m h e p :
  node_at F n cells m h -> log_count n >= log_capacity n -> store_entry e p m h = Undefined.
Proof.
  intros Hn Hge. destruct (na_slots _ _ _ _ _ Hn) as (slots & Hs & Hlen & _).
  unfold store_entry, log_write. rewrite Hs, (na_count _ _ _ _ _ Hn). destruct (mn_log m); [|done].
  cbn [mbind outcome_bind]. by rewrite (proj2 (Nat.ltb_ge _ _)) by lia.
Qed.

Lemma last_log_index_at F n cells m h :
  node_at F n cells m h -> m_last_log_index m h = Returns (last_log_index n).
Proof.
  intros Hn. unfold m_last_log_index, last_log_index.
  rewrite (na_count _ _ _ _ _ Hn), (node_at_length _ _ _ _ _ Hn), (na_log _ _ _ _ _ Hn).
  destruct cells as [|x cells'] using rev_ind; [cbn; by rewrite (na_snap _ _ _ _ _ Hn)|].
  rewrite length_app, fmap_app. change ([x].*1) with [x.1]. rewrite last_snoc. cbn [length].
  rewrite (proj2 (Z.eqb_neq _ _)) by lia.
  erewrite read_slot_at; [|done|].
  - done.
  - rewrite lookup_app_r by lia. by replace (_ - _)%nat with 0%nat by lia.
Qed.

(** What an operation in memory has to do: the same as on the lists, undefined
    exactly when that is. *)
Definition same_result (F : heap) (r : outcome RaftNode) (mr : outcome (MNode * heap)) : Prop :=
  match r, mr with
  | Returns n, Returns (m, h) => exists cells, node_at F n cells m h
  | Undefined, Undefined => True
  | _, _ => False
  end.

Lemma submit_at {W} (w : W) al F n cells m h data :
  node_at F n cells m h -> log_capacity n < 2 ^ 63 ->
  let r := raft_submit {| cb_apply := None; cb_persist := None; cb_send_rpc := None |} al (n, w) data in
  exists m' h' cells', m_submit pick grow al (raft_is_leader n) (current_term n) data m h
                       = Returns (r.1, (m', h')) /\
    node_at F r.2.1 cells' m' h'.
Proof.
  intros Hn Hc. unfold raft_submit, m_submit, raft_is_leader. cbn [fst snd].
  case_decide as Hs; [rewrite bool_decide_false by done; cbn; eauto|].
  rewrite bool_decide_true by (destruct (state n); naive_solver). cbn [negb].
  destruct (ensure_at al _ _ _ _ _ Hn Hc) as (m1 & h1 & -> & Hn1). cbn [mbind outcome_bind].
  assert (current_term n = current_term (ensure_log_capacity al n)) as ->
    by (rewrite ensure_log_capacity_node; done).
  set (n1 := ensure_log_capacity al n) in *.
  rewrite (na_count _ _ _ _ _ Hn1), (na_cap _ _ _ _ _ Hn1).
  destruct (log_count n1 >=? log_capacity n1) eqn:E; bool_to_prop; [cbn; eauto|].
  rewrite (last_log_index_at _ _ _ _ _ Hn1). cbn [mbind outcome_bind].
  destruct (malloc_ok al); cbn [negb].
  - set (e := {| e_term := _ |}).
    destruct (store_at F n1 cells m1 (<[pick h1 := Bytes data]> h1) e (pick h1)) as (m2 & h2 & Hst & Hn2).
    + by apply node_at_alloc.
    + by eapply node_at_frame_fresh.
    + done.
    + cbn [e_data e] in Hst. rewrite Hst. cbn. eauto.
  - destruct (write_slot_at _ _ _ _ _ None Hn1 E) as (a & slots & Ha & Hh & Hlen & Hpre & Hw).
    rewrite (na_count _ _ _ _ _ Hn1) in Hw. rewrite Hw. cbn.
    eexists _, _, _. split; [done|].
    apply node_at_array; [done|done|by rewrite length_insert|by apply slots_store].
Qed.

(** ** Freeing *)

Lemma free_cells F xs m slots cells j h :
  log_slots m h = Returns slots -> option_list (mn_log m) ⊆ xs -> owns F h (xs ++ cells.*2) ->
  (forall i x, cells !! i = Some x -> slots !! (j + i)%nat = Some (Some (slot_of x))) ->
  exists h', free_data (length cells) j m h = Returns h' /\ owns F h' xs /\
    (forall c, c ∈ xs -> h' !! c = h !! c).
Proof.
  revert j h. induction cells as [|x cells IH]; intros j h Hs Hm Ho Hc.
  { exists h. rewrite app_nil_r in Ho. done. }
  cbn [free_data length]. unfold log_read. rewrite Hs. cbn [mbind outcome_bind].
  pose proof (Hc 0%nat x eq_refl) as H0. rewrite Nat.add_0_r in H0. rewrite H0.
  cbn [mbind outcome_bind m_data slot_of].
  cbn [fmap list_fmap] in Ho. rewrite <- Permutation_middle in Ho.
  assert (forall c, c ∈ xs -> delete x.2 h !! c = h !! c) as Hk.
  { intros c Hin. apply lookup_delete_ne. intros <-.
    apply own_nodup, NoDup_cons in Ho. apply Ho. set_solver. }
  destruct (owns_free _ _ _ _ Ho) as [-> Ho']. cbn [mbind outcome_bind].
  destruct (IH (S j) (delete x.2 h)) as (h' & Hf & Ho'' & Hk').
  - by rewrite (slots_kept h _ m xs).
  - done.
  - done.
  - intros i y Hy. rewrite <- (Hc (S i) y Hy). f_equal. lia.
  - exists h'. split; [done|]. split; [done|]. intros c Hin. by rewrite Hk', Hk.
Qed.

Lemma cells_in_slots F n cells m h slots i x :
  node_at F n cells m h -> log_slots m h = Returns slots -> cells !! i = Some x ->
  slots !! i = Some (Some (slot_of x)).
Proof.
  intros Hn Hs Hx. pose proof (read_slot_at _ _ _ _ _ _ _ Hn Hx) as Hr.
  unfold log_read in Hr. rewrite Hs in Hr. cbn in Hr. destruct (slots !! i) as [[]|]; congruence.
Qed.

Lemma truncate_at F n cells m h k :
  node_at F n cells m h -> (k <= length cells)%nat ->
  exists h', free_data (length cells - k) k m h = Returns h' /\
    node_at F {| n with log := take k (log n) |} (take k cells)
      {| m with mn_log_count := Z.of_nat k |} h'.
Proof.
  intros Hn Hk. destruct (na_slots _ _ _ _ _ Hn) as (slots & Hs & Hlen & [rest Hpre]%slots_prefix).
  destruct (free_cells F (base m ++ (take k cells).*2) m slots (drop k cells) k h)
    as (h' & Hf & Ho & Hkeep).
  - done.
  - unfold base. set_solver.
  - rewrite <- app_assoc, <- fmap_app, take_drop. apply (na_owns _ _ _ _ _ Hn).
  - intros i x Hx. rewrite lookup_drop in Hx. by eapply cells_in_slots.
  - rewrite length_drop in Hf. exists h'. split; [done|]. destruct Hn. split; cbn; try done.
    + by rewrite na_log0, fmap_take.
    + unfold log_count. cbn. rewrite na_log0, length_take, length_fmap. lia.
    + exists slots. split; [|split; [done|]].
      * rewrite <- Hs. apply (slots_kept h h' m _ Hkeep). unfold base. set_solver.
      * apply slots_prefix. exists ((Some ∘ slot_of <$> drop k cells) ++ rest).
        by rewrite app_assoc, <- fmap_app, take_drop.
    + eapply data_kept; [exact Hkeep|set_solver|]. by apply Forall_take.
    + eapply (peers_kept h h'); [exact Hkeep| |done]. unfold base. set_solver.
Qed.

(** ** AppendEntries *)

Lemma get_log_entry_at F n cells m h index :
  node_at F n cells m h ->
  match m_get_log_entry m index with
  | Some pos => exists x, cells !! pos = Some x /\ get_log_entry n index = Some x.1 /\
                  pos = Z.to_nat (index - last_snapshot_index n - 1) /\
                  last_snapshot_index n < index
  | None => get_log_entry n index = None
  end.
Proof.
  intros Hn. unfold m_get_log_entry, get_log_entry.
  rewrite (na_snap _ _ _ _ _ Hn), (na_count _ _ _ _ _ Hn).
  destruct (index <=? _) eqn:E1; [done|]. destruct (_ >=? _) eqn:E2; [done|]. bool_to_prop.
  rewrite (node_at_length _ _ _ _ _ Hn) in E2.
  destruct (lookup_lt_is_Some_2 cells (Z.to_nat (index - last_snapshot_index n - 1))) as [x Hx]; [lia|].
  exists x. rewrite (na_log _ _ _ _ _ Hn), list_lookup_fmap, Hx. done.
Qed.

Lemma m_truncate_at F n cells m h e :
  node_at F n cells m h ->
  let n1 := match get_log_entry n (e_index e) with
            | Some existing =>
                if negb (e_term existing =? e_term e) then
                  {| n with log := take (Z.to_nat (e_index e - last_snapshot_index n - 1)) (log n) |}
                else n
            | None => n
            end in
  exists m' h' cells', m_truncate e m h = Returns (m', h') /\ node_at F n1 cells' m' h'.
Proof.
  intros Hn. cbn. unfold m_truncate. pose proof (get_log_entry_at _ _ _ _ _ (e_index e) Hn) as Hg.
  destruct (m_get_log_entry m (e_index e)) as [pos|]; [|rewrite Hg; eauto].
  destruct Hg as (x & Hx & -> & Hpos & Hlt). rewrite (read_slot_at _ _ _ _ _ _ _ Hn Hx).
  cbn [mbind outcome_bind m_term slot_of]. destruct (e_term x.1 =? e_term e); cbn [negb]; [eauto|].
  destruct (truncate_at _ _ _ _ _ pos Hn) as (h' & Hf & Hn').
  { apply lookup_lt_Some in Hx. lia. }
  pose proof (node_at_length _ _ _ _ _ Hn) as Hlen.
  rewrite (na_snap _ _ _ _ _ Hn) in *. rewrite (na_count _ _ _ _ _ Hn), Hlen.
  rewrite <- Hpos. replace (Z.to_nat (_ - _)) with (length cells - pos)%nat by lia.
  rewrite Hf. cbn. eexists _, _, _. split; [done|].
  replace (e_index e - last_snapshot_index n - 1) with (Z.of_nat pos) by lia. exact Hn'.
Qed.

Lemma append_one_at F al n cells m h e :
  node_at F n cells m h -> log_capacity n < 2 ^ 63 ->
  same_result F (append_one al n e) (m_append_one pick grow al e m h).
Proof.
  intros Hn Hc. unfold append_one, m_append_one.
  destruct (m_truncate_at _ _ _ _ _ e Hn) as (m1 & h1 & cells1 & -> & Hn1).
  cbn [mbind outcome_bind]. cbn zeta in Hn1 |- *.
  lazymatch type of Hn1 with node_at _ ?x _ _ _ => set (n1 := x) in * end.
  assert (log_capacity n1 = log_capacity n) as Hc1 by (unfold n1; destruct_ifs; done).
  unfold m_append. pose proof (get_log_entry_at _ _ _ _ _ (e_index e) Hn1) as Hg.
  destruct (m_get_log_entry m1 (e_index e)) as [pos|].
  { destruct Hg as (x & _ & -> & _). cbn. eauto. }
  rewrite Hg. destruct (ensure_at al _ _ _ _ _ Hn1) as (m2 & h2 & -> & Hn2); [lia|].
  cbn [mbind outcome_bind]. set (n2 := ensure_log_capacity al n1) in *.
  pose proof (node_at_alloc _ _ _ _ _ (pick h2) (Bytes (e_data e)) Hn2 (pick_fresh h2)) as Hn3.
  destruct (log_count n2 >=? log_capacity n2) eqn:E; bool_to_prop.
  - destruct (malloc_ok al); [|done]. cbn [negb].
    by rewrite (store_no_room _ _ _ _ _ _ _ Hn3) by lia.
  - destruct (malloc_ok al); [|done]. cbn [negb].
    destruct (store_at _ _ _ _ _ _ _ Hn3) as (m3 & h3 & -> & Hn4); [by eapply node_at_frame_fresh|lia|].
    cbn. eauto.
Qed.

Lemma fits_cap n k : fits n k -> log_capacity n < 2 ^ 63.
Proof. unfold fits. lia. Qed.

Lemma fits_le n k k' : (k' <= k)%nat -> fits n k -> fits n k'.
Proof. unfold fits. lia. Qed.

Lemma fits_push n k e :
  fits n (S k) ->
  fits {| n with log := log n ++ [e];
                 log_capacity := if log_count n >=? log_capacity n
                                 then (if log_capacity n =? 0 then 16 else u64 (log_capacity n * 2))
                                 else log_capacity n |} k.
Proof.
  unfold fits, log_count. cbn. rewrite length_app. cbn [length]. intros [Hc Hn].
  split; [|lia]. destruct (_ >=? _) eqn:E; [|done]. destruct (_ =? 0) eqn:E0; [done|].
  bool_to_prop. rewrite u64_small by solve_u. lia.
Qed.

Lemma append_one_fits al n e n' k : fits n (S k) -> append_one al n e = Returns n' -> fits n' k.
Proof.
  intros Hf. unfold append_one.
  lazymatch goal with |- context [match get_log_entry ?x (e_index e) with Some _ => Returns _ | None => _ end] =>
    set (n1 := x) end.
  assert (fits n1 (S k)) as Hf1.
  { unfold n1. destruct_ifs; try done. unfold fits, log_count in *. cbn. rewrite length_take. lia. }
  destruct (get_log_entry n1 (e_index e)); intros He; simplify_eq.
  { by eapply fits_le; [|exact Hf1]; lia. }
  unfold ensure_log_capacity in He. pose proof (fits_push n1 k e Hf1) as Hp.
  destruct (log_count n1 >=? log_capacity n1) eqn:E; [destruct (realloc_ok al)|];
    [|by rewrite E in He|rewrite E in He].
  - lazymatch type of He with (if ?b then _ else _) = _ => destruct b; [done|] end.
    destruct (malloc_ok al); [|done]. cbn in He. injection He as <-. exact Hp.
  - destruct (malloc_ok al); [|done]. cbn in He. injection He as <-. exact Hp.
Qed.

Lemma append_loop_at F al es i rounds n cells m h :
  node_at F n cells m h -> fits n rounds ->
  same_result F (append_loop al es i rounds n) (m_append_loop pick grow al es i rounds m h).
Proof.
  revert i n cells m h. induction rounds as [|rounds IH]; intros i n cells m h Hn Hf; cbn; [eauto|].
  destruct (es ≫= _) as [e|]; [|done].
  pose proof (append_one_at F (al i) n cells m h e Hn (fits_cap _ _ Hf)) as Hr.
  destruct (append_one (al i) n e) as [n1|] eqn:E1,
    (m_append_one pick grow (al i) e m h) as [[m1 h1]|] eqn:E2; try done.
  destruct Hr as [cells1 Hn1]. cbn. eapply IH; [done|]. by eapply append_one_fits.
Qed.

(** ** Snapshots *)

Definition kept_cells (index : Z) : list (RaftLogEntry * addr) -> list (RaftLogEntry * addr) :=
  filter (fun x => index < e_index x.1).

Abbreviation filled := (fmap (M := list) (Some ∘ slot_of)).

Lemma read_middle m h a pre e post i :
  mn_log m = Some a -> h !! a = Some (Entries (pre ++ Some e :: post)) -> i = length pre ->
  log_read m h i = Returns e.
Proof.
  intros Hm Hh ->. unfold log_read, log_slots. rewrite Hm, Hh. cbn [mbind outcome_bind].
  by rewrite list_lookup_middle.
Qed.

(** Moving an entry down over the first stale slot, or leaving it in place. *)
Lemma compact_keep m h a x kept stale post :
  mn_log m = Some a -> h !! a = Some (Entries (filled kept ++ stale ++ Some (slot_of x) :: post)) ->
  exists stale1, length stale1 = length stale /\
    (if (length kept =? length kept + length stale)%nat then Returns h
     else log_write m h (length kept) (Some (slot_of x)))
    = Returns (<[a := Entries (filled (kept ++ [x]) ++ stale1 ++ post)]> h).
Proof.
  intros Hm Hh. destruct stale as [|s stale].
  - rewrite (proj2 (Nat.eqb_eq _ _)) by (cbn; lia). exists []. split; [done|].
    rewrite insert_id; [done|]. by rewrite Hh, fmap_app, <- app_assoc.
  - rewrite (proj2 (Nat.eqb_neq _ _)) by (cbn; lia).
    unfold log_write, log_slots. rewrite Hm, Hh. cbn [mbind outcome_bind].
    rewrite (proj2 (Nat.ltb_lt _ _)) by (rewrite length_app, length_fmap; cbn; lia).
    exists (stale ++ [Some (slot_of x)]). split; [rewrite length_app; cbn; lia|]. do 3 f_equal.
    rewrite insert_app_r_alt by (rewrite length_fmap; lia). rewrite length_fmap, Nat.sub_diag.
    cbn. by rewrite fmap_app, <- !app_assoc.
Qed.

Lemma owns_drop_cell F h xs (kept : list (RaftLogEntry * addr)) x todo :
  owns F h (xs ++ (kept ++ x :: todo).*2) -> owns F h (x.2 :: xs ++ (kept ++ todo).*2).
Proof.
  intros Ho. eapply owns_perm; [|exact Ho]. rewrite !fmap_app. cbn.
  by rewrite !(app_assoc xs), Permutation_middle.
Qed.

Lemma kept_sub index todo : (kept_cells index todo).*2 ⊆ todo.*2.
Proof.
  intros a (y & -> & [_ Hy]%list_elem_of_filter)%list_elem_of_fmap. by apply list_elem_of_fmap_2.
Qed.

Lemma compact_cells F xs m a index rest todo kept stale h :
  mn_log m = Some a -> a ∈ xs -> owns F h (xs ++ (kept ++ todo).*2) ->
  h !! a = Some (Entries (filled kept ++ stale ++ filled todo ++ rest)) ->
  exists stale' h',
    m_compact (length todo) (length kept + length stale) (length kept) index m h
    = Returns (length (kept ++ kept_cells index todo), h') /\
    owns F h' (xs ++ (kept ++ kept_cells index todo).*2) /\
    h' !! a = Some (Entries (filled (kept ++ kept_cells index todo) ++ stale' ++ rest)) /\
    length stale' = (length stale + (length todo - length (kept_cells index todo)))%nat /\
    (forall c, c ∈ xs ++ (kept ++ kept_cells index todo).*2 -> c <> a -> h' !! c = h !! c).
Proof.
  intros Hm Ha. revert kept stale h. induction todo as [|x todo IH]; intros kept stale h Ho Hh.
  { exists stale, h. change (kept_cells index []) with (@nil (RaftLogEntry * addr)).
    rewrite app_nil_r in *. cbn. rewrite !Nat.add_0_r. done. }
  pose proof (length_filter (fun y => index < e_index y.1) todo : (length (kept_cells index todo) <= _)%nat).
  cbn [m_compact length]. erewrite (read_middle m h a (filled kept ++ stale) (slot_of x)); [|done|..].
  2: rewrite Hh; by rewrite <- app_assoc.
  2: by rewrite length_app, length_fmap.
  cbn [mbind outcome_bind m_index slot_of m_data].
  unfold kept_cells at 1 2 3 4 5. rewrite filter_cons. fold (kept_cells index todo).
  destruct (e_index x.1 >? index) eqn:E; bool_to_prop.
  - rewrite decide_True by done.
    destruct (compact_keep m h a x kept stale _ Hm Hh) as (stale1 & Hl1 & Hw).
    rewrite Hw. cbn [mbind outcome_bind].
    destruct (IH (kept ++ [x]) stale1 (<[a := Entries (filled (kept ++ [x]) ++ stale1 ++ filled todo ++ rest)]> h))
      as (stale' & h' & Hc & Ho' & Hh' & Hl & Hk).
    + apply owns_write; [by rewrite <- app_assoc|set_solver].
    + apply lookup_insert_eq.
    + rewrite length_app, Nat.add_1_r in Hc. rewrite <- app_assoc in *. rewrite Hl1 in *.
      exists stale', h'. split; [exact Hc|]. split; [exact Ho'|].
      split; [exact Hh'|]. split; [cbn; lia|].
      intros c Hin Hne. rewrite Hk by done. by apply lookup_insert_ne.
  - rewrite decide_False by lia. apply owns_drop_cell in Ho.
    destruct (owns_free _ _ _ _ Ho) as [-> Ho1]. cbn [mbind outcome_bind].
    pose proof (own_nodup _ _ _ Ho) as [Hnx _]%NoDup_cons.
    destruct (IH kept (stale ++ [Some (slot_of x)]) (delete x.2 h)) as (stale' & h' & Hc & Ho' & Hh' & Hl & Hk).
    + done.
    + rewrite lookup_delete_ne by set_solver. rewrite Hh. by rewrite <- !app_assoc.
    + rewrite length_app, Nat.add_1_r, Nat.add_succ_r in Hc. rewrite length_app in Hl. cbn [length] in Hl.
      exists stale', h'. split; [exact Hc|]. split; [exact Ho'|].
      split; [exact Hh'|]. split; [lia|].
      intros c Hin Hne. rewrite Hk by done. apply lookup_delete_ne. intros <-. apply Hnx.
      revert Hin. rewrite !fmap_app, !elem_of_app. pose proof (kept_sub index todo). set_solver.
Qed.

Lemma kept_cells_log index cells :
  (kept_cells index cells).*1 = filter (fun e => index < e_index e) cells.*1.
Proof.
  induction cells as [|x cells IH]; [done|]. cbn [fmap list_fmap]. unfold kept_cells in *.
  rewrite !filter_cons. repeat case_decide; cbn; by rewrite ?IH.
Qed.

Lemma cells_or_array F n cells m h :
  node_at F n cells m h -> cells = [] \/ exists a, mn_log m = Some a.
Proof.
  intros Hn. destruct (mn_log m) as [a|] eqn:Hm; [eauto|]. left. destruct (na_slots _ _ _ _ _ Hn) as (slots & Hs & _ & [rest Hr]%slots_prefix).
  unfold log_slots in Hs. rewrite Hm in Hs. simplify_eq. by destruct cells.
Qed.

Lemma snapshot_at F n cells m h index term :
  node_at F n cells m h ->
  exists m' h', m_snapshot index m h = Returns (m', h') /\
    node_at F {| n with last_snapshot_index := index; last_snapshot_term := term;
                        log := filter (fun e => index < e_index e) (log n) |}
      (kept_cells index cells) m' h'.
Proof.
  intros Hn. unfold m_snapshot. set (m1 := {| m with mn_last_snapshot_index := index |}).
  rewrite (na_count _ _ _ _ _ Hn), (node_at_length _ _ _ _ _ Hn), Nat2Z.id.
  destruct (cells_or_array _ _ _ _ _ Hn) as [->|[a Hm]].
  { eexists _, _. split; [done|]. destruct Hn. split; cbn; try done; unfold log_count; cbn;
      by rewrite na_log0. }
  destruct (na_slots _ _ _ _ _ Hn) as (slots & Hs & Hlen & [rest Hr]%slots_prefix).
  unfold log_slots in Hs. rewrite Hm in Hs. destruct (h !! a) as [[]|] eqn:Hh; simplify_eq.
  destruct (compact_cells F (base m) m1 a index rest cells [] [] h) 
    as (stale & h' & Hc & Ho & Hh' & Hl & Hk).
  { done. }
  { unfold base. rewrite Hm. set_solver. }
  { apply (na_owns _ _ _ _ _ Hn). }
  { done. }
  cbn [app length Nat.add] in *. rewrite Hc. eexists _, _. split; [done|].
  pose proof (length_filter (fun y => index < e_index y.1) cells : (length (kept_cells index cells) <= _)%nat).
  pose proof (na_owns _ _ _ _ _ Hn) as Ho0. rewrite base_log, Hm in Ho0.
  pose proof (own_nodup _ _ _ Ho0) as [Hna _]%NoDup_cons. pose proof (kept_sub index cells).
  assert (forall c, c ∈ option_list (mn_peers m) ++ (kept_cells index cells).*2 -> h' !! c = h !! c) as Hkeep.
  { intros c Hin. apply Hk; [unfold base; set_solver|intros ->; apply Hna; set_solver]. }
  destruct Hn. split; cbn; try done.
  - by rewrite na_log0, kept_cells_log.
  - unfold log_count. cbn. by rewrite na_log0, <- kept_cells_log, length_fmap.
  - eexists. unfold log_slots. cbn. rewrite Hm, Hh'. split; [done|].
    rewrite !length_app, !length_fmap in *. split; [lia|]. apply slots_prefix. eauto.
  - eapply data_kept; [exact Hkeep|set_solver|]. rewrite Forall_forall in *. intros x [_ Hx]%list_elem_of_filter. auto.
  - eapply (peers_kept h h'); [exact Hkeep|set_solver|done].
Qed.

(** ** Restoring the log *)

Lemma restore_at F env fuel i rest n cells m h :
  node_at F n cells m h -> fits n fuel ->
  same_result F (restore_entries env fuel i rest n) (m_restore_entries pick grow env fuel i rest m h).
Proof.
  revert i rest n cells m h. induction fuel as [|fuel IH]; intros i rest n cells m h Hn Hf;
    cbn [restore_entries m_restore_entries]; [cbn; eauto|].
  destruct (Nat.eqb _ _); [|cbn; eauto]. destruct (_ =? ENTRY_MAGIC); [|cbn; eauto]. cbn [negb].
  set (hdr := take 25 rest). set (data := take _ (drop 25 rest)). set (rest2 := drop _ (drop 25 rest)).
  destruct (rd_data env i); [|cbn; eauto]. cbn [negb orb].
  pose proof (node_at_alloc _ _ _ _ _ (pick h) (Bytes data) Hn (pick_fresh h)) as Hn1.
  set (p := pick h) in *. set (h1 := <[p := Bytes data]> h) in *.
  assert (F !! p = None) as Hp by (eapply node_at_frame_fresh; [exact Hn|apply pick_fresh]).
  assert (forall h2, node_at (<[p := Bytes data]> F) n cells m h2 ->
    same_result F (Returns n) (h3 ← free (Some p) h2; Returns (m, h3))) as Hbreak.
  { intros h2 Hn2. destruct (node_at_free _ _ _ _ _ _ _ Hn2 Hp) as [-> Hn3]. cbn. eauto. }
  destruct (_ =? of_net (field 21 4 hdr)); cbn [negb]; [|by apply Hbreak].
  destruct (Nat.eqb _ _); cbn [negb]; [|by apply Hbreak].
  destruct (rd_buf env i); cbn [negb]; [|done].
  pose proof (node_at_alloc _ _ _ _ _ (pick h1) (Bytes (hdr ++ data)) Hn1 (pick_fresh h1)) as Hn2.
  destruct (node_at_free _ _ _ _ _ _ _ Hn2) as [-> Hn3]; [by eapply node_at_frame_fresh|].
  cbn [mbind outcome_bind]. rewrite delete_insert_id in * by apply pick_fresh. clear Hn2 Hn3.
  destruct (_ =? crc32 _); cbn [negb]; [|by apply Hbreak].
  rewrite (na_count _ _ _ _ _ Hn), (na_cap _ _ _ _ _ Hn).
  pose proof (fits_cap _ _ Hf) as Hc. set (e := {| e_term := _ |}).
  pose proof (fits_push n fuel e Hf) as Hf'.
  destruct (log_count n >=? log_capacity n) eqn:E; cbn [andb].
  - destruct (rd_realloc env i); cbn [negb]; [|by apply Hbreak].
    destruct (realloc_log_at _ _ _ _ _ Hn1 Hc) as (m3 & h3 & -> & Hn3). cbn [mbind outcome_bind].
    destruct (store_at _ _ _ _ _ e p Hn3 Hp) as (m4 & h4 & -> & Hn4).
    { pose proof (node_at_room _ _ _ _ _ Hn). pose proof (grown_cap n). bool_to_prop. cbn.
      unfold log_count in *. cbn. unfold fits in Hf. lia. }
    cbn [mbind outcome_bind]. by eapply IH.
  - cbn [mbind outcome_bind]. destruct (store_at _ _ _ _ _ e p Hn1 Hp) as (m4 & h4 & -> & Hn4); [bool_to_prop; lia|].
    cbn [mbind outcome_bind]. by eapply IH.
Qed.

(** Changing the node's other fields is not seen in memory. *)
Lemma node_at_scalars F n n' cells m h :
  node_at F n cells m h -> log n' = log n -> log_capacity n' = log_capacity n ->
  last_snapshot_index n' = last_snapshot_index n -> peers n' = peers n ->
  peer_capacity n' = peer_capacity n -> node_at F n' cells m h.
Proof.
  intros [] Hl Hc Hs Hp Hk. split; unfold log_count, peer_count; rewrite ?Hl, ?Hc, ?Hs, ?Hp, ?Hk; done.
Qed.

Lemma save_snapshot_at F env fs n cells m h index term data :
  node_at F n cells m h ->
  let r := raft_save_snapshot env fs n index term data in
  same_answer F (Returns (r.1.1, r.2)) (m_save_snapshot env index term data m h).
Proof.
  intros Hn. unfold raft_save_snapshot, m_save_snapshot. cbn zeta.
  destruct (we_open env); cbn [negb]; [|cbn; eauto].
  destruct (sys_write (we_write env 0) _ _) as [[] file1]; cbn [negb]; [|cbn; eauto].
  destruct (sys_write (we_write env 1) _ _) as [[] file2]; cbn [negb]; [|cbn; eauto].
  destruct (snapshot_at F n cells m h index term Hn) as (m' & h' & -> & Hn'). cbn. eauto.
Qed.

(** The header of the file only reaches fields that are not pointers. *)
Lemma restore_state_at F env fs n cells m h :
  node_at F n cells m h -> fits n (S (length (default [] (fs !! wal_path (node_id n))))) ->
  same_answer F (raft_restore_state env fs n) (m_restore_state pick grow env fs (node_id n) m h).
Proof.
  intros Hn Hf. unfold raft_restore_state, m_restore_state.
  destruct (fs !! wal_path (node_id n)) as [file|]; [|cbn; eauto]. cbn [default] in Hf.
  destruct (rd_open env); cbn [negb]; [|cbn; eauto]. destruct (_ <? _)%nat; [cbn; eauto|].
  destruct (_ =? WAL_MAGIC); cbn [negb]; [|cbn; eauto].
  set (n1 := {| n with current_term := _; voted_for := _ |}).
  assert (node_at F n1 cells m h) as Hn1 by (by apply (node_at_scalars F n)).
  pose proof (restore_at F env (S (length file)) 0 (drop 64 file) n1 cells m h Hn1 Hf) as Hr.
  destruct (restore_entries _ _ _ _ n1), (m_restore_entries _ _ _ _ _ _ m h) as [[]|]; cbn in *; try done.
Qed.

(** ** Peers, construction, destruction *)

Lemma peer_prefix (slots : list (option RaftPeer)) (ps : list RaftPeer) :
  take (length ps) slots = Some <$> ps <-> exists rest, slots = (Some <$> ps) ++ rest.
Proof.
  split.
  - intros H. exists (drop (length ps) slots). by rewrite <- H, take_drop.
  - intros [rest ->]. rewrite <- (length_fmap Some ps) at 1. apply take_app_length.
Qed.

(** Overwriting the array of peers, keeping its capacity, changes nothing else. *)
Lemma peers_store_at F n cells m h ps slots :
  node_at F n cells m h -> peers_at (mn_peers m) h (peers n) (peer_capacity n) ->
  Z.of_nat (length slots) = peer_capacity n -> 0 < peer_capacity n ->
  take (length ps) slots = Some <$> ps ->
  exists h', peers_store m h slots = Returns h' /\
    node_at F {| n with peers := ps |} cells
      {| m with mn_peer_count := Z.of_nat (length ps) |} h'.
Proof.
  intros Hn (s0 & Hs0 & Hl0 & _) Hlen Hpos Ht. unfold peers_store.
  destruct (mn_peers m) as [a|] eqn:Ha; [|cbn in Hs0; simplify_eq; cbn in *; lia].
  eexists. split; [done|]. pose proof (na_owns _ _ _ _ _ Hn) as Ho.
  rewrite base_peers, Ha in Ho. pose proof (own_nodup _ _ _ Ho) as [Hnd _]%NoDup_cons.
  assert (forall c, c ∈ (mn_self m :: option_list (mn_log m) ++ option_list (mn_snapshot_data m))
    ++ cells.*2 -> <[a := PeerArray slots]> h !! c = h !! c) as Hk.
  { intros c Hc. apply lookup_insert_ne. intros <-. by apply Hnd. }
  destruct Hn. split; cbn; try done.
  - eapply owns_perm; [apply (base_peers {| m with mn_peers := Some a |})|].
    apply owns_write; [exact Ho|]. by left.
  - destruct na_slots0 as (sl & Hs & Hrest). exists sl. split; [|done].
    rewrite <- Hs. apply (slots_kept h _ m _ Hk). set_solver.
  - eapply data_kept; [exact Hk| |done]. set_solver.
  - exists slots. unfold peer_slots. by rewrite lookup_insert_eq.
Qed.

Lemma peer_read_at F n cells m h i p :
  node_at F n cells m h -> peers n !! i = Some p -> peer_read m h i = Returns p.
Proof.
  intros Hn Hi. destruct (na_peers _ _ _ _ _ Hn) as (slots & Hs & _ & [rest ->]%peer_prefix).
  unfold peer_read. rewrite Hs. cbn [mbind outcome_bind].
  rewrite lookup_app_l by (rewrite length_fmap; by eapply lookup_lt_Some).
  by rewrite list_lookup_fmap, Hi.
Qed.

(** The search along the array finds what [find_peer] finds in the list. *)
Lemma find_peer_from F n cells m h id i :
  node_at F n cells m h -> (i <= length (peers n))%nat ->
  m_find_peer (length (peers n) - i) i id m h
  = Returns (option_map (fun r => (i + r.1)%nat)
      (list_find (fun p => streq (p_node_id p) id = true) (drop i (peers n)))).
Proof.
  intros Hn. remember (length (peers n) - i)%nat as k eqn:Hk. revert i Hk.
  induction k as [|k IH]; intros i Hk Hi; cbn [m_find_peer].
  { by rewrite drop_ge by lia. }
  destruct (lookup_lt_is_Some_2 (peers n) i) as [p Hp]; [lia|].
  rewrite (peer_read_at _ _ _ _ _ _ _ Hn Hp), (drop_S _ _ _ Hp). cbn [mbind outcome_bind list_find].
  destruct (streq (p_node_id p) id) eqn:E.
  - rewrite decide_True by done. cbn. by rewrite Nat.add_0_r.
  - rewrite decide_False by done. rewrite IH by lia. destruct (list_find _ _) as [[j q]|]; [|done].
    cbn. do 2 f_equal. lia.
Qed.

Lemma find_peer_at_slots F n cells m h id :
  node_at F n cells m h ->
  m_find_peer (Z.to_nat (mn_peer_count m)) 0 id m h = Returns (option_map fst (find_peer n id)).
Proof.
  intros Hn. rewrite (na_peer_count _ _ _ _ _ Hn). unfold peer_count. rewrite Nat2Z.id.
  pose proof (find_peer_from F n cells m h id 0 Hn ltac:(lia)) as H.
  rewrite Nat.sub_0_r, drop_0 in H. rewrite H. unfold find_peer. by destruct (list_find _ _) as [[]|].
Qed.

(** Writing one slot among the peers. *)
Lemma peer_write_at F n cells m h i p :
  node_at F n cells m h -> (i < length (peers n))%nat ->
  exists h', peer_write m h i p = Returns h' /\
    node_at F {| n with peers := <[i := p]> (peers n) |} cells m h'.
Proof.
  intros Hn Hi. pose proof (na_peers _ _ _ _ _ Hn) as Hp. pose proof Hp as (slots & Hs & Hl & [rest ->]%peer_prefix).
  rewrite length_app, length_fmap in Hl. unfold peer_write. rewrite Hs. cbn [mbind outcome_bind].
  rewrite (proj2 (Nat.ltb_lt _ _)) by (rewrite length_app, length_fmap; lia).
  destruct (peers_store_at F n cells m h (<[i := p]> (peers n)) (<[i := Some p]> ((Some <$> peers n) ++ rest)))
    as (h' & Hst & Hn'); [done|done|..].
  - rewrite length_insert, length_app, length_fmap. lia.
  - lia.
  - apply peer_prefix. exists rest. rewrite insert_app_l by (rewrite length_fmap; lia).
    by rewrite list_fmap_insert.
  - exists h'. split; [done|]. rewrite length_insert in Hn'.
    assert ({| m with mn_peer_count := Z.of_nat (length (peers n)) |} = m) as Hm.
    { pose proof (na_peer_count _ _ _ _ _ Hn) as Hc. unfold peer_count in Hc. rewrite <- Hc. by destruct m. }
    by rewrite Hm in Hn'.
Qed.

Lemma realloc_peers_at F n cells m h :
  node_at F n cells m h -> peer_capacity n < 2 ^ 63 ->
  let cap := if peer_capacity n =? 0 then 8 else u64 (peer_capacity n * 2) in
  peer_capacity n < cap ->
  exists m' h', realloc_peers grow m h = Returns (m', h') /\
    node_at F {| n with peer_capacity := cap |} cells m' h' /\ mn_peer_count m' = peer_count n.
Proof.
  intros Hn Hc cap Hcap. pose proof (na_owns _ _ _ _ _ Hn) as Ho. rewrite base_peers in Ho.
  pose proof (na_peers _ _ _ _ _ Hn) as (slots & Hs & Hl & [rest Hr]%peer_prefix).
  unfold realloc_peers. rewrite (na_peer_cap _ _ _ _ _ Hn), Hs. fold cap. cbn [mbind outcome_bind].
  match goal with |- context [PeerArray ?x] => set (s' := x) end.
  pose proof (realloc_owns F h (mn_peers m) _ (PeerArray s') Ho) as Hro. cbn zeta in *.
  destruct (realloc grow (mn_peers m) (PeerArray s') h) as [a h1]. cbn [fst snd] in *.
  destruct Hro as (Ho1 & Ha & Hk). eexists _, _. split; [done|].
  split; [|apply (na_peer_count _ _ _ _ _ Hn)]. destruct Hn. split; cbn; try done.
  - eapply owns_perm; [apply (base_peers {| m with mn_peers := Some a |})|exact Ho1].
  - destruct na_slots0 as (sl & Hsl & Hrest). exists sl. split; [|done].
    rewrite <- Hsl. apply (slots_kept h h1 m _ Hk). set_solver.
  - eapply data_kept; [exact Hk| |done]. set_solver.
  - exists s'. cbn. rewrite Ha. split; [done|]. split.
    + subst s'. rewrite length_take, length_app, length_replicate. lia.
    + apply peer_prefix. subst s' slots. rewrite <- app_assoc, take_app_ge by (rewrite length_app in Hl; lia).
      by eexists.
Qed.

(** Filling the slot behind the last peer. *)
Lemma push_peer_at F n cells m h x :
  node_at F n cells m h -> peer_count n < peer_capacity n ->
  exists h', peer_write m h (Z.to_nat (mn_peer_count m)) x = Returns h' /\
    node_at F {| n with peers := peers n ++ [x] |} cells
      {| m with mn_peer_count := mn_peer_count m + 1 |} h'.
Proof.
  intros Hn Hlt. pose proof (na_peers _ _ _ _ _ Hn) as Hp. pose proof Hp as (slots & Hs & Hl & [rest Hr]%peer_prefix).
  rewrite (na_peer_count _ _ _ _ _ Hn). unfold peer_count in *. rewrite Nat2Z.id.
  unfold peer_write. rewrite Hs. cbn [mbind outcome_bind]. rewrite (proj2 (Nat.ltb_lt _ _)) by lia.
  destruct (peers_store_at F n cells m h (peers n ++ [x]) (<[length (peers n) := Some x]> slots))
    as (h' & Hst & Hn'); [done|done|..].
  - by rewrite length_insert.
  - lia.
  - subst slots. destruct rest as [|y rest]; [rewrite app_nil_r, length_fmap in Hl; lia|].
    apply peer_prefix. exists rest. rewrite <- (length_fmap Some (peers n)) at 1.
    rewrite insert_app_r_alt, Nat.sub_diag by done. cbn. by rewrite fmap_app, <- app_assoc.
  - exists h'. split; [done|]. rewrite length_app in Hn'. cbn [length] in Hn'.
    by rewrite Nat2Z.inj_add in Hn'.
Qed.

Lemma add_peer_at F al n cells m h id ip port :
  node_at F n cells m h -> peer_capacity n < 2 ^ 63 ->
  let r := raft_add_peer al n id ip port in
  exists m' h', m_add_peer grow al id ip port m h = Returns (r.1, (m', h')) /\ node_at F r.2 cells m' h'.
Proof.
  intros Hn Hc. unfold m_add_peer, raft_add_peer. cbn zeta. rewrite (find_peer_at_slots F n cells) by done.
  cbn [mbind outcome_bind]. destruct (find_peer n id) as [x|]; cbn [option_map]; [eauto|].
  rewrite (na_peer_count _ _ _ _ _ Hn), (na_peer_cap _ _ _ _ _ Hn).
  pose proof (na_peers_fit _ _ _ _ _ Hn) as Hfit.
  assert (peer_capacity n < (if peer_capacity n =? 0 then 8 else u64 (peer_capacity n * 2))) as Hcap.
  { unfold peer_count in Hfit. destruct (_ =? 0) eqn:E; bool_to_prop; [lia|].
    rewrite u64_small by solve_u. lia. }
  destruct (_ >=? _) eqn:E; cbn [andb]; bool_to_prop.
  - destruct (realloc_ok al); cbn [negb]; [|eauto].
    destruct (realloc_peers_at F n cells m h Hn Hc Hcap) as (m1 & h1 & -> & Hn1 & Hc1).
    cbn [mbind outcome_bind].
    destruct (push_peer_at F _ cells m1 h1 (new_peer id ip port) Hn1) as (h2 & -> & Hn2).
    { change (peer_count n < (if peer_capacity n =? 0 then 8 else u64 (peer_capacity n * 2))). lia. }
    cbn [mbind outcome_bind]. eauto.
  - cbn [mbind outcome_bind].
    destruct (push_peer_at F n cells m h (new_peer id ip port) Hn E) as (h2 & -> & Hn2).
    cbn [mbind outcome_bind]. eexists _, _. split; [done|]. by destruct n.
Qed.

(** Moving the slots behind position [i] down by one is deleting it. *)
Lemma memmove_delete {A} (ps : list A) (rest : list (option A)) (i : nat) :
  (i < length ps)%nat ->
  exists x, memmove_slots i (i + 1) (length ps - i - 1) ((Some <$> ps) ++ rest)
            = Returns ((Some <$> delete i ps) ++ x :: rest).
Proof.
  intros Hi. unfold memmove_slots. rewrite length_app, length_fmap.
  rewrite !(proj2 (Nat.ltb_ge _ _)) by lia. cbn [orb].
  destruct (lookup_lt_is_Some_2 (drop (length ps - 1) ps) 0) as [x Hx]; [rewrite length_drop; lia|].
  exists (Some x). f_equal. rewrite take_app_le by (rewrite length_fmap; lia).
  rewrite (drop_app_le _ _ (i + 1)) by (rewrite length_fmap; lia).
  rewrite take_app_le by (rewrite length_drop, length_fmap; lia).
  rewrite (take_ge (drop _ _)) by (rewrite length_drop, length_fmap; lia).
  replace (i + (length ps - i - 1))%nat with (length ps - 1)%nat by lia.
  rewrite drop_app_le by (rewrite length_fmap; lia).
  rewrite <- !fmap_take, <- !fmap_drop, app_assoc, <- fmap_app, delete_take_drop.
  replace (S i) with (i + 1)%nat by lia. f_equal.
  destruct (drop (length ps - 1) ps) as [|y [|z l]] eqn:Ed; cbn in Hx; simplify_eq; [done|].
  apply (f_equal length) in Ed. rewrite length_drop in Ed. cbn in Ed. lia.
Qed.

Lemma remove_peer_at F n cells m h id :
  node_at F n cells m h ->
  let r := raft_remove_peer n id in
  exists m' h', m_remove_peer id m h = Returns (r.1, (m', h')) /\ node_at F r.2 cells m' h'.
Proof.
  intros Hn. unfold m_remove_peer, raft_remove_peer. cbn zeta.
  rewrite (find_peer_at_slots F n cells) by done. cbn [mbind outcome_bind].
  destruct (find_peer n id) as [[i x]|] eqn:Ef; cbn [option_map fst]; [|eauto].
  apply find_peer_Some in Ef as [Hi%lookup_lt_Some _].
  pose proof (na_peers _ _ _ _ _ Hn) as Hp. pose proof Hp as (slots & Hs & Hl & [rest ->]%peer_prefix).
  rewrite Hs, (na_peer_count _ _ _ _ _ Hn). unfold peer_count. rewrite Nat2Z.id. cbn [mbind outcome_bind].
  destruct (memmove_delete (peers n) rest i Hi) as [y ->]. cbn [mbind outcome_bind].
  assert (length (delete i (peers n)) = length (peers n) - 1)%nat as Hd
    by (rewrite length_delete; [lia|by apply lookup_lt_is_Some]).
  destruct (peers_store_at F n cells m h (delete i (peers n)) ((Some <$> delete i (peers n)) ++ y :: rest))
    as (h' & -> & Hn'); [done|done|..].
  - rewrite length_app in Hl |- *. rewrite !length_fmap in *. cbn [length]. lia.
  - rewrite length_app, length_fmap in Hl. lia.
  - apply peer_prefix. eauto.
  - cbn [mbind outcome_bind]. eexists _, _. split; [done|]. rewrite Hd in Hn'.
    by replace (Z.of_nat (length (peers n) - 1)) with (Z.of_nat (length (peers n)) - 1) in Hn' by lia.
Qed.

Lemma one_peer_at F n cells m h id f :
  node_at F n cells m h ->
  exists h', m_one_peer id f m h = Returns h' /\
    node_at F (match find_peer n id with
               | Some (i, p) => {| n with peers := <[i := f p]> (peers n) |}
               | None => n
               end) cells m h'.
Proof.
  intros Hn. unfold m_one_peer. rewrite (find_peer_at_slots F n cells) by done. cbn [mbind outcome_bind].
  destruct (find_peer n id) as [[i p]|] eqn:Ef; cbn [option_map fst]; [|eauto].
  apply find_peer_Some in Ef as [Hi _]. rewrite (peer_read_at _ _ _ _ _ _ _ Hn Hi).
  cbn [mbind outcome_bind]. apply peer_write_at; [done|]. by eapply lookup_lt_Some.
Qed.

Lemma each_peer_from F n cells m h f i :
  node_at F n cells m h -> (i <= length (peers n))%nat ->
  exists h', m_each_peer f (length (peers n) - i) i m h = Returns h' /\
    node_at F {| n with peers := take i (peers n) ++ map f (drop i (peers n)) |} cells m h'.
Proof.
  remember (length (peers n) - i)%nat as k eqn:Hk. revert i n h Hk.
  induction k as [|k IH]; intros i n h Hk Hn Hi; cbn [m_each_peer].
  { exists h. split; [done|]. rewrite take_ge, drop_ge, app_nil_r by lia. by destruct n. }
  destruct (lookup_lt_is_Some_2 (peers n) i) as [p Hp]; [lia|].
  rewrite (peer_read_at _ _ _ _ _ _ _ Hn Hp). cbn [mbind outcome_bind].
  destruct (peer_write_at F n cells m h i (f p) Hn) as (h1 & -> & Hn1); [lia|]. cbn [mbind outcome_bind].
  destruct (IH (S i) {| n with peers := <[i := f p]> (peers n) |} h1) as (h2 & Hh2 & Hn2);
    [cbn; rewrite length_insert; lia|done|cbn; rewrite length_insert; lia|].
  exists h2. split; [done|]. cbn [peers] in Hn2.
  assert (take (S i) (<[i := f p]> (peers n)) ++ map f (drop (S i) (<[i := f p]> (peers n)))
          = take i (peers n) ++ map f (drop i (peers n))) as Heq.
  { rewrite (take_S_r _ _ (f p)) by (rewrite list_lookup_insert_eq; [done|lia]).
    rewrite take_insert_ge by lia. rewrite drop_insert_lt by lia.
    rewrite (drop_S _ _ _ Hp). cbn. by rewrite <- app_assoc. }
  rewrite Heq in Hn2. exact Hn2.
Qed.

Lemma each_peer_at F n cells m h f :
  node_at F n cells m h ->
  exists h', m_each_peer f (Z.to_nat (mn_peer_count m)) 0 m h = Returns h' /\
    node_at F {| n with peers := map f (peers n) |} cells m h'.
Proof.
  intros Hn. rewrite (na_peer_count _ _ _ _ _ Hn). unfold peer_count. rewrite Nat2Z.id.
  destruct (each_peer_from F n cells m h f 0 Hn) as (h' & Hh & Hn'); [lia|].
  rewrite Nat.sub_0_r in Hh. rewrite take_0, drop_0 in Hn'. eauto.
Qed.

Lemma init_at F al id rnd n :
  raft_init al id rnd = Some n -> node_at F n [] (m_init pick F).1 (m_init pick F).2.
Proof.
  unfold raft_init. destruct (malloc_ok al); [|done]. intros [= <-]. split; cbn; try done.
  - apply (owns_alloc F F []); [|apply pick_fresh]. split; [constructor|set_solver..|done].
  - by exists [].
  - by exists [].
Qed.

Lemma free_opt F h p xs :
  owns F h (option_list p ++ xs) -> exists h', free p h = Returns h' /\ owns F h' xs.
Proof. destruct p as [a|]; cbn; [|eauto]. intros [? ?]%owns_free. eauto. Qed.

Lemma destroy_at F n cells m h : node_at F n cells m h -> m_destroy m h = Returns F.
Proof.
  intros Hn. unfold m_destroy.
  rewrite (na_count _ _ _ _ _ Hn), (node_at_length _ _ _ _ _ Hn), Nat2Z.id.
  destruct (na_slots _ _ _ _ _ Hn) as (slots & Hs & _).
  destruct (free_cells F (base m) m slots cells 0 h) as (h1 & -> & Ho & _);
    [done|unfold base; set_solver|apply (na_owns _ _ _ _ _ Hn)|
     intros i x Hx; by eapply cells_in_slots|].
  cbn [mbind outcome_bind]. rewrite <- (app_nil_r (base m)), base_log, app_nil_r in Ho.
  apply free_opt in Ho as (h2 & -> & Ho). cbn [mbind outcome_bind].
  rewrite Permutation_cons_append, <- app_assoc in Ho.
  apply free_opt in Ho as (h3 & -> & Ho). cbn [mbind outcome_bind].
  apply free_opt in Ho as (h4 & -> & Ho). cbn [mbind outcome_bind].
  apply owns_free in Ho as [-> Ho]. by rewrite (owns_nil _ _ Ho).
Qed.

Lemma same_code0 F r mr : same_result F r mr -> same_answer F (code0 r) (code0 mr).
Proof. destruct r, mr as [[]|]; cbn; eauto. Qed.

Lemma op_at F o n cells m h :
  node_at F n cells m h -> op_fits o n -> same_answer F (list_op o n) (heap_op pick grow o n m h).
Proof.
  intros Hn [Hp Hf].
  destruct o as [al data|al es rounds|env fs index term data|env fs|al id ip port|id|f|id f];
    cbn [list_op heap_op].
  - destruct (submit_at tt al F n cells m h data Hn (fits_cap _ _ Hf)) as (m' & h' & cells' & -> & Hn').
    cbn. eauto.
  - apply same_code0. by eapply append_loop_at.
  - by eapply save_snapshot_at.
  - by eapply restore_state_at.
  - destruct (add_peer_at F al n cells m h id ip port Hn Hp) as (m' & h' & -> & Hn').
    destruct (raft_add_peer al n id ip port). cbn in *. eauto.
  - destruct (remove_peer_at F n cells m h id Hn) as (m' & h' & -> & Hn').
    destruct (raft_remove_peer n id). cbn in *. eauto.
  - destruct (each_peer_at F n cells m h f Hn) as (h' & -> & Hn'). cbn. eauto.
  - destruct (one_peer_at F n cells m h id f Hn) as (h' & -> & Hn'). cbn. eauto.
Qed.

Lemma lifetime_at F n m h : lifetime pick grow F n m h -> exists cells, node_at F n cells m h.
Proof.
  induction 1 as [al id rnd n Hi|o n m h c n' c' m' h' _ [cells IH] Hf Hl Hh|n n' m h _ [cells IH]].
  - eexists. by eapply init_at.
  - pose proof (op_at F o n cells m h IH Hf) as Ha. rewrite Hl, Hh in Ha. cbn in Ha. naive_solver.
  - exists cells. by eapply node_at_scalars.
Qed.

End Correct.

(** ** Claims *)

(** C8: the pointers of a node implement its lists.  From [raft_init] on, in any
    sequence of submits, appends with truncation, snapshots, restores, additions and
    removals of peers and updates of their fields, with allocations that may fail and [realloc] that may move, every
    operation on the blocks returns the code that the operation on the lists
    returns, and the blocks then hold the resulting lists beside the untouched
    frame; undefined behaviour (use after free, double free, access outside the
    array or through NULL) occurs exactly where [RaftCore] and [RaftPersist] say. *)
Theorem memory_refines_lists (pick : heap -> addr) (grow : heap -> option addr -> addr) (F : heap)
    (o : mem_op) (n : RaftNode) (m : MNode) (h : heap) :
  (forall h, h !! pick h = None) ->
  (forall h p, h !! grow h p = None \/ p = Some (grow h p)) ->
  lifetime pick grow F n m h -> op_fits o n ->
  same_answer F (list_op o n) (heap_op pick grow o n m h).
Proof. intros Hp Hg Hl Hf. destruct (lifetime_at _ _ Hp Hg _ _ _ _ Hl). by eapply op_at. Qed.

(** C11: [raft_destroy] frees every block of the node once: after any life of the
    node the heap is exactly what it was before [raft_init], with nothing leaked,
    nothing freed twice and nothing else freed. *)
Theorem destroy_leaves_nothing (pick : heap -> addr) (grow : heap -> option addr -> addr) (F : heap)
    (n : RaftNode) (m : MNode) (h : heap) :
  (forall h, h !! pick h = None) ->
  (forall h p, h !! grow h p = None \/ p = Some (grow h p)) ->
  lifetime pick grow F n m h -> m_destroy m h = Returns F.
Proof. intros Hp Hg Hl. destruct (lifetime_at _ _ Hp Hg _ _ _ _ Hl). by eapply destroy_at. Qed.

(** ** A concrete life *)

Definition demo_pick (h : heap) : addr := fresh (map_to_list h).*1.
Definition demo_grow (h : heap) (_ : option addr) : addr := fresh (map_to_list h).*1.

Lemma demo_pick_fresh h : h !! demo_pick h = None.
Proof.
  apply not_elem_of_dom. intros Hin. apply (infinite_is_fresh (map_to_list h).*1).
  apply elem_of_dom in Hin as [b Hb]. apply list_elem_of_fmap. exists (demo_pick h, b).
  split; [done|]. by apply elem_of_map_to_list.
Qed.

Definition mem_entry (term index : Z) (data : string) : RaftLogEntry :=
  {| e_term := term; e_index := index; e_data := text data; e_type := 0 |}.

(** What the operations make of a node and its blocks. *)
Definition after_op (o : mem_op) (s : RaftNode * (MNode * heap)) : RaftNode * (MNode * heap) :=
  match list_op o s.1, heap_op demo_pick demo_grow o s.1 s.2.1 s.2.2 with
  | Returns (_, n), Returns (_, r) => (n, r)
  | _, _ => s
  end.

(** A heap with a block of someone else, a node with three entries, of which two
    are replaced, and a snapshot of the first. *)
Definition demo_frame : heap := {[ 1%positive := Bytes (text "other") ]}.

Definition demo_begin : RaftNode * (MNode * heap) :=
  (default (demo_node RAFT_STATE_FOLLOWER 0) (raft_init alloc_ok (text "n1") 0), m_init demo_pick demo_frame).

Definition demo_ops : list mem_op :=
  [ AddPeer alloc_ok (text "n2") (text "10.0.0.2") 7000;
    AddPeer alloc_ok (text "n3") (text "10.0.0.3") 7000;
    RemovePeer (text "n2");
    AppendAll (fun _ => alloc_ok) (Some [mem_entry 1 1 "a"; mem_entry 1 2 "b"; mem_entry 1 3 "c"]) 3;
    AppendAll (fun _ => alloc_ok) (Some [mem_entry 2 2 "d"]) 1;
    Snapshot write_ok ∅ 1 1 (text "state") ].

Definition demo_life : RaftNode * (MNode * heap) := foldl (fun s o => after_op o s) demo_begin demo_ops.

Abbreviation demo_lifetime s :=
  (lifetime demo_pick demo_grow demo_frame (fst s) (fst (snd s)) (snd (snd s))).

Lemma after_op_life o s : demo_lifetime s -> op_fits o s.1 -> demo_lifetime (after_op o s).
Proof.
  intros Hl Hf. unfold after_op.
  destruct (list_op o s.1) as [[c n]|] eqn:E1; [|done].
  destruct (heap_op _ _ o s.1 s.2.1 s.2.2) as [[c' [m h]]|] eqn:E2; [|done].
  exact (life_op _ _ _ _ _ _ _ _ _ _ _ _ Hl Hf E1 E2).
Qed.

Lemma demo_begin_life : demo_lifetime demo_begin.
Proof. apply (life_init _ _ _ alloc_ok (text "n1") 0). reflexivity. Qed.

Lemma demo_life_ok : demo_lifetime demo_life.
Proof.
  unfold demo_life, demo_ops. cbn [foldl].
  repeat (apply after_op_life; [|split; [vm_compute; congruence|split; [split|]; vm_compute; congruence]]).
  apply demo_begin_life.
Qed.

Lemma memory_refines_lists_witness :
  same_answer demo_frame
    (list_op (Snapshot write_ok ∅ 2 2 (text "state")) demo_life.1)
    (heap_op demo_pick demo_grow (Snapshot write_ok ∅ 2 2 (text "state")) demo_life.1 demo_life.2.1 demo_life.2.2).
Proof.
  apply (memory_refines_lists demo_pick demo_grow demo_frame (Snapshot write_ok ∅ 2 2 (text "state"))).
  - apply demo_pick_fresh.
  - intros h p. left. apply demo_pick_fresh.
  - apply demo_life_ok.
  - split; [vm_compute; congruence|split; [split|]; vm_compute; congruence].
Defined.

Lemma destroy_leaves_nothing_witness :
  length (log demo_life.1) = 1%nat /\ m_destroy demo_life.2.1 demo_life.2.2 = Returns demo_frame.
Proof.
  split; [vm_compute; reflexivity|].
  apply (destroy_leaves_nothing demo_pick demo_grow demo_frame demo_life.1).
  - apply demo_pick_fresh.
  - intros h p. left. apply demo_pick_fresh.
  - apply demo_life_ok.
Defined.
