(* ===== verification/TestSuite.v ===== *)
(** * The repository's Raft tests

    [tests/test_raft.c] run on the model: one definition per test, with its
    assertions as a list of booleans.  [raft_suite_passes] evaluates them all; it
    ties the definitions of [RaftCore] and [RaftPersist] to what the authors of the
    code expect of it. *)

From S2P Require Import Prelude RaftCore RaftInv RaftSpec Crc32 RaftPersist.

(** ** The mock state machine *)

Record MockStateMachine : Type := {
  apply_count : Z;
  last_data : list byte;
}.

Definition mock_apply (sm : MockStateMachine) (data : list byte) : MockStateMachine :=
  {| apply_count := apply_count sm + 1; last_data := take 256 data |}.

Definition mock_cb : Callbacks MockStateMachine :=
  {| cb_apply := Some mock_apply; cb_persist := None; cb_send_rpc := None |}.

Abbreviation state_of := (RaftNode * MockStateMachine)%type.

(** [raft_init(id, mock_apply, &sm)] *)
Definition init (id : string) : state_of :=
  (match raft_init alloc_ok (text id) 7 with Some n => n | None => demo_node RAFT_STATE_FOLLOWER 0 end,
   {| apply_count := 0; last_data := [] |}).

Definition add (id : string) (port : Z) (s : state_of) : state_of :=
  ((raft_add_peer alloc_ok s.1 (text id) (text "127.0.0.1") port).2, s.2).

Definition start (now : Z) (s : state_of) : state_of := ((raft_start now s.1).2, s.2).

Definition submit (data : list byte) (s : state_of) : state_of := (raft_submit mock_cb alloc_ok s data).2.

(** The tests write fields of the node directly. *)
Definition set (f : RaftNode -> RaftNode) (s : state_of) : state_of := (f s.1, s.2).
Definition set_role (st : RaftState) (t : Z) : state_of -> state_of :=
  set (fun n => {| n with state := st; current_term := t |}).
Definition set_entry (i : nat) (t index : Z) : state_of -> state_of :=
  set (fun n => {| n with log := alter (fun e => {| e with e_term := t; e_index := index |}) i (log n) |}).

Definition strcmp_eq (a : list byte) (s : string) : bool := streq a (text s).

(** ** The tests *)

Definition test_init_and_destroy : list bool :=
  let n := (init "node-1").1 in
  [strcmp_eq (node_id n) "node-1"; bool_decide (state n = RAFT_STATE_FOLLOWER);
   current_term n =? 0; commit_index n =? 0; last_applied n =? 0].

Definition test_add_remove_peer : list bool :=
  let n0 := (init "node-1").1 in
  let r1 := raft_add_peer alloc_ok n0 (text "node-2") (text "127.0.0.1") 9001 in
  let r2 := raft_add_peer alloc_ok r1.2 (text "node-3") (text "127.0.0.1") 9002 in
  let r3 := raft_remove_peer r2.2 (text "node-2") in
  let first n s := match peers n with p :: _ => strcmp_eq (p_node_id p) s | [] => false end in
  [r1.1 =? 0; peer_count r1.2 =? 1; first r1.2 "node-2"; r2.1 =? 0; peer_count r2.2 =? 2;
   r3.1 =? 0; peer_count r3.2 =? 1; first r3.2 "node-3"].

Definition three_nodes (now : Z) : state_of :=
  start now (add "node-3" 9002 (add "node-2" 9001 (init "node-1"))).

Definition test_election_timeout : list bool :=
  let s0 := three_nodes 1000 in
  let s1 := raft_tick mock_cb 1001 1002 7 (set (fun n => {| n with last_heartbeat_ms := 501 |}) s0) in
  [bool_decide (state s0.1 = RAFT_STATE_FOLLOWER); current_term s0.1 =? 0;
   bool_decide (state s1.1 = RAFT_STATE_CANDIDATE); current_term s1.1 =? 1; votes_received s1.1 =? 1].

Definition test_win_election_with_majority : list bool :=
  let s0 := set (fun n => {| n with votes_received := 1 |}) (set_role RAFT_STATE_CANDIDATE 1 (three_nodes 1000)) in
  let s1 := raft_handle_request_vote_response mock_cb alloc_ok s0 (text "node-2")
              {| rvr_term := 1; rvr_vote_granted := 1 |} in
  [bool_decide (state s1.1 = RAFT_STATE_LEADER); strcmp_eq (leader_id s1.1) "node-1"].

Definition vote_req (t index lt : Z) : RaftRequestVoteReq :=
  {| rv_term := t; rv_candidate_id := strncpy (zeros 37) (text "node-2") 37;
     rv_last_log_index := index; rv_last_log_term := lt |}.

Definition test_reject_vote_for_stale_term : list bool :=
  let (resp, _) := raft_handle_request_vote mock_cb 1000 (set_role RAFT_STATE_FOLLOWER 5 (init "node-1"))
                     (vote_req 3 0 0) in
  [rvr_vote_granted resp =? 0; rvr_term resp =? 5].

Definition test_grant_vote_for_up_to_date_log : list bool :=
  let s0 := set_entry 0 1 1 (submit (text "test") (set_role RAFT_STATE_LEADER 5 (init "node-1"))) in
  let (resp, s1) := raft_handle_request_vote mock_cb 1000 (set_role RAFT_STATE_FOLLOWER 5 s0)
                      (vote_req 6 2 3) in
  [rvr_vote_granted resp =? 1; strcmp_eq (voted_for s1.1) "node-2"].

Definition test_leader_submit_entry : list bool :=
  let data := text "hello world" ++ [x00] in
  let r := raft_submit mock_cb alloc_ok (set_role RAFT_STATE_LEADER 1 (init "node-1")) data in
  [r.1 =? 0;
   bool_decide (log r.2.1 = [{| e_term := 1; e_index := 1; e_data := data; e_type := 0 |}])].

Definition append_req (t prev_index prev_term count : Z) (leader : string) : RaftAppendEntriesReq :=
  {| ae_term := t; ae_leader_id := strncpy (zeros 37) (text leader) 37; ae_prev_log_index := prev_index;
     ae_prev_log_term := prev_term; ae_leader_commit := 0; ae_entry_count := count |}.

(** The assertions about the response and the node; undefined behaviour fails. *)
Definition after_append (s : state_of) (req : RaftAppendEntriesReq) (ptr : option (list RaftLogEntry))
    (asserts : RaftAppendEntriesResp -> RaftNode -> list bool) : list bool :=
  match raft_handle_append_entries mock_cb (fun _ => alloc_ok) 1000 s req ptr (ae_entry_count req) with
  | Returns (resp, s1) => asserts resp s1.1
  | Undefined => [false]
  end.

Definition test_follower_append_matching_entry : list bool :=
  after_append (set_role RAFT_STATE_FOLLOWER 2 (init "node-1")) (append_req 2 0 0 1 "node-2")
    (Some [{| e_term := 2; e_index := 1; e_data := text "test"; e_type := 0 |}])
    (fun resp n => [aer_success resp =? 1; log_count n =? 1;
                    bool_decide (e_index <$> log n !! 0%nat = Some 1)]).

Definition test_follower_reject_mismatched_prev_log : list bool :=
  let s0 := set_entry 0 1 1 (submit (text "first") (set_role RAFT_STATE_LEADER 2 (init "node-1"))) in
  after_append (set_role RAFT_STATE_FOLLOWER 2 s0) (append_req 2 1 2 0 "node-2") None
    (fun resp _ => [aer_success resp =? 0]).

Definition test_commit_index_advancement : list bool :=
  let s0 := add "node-4" 9003 (add "node-3" 9002 (add "node-2" 9001
              (set_role RAFT_STATE_LEADER 1 (init "node-1")))) in
  let s1 := submit (text "cmd") s0 in
  let matched p := {| p with match_index := 1 |} in
  let s2 := set (fun n => {| n with peers := alter matched 1%nat (alter matched 0%nat (peers n)) |}) s1 in
  let s3 := raft_tick mock_cb 1000 1000 7 s2 in
  [bool_decide (e_index <$> log s1.1 !! 0%nat = Some 1); commit_index s1.1 =? 0;
   commit_index s3.1 =? 1; last_applied s3.1 =? 1; apply_count s3.2 =? 1].

Definition test_persist_and_restore_state : list bool :=
  let s1 := set_entry 0 3 1 (submit (text "entry1")
              (set (fun n => {| n with voted_for := strncpy (voted_for n) (text "node-2") 37 |})
                 (set_role RAFT_STATE_LEADER 5 (init "test-persist")))) in
  let s2 := set_entry 1 4 2 (submit (text "entry2") s1) in
  let (rc, fs) := raft_persist_state write_ok ∅ s2.1 in
  match raft_restore_state read_ok fs (init "test-persist").1 with
  | Returns (rc', n) =>
      [rc =? 0; rc' =? 0; current_term n =? 5; strcmp_eq (voted_for n) "node-2"; log_count n =? 2;
       bool_decide ((fun e => (e_index e, e_term e)) <$> log n = [(1, 3); (2, 4)])]
  | Undefined => [false]
  end.

Fixpoint submit_all (i : nat) (texts : list (list byte)) (s : state_of) : state_of :=
  match texts with
  | [] => s
  | t :: texts' => submit_all (S i) texts' (set_entry i 1 (Z.of_nat i + 1) (submit t s))
  end.

Definition test_snapshot_creation_and_load : list bool :=
  let texts := map (fun d => text "entry-" ++ [byte_of_Z (48 + Z.of_nat d)]) (seq 0 10) in
  let s := submit_all 0 texts (set_role RAFT_STATE_LEADER 0 (init "test-snap")) in
  let data := text "snapshot-state" ++ [x00] in
  let '(rc, fs, n) := raft_save_snapshot write_ok ∅ s.1 5 1 data in
  let (rc', loaded) := raft_load_snapshot read_ok fs (init "test-snap").1 in
  [log_count s.1 =? 10; rc =? 0; log_count n =? 5; bool_decide (e_index <$> log n !! 0%nat = Some 6);
   last_snapshot_index n =? 5; rc' =? 0; bool_decide (loaded = Some (5, 1, data))].

Definition test_step_down_on_higher_term : list bool :=
  after_append (set_role RAFT_STATE_LEADER 5 (init "node-1")) (append_req 7 0 0 0 "node-2") None
    (fun _ n => [bool_decide (state n = RAFT_STATE_FOLLOWER); current_term n =? 7;
                 strcmp_eq (leader_id n) "node-2"]).

Definition test_reject_entries_from_stale_term : list bool :=
  after_append (set_role RAFT_STATE_FOLLOWER 10 (init "node-1")) (append_req 5 0 0 0 "") None
    (fun resp _ => [aer_success resp =? 0; aer_term resp =? 10]).

Definition raft_suite : list (list bool) :=
  [test_init_and_destroy; test_add_remove_peer; test_election_timeout; test_win_election_with_majority;
   test_reject_vote_for_stale_term; test_grant_vote_for_up_to_date_log; test_leader_submit_entry;
   test_follower_append_matching_entry; test_follower_reject_mismatched_prev_log;
   test_commit_index_advancement; test_persist_and_restore_state; test_snapshot_creation_and_load;
   test_step_down_on_higher_term; test_reject_entries_from_stale_term].

Example raft_suite_passes : forallb (forallb id) raft_suite = true.
Proof. vm_compute. reflexivity. Qed.
