(* ===== verification/Wire.v ===== *)
(** * Wire formats

    Models [src/protocol/serializer.c], the packed structs of
    [include/protocol/protocol_defs.h] and [include/cluster/raft.h], and the
    pack/unpack helpers of [src/cluster/raft_rpc_integration.c].  A packed
    struct in memory is the concatenation of its fields in host byte order
    ([_image]); the pack functions write the fields in network byte order. *)

From S2P Require Import Prelude RaftCore.

(** ** RPC header and gossip packet *)

Definition RPC_MAGIC : Z := 0xCAFEBABE.
Definition GOSSIP_MAGIC : Z := 0xDEADC0DE.

Definition RPC_CMD_JOIN_REQ : Z := 0x01.
Definition RPC_CMD_JOIN_RESP : Z := 0x02.
Definition RPC_CMD_LEAVE : Z := 0x03.
Definition RPC_CMD_SYNC_RULES : Z := 0x10.
Definition RPC_CMD_RAFT_REQUEST_VOTE : Z := 0x20.
Definition RPC_CMD_RAFT_REQUEST_VOTE_RESP : Z := 0x21.
Definition RPC_CMD_RAFT_APPEND_ENTRIES : Z := 0x22.
Definition RPC_CMD_RAFT_APPEND_ENTRIES_RESP : Z := 0x23.
Definition RPC_CMD_RAFT_INSTALL_SNAPSHOT : Z := 0x24.

Record RpcHeader : Type := {
  magic : Z;
  version : Z;
  command_type : Z;
  payload_len : Z;
  origin_id : list byte;
  request_id : list byte;
}.

Record GossipPacket : Type := {
  g_magic : Z;
  g_type : Z;
  g_sequence : Z;
  g_node_id : list byte;
}.

(** [sizeof(RpcHeader)], [sizeof(GossipPacket)] *)
Definition RPC_HEADER_SIZE : nat := 90.
Definition GOSSIP_SIZE : nat := 49.

Definition serializer_pack_rpc (src : RpcHeader) : list byte :=
  net_bytes 4 (magic src) ++ net_bytes 2 (version src) ++ net_bytes 2 (command_type src)
  ++ net_bytes 8 (payload_len src) ++ origin_id src ++ request_id src.

Definition serializer_unpack_rpc (src : list byte) : RpcHeader :=
  {| magic := of_net (field 0 4 src);
     version := of_net (field 4 2 src);
     command_type := of_net (field 6 2 src);
     payload_len := of_net (field 8 8 src);
     origin_id := field 16 37 src;
     request_id := field 53 37 src |}.

Definition serializer_pack_gossip (src : GossipPacket) : list byte :=
  net_bytes 4 (g_magic src) ++ net_bytes 4 (g_type src) ++ net_bytes 4 (g_sequence src)
  ++ g_node_id src.

Definition serializer_unpack_gossip (src : list byte) : GossipPacket :=
  {| g_magic := of_net (field 0 4 src);
     g_type := of_net (field 4 4 src);
     g_sequence := of_net (field 8 4 src);
     g_node_id := field 12 37 src |}.

(** ** Raft requests and responses *)

Definition pack_request_vote_req (src : RaftRequestVoteReq) : list byte :=
  net_bytes 8 (rv_term src) ++ rv_candidate_id src ++ net_bytes 8 (rv_last_log_index src)
  ++ net_bytes 8 (rv_last_log_term src).

Definition unpack_request_vote_req (src : list byte) : RaftRequestVoteReq :=
  {| rv_term := of_net (field 0 8 src);
     rv_candidate_id := field 8 37 src;
     rv_last_log_index := of_net (field 45 8 src);
     rv_last_log_term := of_net (field 53 8 src) |}.

Definition pack_request_vote_resp (src : RaftRequestVoteResp) : list byte :=
  net_bytes 8 (rvr_term src) ++ net_bytes 1 (rvr_vote_granted src).

Definition unpack_request_vote_resp (src : list byte) : RaftRequestVoteResp :=
  {| rvr_term := of_net (field 0 8 src);
     rvr_vote_granted := of_net (field 8 1 src) |}.

Definition pack_append_entries_req (src : RaftAppendEntriesReq) : list byte :=
  net_bytes 8 (ae_term src) ++ ae_leader_id src ++ net_bytes 8 (ae_prev_log_index src)
  ++ net_bytes 8 (ae_prev_log_term src) ++ net_bytes 8 (ae_leader_commit src)
  ++ net_bytes 4 (ae_entry_count src).

Definition unpack_append_entries_req (src : list byte) : RaftAppendEntriesReq :=
  {| ae_term := of_net (field 0 8 src);
     ae_leader_id := field 8 37 src;
     ae_prev_log_index := of_net (field 45 8 src);
     ae_prev_log_term := of_net (field 53 8 src);
     ae_leader_commit := of_net (field 61 8 src);
     ae_entry_count := of_net (field 69 4 src) |}.

Definition pack_append_entries_resp (src : RaftAppendEntriesResp) : list byte :=
  net_bytes 8 (aer_term src) ++ net_bytes 1 (aer_success src)
  ++ net_bytes 8 (aer_match_index src).

Definition unpack_append_entries_resp (src : list byte) : RaftAppendEntriesResp :=
  {| aer_term := of_net (field 0 8 src);
     aer_success := of_net (field 8 1 src);
     aer_match_index := of_net (field 9 8 src) |}.

(** ** Memory images of the structs, in host byte order *)

Definition rpc_header_image (h : RpcHeader) : list byte :=
  host_bytes 4 (magic h) ++ host_bytes 2 (version h) ++ host_bytes 2 (command_type h)
  ++ host_bytes 8 (payload_len h) ++ origin_id h ++ request_id h.

(** The struct whose memory image is [b]. *)
Definition rpc_header_of_image (b : list byte) : RpcHeader :=
  {| magic := of_host (field 0 4 b);
     version := of_host (field 4 2 b);
     command_type := of_host (field 6 2 b);
     payload_len := of_host (field 8 8 b);
     origin_id := field 16 37 b;
     request_id := field 53 37 b |}.

Definition request_vote_image (r : RaftRequestVoteReq) : list byte :=
  host_bytes 8 (rv_term r) ++ rv_candidate_id r ++ host_bytes 8 (rv_last_log_index r)
  ++ host_bytes 8 (rv_last_log_term r).

Definition append_entries_image (r : RaftAppendEntriesReq) : list byte :=
  host_bytes 8 (ae_term r) ++ ae_leader_id r ++ host_bytes 8 (ae_prev_log_index r)
  ++ host_bytes 8 (ae_prev_log_term r) ++ host_bytes 8 (ae_leader_commit r)
  ++ host_bytes 4 (ae_entry_count r).

(** ** Round trips *)

(** Values that fit the fields of the structs. *)
Record header_fits (h : RpcHeader) : Prop := {
  hf_magic : is_u32 (magic h);
  hf_version : is_u16 (version h);
  hf_command : is_u16 (command_type h);
  hf_len : is_u64 (payload_len h);
  hf_origin : length (origin_id h) = 37%nat;
  hf_request : length (request_id h) = 37%nat;
}.

Lemma length_pack_rpc (h : RpcHeader) :
  header_fits h -> length (serializer_pack_rpc h) = RPC_HEADER_SIZE.
Proof. intros []. unfold serializer_pack_rpc. len. by rewrite hf_origin0, hf_request0. Qed.

Lemma unpack_pack_rpc (h : RpcHeader) (rest : list byte) :
  header_fits h -> serializer_unpack_rpc (serializer_pack_rpc h ++ rest) = h.
Proof.
  intros [Hm Hv Hc Hl Ho Hr]. unfold serializer_unpack_rpc, serializer_pack_rpc.
  rewrite <- !app_assoc. do 3 (read_fields; rewrite ?Ho, ?Hr; cbn [Nat.sub]).
  rewrite of_net_bytes4, !of_net_bytes2, of_net_bytes8 by done. by destruct h.
Qed.

(** The RPC header format is a bijection between header values and 90-byte
    strings: unpacking a packed header gives it back, whatever follows it in the
    buffer, and packing an unpacked buffer gives the buffer back. *)
Theorem rpc_header_roundtrip (h : RpcHeader) (b rest : list byte) :
  header_fits h -> length b = RPC_HEADER_SIZE ->
  serializer_unpack_rpc (serializer_pack_rpc h ++ rest) = h /\
  length (serializer_pack_rpc h) = RPC_HEADER_SIZE /\
  serializer_pack_rpc (serializer_unpack_rpc b) = b.
Proof.
  intros Hh Hb. split; [by apply unpack_pack_rpc|]. split; [by apply length_pack_rpc|].
  unfold serializer_pack_rpc, serializer_unpack_rpc, RPC_HEADER_SIZE in *. cbn.
  rewrite !net_bytes_field by lia.
  join_fields. by apply field_all.
Qed.

Definition demo_header : RpcHeader :=
  {| magic := RPC_MAGIC; version := 1; command_type := RPC_CMD_JOIN_REQ; payload_len := 89;
     origin_id := strncpy (zeros 37) (text "n1") 36; request_id := zeros 37 |}.

Lemma demo_header_fits : header_fits demo_header.
Proof. constructor; (done || vm_compute; reflexivity). Qed.

Lemma rpc_header_roundtrip_witness :
  serializer_unpack_rpc (serializer_pack_rpc demo_header ++ [x01]) = demo_header /\
  length (serializer_pack_rpc demo_header) = RPC_HEADER_SIZE /\
  serializer_pack_rpc (serializer_unpack_rpc (zeros 90)) = zeros 90.
Proof. apply rpc_header_roundtrip; [exact demo_header_fits|reflexivity]. Defined.

Record gossip_fits (g : GossipPacket) : Prop := {
  gf_magic : is_u32 (g_magic g);
  gf_type : is_u32 (g_type g);
  gf_sequence : is_u32 (g_sequence g);
  gf_node_id : length (g_node_id g) = 37%nat;
}.

Lemma unpack_pack_gossip (g : GossipPacket) (rest : list byte) :
  gossip_fits g -> serializer_unpack_gossip (serializer_pack_gossip g ++ rest) = g.
Proof.
  intros [Hm Ht Hs Hn]. unfold serializer_unpack_gossip, serializer_pack_gossip.
  rewrite <- !app_assoc. do 2 (read_fields; rewrite ?Hn; cbn [Nat.sub]).
  rewrite !of_net_bytes4 by done. by destruct g.
Qed.

(** The gossip packet format is a bijection between packets and 49-byte
    strings. *)
Theorem gossip_roundtrip (g : GossipPacket) (b rest : list byte) :
  gossip_fits g -> length b = GOSSIP_SIZE ->
  serializer_unpack_gossip (serializer_pack_gossip g ++ rest) = g /\
  length (serializer_pack_gossip g) = GOSSIP_SIZE /\
  serializer_pack_gossip (serializer_unpack_gossip b) = b.
Proof.
  intros Hg Hb. split; [by apply unpack_pack_gossip|]. split.
  - destruct Hg. unfold serializer_pack_gossip. len. by rewrite gf_node_id0.
  - unfold serializer_pack_gossip, serializer_unpack_gossip, GOSSIP_SIZE in *. cbn.
    rewrite !net_bytes_field by lia. join_fields. by apply field_all.
Qed.

Definition demo_gossip : GossipPacket :=
  {| g_magic := GOSSIP_MAGIC; g_type := 1; g_sequence := 77;
     g_node_id := strncpy (zeros 37) (text "n1") 36 |}.

Lemma gossip_roundtrip_witness :
  serializer_unpack_gossip (serializer_pack_gossip demo_gossip ++ []) = demo_gossip /\
  length (serializer_pack_gossip demo_gossip) = GOSSIP_SIZE /\
  serializer_pack_gossip (serializer_unpack_gossip (zeros 49)) = zeros 49.
Proof.
  apply gossip_roundtrip; [|reflexivity]. constructor; (done || vm_compute; reflexivity).
Defined.

(** *** Raft messages *)

Record rv_fits (r : RaftRequestVoteReq) : Prop := {
  rvf_term : is_u64 (rv_term r);
  rvf_id : length (rv_candidate_id r) = 37%nat;
  rvf_index : is_u64 (rv_last_log_index r);
  rvf_lterm : is_u64 (rv_last_log_term r);
}.

Record ae_fits (r : RaftAppendEntriesReq) : Prop := {
  aef_term : is_u64 (ae_term r);
  aef_id : length (ae_leader_id r) = 37%nat;
  aef_prev : is_u64 (ae_prev_log_index r);
  aef_pterm : is_u64 (ae_prev_log_term r);
  aef_commit : is_u64 (ae_leader_commit r);
  aef_count : is_u32 (ae_entry_count r);
}.

Definition rvr_fits (r : RaftRequestVoteResp) : Prop :=
  is_u64 (rvr_term r) /\ is_u8 (rvr_vote_granted r).

Definition aer_fits (r : RaftAppendEntriesResp) : Prop :=
  is_u64 (aer_term r) /\ is_u8 (aer_success r) /\ is_u64 (aer_match_index r).

Lemma unpack_pack_rv (r : RaftRequestVoteReq) :
  rv_fits r -> unpack_request_vote_req (pack_request_vote_req r) = r.
Proof.
  intros [Ht Hi Hx Hl]. unfold unpack_request_vote_req, pack_request_vote_req.
  do 5 (read_fields; rewrite ?Hi; cbn [Nat.sub]).
  rewrite !of_net_bytes8 by done. by destruct r.
Qed.

Lemma unpack_pack_ae (r : RaftAppendEntriesReq) :
  ae_fits r -> unpack_append_entries_req (pack_append_entries_req r) = r.
Proof.
  intros [Ht Hi Hp Hpt Hc Hn]. unfold unpack_append_entries_req, pack_append_entries_req.
  do 5 (read_fields; rewrite ?Hi; cbn [Nat.sub]).
  rewrite !of_net_bytes8, of_net_bytes4 by done. by destruct r.
Qed.

Lemma unpack_pack_rvr (r : RaftRequestVoteResp) :
  rvr_fits r -> unpack_request_vote_resp (pack_request_vote_resp r) = r.
Proof.
  intros [Ht Hg]. unfold unpack_request_vote_resp, pack_request_vote_resp. read_fields.
  rewrite of_net_bytes8, of_net_bytes1 by done. by destruct r.
Qed.

Lemma unpack_pack_aer (r : RaftAppendEntriesResp) :
  aer_fits r -> unpack_append_entries_resp (pack_append_entries_resp r) = r.
Proof.
  intros (Ht & Hs & Hm). unfold unpack_append_entries_resp, pack_append_entries_resp. read_fields.
  rewrite !of_net_bytes8, of_net_bytes1 by done. by destruct r.
Qed.

(** Unpacking a packed Raft message gives the message back, for each of
    the four message types. *)
Theorem raft_messages_roundtrip (rv : RaftRequestVoteReq) (rvr : RaftRequestVoteResp)
    (ae : RaftAppendEntriesReq) (aer : RaftAppendEntriesResp) :
  rv_fits rv -> rvr_fits rvr -> ae_fits ae -> aer_fits aer ->
  unpack_request_vote_req (pack_request_vote_req rv) = rv /\
  unpack_request_vote_resp (pack_request_vote_resp rvr) = rvr /\
  unpack_append_entries_req (pack_append_entries_req ae) = ae /\
  unpack_append_entries_resp (pack_append_entries_resp aer) = aer.
Proof.
  intros Hrv Hrvr Hae Haer.
  split_and!; [by apply unpack_pack_rv|by apply unpack_pack_rvr|by apply unpack_pack_ae|].
  by apply unpack_pack_aer.
Qed.

Definition demo_rv_req : RaftRequestVoteReq :=
  {| rv_term := 3; rv_candidate_id := strncpy (zeros 37) (text "n2") 36;
     rv_last_log_index := 2; rv_last_log_term := 2 |}.

Definition demo_ae_req : RaftAppendEntriesReq :=
  {| ae_term := 3; ae_leader_id := strncpy (zeros 37) (text "n2") 36; ae_prev_log_index := 2;
     ae_prev_log_term := 2; ae_leader_commit := 1; ae_entry_count := 0 |}.

Lemma raft_messages_roundtrip_witness :
  unpack_request_vote_req (pack_request_vote_req demo_rv_req) = demo_rv_req /\
  unpack_request_vote_resp (pack_request_vote_resp {| rvr_term := 3; rvr_vote_granted := 1 |})
  = {| rvr_term := 3; rvr_vote_granted := 1 |} /\
  unpack_append_entries_req (pack_append_entries_req demo_ae_req) = demo_ae_req /\
  unpack_append_entries_resp
    (pack_append_entries_resp {| aer_term := 3; aer_success := 1; aer_match_index := 5 |})
  = {| aer_term := 3; aer_success := 1; aer_match_index := 5 |}.
Proof.
  apply raft_messages_roundtrip; [|split; done| |repeat split; done];
    constructor; (done || vm_compute; reflexivity).
Defined.

(** ** Byte order of structs that are sent as they lie in memory *)

(** [__builtin_bswap64], [__builtin_bswap32] *)
Definition bswap (w : nat) (z : Z) : Z := of_net (host_bytes w z).

Lemma host_bytes_add (a b : nat) (z : Z) :
  host_bytes (a + b) z = host_bytes a z ++ host_bytes b (Z.shiftr z (8 * Z.of_nat a)).
Proof.
  revert z. induction a as [|a IH]; intros z.
  - by rewrite Z.shiftr_0_r.
  - change (host_bytes (S a + b) z) with (byte_of_Z z :: host_bytes (a + b) (Z.shiftr z 8)).
    rewrite IH, Z.shiftr_shiftr by lia.
    by replace (8 + 8 * Z.of_nat a) with (8 * Z.of_nat (S a)) by lia.
Qed.
Lemma bswap8_small (z : Z) : 0 < z < 2 ^ 32 -> bswap 8 z <> z.
Proof.
  intros Hz He. unfold bswap in He. rewrite (host_bytes_add 4 4) in He.
  replace (Z.shiftr z _) with 0 in He
    by (rewrite Z.shiftr_div_pow2 by lia; symmetry; apply Z.div_small; simpl; lia).
  unfold of_net, of_host in He. rewrite rev_app_distr, LittleEndianList.le_combine_app in He.
  change (LittleEndianList.le_combine (rev (host_bytes 4 0))) with 0 in He.
  rewrite Z.lor_0_l, Z.shiftl_mul_pow2 in He by lia.
  change (2 ^ (Z.of_nat (length (rev (host_bytes 4 0))) * 8)) with (2 ^ 32) in He. lia.
Qed.

(** A Raft request that reaches the receiver as the sender's memory image
    (which is what [raft_send_rpc_callback] puts on the wire) is misread:
    [unpack_request_vote_req] and [unpack_append_entries_req] see every integer
    with its bytes reversed; in particular every term between 1 and 2^32 - 1
    arrives as a different term. *)
Theorem raw_request_byte_swapped (rv : RaftRequestVoteReq) (ae : RaftAppendEntriesReq) :
  rv_fits rv -> ae_fits ae ->
  unpack_request_vote_req (request_vote_image rv)
  = {| rv_term := bswap 8 (rv_term rv); rv_candidate_id := rv_candidate_id rv;
       rv_last_log_index := bswap 8 (rv_last_log_index rv);
       rv_last_log_term := bswap 8 (rv_last_log_term rv) |} /\
  unpack_append_entries_req (append_entries_image ae)
  = {| ae_term := bswap 8 (ae_term ae); ae_leader_id := ae_leader_id ae;
       ae_prev_log_index := bswap 8 (ae_prev_log_index ae);
       ae_prev_log_term := bswap 8 (ae_prev_log_term ae);
       ae_leader_commit := bswap 8 (ae_leader_commit ae);
       ae_entry_count := bswap 4 (ae_entry_count ae) |} /\
  (0 < rv_term rv < 2 ^ 32 ->
   rv_term (unpack_request_vote_req (request_vote_image rv)) <> rv_term rv).
Proof.
  intros [_ Hi _ _] [_ Hi' _ _ _ _].
  unfold unpack_request_vote_req, request_vote_image, unpack_append_entries_req,
    append_entries_image, bswap.
  split; [|split]; do 5 (read_fields; rewrite ?Hi, ?Hi'; cbn [Nat.sub]); try done.
  apply bswap8_small.
Qed.

Lemma raw_request_byte_swapped_witness :
  rv_term (unpack_request_vote_req (request_vote_image demo_rv_req)) = 3 * 2 ^ 56 /\
  ae_term (unpack_append_entries_req (append_entries_image demo_ae_req)) = 3 * 2 ^ 56.
Proof.
  destruct (raw_request_byte_swapped demo_rv_req demo_ae_req) as (-> & -> & _);
    [constructor; (done || vm_compute; reflexivity)..|].
  split; vm_compute; reflexivity.
Defined.
