(* ===== verification/RaftTypes.v ===== *)
(** * Raft core: the C types of its state, and counting votes

    [RaftCore] computes on unbounded integers and byte lists.  This file gives
    every field the range of its type in [include/cluster/raft.h] and shows that
    no call leaves it, whatever the arguments of those types, with no assumption
    on the node beyond its types; so every request and response fits its packed
    struct and survives the wire formats of [Wire].  [ApiCall] lists the public
    API of [src/cluster/raft_core.c]. *)

From S2P Require Import Prelude RaftCore RaftInv Wire.

(** ** Types *)

Record entry_typed (e : RaftLogEntry) : Prop := {
  et_term : is_u64 (e_term e);
  et_index : is_u64 (e_index e);
  et_type : is_u8 (e_type e);
}.

Record peer_typed (p : RaftPeer) : Prop := {
  pt_id : char_array 37 (p_node_id p);
  pt_ip : char_array 46 (p_ip_address p);
  pt_port : is_u16 (p_port p);
  pt_next : is_u64 (next_index p);
  pt_match : is_u64 (match_index p);
  pt_contact : is_u64 (last_contact_ms p);
  pt_inflight : is_u32 (inflight_rpcs p);
}.

Record node_typed (n : RaftNode) : Prop := {
  nt_id : char_array 37 (node_id n);
  nt_voted : char_array 37 (voted_for n);
  nt_leader : char_array 37 (leader_id n);
  nt_term : is_u64 (current_term n);
  nt_log : Forall entry_typed (log n);
  nt_cap : is_u64 (log_capacity n);
  nt_commit : is_u64 (commit_index n);
  nt_applied : is_u64 (last_applied n);
  nt_peers : Forall peer_typed (peers n);
  nt_peer_cap : is_u64 (peer_capacity n);
  nt_timeout : is_u64 (election_timeout_ms n);
  nt_heartbeat : is_u64 (last_heartbeat_ms n);
  nt_election : is_u64 (last_election_ms n);
  nt_votes : is_u32 (votes_received n);
  nt_snap_index : is_u64 (last_snapshot_index n);
  nt_snap_term : is_u64 (last_snapshot_term n);
  nt_started : is_u64 (elections_started n);
  nt_sent : is_u64 (heartbeats_sent n);
  nt_received : is_u64 (heartbeats_received n);
}.

Definition request_fits (r : RaftRequest) : Prop :=
  match r with RequestVote q => rv_fits q | AppendEntries q => ae_fits q end.

(** A request as the receiver unpacks it. *)
Definition over_wire (r : RaftRequest) : RaftRequest :=
  match r with
  | RequestVote q => RequestVote (unpack_request_vote_req (pack_request_vote_req q))
  | AppendEntries q => AppendEntries (unpack_append_entries_req (pack_append_entries_req q))
  end.

Lemma over_wire_id (r : RaftRequest) : request_fits r -> over_wire r = r.
Proof. destruct r; intros H; cbn; f_equal; [by apply unpack_pack_rv|by apply unpack_pack_ae]. Qed.

(** ** The public API *)

Inductive ApiCall : Type :=
  | CallTick (now now' rnd : Z)
  | CallSubmit (al : Alloc) (data : list byte)
  | CallRequestVote (now : Z) (req : RaftRequestVoteReq)
  | CallAppendEntries (al : nat -> Alloc) (now : Z) (req : RaftAppendEntriesReq)
      (entries : option (list RaftLogEntry)) (entry_count : Z)
  | CallVoteResponse (al : Alloc) (peer_id : list byte) (resp : RaftRequestVoteResp)
  | CallAppendResponse (peer_id : list byte) (resp : RaftAppendEntriesResp)
  | CallAddPeer (al : Alloc) (peer_id ip : list byte) (port : Z)
  | CallRemovePeer (peer_id : list byte)
  | CallStart (now : Z).

(** Responses go back to the caller. *)
Inductive ApiReply : Type :=
  | NoReply
  | VoteReply (r : RaftRequestVoteResp)
  | AppendReply (r : RaftAppendEntriesResp).

Definition run_call {W : Type} (cb : Callbacks W) (c : ApiCall) (s : RaftNode * W)
  : outcome (ApiReply * (RaftNode * W)) :=
  match c with
  | CallTick now now' rnd => Returns (NoReply, raft_tick cb now now' rnd s)
  | CallSubmit al data => Returns (NoReply, (raft_submit cb al s data).2)
  | CallRequestVote now req =>
      let (r, s') := raft_handle_request_vote cb now s req in Returns (VoteReply r, s')
  | CallAppendEntries al now req entries k =>
      match raft_handle_append_entries cb al now s req entries k with
      | Undefined => Undefined
      | Returns (r, s') => Returns (AppendReply r, s')
      end
  | CallVoteResponse al id r =>
      Returns (NoReply, raft_handle_request_vote_response cb al s id r)
  | CallAppendResponse id r => Returns (NoReply, raft_handle_append_entries_response cb s id r)
  | CallAddPeer al id ip port => Returns (NoReply, ((raft_add_peer al s.1 id ip port).2, s.2))
  | CallRemovePeer id => Returns (NoReply, ((raft_remove_peer s.1 id).2, s.2))
  | CallStart now => Returns (NoReply, ((raft_start now s.1).2, s.2))
  end.

(** Arguments of the types of the C prototypes. *)
Definition call_typed (c : ApiCall) : Prop :=
  match c with
  | CallTick now now' rnd => is_u64 now /\ is_u64 now' /\ 0 <= rnd
  | CallSubmit _ _ | CallRemovePeer _ => True
  | CallRequestVote now req => is_u64 now /\ rv_fits req
  | CallAppendEntries _ now req es _ =>
      is_u64 now /\ ae_fits req /\ Forall entry_typed (default [] es)
  | CallVoteResponse _ _ r => rvr_fits r
  | CallAppendResponse _ r => aer_fits r
  | CallAddPeer _ _ _ port => is_u16 port
  | CallStart now => is_u64 now
  end.

Definition reply_typed (r : ApiReply) : Prop :=
  match r with NoReply => True | VoteReply r => rvr_fits r | AppendReply r => aer_fits r end.

(** ** Preservation *)

(** Solves the type of a field of an updated record: unchanged, a constant, or a
    reduced sum. *)
Ltac field_typed :=
  first [ done | assumption | apply u64_range | apply u32_range
        | apply strncpy37; first [assumption|apply zeros37] | apply zeros37
        | apply strncpy46; first [assumption|apply zeros46]
        | (unfold is_u8, is_u16, is_u32, is_u64 in *; lia) ].

Ltac node_fields H :=
  let Hn := fresh in pose proof H as Hn; destruct Hn; constructor;
  cbn [node_id current_term voted_for log log_capacity state commit_index last_applied peers
       peer_capacity election_timeout_ms last_heartbeat_ms last_election_ms leader_id
       votes_received last_snapshot_index last_snapshot_term snapshot_data elections_started
       heartbeats_sent heartbeats_received]; try field_typed.

Lemma u64_0 : is_u64 0.
Proof. solve_u. Qed.

Lemma u64_const (z : Z) : 0 <= z <= 300 -> is_u64 z.
Proof. solve_u. Qed.

Lemma timeout_typed (rnd : Z) : 0 <= rnd -> is_u64 (random_election_timeout rnd).
Proof.
  intros H. apply u64_const. unfold random_election_timeout, RAFT_ELECTION_TIMEOUT_MIN_MS,
    RAFT_ELECTION_TIMEOUT_MAX_MS. pose proof (Z.mod_pos_bound rnd (300 - 150)). lia.
Qed.

Lemma last_entry_typed (n : RaftNode) (e : RaftLogEntry) :
  node_typed n -> last (log n) = Some e -> entry_typed e.
Proof.
  intros H He. pose proof (nt_log _ H) as Hl. rewrite Forall_forall in Hl. apply Hl.
  apply list_elem_of_lookup. exists (pred (length (log n))). by rewrite <- last_lookup.
Qed.

Lemma last_index_typed (n : RaftNode) : node_typed n -> is_u64 (last_log_index n).
Proof.
  intros H. unfold last_log_index. destruct (last (log n)) as [e|] eqn:E; [|apply H].
  by apply (last_entry_typed n).
Qed.

Lemma last_term_typed (n : RaftNode) : node_typed n -> is_u64 (last_log_term n).
Proof.
  intros H. unfold last_log_term. destruct (last (log n)) as [e|] eqn:E; [|apply H].
  by apply (last_entry_typed n).
Qed.

Lemma term_at_typed (n : RaftNode) (i : Z) : node_typed n -> is_u64 (term_at_index n i).
Proof.
  intros H. unfold term_at_index. destruct (i =? 0); [apply u64_0|].
  destruct (i =? _); [apply H|]. destruct (get_log_entry n i) as [e|] eqn:E; [|apply u64_0].
  unfold get_log_entry in E. destruct (_ <=? _); [done|]. destruct (_ >=? _); [done|].
  pose proof (nt_log _ H) as Hl. rewrite Forall_forall in Hl. apply Hl.
  by apply list_elem_of_lookup_2 in E.
Qed.

#[export] Hint Resolve u64_0 last_index_typed last_term_typed term_at_typed timeout_typed : droole.

Lemma peers_map_typed (f : RaftPeer -> RaftPeer) (l : list RaftPeer) :
  (forall p, peer_typed p -> peer_typed (f p)) -> Forall peer_typed l -> Forall peer_typed (map f l).
Proof. intros Hf H. apply Forall_map. eapply Forall_impl; [exact H|]. apply Hf. Qed.

Lemma capacity_typed (al : Alloc) (n : RaftNode) :
  node_typed n -> node_typed (ensure_log_capacity al n).
Proof.
  intros H. unfold ensure_log_capacity. destruct (_ >=? _); [|done]. destruct (realloc_ok al); [|done].
  node_fields H. destruct (_ =? 0); field_typed.
Qed.

Lemma heartbeat_fits (n : RaftNode) (p : RaftPeer) :
  node_typed n -> request_fits (heartbeat_req n p).
Proof.
  intros H. cbn. constructor; cbn; auto with droole; try apply H.
  - apply (strncpy37 (zeros 37) (node_id n) zeros37).
  - unfold is_u32. lia.
Qed.

Lemma find_peer_typed (n : RaftNode) (id : list byte) (i : nat) (p : RaftPeer) :
  node_typed n -> find_peer n id = Some (i, p) -> peer_typed p.
Proof.
  intros H (Hi & _ & _)%list_find_Some. pose proof (nt_peers _ H) as Hp.
  rewrite Forall_forall in Hp. apply Hp. by apply list_elem_of_lookup_2 in Hi.
Qed.

(** What the callbacks owe: they keep the node typed when they are handed requests
    that fit their structs, and their own world in [Inv]. *)
Class TypedCallbacks {W : Type} (cb : Callbacks W) (Inv : W -> Prop) : Prop := {
  tc_send : forall p req s, node_typed s.1 -> Inv s.2 -> request_fits req ->
    node_typed (send_rpc cb p req s).1 /\ Inv (send_rpc cb p req s).2;
  tc_persist : forall n w, node_typed n -> Inv w -> Inv (persist_state cb (n, w)).2;
  tc_apply : forall s e, Inv s.2 -> Inv (apply_entry cb s e).2;
}.

Section Typed.
Context {W : Type} (cb : Callbacks W) (Inv : W -> Prop) `{!TypedCallbacks cb Inv}.

Definition good (s : RaftNode * W) : Prop := node_typed s.1 /\ Inv s.2.

Lemma good_persist (n : RaftNode) (w : W) :
  node_typed n -> Inv w -> good (persist_state cb (n, w)).
Proof.
  intros H Hw. split; [|by apply tc_persist]. unfold persist_state. by destruct (cb_persist cb).
Qed.

Lemma good_follower (s : RaftNode * W) (t : Z) : good s -> is_u64 t -> good (become_follower cb s t).
Proof. intros [H Hw] Ht. apply good_persist; [|done]. node_fields H. Qed.

Lemma good_step_down (s : RaftNode * W) (t : Z) :
  good s -> is_u64 t -> good (step_down_if_newer cb s t).
Proof. intros H Ht. unfold step_down_if_newer. destruct (_ >? _); [|done]. by apply good_follower. Qed.

Lemma good_for_each (fuel i : nat) (mk : RaftNode -> RaftPeer -> RaftRequest) (s : RaftNode * W) :
  (forall n p, node_typed n -> request_fits (mk n p)) -> good s ->
  good (for_each_peer cb fuel i mk s).
Proof.
  intros Hmk. revert i s. induction fuel as [|fuel IH]; intros i s H; [done|]. cbn.
  destruct (peers s.1 !! i) as [p|]; [|done]. apply IH. destruct H as [H Hw].
  apply tc_send; auto.
Qed.

Lemma good_submit (al : Alloc) (s : RaftNode * W) (data : list byte) :
  good s -> good (raft_submit cb al s data).2.
Proof.
  intros [H Hw]. unfold raft_submit. case_decide; [done|].
  apply (capacity_typed al) in H. destruct (_ >=? _); [done|]. destruct (malloc_ok al); [|done].
  apply good_persist; [|done]. node_fields H. apply Forall_app. split; [done|].
  repeat constructor; cbn; try field_typed.
Qed.

Lemma good_candidate (now rnd : Z) (s : RaftNode * W) :
  good s -> is_u64 now -> 0 <= rnd -> good (become_candidate cb now rnd s).
Proof.
  intros [H Hw] Hnow Hrnd. unfold become_candidate. set (n1 := {| node_id := _ |}).
  assert (node_typed n1) as H1.
  { unfold n1. node_fields H; [|by apply timeout_typed].
    apply peers_map_typed; [|done]. intros p Hp. by destruct Hp. }
  destruct (good_persist n1 s.2 H1 Hw) as [H2 Hw2]. set (s2 := persist_state cb (n1, s.2)) in *.
  apply good_for_each; [|done]. intros _ _ _. constructor; cbn; auto with droole; [apply H2|].
  apply (strncpy37 (zeros 37) (node_id s2.1) zeros37).
Qed.

Lemma good_leader (al : Alloc) (s : RaftNode * W) : good s -> good (become_leader cb al s).
Proof.
  intros [H Hw]. unfold become_leader.
  match goal with |- context [raft_submit cb al (?m, _) _] => set (n1 := m) end.
  assert (node_typed n1) as H1.
  { unfold n1. node_fields H. apply peers_map_typed; [|done]. intros p Hp. destruct Hp.
    constructor; cbn; try field_typed. }
  destruct (good_submit al (n1, s.2) [x00]) as [H2 Hw2]; [by split|]. split; [|done]. cbn [fst].
  node_fields H2.
Qed.

Lemma good_apply_loop (fuel : nat) (s : RaftNode * W) : good s -> good (apply_loop cb fuel s).
Proof.
  revert s. induction fuel as [|fuel IH]; intros s H; [done|]. cbn [apply_loop].
  destruct (_ <? _); [|done]. destruct H as [H Hw]. set (s1 := ({| node_id := _ |}, s.2)).
  assert (good s1) as H1 by (split; [cbn [fst s1]; node_fields H|done]).
  destruct (get_log_entry _ _) as [e|]; [|done]. apply IH. destruct H1 as [H1 Hw1].
  split; [|by apply tc_apply]. unfold apply_entry. by destruct (cb_apply cb).
Qed.

Lemma typed_commit_loop (fuel : nat) (i : Z) (n : RaftNode) :
  is_u64 i -> node_typed n -> node_typed (commit_loop fuel i n).
Proof.
  revert i n. induction fuel as [|fuel IH]; intros i n Hi H; [done|]. cbn.
  destruct (i <=? _); [|done]. apply IH; [apply u64_range|]. destruct (negb _); [done|].
  destruct (has_majority _ _); [|done]. node_fields H.
Qed.

Lemma good_tick (now now' rnd : Z) (s : RaftNode * W) :
  is_u64 now -> is_u64 now' -> 0 <= rnd -> good s -> good (raft_tick cb now now' rnd s).
Proof.
  intros Hn Hn' Hr H. unfold raft_tick, apply_committed_entries. apply good_apply_loop.
  case_decide.
  - unfold leader_tick. enough (good (leader_heartbeats cb now s)) as [H1 H2].
    { split; [|done]. apply typed_commit_loop; [apply u64_range|done]. }
    unfold leader_heartbeats. destruct (_ >=? _); [|done]. apply good_for_each; [intros; by apply heartbeat_fits|].
    destruct H as [H Hw]. split; [|done]. cbn [fst]. node_fields H.
  - unfold follower_candidate_tick. destruct (_ >=? _); [|done]. by apply good_candidate.
Qed.

Lemma good_request_vote (now : Z) (s : RaftNode * W) (req : RaftRequestVoteReq) :
  is_u64 now -> rv_fits req -> good s ->
  rvr_fits (raft_handle_request_vote cb now s req).1 /\ good (raft_handle_request_vote cb now s req).2.
Proof.
  intros Hnow Hreq H. unfold raft_handle_request_vote.
  pose proof (good_step_down s (rv_term req) H (rvf_term _ Hreq)) as [H1 Hw1].
  set (s1 := step_down_if_newer cb s (rv_term req)) in *.
  assert (is_u64 (current_term s.1)) as Ht by apply H.
  destruct (_ <? _); [split; [split; [done|unfold is_u8; cbn; lia]|done]|].
  destruct (_ && _); [split; [split; [done|unfold is_u8; cbn; lia]|done]|].
  destruct (negb _); [split; [split; [done|unfold is_u8; cbn; lia]|done]|].
  split; [split; [done|unfold is_u8; cbn; lia]|]. cbn [snd].
  edestruct (good_persist {| (s1.1) with voted_for := strncpy (voted_for s1.1) (rv_candidate_id req) 36 |})
    as [H2 Hw2]; [node_fields H1|exact Hw1|]. split; [|exact Hw2]. cbn [fst]. node_fields H2.
Qed.

Lemma typed_append_one (al : Alloc) (n n' : RaftNode) (e : RaftLogEntry) :
  node_typed n -> entry_typed e -> append_one al n e = Returns n' -> node_typed n'.
Proof.
  intros H He. unfold append_one.
  match goal with |- context [get_log_entry ?m (e_index e)] =>
    lazymatch m with n => fail | _ => set (n1 := m) end end.
  assert (node_typed n1) as H1.
  { unfold n1. destruct (get_log_entry n _); [|done]. destruct (negb _); [|done].
    node_fields H. by apply Forall_take. }
  destruct (get_log_entry n1 _); [by intros [= <-]|]. apply (capacity_typed al) in H1.
  destruct (_ >=? _); [done|]. destruct (negb _); [done|]. intros [= <-]. node_fields H1.
  apply Forall_app. split; [done|]. by constructor.
Qed.

Lemma typed_append_loop (al : nat -> Alloc) (es : option (list RaftLogEntry)) (rounds i : nat)
    (n n' : RaftNode) :
  node_typed n -> Forall entry_typed (default [] es) ->
  append_loop al es i rounds n = Returns n' -> node_typed n'.
Proof.
  intros H Hes. revert i n H. induction rounds as [|rounds IH]; intros i n H; cbn; [by intros [= <-]|].
  destruct es as [l|]; [cbn|done]. destruct (l !! i) as [e|] eqn:E; [|done].
  destruct (append_one (al i) n e) as [n1|] eqn:E1; [|done]. apply IH.
  eapply typed_append_one; [exact H| |exact E1]. rewrite Forall_forall in Hes. apply Hes.
  by apply list_elem_of_lookup_2 in E.
Qed.

Lemma good_append_entries (al : nat -> Alloc) (now : Z) (s s' : RaftNode * W)
    (req : RaftAppendEntriesReq) (es : option (list RaftLogEntry)) (k : Z)
    (resp : RaftAppendEntriesResp) :
  is_u64 now -> ae_fits req -> Forall entry_typed (default [] es) -> good s ->
  raft_handle_append_entries cb al now s req es k = Returns (resp, s') ->
  aer_fits resp /\ good s'.
Proof.
  intros Hnow Hreq Hes H. unfold raft_handle_append_entries.
  pose proof (good_step_down s (ae_term req) H (aef_term _ Hreq)) as [H1 Hw1].
  set (s1 := step_down_if_newer cb s (ae_term req)) in *.
  assert (is_u64 (current_term s.1)) as Ht by apply H.
  assert (is_u8 0 /\ is_u8 1) as [H0 H01] by (unfold is_u8; lia).
  destruct (_ <? _); [intros [= <- <-]; split; [|by split]; split; [done|]; split; [done|apply u64_0]|].
  assert (good (accept_leader cb now s1 req)) as [H3 Hw3].
  { unfold accept_leader. set (n := {| node_id := _ |}).
    assert (node_typed n) as Hn by (unfold n; node_fields H1).
    case_decide; [|by split]. apply good_follower; [by split|apply Hreq]. }
  set (s3 := accept_leader cb now s1 req) in *.
  destruct (negb _); [intros [= <- <-]; split; [|by split]; split; [done|]; split; [done|]; apply H3|].
  destruct (append_loop al es 0 (Z.to_nat k) s3.1) as [n4|] eqn:E; [|done].
  apply typed_append_loop in E; [|done|done]. destruct (good_persist n4 s3.2 E Hw3) as [H5 Hw5].
  set (s5 := persist_state cb (n4, s3.2)) in *. intros [= <- <-].
  assert (node_typed (update_commit s5.1 (ae_leader_commit req))) as H6.
  { unfold update_commit. destruct (_ >? _); [|done].
    pose proof (last_index_typed _ H5). pose proof (aef_commit _ Hreq).
    node_fields H5. by destruct (_ <? _). }
  split; [|by split]. split; [done|]. split; [done|]. cbn. auto with droole.
Qed.

Lemma typed_set_peer (n : RaftNode) (i : nat) (p : RaftPeer) (v : Z) :
  node_typed n -> peer_typed p -> is_u32 v ->
  node_typed {| n with peers := <[i := p]> (peers n); votes_received := v |}.
Proof. intros H Hp Hv. node_fields H. by apply Forall_insert. Qed.

Lemma good_vote_response (al : Alloc) (s : RaftNode * W) (id : list byte) (r : RaftRequestVoteResp) :
  rvr_fits r -> good s -> good (raft_handle_request_vote_response cb al s id r).
Proof.
  intros [Ht _] H. unfold raft_handle_request_vote_response. destruct (_ >? _); [by apply good_follower|].
  destruct (_ || _); [done|]. destruct (find_peer s.1 id) as [[i p]|] eqn:E; [|done].
  apply find_peer_typed in E as Hp; [|apply H]. destruct (_ && _); [|done].
  destruct H as [H Hw].
  assert (node_typed {| (s.1) with peers := <[i := {| p with vote_granted := true |}]> (peers s.1);
                                   votes_received := votes_received s.1 +32 1 |}) as H1.
  { apply typed_set_peer; [done|by destruct Hp|apply u32_range]. }
  destruct (has_majority _ _); [|by split]. apply good_leader. by split.
Qed.

Lemma good_append_response (s : RaftNode * W) (id : list byte) (r : RaftAppendEntriesResp) :
  aer_fits r -> good s -> good (raft_handle_append_entries_response cb s id r).
Proof.
  intros (Ht & _ & Hm) H. unfold raft_handle_append_entries_response.
  destruct (_ >? _); [by apply good_follower|].
  destruct (_ || _); [done|]. destruct (find_peer s.1 id) as [[i p]|] eqn:E; [|done].
  apply find_peer_typed in E as Hp; [|apply H]. destruct H as [H Hw]. split; [|done].
  apply (typed_set_peer s.1 i _ (votes_received s.1)); [done| |apply H].
  destruct (negb _); [|destruct (_ >? _); [|done]]; destruct Hp; constructor; cbn; try field_typed.
Qed.

Lemma typed_add_peer (al : Alloc) (n : RaftNode) (id ip : list byte) (port : Z) :
  is_u16 port -> node_typed n -> node_typed (raft_add_peer al n id ip port).2.
Proof.
  intros Hport H. unfold raft_add_peer. destruct (find_peer n id); [done|].
  destruct (_ && _); [done|]. cbn [snd]. node_fields H.
  - apply Forall_app. split; [done|]. apply Forall_singleton. constructor; cbn; field_typed.
  - destruct (_ >=? _); [|done]. destruct (_ =? 0); field_typed.
Qed.

(** One call: what it returns and leaves has the types of the headers. *)
Lemma good_call (c : ApiCall) (s : RaftNode * W) :
  call_typed c -> good s ->
  match run_call cb c s with
  | Returns (r, s') => reply_typed r /\ good s'
  | Undefined => exists al now req es k, c = CallAppendEntries al now req es k
  end.
Proof.
  intros Hc H. destruct c; cbn in Hc |- *.
  - destruct Hc as (? & ? & ?). split; [done|]. by apply good_tick.
  - split; [done|]. by apply good_submit.
  - destruct Hc as [Hnow Hreq]. destruct (good_request_vote now s req Hnow Hreq H) as [Hr Hg].
    destruct (raft_handle_request_vote cb now s req). by split.
  - destruct (raft_handle_append_entries cb al now s req entries entry_count) as [[r s']|] eqn:E.
    + destruct Hc as (? & ? & ?). by eapply good_append_entries.
    + by repeat eexists.
  - split; [done|]. by apply good_vote_response.
  - split; [done|]. by apply good_append_response.
  - split; [done|]. destruct H as [H Hw]. split; [|done]. by apply typed_add_peer.
  - split; [done|]. destruct H as [H Hw]. split; [|done]. cbn [fst]. unfold raft_remove_peer.
    destruct (find_peer s.1 peer_id) as [[i p]|]; [|done]. cbn [snd]. node_fields H.
    by apply Forall_delete.
  - split; [done|]. destruct H as [H Hw]. split; [|done]. cbn [fst raft_start snd]. node_fields H.
Qed.

End Typed.

Lemma init_typed (al : Alloc) (id : list byte) (rnd : Z) (n : RaftNode) :
  0 <= rnd -> raft_init al id rnd = Some n -> node_typed n.
Proof.
  intros Hr. unfold raft_init. destruct (malloc_ok al); [|done]. intros [= <-].
  constructor; cbn; try field_typed; try (by constructor).
  by apply timeout_typed.
Qed.

(** A sequence of calls, with the replies it gives. *)
Fixpoint run_api {W : Type} (cb : Callbacks W) (cs : list ApiCall) (s : RaftNode * W)
  : outcome (list ApiReply * (RaftNode * W)) :=
  match cs with
  | [] => Returns ([], s)
  | c :: cs' =>
      match run_call cb c s with
      | Undefined => Undefined
      | Returns (r, s1) =>
          match run_api cb cs' s1 with
          | Undefined => Undefined
          | Returns (rs, s2) => Returns (r :: rs, s2)
          end
      end
  end.

(** Callbacks of a node that records what it sends, stores the rest nowhere. *)
Definition recording : Callbacks (list (list byte * RaftRequest)) :=
  {| cb_apply := None; cb_persist := None;
     cb_send_rpc := Some (fun p r s => (s.1, s.2 ++ [(p, r)])) |}.

#[export] Instance recording_typed :
  TypedCallbacks recording (Forall (fun pr => over_wire pr.2 = pr.2)).
Proof.
  split; cbn; [|done|done]. intros p req s H Hw Hr. split; [done|].
  apply Forall_app. split; [done|]. apply Forall_singleton. by apply over_wire_id.
Qed.

(** A reply as the caller at the other end unpacks it. *)
Definition reply_over_wire (r : ApiReply) : ApiReply :=
  match r with
  | NoReply => NoReply
  | VoteReply r => VoteReply (unpack_request_vote_resp (pack_request_vote_resp r))
  | AppendReply r => AppendReply (unpack_append_entries_resp (pack_append_entries_resp r))
  end.

Lemma reply_over_wire_id (r : ApiReply) : reply_typed r -> reply_over_wire r = r.
Proof.
  destruct r as [|r|r]; cbn; intros H; [done|f_equal; by apply unpack_pack_rvr|].
  f_equal; by apply unpack_pack_aer.
Qed.

Section Runs.
Context {W : Type} (cb : Callbacks W) (Inv : W -> Prop) `{!TypedCallbacks cb Inv}.

Lemma run_api_typed (cs : list ApiCall) (s : RaftNode * W) :
  Forall call_typed cs -> good Inv s ->
  match run_api cb cs s with
  | Returns (rs, s') => Forall (fun r => reply_over_wire r = r) rs /\ good Inv s'
  | Undefined => exists al now req es k, CallAppendEntries al now req es k ∈ cs
  end.
Proof.
  intros Hcs. revert s. induction Hcs as [|c cs Hc Hcs IH]; intros s H; cbn; [done|].
  pose proof (good_call cb Inv c s Hc H) as H1. destruct (run_call cb c s) as [[r s1]|].
  - destruct H1 as [Hr H1]. specialize (IH s1 H1). destruct (run_api cb cs s1) as [[rs s2]|].
    + destruct IH as [Hrs H2]. split; [|done]. constructor; [by apply reply_over_wire_id|done].
    + destruct IH as (al & now & req & es & k & Hin). exists al, now, req, es, k. by right.
  - destruct H1 as (al & now & req & es & k & ->). exists al, now, req, es, k. left.
Qed.
End Runs.

(** ** Properties *)

(** C19: every field keeps its C type.  Whatever sequence of API calls follows
    [raft_init], with arguments of the types of the prototypes and nothing else
    assumed of them, every integer of the node, of its log entries and of its
    peers stays in the range of its declared width and every id and address
    stays a terminated array of its size; the callbacks are handed only requests
    that fit their packed structs ([TypedCallbacks] may rely on it), and every
    response survives the wire format.  The only call that can leave the defined
    behaviour of C is AppendEntries. *)
Theorem raft_machine_types {W : Type} (cb : Callbacks W) (Inv : W -> Prop) (al : Alloc)
    (id : list byte) (rnd : Z) (n : RaftNode) (w : W) (cs : list ApiCall) :
  TypedCallbacks cb Inv -> 0 <= rnd -> raft_init al id rnd = Some n -> Inv w ->
  Forall call_typed cs ->
  match run_api cb cs (n, w) with
  | Returns (rs, s) =>
      node_typed s.1 /\ Inv s.2 /\ Forall (fun r => reply_over_wire r = r) rs
  | Undefined => exists al now req es k, CallAppendEntries al now req es k ∈ cs
  end.
Proof.
  intros Hcb Hr Hn Hw Hcs. apply init_typed in Hn; [|done].
  pose proof (run_api_typed cb Inv cs (n, w) Hcs (conj Hn Hw)) as H.
  destruct (run_api cb cs (n, w)) as [[rs s]|]; [|done]. by destruct H as [? []].
Qed.

Definition demo_api : list ApiCall :=
  [CallAddPeer alloc_ok (text "n2") (text "10.0.0.2") 7000;
   CallAddPeer alloc_ok (text "n3") (text "10.0.0.3") 7000;
   CallTick 1000 1001 5;
   CallVoteResponse alloc_ok (text "n2") {| rvr_term := 1; rvr_vote_granted := 1 |};
   CallTick 2000 2001 5;
   CallRequestVote 3000 demo_rv_req].

Lemma raft_machine_types_witness :
  match raft_init alloc_ok (text "n1") 7 with
  | Some n =>
      match run_api recording demo_api (n, []) with
      | Returns (rs, s) => Forall (fun pr => over_wire pr.2 = pr.2) s.2 /\ length s.2 = 4%nat
      | Undefined => False
      end
  | None => False
  end.
Proof.
  destruct (raft_init alloc_ok (text "n1") 7) as [n|] eqn:E; [|discriminate E].
  pose proof (raft_machine_types recording (Forall (fun pr => over_wire pr.2 = pr.2)) alloc_ok
                (text "n1") 7 n [] demo_api recording_typed ltac:(lia) E (Forall_nil_2 _)) as H.
  assert (Forall call_typed demo_api) as Hd.
  { unfold demo_api. repeat apply Forall_cons_2; cbn [call_typed];
      unfold rvr_fits, is_u64, is_u16, is_u8; cbn [rvr_term rvr_vote_granted]; try lia.
    - split; [lia|]. constructor; vm_compute; (reflexivity || by split).
    - apply Forall_nil_2. }
  specialize (H Hd).
  assert (match run_api recording demo_api (n, []) with
          | Returns (_, s) => length s.2 = 4%nat
          | Undefined => False
          end) as Hlen by (injection E as <-; vm_compute; reflexivity).
  destruct (run_api recording demo_api (n, [])) as [[rs s]|]; [|exact Hlen].
  split; [exact (proj1 (proj2 H))|exact Hlen].
Defined.
