(* ===== verification/RaftRpc.v ===== *)
(** * Raft over RPC

    Models [src/cluster/raft_rpc_integration.c] and the blocking client calls it
    uses from [src/protocol/rpc_handler.c] ([rpc_send_message],
    [rpc_recv_message]).  A TCP exchange (connect, send, receive until close) is
    a function of the world: it takes the peer's address and the bytes sent and
    yields the bytes that come back, or nothing when the connection or the send
    fails. *)

From Stdlib Require Import DecimalString.
From S2P Require Import Prelude RaftCore RaftInv RaftSpec RaftPersist Wire.

Definition MAX_PAYLOAD_SIZE : Z := 10 * 1024 * 1024.

(** What [rpc_send_message] puts on the connection: the header struct as it lies
    in memory, then the payload. *)
Definition rpc_send_message (header : RpcHeader) (payload : option (list byte)) : list byte :=
  rpc_header_image header
  ++ match payload with
     | Some p => if payload_len header >? 0 then take (Z.to_nat (payload_len header)) p else []
     | None => []
     end.

(** [rpc_recv_message] on the bytes that arrive before the peer closes: return
    code, header and payload ([None] is the null pointer). *)
Definition rpc_recv_message (alloc : bool) (stream : list byte)
  : Z * option (RpcHeader * option (list byte)) :=
  if (length stream <? RPC_HEADER_SIZE)%nat then (-1, None)
  else
    let header := rpc_header_of_image stream in
    let rest := drop RPC_HEADER_SIZE stream in
    if negb (magic header =? RPC_MAGIC) then (-2, None)
    else if payload_len header >? MAX_PAYLOAD_SIZE then (-2, None)
    else if payload_len header >? 0 then
      if negb alloc then (-1, None)
      else if Z.of_nat (length rest) <? payload_len header then (-1, None)
      else (0, Some (header, Some (take (Z.to_nat (payload_len header)) rest)))
    else (0, Some (header, None)).

(** [sizeof] of the packed response structs. *)
Definition VOTE_RESP_SIZE : nat := 9.
Definition APPEND_RESP_SIZE : nat := 17.
Definition VOTE_REQ_SIZE : nat := 61.
Definition APPEND_REQ_SIZE : nat := 73.

(** Reading a struct of [n] bytes through a payload pointer. *)
Definition read_struct {A : Type} (n : nat) (unpack : list byte -> A)
    (payload : option (list byte)) : outcome A :=
  match payload with
  | None => Undefined
  | Some p => if (length p <? n)%nat then Undefined else Returns (unpack p)
  end.

(** [snprintf(request_id, 37, "raft-%lu", now)] in a zeroed array. *)
Definition raft_request_id (now : Z) : list byte :=
  strncpy (zeros 37)
    (text "raft-" ++ text (NilZero.string_of_uint (N.to_uint (Z.to_N now)))) 36.

Section Rpc.
Context {W : Type}.

(** The transport, and the persist callback of the node.  The callbacks act on
    [outcome W]: a callback cannot report undefined behaviour to the core, so it is
    left in the world, where nothing follows it. *)
Variable exchange : list byte -> Z -> list byte -> W -> option (list byte) * W.
Variable persist : option (RaftNode -> outcome W -> outcome W).

(** The response handlers run callbacks of the same node, of which they reach
    [persist] only. *)
Definition resp_cb : Callbacks (outcome W) :=
  {| cb_apply := None; cb_persist := persist; cb_send_rpc := None |}.

Definition request_cmd (req : RaftRequest) : Z :=
  match req with
  | RequestVote _ => RPC_CMD_RAFT_REQUEST_VOTE
  | AppendEntries _ => RPC_CMD_RAFT_APPEND_ENTRIES
  end.

Definition request_image (req : RaftRequest) : list byte :=
  match req with
  | RequestVote r => request_vote_image r
  | AppendEntries r => append_entries_image r
  end.

Definition request_header (n : RaftNode) (req : RaftRequest) (now : Z) : RpcHeader :=
  {| magic := RPC_MAGIC; version := 1; command_type := request_cmd req;
     payload_len := Z.of_nat (length (request_image req));
     origin_id := strncpy (zeros 37) (node_id n) 36;
     request_id := raft_request_id now |}.

(** The part after [rpc_recv_message] succeeded; a response too short for its
    struct is read out of bounds. *)
Definition process_response (al : Alloc) (peer_id : list byte) (req : RaftRequest)
    (resp : RpcHeader * option (list byte)) (s : RaftNode * outcome W) : RaftNode * outcome W :=
  match req with
  | RequestVote _ =>
      if command_type resp.1 =? RPC_CMD_RAFT_REQUEST_VOTE_RESP then
        match read_struct VOTE_RESP_SIZE unpack_request_vote_resp resp.2 with
        | Undefined => (s.1, Undefined)
        | Returns r => raft_handle_request_vote_response resp_cb al s peer_id r
        end
      else s
  | AppendEntries _ =>
      if command_type resp.1 =? RPC_CMD_RAFT_APPEND_ENTRIES_RESP then
        match read_struct APPEND_RESP_SIZE unpack_append_entries_resp resp.2 with
        | Undefined => (s.1, Undefined)
        | Returns r => raft_handle_append_entries_response resp_cb s peer_id r
        end
      else s
  end.

(** [raft_send_rpc_callback]: connect, send, wait for the response, and handle
    it before returning. *)
Definition raft_send_rpc_callback (al : Alloc) (now : Z) (peer_id : list byte)
    (req : RaftRequest) (s : RaftNode * outcome W) : Z * (RaftNode * outcome W) :=
  match s.2 with
  | Undefined => (-1, s)
  | Returns w =>
      match find_peer s.1 peer_id with
      | None => (-1, s)
      | Some (_, peer) =>
          let bytes := rpc_send_message (request_header s.1 req now) (Some (request_image req)) in
          let (reply, w') := exchange (p_ip_address peer) (p_port peer) bytes w in
          match reply with
          | None => (-1, (s.1, Returns w'))
          | Some stream =>
              match rpc_recv_message (malloc_ok al) stream with
              | (0, Some resp) => (0, process_response al peer_id req resp (s.1, Returns w'))
              | _ => (-1, (s.1, Returns w'))
              end
          end
      end
  end.

(** The callbacks of a node whose requests go through [raft_send_rpc_callback];
    the core ignores its return code. *)
Definition rpc_callbacks (apply : option (outcome W -> list byte -> outcome W)) (al : Alloc) (now : Z)
  : Callbacks (outcome W) :=
  {| cb_apply := apply; cb_persist := persist;
     cb_send_rpc := Some (fun peer_id req s => (raft_send_rpc_callback al now peer_id req s).2) |}.
End Rpc.

(** [raft_persist_state] called through the cast of [raft_rpc_init]: the core hands
    it the callback context, an object of the size of one pointer, which it reads as
    a [RaftNode]. *)
Definition persist_context {W : Type} (n : RaftNode) (w : outcome W) : outcome W := Undefined.

(** [raft_rpc_init]: [None] when [calloc] fails, otherwise the callbacks it
    installs; [apply] stays as [raft_init] set it. *)
Definition raft_rpc_init {W : Type} (exchange : list byte -> Z -> list byte -> W -> option (list byte) * W)
    (calloc_ok : bool) (apply : option (outcome W -> list byte -> outcome W)) (al : Alloc) (now : Z)
  : option (Callbacks (outcome W)) :=
  if negb calloc_ok then None
  else Some (rpc_callbacks exchange (Some persist_context) apply al now).

(** ** Incoming requests *)

Section Incoming.
Context {W : Type} (cb : Callbacks W).

(** [raft_handle_incoming_rpc]: the response is computed, logged and dropped;
    entries are never parsed. *)
Definition raft_handle_incoming_rpc (al : nat -> Alloc) (now : Z) (s : RaftNode * W)
    (header : RpcHeader) (payload : option (list byte)) : outcome (RaftNode * W) :=
  match payload with
  | None => Returns s
  | Some _ =>
      if command_type header =? RPC_CMD_RAFT_REQUEST_VOTE then
        match read_struct VOTE_REQ_SIZE unpack_request_vote_req payload with
        | Undefined => Undefined
        | Returns req => Returns (raft_handle_request_vote cb now s req).2
        end
      else if command_type header =? RPC_CMD_RAFT_APPEND_ENTRIES then
        match read_struct APPEND_REQ_SIZE unpack_append_entries_req payload with
        | Undefined => Undefined
        | Returns req =>
            match raft_handle_append_entries cb al now s req None (ae_entry_count req) with
            | Undefined => Undefined
            | Returns r => Returns r.2
            end
        end
      else Returns s
  end.
End Incoming.

(** ** Start-up and client writes *)

(** The loop over [raft_add_peer]; its return codes are ignored. *)
Definition add_peers (al : Alloc) (peers : list (list byte * list byte * Z)) (n : RaftNode)
  : RaftNode :=
  foldl (fun n p => (raft_add_peer al n p.1.1 p.1.2 p.2).2) n peers.

(** [example_raft_init]; [None] is the null pointer.  [rnd] is what [rand]
    returns in [raft_init], [now] the clock read by [raft_start], [ctx_ok] whether
    [raft_rpc_init] can allocate its context. *)
Definition example_raft_init (al : Alloc) (ctx_ok : bool) (env : ReadEnv) (fs : FS)
    (rnd now : Z) (id : list byte) (peers : list (list byte * list byte * Z))
  : outcome (option RaftNode) :=
  match raft_init al id rnd with
  | None => Returns None
  | Some n0 =>
      if negb ctx_ok then Returns None
      else match raft_restore_state env fs (add_peers al peers n0) with
      | Undefined => Undefined
      | Returns (_, n1) => Returns (Some (raft_start now n1).2)
      end
  end.

(** [KvCommand] is 64 bytes of key, 256 of value and a [size_t]. *)
Definition KV_COMMAND_SIZE : nat := 328.

Definition kv_apply_callback (data : list byte) : Z :=
  if (length data <? KV_COMMAND_SIZE)%nat then -1 else 0.

(** [example_raft_tick_handler]: what it reads from the timer is not used. *)
Definition example_raft_tick_handler {W : Type} (cb : Callbacks W) (now now' rnd : Z)
    (s : RaftNode * W) : RaftNode * W := raft_tick cb now now' rnd s.

(** [memcpy(&obj[off], src, n)] into an object of the length of [obj]. *)
Definition memcpy_at (obj : list byte) (off : nat) (src : list byte) : outcome (list byte) :=
  if (length obj <? off + length src)%nat then Undefined
  else Returns (take off obj ++ src ++ drop (off + length src) obj).

(** [example_submit_write]; [cmd] is the uninitialised [KvCommand] on the stack.  The
    copy of the value starts at its [value] field and is not bounded by it: it can
    reach [value_len], which is assigned next, and beyond the object. *)
Definition example_submit_write {W : Type} (cb : Callbacks W) (al : Alloc)
    (cmd : list byte) (s : RaftNode * W) (key value : list byte)
  : outcome (Z * (RaftNode * W)) :=
  if negb (raft_is_leader s.1) then Returns (-1, s)
  else
    let cmd1 := strncpy (field 0 64 cmd) key 63 ++ drop 64 cmd in
    match memcpy_at cmd1 64 value with
    | Undefined => Undefined
    | Returns cmd2 =>
        let cmd3 := take 320 cmd2 ++ host_bytes 8 (Z.of_nat (length value)) in
        Returns (raft_submit cb al s cmd3)
    end.

(** ** Dispatch *)

Lemma read_struct_app {A : Type} (n : nat) (unpack : list byte -> A) (p : list byte) :
  length p = n -> read_struct n unpack (Some p) = Returns (unpack p).
Proof. intros <-. unfold read_struct. by rewrite Nat.ltb_irrefl. Qed.

Lemma length_pack_rv (r : RaftRequestVoteReq) :
  rv_fits r -> length (pack_request_vote_req r) = VOTE_REQ_SIZE.
Proof. intros [_ Hi _ _]. unfold pack_request_vote_req. len. by rewrite Hi. Qed.

Lemma length_pack_ae (r : RaftAppendEntriesReq) :
  ae_fits r -> length (pack_append_entries_req r) = APPEND_REQ_SIZE.
Proof. intros [_ Hi _ _ _ _]. unfold pack_append_entries_req. len. by rewrite Hi. Qed.

(** Incoming dispatch.  A well-packed RequestVote runs the vote handler on
    the request that was packed; a well-packed heartbeat (no entries) runs the
    AppendEntries handler without undefined behaviour; a missing payload and
    every other command leave the node alone.  No response leaves the
    function. *)
Theorem incoming_rpc_dispatch {W : Type} (cb : Callbacks W) (al : nat -> Alloc) (now : Z)
    (s : RaftNode * W) (h : RpcHeader) (rv : RaftRequestVoteReq) (ae : RaftAppendEntriesReq) :
  rv_fits rv -> ae_fits ae ->
  (command_type h = RPC_CMD_RAFT_REQUEST_VOTE ->
   raft_handle_incoming_rpc cb al now s h (Some (pack_request_vote_req rv))
   = Returns (raft_handle_request_vote cb now s rv).2) /\
  (command_type h = RPC_CMD_RAFT_APPEND_ENTRIES -> ae_entry_count ae = 0 ->
   exists resp s', raft_handle_append_entries cb al now s ae None 0 = Returns (resp, s') /\
     raft_handle_incoming_rpc cb al now s h (Some (pack_append_entries_req ae)) = Returns s') /\
  (command_type h <> RPC_CMD_RAFT_REQUEST_VOTE ->
   command_type h <> RPC_CMD_RAFT_APPEND_ENTRIES ->
   forall p, raft_handle_incoming_rpc cb al now s h p = Returns s) /\
  raft_handle_incoming_rpc cb al now s h None = Returns s.
Proof.
  intros Hrv Hae. unfold raft_handle_incoming_rpc. split; [|split; [|split]].
  - intros ->. rewrite Z.eqb_refl, read_struct_app by (by apply length_pack_rv).
    by rewrite unpack_pack_rv.
  - intros -> Hc. rewrite (proj2 (Z.eqb_neq _ _)), Z.eqb_refl by done.
    rewrite read_struct_app, unpack_pack_ae, Hc by (done || by apply length_pack_ae).
    assert (exists r, raft_handle_append_entries cb al now s ae None 0 = Returns r) as [[resp s'] ->].
    { unfold raft_handle_append_entries. cbn [Z.to_nat append_loop].
      destruct (_ <? _); [eauto|]. destruct (negb _); eauto. }
    by exists resp, s'.
  - intros H1 H2 [p|]; [|done]. by rewrite !(proj2 (Z.eqb_neq _ _)).
  - done.
Qed.

Lemma incoming_rpc_dispatch_witness :
  raft_handle_incoming_rpc record_cb always_alloc 1100 (demo_node RAFT_STATE_FOLLOWER 0, [])
    {| demo_header with command_type := RPC_CMD_RAFT_REQUEST_VOTE |}
    (Some (pack_request_vote_req demo_rv_req))
  = Returns (raft_handle_request_vote record_cb 1100 (demo_node RAFT_STATE_FOLLOWER 0, [])
               demo_rv_req).2.
Proof.
  apply (incoming_rpc_dispatch record_cb always_alloc 1100 (demo_node RAFT_STATE_FOLLOWER 0, [])
    {| demo_header with command_type := RPC_CMD_RAFT_REQUEST_VOTE |} demo_rv_req demo_ae_req);
    [constructor; (done || vm_compute; reflexivity)..|reflexivity].
Defined.

(** ** Synchronous responses *)

Section Sync.
Context {W : Type} (exchange : list byte -> Z -> list byte -> W -> option (list byte) * W).
Context (persist : option (RaftNode -> outcome W -> outcome W)).

(** With the send callback the repository installs, and any persist callback, a
    response is handled inside the send loop.  A leader whose first peer answers a heartbeat with a higher
    term becomes a follower of that term and goes on sending: the next peer
    receives an AppendEntries of the new term, although the sender was never
    elected in it. *)
Theorem stepped_down_leader_keeps_sending (apply : option (outcome W -> list byte -> outcome W))
    (al : Alloc) (clock : Z) (s : RaftNode * outcome W) (p0 p1 : RaftPeer) (ps : list RaftPeer)
    (w w' : W) (h : RpcHeader) (resp : RaftAppendEntriesResp) (bytes : list byte) :
  let cb := rpc_callbacks exchange persist apply al clock in
  let req0 := heartbeat_req s.1 p0 in
  s.2 = Returns w -> peers s.1 = p0 :: p1 :: ps -> aer_fits resp ->
  current_term s.1 < aer_term resp ->
  exchange (p_ip_address p0) (p_port p0)
    (rpc_send_message (request_header s.1 req0 clock) (Some (request_image req0))) w
    = (Some bytes, w') ->
  rpc_recv_message (malloc_ok al) bytes = (0, Some (h, Some (pack_append_entries_resp resp))) ->
  command_type h = RPC_CMD_RAFT_APPEND_ENTRIES_RESP ->
  exists s1, state s1.1 = RAFT_STATE_FOLLOWER /\ current_term s1.1 = aer_term resp /\
    for_each_peer cb 2 0 heartbeat_req s
    = send_rpc cb (p_node_id p1) (heartbeat_req s1.1 p1) s1 /\
    exists r, heartbeat_req s1.1 p1 = AppendEntries r /\ ae_term r = aer_term resp.
Proof.
  intros cb req0 Hw Hp Hfit Ht Hex Hrecv Hcmd. destruct Hfit as (Hat & Has & Ham).
  set (s1 := become_follower (resp_cb persist) (s.1, Returns w') (aer_term resp)).
  assert (s1.1 = {| (s.1) with state := RAFT_STATE_FOLLOWER; current_term := aer_term resp;
            voted_for := zeros 37; leader_id := zeros 37; votes_received := 0 |}) as Hn1
    by (unfold s1; by rewrite become_follower_node).
  assert (send_rpc cb (p_node_id p0) req0 s = s1) as Hsend.
  { unfold send_rpc, cb, rpc_callbacks. cbn [cb_send_rpc]. unfold raft_send_rpc_callback. rewrite Hw.
    assert (find_peer s.1 (p_node_id p0) = Some (0%nat, p0)) as ->.
    { apply list_find_Some. rewrite Hp. split; [done|]. split; [by apply streq_true|lia]. }
    rewrite Hex, Hrecv. unfold process_response, req0, heartbeat_req. cbn [fst snd].
    rewrite Hcmd, Z.eqb_refl, read_struct_app
      by (unfold pack_append_entries_resp; by len).
    replace (unpack_append_entries_resp _) with resp.
    2:{ unfold unpack_append_entries_resp, pack_append_entries_resp. read_fields.
        rewrite !of_net_bytes8, of_net_bytes1 by done. by destruct resp. }
    unfold raft_handle_append_entries_response. cbn [fst].
    by rewrite Z.gtb_ltb, (proj2 (Z.ltb_lt _ _)) by done. }
  exists s1. rewrite Hn1. split; [done|]. split; [done|]. split; [|by eexists].
  cbn [for_each_peer]. rewrite Hp. cbn [lookup list_lookup].
  fold req0. rewrite Hsend, Hn1. cbn [peers]. rewrite Hp. cbn [lookup list_lookup]. done.
Qed.
End Sync.

Definition demo_higher : RaftAppendEntriesResp :=
  {| aer_term := 9; aer_success := 0; aer_match_index := 0 |}.

Definition demo_reply_header : RpcHeader :=
  {| demo_header with command_type := RPC_CMD_RAFT_APPEND_ENTRIES_RESP; payload_len := 17 |}.

Definition demo_reply : list byte :=
  rpc_header_image demo_reply_header ++ pack_append_entries_resp demo_higher.

Definition demo_exchange (ip : list byte) (port : Z) (b : list byte) (w : unit)
  : option (list byte) * unit := (Some demo_reply, w).

Lemma stepped_down_leader_keeps_sending_witness :
  let cb := rpc_callbacks demo_exchange None None alloc_ok 1000 in
  exists s1 : RaftNode * outcome unit,
    state s1.1 = RAFT_STATE_FOLLOWER /\ current_term s1.1 = 9 /\
    for_each_peer cb 2 0 heartbeat_req (demo_node RAFT_STATE_LEADER 0, Returns tt)
    = send_rpc cb (id_of "n3") (heartbeat_req s1.1 (demo_peer "n3" 0)) s1 /\
    exists r, heartbeat_req s1.1 (demo_peer "n3" 0) = AppendEntries r /\ ae_term r = 9.
Proof.
  apply (stepped_down_leader_keeps_sending demo_exchange None None alloc_ok 1000
           (demo_node RAFT_STATE_LEADER 0, Returns tt) (demo_peer "n2" 0) (demo_peer "n3" 0) [] tt tt
           demo_reply_header demo_higher demo_reply).
  - reflexivity.
  - reflexivity.
  - repeat split; done.
  - reflexivity.
  - reflexivity.
  - vm_compute. reflexivity.
  - reflexivity.
Defined.

(** With the callbacks [raft_rpc_init] installs, every transition that stores the
    state is undefined behaviour: stepping down, a vote, an election, a client
    write. *)
Theorem installed_persist_undefined {W : Type}
    (exchange : list byte -> Z -> list byte -> W -> option (list byte) * W)
    (apply : option (outcome W -> list byte -> outcome W)) (al : Alloc) (clock now rnd : Z)
    (s : RaftNode * outcome W) (cb : Callbacks (outcome W)) :
  raft_rpc_init exchange true apply al clock = Some cb ->
  (forall term, (become_follower cb s term).2 = Undefined) /\
  (become_candidate cb now rnd s).2 = Undefined /\
  (forall req, rvr_vote_granted (raft_handle_request_vote cb now s req).1 = 1 ->
     (raft_handle_request_vote cb now s req).2.2 = Undefined) /\
  (forall data, (raft_submit cb al s data).1 = 0 -> (raft_submit cb al s data).2.2 = Undefined).
Proof.
  intros [= <-]. split; [done|]. split; [|split].
  - unfold become_candidate. set (s2 := persist_state _ _).
    assert (s2.2 = Undefined) as Hs by done. clearbody s2. generalize 0%nat at 1.
    match goal with |- context [for_each_peer _ _ _ ?f _] => generalize f end. intros mk i.
    generalize (length (peers s2.1)). intros k. revert i s2 Hs.
    induction k as [|k IH]; intros i s2 Hs; cbn [for_each_peer]; [done|].
    destruct (peers s2.1 !! i); [|done]. apply IH. unfold send_rpc. cbn [cb_send_rpc rpc_callbacks].
    unfold raft_send_rpc_callback. by rewrite Hs.
  - intros req. unfold raft_handle_request_vote. destruct (_ <? _); [done|].
    destruct (_ && _); [done|]. by destruct (negb _).
  - intros data. unfold raft_submit. case_decide; [done|]. destruct (_ >=? _); [done|].
    by destruct (negb _).
Qed.

(** ** Client writes *)

Lemma length_strncpy_field (stack key : list byte) :
  length stack = KV_COMMAND_SIZE -> length (strncpy (field 0 64 stack) key 63) = 64%nat.
Proof.
  intros H. unfold KV_COMMAND_SIZE in H. rewrite length_strncpy; rewrite length_field; lia.
Qed.

(** A key shorter than 63 bytes is terminated by the padding of [strncpy]. *)
Lemma key_terminated (dst key : list byte) :
  (length (cstr key) < 63)%nat -> cstr (strncpy dst key 63) = cstr key.
Proof.
  intros Hk. unfold strncpy. rewrite take_ge by lia.
  destruct (63 - length (cstr key))%nat as [|z] eqn:E; [lia|]. apply cstr_app_nul, cstr_no_nul.
Qed.

(** The command that [example_submit_write] builds of a [key], a [value] and what
    lay on the stack. *)
Record kv_command (stack key value cmd : list byte) : Prop := {
  kc_size : length cmd = KV_COMMAND_SIZE;
  kc_key : (length (cstr key) < 63)%nat -> cstr (field 0 64 cmd) = cstr key;
  kc_key63 : take 63 (field 0 64 cmd) = take 63 (cstr key) ++ zeros (63 - length (cstr key));
  kc_value : take (length value) (field 64 256 cmd) = take 256 value;
  kc_rest : drop (length value) (field 64 256 cmd) = drop (length value) (field 64 256 stack);
  kc_len : of_host (field 320 8 cmd) = Z.of_nat (length value);
}.

Lemma kv_command_built (stack key value cmd2 : list byte) :
  length stack = KV_COMMAND_SIZE ->
  memcpy_at (strncpy (field 0 64 stack) key 63 ++ drop 64 stack) 64 value = Returns cmd2 ->
  kv_command stack key value (take 320 cmd2 ++ host_bytes 8 (Z.of_nat (length value))).
Proof.
  intros Hst. pose proof (length_strncpy_field stack key Hst) as Hk. unfold KV_COMMAND_SIZE in Hst.
  unfold memcpy_at. rewrite length_app, length_drop, Hk, Hst.
  destruct (Nat.ltb_spec (64 + (328 - 64)) (64 + length value)) as [|Hv]; [done|]. intros [= <-].
  rewrite (take_app_length' (strncpy _ _ _) _ 64) by lia. set (k := strncpy _ _ _) in *.
  rewrite drop_app_ge by lia. rewrite Hk, drop_drop.
  match goal with |- context [drop (64 + ?x) stack] =>
    replace (64 + x)%nat with (64 + length value)%nat by lia end.
  set (tail := drop (64 + length value) stack).
  assert (length tail = 264 - length value)%nat as Ht by (unfold tail; rewrite length_drop; lia).
  assert (take 320 (k ++ value ++ tail) = k ++ take 256 (value ++ tail)) as ->.
  { rewrite take_app_ge by lia. by rewrite Hk. }
  assert (length (take 256 (value ++ tail)) = 256%nat) as Hb
    by (rewrite length_take, length_app, Ht; lia).
  assert (field 64 256 ((k ++ take 256 (value ++ tail)) ++ host_bytes 8 (Z.of_nat (length value)))
          = take 256 (value ++ tail)) as Hf.
  { rewrite <- app_assoc, field_skip by lia. rewrite Hk, Nat.sub_diag. by apply field_here. }
  assert (field 0 64 ((k ++ take 256 (value ++ tail)) ++ host_bytes 8 (Z.of_nat (length value))) = k)
    as Hf0 by (rewrite <- app_assoc; by apply field_here).
  split.
  - rewrite !length_app, Hk, Hb, length_host_bytes. done.
  - rewrite Hf0. apply key_terminated.
  - rewrite Hf0. unfold k, strncpy. rewrite app_assoc. rewrite take_app_length'; [done|].
    unfold zeros. rewrite length_app, length_take, length_replicate. lia.
  - rewrite Hf, take_take. rewrite Nat.min_comm, <- take_take. by rewrite take_app_length.
  - rewrite Hf. unfold field. rewrite !skipn_firstn_comm, drop_app_length, drop_drop. done.
  - rewrite field_skip by (rewrite length_app; lia). rewrite length_app, Hk, Hb. cbn [Nat.add Nat.sub].
    rewrite field_all by apply length_host_bytes. rewrite of_host_bytes. apply Z.mod_small. lia.
Qed.

(** A client write on a leader with memory. *)
Lemma submit_succeeds {W : Type} (cb : Callbacks W) (al : Alloc) (s : RaftNode * W) (cmd : list byte) :
  raft_wf s.1 -> room s.1 1 -> state s.1 = RAFT_STATE_LEADER ->
  realloc_ok al = true -> malloc_ok al = true ->
  exists s', raft_submit cb al s cmd = (0, s') /\
    log s'.1 = log s.1 ++ [{| e_term := current_term s.1; e_index := last_log_index s.1 +64 1;
                              e_data := cmd; e_type := 0 |}].
Proof.
  intros Hwf Hroom Hl Hr Hm.
  pose proof (ensure_log_capacity_ok al s.1 Hr (wf_room _ Hwf) (wf_snap _ Hwf) (wf_cap _ Hwf)) as Hcap.
  destruct (raft_submit_cases cb al s cmd) as [[? _]|[[_ Heq]|[_ [_ Heq]]]]; [done| |].
  { exfalso. unfold raft_submit in Heq. rewrite decide_False in Heq by (intros ?; done).
    rewrite (ensure_log_capacity_node al s.1) in Heq. unfold log_count in *. cbn in Heq.
    rewrite Z.geb_leb, (proj2 (Z.leb_gt _ _)) in Heq by lia. rewrite Hm in Heq. done. }
  rewrite Heq. eexists. split; [done|]. by rewrite persist_state_node.
Qed.

(** C40: what [example_submit_write] does with a write of [key] and [value], when
    allocations succeed.  On a node that is not the leader nothing changes.  On the
    leader a value of more than 264 bytes is copied past the end of the command on
    the stack.  A shorter one appends exactly one entry, of the current term and
    at the next index, which holds a [KvCommand] that [kv_apply_callback] accepts:
    the key, cut to 63 bytes and padded (terminated when it is shorter than 63), the
    first 256 bytes of the value, followed by whatever lay on the stack, and the
    length as given, which for 257 to 264 bytes exceeds the value field. *)
Theorem submit_write_entry {W : Type} (cb : Callbacks W) (al : Alloc) (stack : list byte)
    (s : RaftNode * W) (key value : list byte) :
  raft_wf s.1 -> room s.1 1 -> realloc_ok al = true -> malloc_ok al = true ->
  length stack = KV_COMMAND_SIZE ->
  (state s.1 <> RAFT_STATE_LEADER ->
   example_submit_write cb al stack s key value = Returns (-1, s)) /\
  (state s.1 = RAFT_STATE_LEADER -> (264 < length value)%nat ->
   example_submit_write cb al stack s key value = Undefined) /\
  (state s.1 = RAFT_STATE_LEADER -> (length value <= 264)%nat ->
   exists s' e, example_submit_write cb al stack s key value = Returns (0, s') /\
     log s'.1 = log s.1 ++ [e] /\ e_index e = last_log_index s.1 + 1 /\
     e_term e = current_term s.1 /\ e_type e = 0 /\
     kv_apply_callback (e_data e) = 0 /\ kv_command stack key value (e_data e)).
Proof.
  intros Hwf Hroom Hr Hm Hst. unfold example_submit_write, raft_is_leader.
  pose proof (length_strncpy_field stack key Hst) as Hk.
  assert (length (strncpy (field 0 64 stack) key 63 ++ drop 64 stack) = 328)%nat as Hl1
    by (rewrite length_app, length_drop, Hk, Hst; reflexivity).
  split; [|split]; intros Hl; [by rewrite bool_decide_eq_false_2|intros Hv..];
    rewrite bool_decide_eq_true_2 by done; cbn [negb].
  { unfold memcpy_at. by rewrite Hl1, (proj2 (Nat.ltb_lt _ _)) by lia. }
  destruct (memcpy_at _ 64 value) as [cmd2|] eqn:Ec.
  2:{ unfold memcpy_at in Ec. rewrite Hl1, (proj2 (Nat.ltb_ge _ _)) in Ec by lia. done. }
  apply (kv_command_built _ _ _ _ Hst) in Ec. set (cmd := take 320 cmd2 ++ _) in *. clearbody cmd.
  destruct (submit_succeeds cb al s cmd Hwf Hroom Hl Hr Hm) as (s' & -> & Hlog).
  eexists s', _. split; [done|]. split; [exact Hlog|]. cbn [e_index e_term e_type e_data].
  split_and!; [|done|done| |done].
  - pose proof (last_log_index_wf _ (wf_log _ Hwf)). pose proof (wf_snap _ Hwf).
    pose proof (log_count_nonneg s.1). unfold room in Hroom. apply u64_small. solve_u.
  - unfold kv_apply_callback. by rewrite (kc_size _ _ _ _ Ec).
Qed.

Lemma submit_write_entry_witness :
  exists s' e, example_submit_write record_cb alloc_ok (zeros 328)
                 (demo_node RAFT_STATE_LEADER 0, []) (text "k") (text "v") = Returns (0, s') /\
    log s'.1 = log (demo_node RAFT_STATE_LEADER 0) ++ [e] /\ e_index e = 3 /\
    e_term e = current_term (demo_node RAFT_STATE_LEADER 0) /\ e_type e = 0 /\
    kv_apply_callback (e_data e) = 0 /\ kv_command (zeros 328) (text "k") (text "v") (e_data e).
Proof.
  apply (submit_write_entry record_cb alloc_ok (zeros 328) (demo_node RAFT_STATE_LEADER 0, [])
           (text "k") (text "v")).
  - apply demo_node_wf.
  - reflexivity.
  - reflexivity.
  - reflexivity.
  - reflexivity.
  - reflexivity.
  - vm_compute. lia.
Defined.
