(* ===== verification/Election.v ===== *)
(** * Abstract leader election

    What the terms, votes and roles of [raft_core.c] promise, without logs,
    timers, buffers or wire formats: a transition system over the members of a
    cluster and the set of messages ever sent (so that messages may be lost,
    duplicated and reordered).  The history variables [votes] and [leaders]
    record every vote cast and every election won.  The invariant
    [el_inv] gives [leaders_unique]: at most one leader per term.

    The transitions allow what the code does, including the step of a candidate
    or leader that receives a heartbeat of its own term and forgets its vote
    ([el_yield]), and a granted response that carries an older term than the
    vote ([el_grant] with [t0]). *)

From stdpp Require Import functions.
From S2P Require Import Prelude RaftCore.

Section Election.
Context {Id : Type} `{!EqDecision Id, !Countable Id}.

Record anode : Type := ANode {
  a_term : Z;
  a_vote : option Id;
  a_role : RaftState;
  a_granted : gset Id;
}.

Inductive apacket : Type :=
  | AReqVote (src dst : Id) (t : Z)
  | AVoteGranted (src dst : Id) (t : Z)
  | AHeartbeat (src dst : Id) (t : Z).

Record astate : Type := AState {
  a_nodes : Id -> anode;
  a_packets : list apacket;
  votes : list (Id * Z * Id);
  leaders : list (Id * Z);
}.

Context (members : gset Id).

Definition a_init : astate :=
  AState (fun _ => ANode 0 None RAFT_STATE_FOLLOWER ∅) [] [] [].

Definition quorum (q : gset Id) : Prop := q ⊆ members /\ (size members < 2 * size q)%nat.

Definition set_node (v : Id) (n : anode) (s : astate) : astate :=
  AState (<[v := n]> (a_nodes s)) (a_packets s) (votes s) (leaders s).

Definition add_packet (p : apacket) (s : astate) : astate :=
  AState (a_nodes s) (p :: a_packets s) (votes s) (leaders s).

Definition add_vote (v : Id) (t : Z) (c : Id) (s : astate) : astate :=
  AState (a_nodes s) (a_packets s) ((v, t, c) :: votes s) (leaders s).

Definition add_leader (l : Id) (t : Z) (s : astate) : astate :=
  AState (a_nodes s) (a_packets s) (votes s) ((l, t) :: leaders s).

(** Where a message comes from and which term it carries. *)
Definition a_sends (v : Id) (n : anode) (p : apacket) : Prop :=
  match p with
  | AReqVote src dst t =>
      src = v /\ dst <> v /\ a_role n = RAFT_STATE_CANDIDATE /\ t = a_term n
  | AHeartbeat src dst t =>
      src = v /\ dst <> v /\ a_role n = RAFT_STATE_LEADER /\ t = a_term n
  | AVoteGranted _ _ _ => False
  end.

Inductive el_step (s : astate) : astate -> Prop :=
  | el_timeout v n :
      n = a_nodes s v -> v ∈ members ->
      el_step s (add_vote v (a_term n + 1) v
                  (set_node v (ANode (a_term n + 1) (Some v) RAFT_STATE_CANDIDATE ∅) s))
  | el_see_term v t :
      a_term (a_nodes s v) < t ->
      el_step s (set_node v (ANode t None RAFT_STATE_FOLLOWER ∅) s)
  | el_send v p :
      a_sends v (a_nodes s v) p -> el_step s (add_packet p s)
  | el_grant v c t0 n :
      n = a_nodes s v -> v ∈ members ->
      AReqVote c v (a_term n) ∈ a_packets s ->
      a_vote n = None \/ a_vote n = Some c -> t0 <= a_term n ->
      el_step s (add_packet (AVoteGranted v c t0) (add_vote v (a_term n) c
                  (set_node v (ANode (a_term n) (Some c) (a_role n) (a_granted n)) s)))
  | el_count c v n :
      n = a_nodes s c -> a_role n = RAFT_STATE_CANDIDATE ->
      AVoteGranted v c (a_term n) ∈ a_packets s ->
      el_step s (set_node c (ANode (a_term n) (a_vote n) (a_role n) ({[v]} ∪ a_granted n)) s)
  | el_lead c n :
      n = a_nodes s c -> a_role n = RAFT_STATE_CANDIDATE ->
      quorum ({[c]} ∪ a_granted n) ->
      el_step s (add_leader c (a_term n)
                  (set_node c (ANode (a_term n) (a_vote n) RAFT_STATE_LEADER ∅) s))
  | el_yield v l n :
      n = a_nodes s v -> a_role n <> RAFT_STATE_FOLLOWER ->
      AHeartbeat l v (a_term n) ∈ a_packets s ->
      el_step s (set_node v (ANode (a_term n) None RAFT_STATE_FOLLOWER ∅) s)
  | el_restart v n :
      n = a_nodes s v ->
      el_step s (set_node v (ANode (a_term n) (a_vote n) RAFT_STATE_FOLLOWER ∅) s).

(** ** Invariant *)

(** Facts about one node [v] in a state. *)
Record node_inv (s : astate) (v : Id) (n : anode) : Prop := {
  ni_votes_past : forall t c, (v, t, c) ∈ votes s -> t <= a_term n;
  ni_votes_now : forall c, (v, a_term n, c) ∈ votes s -> c <> v ->
    a_vote n = Some c /\ a_role n = RAFT_STATE_FOLLOWER;
  ni_active : a_role n <> RAFT_STATE_FOLLOWER -> a_vote n = Some v /\ v ∈ members;
  ni_candidate : a_role n = RAFT_STATE_CANDIDATE ->
    forall p, p ∈ {[v]} ∪ a_granted n -> (p, a_term n, v) ∈ votes s;
  ni_leader : a_role n = RAFT_STATE_LEADER -> (v, a_term n) ∈ leaders s;
  ni_leads_past : forall t, (v, t) ∈ leaders s -> t <= a_term n;
  ni_leads_now : (v, a_term n) ∈ leaders s -> a_vote n = Some v;
}.

Definition packet_inv (s : astate) (p : apacket) : Prop :=
  match p with
  | AReqVote c v t => c <> v /\ t <= a_term (a_nodes s c)
  | AVoteGranted v c t =>
      exists t', t <= t' <= a_term (a_nodes s c) /\ (v, t', c) ∈ votes s
  | AHeartbeat l v t => l <> v /\ (l, t) ∈ leaders s
  end.

Record el_inv (s : astate) : Prop := {
  ei_nodes : forall v, node_inv s v (a_nodes s v);
  ei_packets : forall p, p ∈ a_packets s -> packet_inv s p;
  ei_votes_unique : forall v t c c', (v, t, c) ∈ votes s -> (v, t, c') ∈ votes s ->
    c <> v -> c' <> v -> c = c';
  ei_leader_votes : forall l t c, (l, t) ∈ leaders s -> (l, t, c) ∈ votes s -> c = l;
  ei_quorums : forall l t, (l, t) ∈ leaders s ->
    exists q, quorum q /\ forall v, v ∈ q -> (v, t, l) ∈ votes s;
  ei_unique : forall l l' t, (l, t) ∈ leaders s -> (l', t) ∈ leaders s -> l = l';
}.

Lemma quorums_meet (q q' : gset Id) :
  quorum q -> quorum q' -> exists v, v ∈ q /\ v ∈ q'.
Proof.
  intros [Hq Hs] [Hq' Hs']. destruct (decide (q ∩ q' = ∅)) as [He|Hne].
  - assert (size (q ∪ q') = size q + size q')%nat as Hu
      by (apply size_union; set_solver).
    assert (size (q ∪ q') <= size members)%nat by (apply subseteq_size; set_solver). lia.
  - apply set_choose_L in Hne as [v Hv]. exists v. set_solver.
Qed.

(** A candidate with a quorum of votes cannot meet another leader of its term. *)
Lemma candidate_unique (s : astate) (c l : Id) :
  el_inv s -> a_role (a_nodes s c) = RAFT_STATE_CANDIDATE ->
  quorum ({[c]} ∪ a_granted (a_nodes s c)) -> (l, a_term (a_nodes s c)) ∈ leaders s -> l = c.
Proof.
  intros Hinv Hrole Hq Hl. destruct (decide (l = c)) as [|Hne]; [done|exfalso].
  destruct (ei_quorums s Hinv l _ Hl) as (q' & Hq' & Hvotes').
  destruct (quorums_meet _ _ Hq Hq') as (v & Hv & Hv').
  apply (ni_candidate s c _ (ei_nodes s Hinv c) Hrole) in Hv. apply Hvotes' in Hv'.
  destruct (decide (v = l)) as [->|Hvl].
  { apply Hne. symmetry. by eapply (ei_leader_votes s Hinv). }
  destruct (decide (v = c)) as [->|Hvc].
  { apply (ni_votes_now s c _ (ei_nodes s Hinv c)) in Hv'; [|done]. destruct Hv'. congruence. }
  apply Hne. by eapply (ei_votes_unique s Hinv).
Qed.

(** ** Preservation *)

(** One node changes, possibly casting votes or winning an election: everything
    about the other nodes and the old packets is framed. *)
Record framed (s s' : astate) (v : Id) : Prop := {
  fr_nodes : forall u, u <> v -> a_nodes s' u = a_nodes s u;
  fr_term : a_term (a_nodes s v) <= a_term (a_nodes s' v);
  fr_votes : forall x, x ∈ votes s -> x ∈ votes s';
  fr_new_votes : forall u t c, u <> v -> (u, t, c) ∈ votes s' -> (u, t, c) ∈ votes s;
  fr_leaders : forall x, x ∈ leaders s -> x ∈ leaders s';
  fr_new_leaders : forall u t, u <> v -> (u, t) ∈ leaders s' -> (u, t) ∈ leaders s;
}.

Lemma framed_term (s s' : astate) (v u : Id) :
  framed s s' v -> a_term (a_nodes s u) <= a_term (a_nodes s' u).
Proof.
  intros H. destruct (decide (u = v)) as [->|Hne]; [apply H|]. by rewrite (fr_nodes _ _ _ H).
Qed.

Lemma framed_packet (s s' : astate) (v : Id) (p : apacket) :
  framed s s' v -> packet_inv s p -> packet_inv s' p.
Proof.
  intros Hf. destruct p as [c u t|u c t|l u t]; simpl.
  - intros [? ?]. pose proof (framed_term s s' v c Hf). split; [done|lia].
  - intros (t' & ? & ?). pose proof (framed_term s s' v c Hf).
    exists t'. split; [lia|]. by apply Hf.
  - intros [? ?]. split; [done|]. by apply Hf.
Qed.

Lemma framed_node (s s' : astate) (v u : Id) :
  framed s s' v -> u <> v -> node_inv s u (a_nodes s u) -> node_inv s' u (a_nodes s' u).
Proof.
  intros Hf Hu Hn. rewrite (fr_nodes _ _ _ Hf u Hu).
  constructor.
  - intros t c Hv. eapply ni_votes_past; [done|]. by apply (fr_new_votes _ _ _ Hf) in Hv.
  - intros c Hv. apply ni_votes_now with (s := s); [done|]. by apply (fr_new_votes _ _ _ Hf) in Hv.
  - by apply ni_active with (s := s).
  - intros Hr p Hp. apply Hf. by eapply ni_candidate.
  - intros Hr. apply Hf. by eapply ni_leader.
  - intros t Hl. eapply ni_leads_past; [done|]. by apply (fr_new_leaders _ _ _ Hf) in Hl.
  - intros Hl. eapply ni_leads_now; [done|]. by apply (fr_new_leaders _ _ _ Hf) in Hl.
Qed.

(** Steps that change one node and neither vote nor elect. *)
Lemma inv_set_node (s : astate) (v : Id) (n' : anode) :
  el_inv s -> a_term (a_nodes s v) <= a_term n' -> node_inv s v n' ->
  el_inv (set_node v n' s).
Proof.
  intros Hinv Ht Hn'.
  assert (framed s (set_node v n' s) v) as Hf.
  { constructor; cbn; try done; [|by rewrite fn_lookup_insert].
    intros u Hu. by rewrite fn_lookup_insert_ne. }
  constructor.
  - intros u. destruct (decide (u = v)) as [->|Hu].
    + cbn. rewrite fn_lookup_insert. destruct Hn'. by constructor.
    + eapply framed_node; [done|done|apply Hinv].
  - intros p Hp. eapply framed_packet; [done|]. by apply Hinv.
  - exact (ei_votes_unique s Hinv).
  - exact (ei_leader_votes s Hinv).
  - exact (ei_quorums s Hinv).
  - exact (ei_unique s Hinv).
Qed.

Lemma inv_add_packet (s : astate) (p : apacket) :
  el_inv s -> packet_inv s p -> el_inv (add_packet p s).
Proof.
  intros Hinv Hp. destruct Hinv as [Hn Hps]. constructor; try done.
  - intros v. destruct (Hn v). by constructor.
  - intros q [->|Hq]%elem_of_cons; [by destruct p|]. apply Hps in Hq. by destruct q.
Qed.

Lemma inv_see_term (s : astate) (v : Id) (t : Z) :
  el_inv s -> a_term (a_nodes s v) < t ->
  el_inv (set_node v (ANode t None RAFT_STATE_FOLLOWER ∅) s).
Proof.
  intros Hinv Ht. apply inv_set_node; [done|cbn; lia|].
  pose proof (ei_nodes s Hinv v) as Hn. constructor; cbn; try done.
  - intros t' c Hv. apply (ni_votes_past _ _ _ Hn) in Hv. lia.
  - intros c Hv. apply (ni_votes_past _ _ _ Hn) in Hv. lia.
  - intros t' Hl. apply (ni_leads_past _ _ _ Hn) in Hl. lia.
  - intros Hl. apply (ni_leads_past _ _ _ Hn) in Hl. lia.
Qed.

Lemma inv_send (s : astate) (v : Id) (p : apacket) :
  el_inv s -> a_sends v (a_nodes s v) p -> el_inv (add_packet p s).
Proof.
  intros Hinv Hp. apply inv_add_packet; [done|].
  destruct p as [c u t|u c t|l u t]; cbn in Hp |- *; [| |].
  - destruct Hp as (-> & Hu & _ & ->). split; [congruence|lia].
  - done.
  - destruct Hp as (-> & Hu & Hr & ->). split; [congruence|].
    by apply (ni_leader _ _ _ (ei_nodes s Hinv v)).
Qed.

Lemma inv_count (s : astate) (c v : Id) (n := a_nodes s c) :
  el_inv s -> a_role n = RAFT_STATE_CANDIDATE -> AVoteGranted v c (a_term n) ∈ a_packets s ->
  el_inv (set_node c (ANode (a_term n) (a_vote n) (a_role n) ({[v]} ∪ a_granted n)) s).
Proof.
  intros Hinv Hr Hp. apply inv_set_node; [done|apply Z.le_refl|].
  apply (ei_packets s Hinv) in Hp as (t' & Ht' & Hv).
  assert (t' = a_term n) as -> by (unfold n in *; lia).
  destruct (ei_nodes s Hinv c). constructor; cbn; try done.
  intros _ p Hp. assert (p = v \/ p ∈ {[c]} ∪ a_granted n) as [->|Hp'] by set_solver; auto.
Qed.

Lemma inv_yield (s : astate) (v l : Id) (n := a_nodes s v) :
  el_inv s -> a_role n <> RAFT_STATE_FOLLOWER -> AHeartbeat l v (a_term n) ∈ a_packets s ->
  el_inv (set_node v (ANode (a_term n) None RAFT_STATE_FOLLOWER ∅) s).
Proof.
  intros Hinv Hr Hp. apply inv_set_node; [done|apply Z.le_refl|].
  apply (ei_packets s Hinv) in Hp as [Hne Hl].
  destruct (ei_nodes s Hinv v) as [? Hnow]. constructor; cbn; try done.
  - intros c Hv Hc. by destruct (Hnow c Hv Hc).
  - intros Hv. by destruct (Hne (ei_unique s Hinv _ _ _ Hl Hv)).
Qed.

Lemma inv_lead (s : astate) (c : Id) (n := a_nodes s c) :
  el_inv s -> a_role n = RAFT_STATE_CANDIDATE -> quorum ({[c]} ∪ a_granted n) ->
  el_inv (add_leader c (a_term n)
            (set_node c (ANode (a_term n) (a_vote n) RAFT_STATE_LEADER ∅) s)).
Proof.
  intros Hinv Hr Hq. set (s' := add_leader _ _ _).
  assert (framed s s' c) as Hf.
  { constructor; cbn; try done; try set_solver; [|by rewrite fn_lookup_insert].
    intros u Hu. by rewrite fn_lookup_insert_ne. }
  pose proof (ei_nodes s Hinv c) as Hn. fold n in Hn.
  destruct (ni_active _ _ _ Hn) as [Hvote Hmem]; [congruence|].
  assert (forall x, (c, a_term n, x) ∈ votes s -> x = c) as Hself.
  { intros x Hx. destruct (decide (x = c)) as [|Hne]; [done|].
    apply (ni_votes_now _ _ _ Hn) in Hx; [|done]. destruct Hx. congruence. }
  assert (forall l, (l, a_term n) ∈ leaders s -> l = c) as Huniq
    by (intros l Hl; by apply (candidate_unique s)).
  constructor.
  - intros u. destruct (decide (u = c)) as [->|Hu]; [|by eapply framed_node; [..|apply Hinv]].
    cbn. rewrite fn_lookup_insert. destruct Hn. constructor; cbn; try done.
    + intros x Hx. by apply Hself in Hx.
    + intros _. left.
    + intros t [Heq|Hl]%elem_of_cons; [simplify_eq; lia|auto].
  - intros p Hp. eapply framed_packet; [done|]. by apply Hinv.
  - exact (ei_votes_unique s Hinv).
  - intros l t x [Heq|Hl]%elem_of_cons Hx; [simplify_eq; auto|].
    by eapply (ei_leader_votes s Hinv).
  - intros l t [Heq|Hl]%elem_of_cons; [|by apply (ei_quorums s Hinv)].
    simplify_eq. eexists. split; [exact Hq|]. intros v Hv. by apply (ni_candidate _ _ _ Hn).
  - intros l l' t [Heq|Hl]%elem_of_cons [Heq'|Hl']%elem_of_cons; simplify_eq; try done.
    + symmetry. by apply Huniq.
    + by apply Huniq.
    + by eapply (ei_unique s Hinv).
Qed.

Lemma inv_timeout (s : astate) (v : Id) (n := a_nodes s v) :
  el_inv s -> v ∈ members ->
  el_inv (add_vote v (a_term n + 1) v
            (set_node v (ANode (a_term n + 1) (Some v) RAFT_STATE_CANDIDATE ∅) s)).
Proof.
  intros Hinv Hmem. set (s' := add_vote _ _ _ _).
  assert (framed s s' v) as Hf.
  { constructor; cbn; try done; try set_solver; [|rewrite fn_lookup_insert; cbn; unfold n; lia].
    intros u Hu. by rewrite fn_lookup_insert_ne. }
  pose proof (ei_nodes s Hinv v) as Hn. fold n in Hn.
  assert (forall x, (v, a_term n + 1, x) ∉ votes s) as Hnew
    by (intros x Hx; apply (ni_votes_past _ _ _ Hn) in Hx; lia).
  assert (forall t, (v, t) ∈ leaders s -> t <= a_term n) as Hlead by apply Hn.
  constructor.
  - intros u. destruct (decide (u = v)) as [->|Hu]; [|by eapply framed_node; [..|apply Hinv]].
    cbn. rewrite fn_lookup_insert. constructor; cbn; try done.
    + intros t c [Heq|Hx]%elem_of_cons; [simplify_eq; lia|].
      apply (ni_votes_past _ _ _ Hn) in Hx. lia.
    + intros c [Heq|Hx]%elem_of_cons Hc; [by simplify_eq|by apply Hnew in Hx].
    + intros _ p Hp. assert (p = v) as -> by set_solver. left.
    + intros t Hl. apply Hlead in Hl. lia.
  - intros p Hp. eapply framed_packet; [done|]. by apply Hinv.
  - intros u t c c' [Heq|Hx]%elem_of_cons [Heq'|Hx']%elem_of_cons; simplify_eq; try done.
    by eapply (ei_votes_unique s Hinv).
  - intros l t c Hl [Heq|Hx]%elem_of_cons; [by simplify_eq|].
    by eapply (ei_leader_votes s Hinv).
  - intros l t Hl. destruct (ei_quorums s Hinv l t Hl) as (q & Hq & Hv).
    exists q. split; [done|]. intros u Hu. right. by apply Hv.
  - exact (ei_unique s Hinv).
Qed.

Lemma inv_grant (s : astate) (v c : Id) (t0 : Z) (n := a_nodes s v) :
  el_inv s -> v ∈ members -> AReqVote c v (a_term n) ∈ a_packets s ->
  a_vote n = None \/ a_vote n = Some c -> t0 <= a_term n ->
  el_inv (add_packet (AVoteGranted v c t0) (add_vote v (a_term n) c
            (set_node v (ANode (a_term n) (Some c) (a_role n) (a_granted n)) s))).
Proof.
  intros Hinv Hmem Hp Hvote Ht0. apply (ei_packets s Hinv) in Hp as [Hcv Htc].
  set (s' := add_vote _ _ _ _). pose proof (ei_nodes s Hinv v) as Hn. fold n in Hn.
  assert (framed s s' v) as Hf.
  { constructor; cbn; try done; try set_solver; [|by rewrite fn_lookup_insert].
    intros u Hu. by rewrite fn_lookup_insert_ne. }
  assert (a_role n = RAFT_STATE_FOLLOWER) as Hrole.
  { destruct (decide (a_role n = RAFT_STATE_FOLLOWER)) as [|Hr]; [done|].
    destruct (ni_active _ _ _ Hn Hr) as [Hself _]. destruct Hvote; congruence. }
  assert (forall x, (v, a_term n, x) ∈ votes s -> x <> v -> x = c) as Hsame.
  { intros x Hx Hne. destruct (ni_votes_now _ _ _ Hn x Hx Hne). destruct Hvote; congruence. }
  assert ((v, a_term n) ∉ leaders s) as Hnl.
  { intros Hl%(ni_leads_now _ _ _ Hn). destruct Hvote; congruence. }
  apply inv_add_packet.
  2:{ cbn. exists (a_term n). rewrite fn_lookup_insert_ne by done. split; [done|left]. }
  constructor.
  - intros u. destruct (decide (u = v)) as [->|Hu]; [|by eapply framed_node; [..|apply Hinv]].
    cbn. rewrite fn_lookup_insert. constructor; cbn; try (by rewrite Hrole); try apply Hn; try done.
    + intros t x [Heq|Hx]%elem_of_cons; [simplify_eq; lia|]. by apply (ni_votes_past _ _ _ Hn) in Hx.
    + intros x [Heq|Hx]%elem_of_cons Hne; [by simplify_eq|]. by rewrite (Hsame x).
  - intros p Hp. eapply framed_packet; [done|]. by apply Hinv.
  - intros u t x x' [Heq|Hx]%elem_of_cons [Heq'|Hx']%elem_of_cons ? ?; simplify_eq; try done.
    + symmetry. by apply Hsame.
    + by apply Hsame.
    + by eapply (ei_votes_unique s Hinv).
  - intros l t x Hl [Heq|Hx]%elem_of_cons; [by simplify_eq|].
    by eapply (ei_leader_votes s Hinv).
  - intros l t Hl. destruct (ei_quorums s Hinv l t Hl) as (q & Hq & Hv).
    exists q. split; [done|]. intros u Hu. right. by apply Hv.
  - exact (ei_unique s Hinv).
Qed.

Lemma inv_restart (s : astate) (v : Id) (n := a_nodes s v) :
  el_inv s -> el_inv (set_node v (ANode (a_term n) (a_vote n) RAFT_STATE_FOLLOWER ∅) s).
Proof.
  intros Hinv. apply inv_set_node; [done|apply Z.le_refl|].
  destruct (ei_nodes s Hinv v) as [? Hnow]. constructor; cbn; try done.
  intros c Hv Hc. by destruct (Hnow c Hv Hc).
Qed.

Lemma el_inv_init : el_inv a_init.
Proof. constructor; cbn; try set_solver. intros v. constructor; cbn; set_solver. Qed.

Lemma el_step_inv (s s' : astate) : el_inv s -> el_step s s' -> el_inv s'.
Proof.
  intros Hinv Hs. destruct Hs as [v n ->|v t|v p|v c t0 n ->|c v n ->|c n ->|v l n ->|v n ->].
  - by apply inv_timeout.
  - by apply inv_see_term.
  - by eapply inv_send.
  - by apply inv_grant.
  - by apply inv_count.
  - by apply inv_lead.
  - by eapply inv_yield.
  - by apply inv_restart.
Qed.

Lemma el_steps_inv (s s' : astate) : el_inv s -> rtc el_step s s' -> el_inv s'.
Proof. intros Hinv Hs. induction Hs; eauto using el_step_inv. Qed.

(** Elections are never forgotten. *)
Lemma el_steps_leaders (s s' : astate) (x : Id * Z) :
  rtc el_step s s' -> x ∈ leaders s -> x ∈ leaders s'.
Proof.
  intros Hs. induction Hs as [|s s1 s2 Hs _ IH]; [done|]. intros Hx. apply IH.
  destruct Hs; cbn; try done. by right.
Qed.
End Election.

Arguments anode Id {_ _}.
Arguments apacket : clear implicits.
Arguments astate Id {_ _}.
