(* ===== verification/RaftNet.v ===== *)
(** * A cluster of nodes

    Several nodes of [raft_core.c] over a network that may lose, duplicate and
    reorder messages, each with its own file system for
    [raft_persistence.c].  A step runs one operation of the code on one node:
    a tick, a client write, the handling of a request or of a response, or a
    crash followed by [example_raft_init]; a node crashes between operations.  The
    set of packets only grows, so that any packet may be delivered any number of
    times, or never.  [net_cb] is the core's callback interface with a transport that
    queues requests and a [persist] that stores the node; [raft_rpc_init] installs a
    synchronous transport and another [persist], see [RaftRpc.v].

    [sim_step] shows that every step is allowed by the abstract election of
    [Election.v]; [election_safety] follows. *)

From stdpp Require Import functions.
From S2P Require Import Prelude RaftCore RaftInv RaftSpec RaftPersist RaftRpc Election.

(** ** Configuration *)

(** Id, address and port of a member. *)
Abbreviation member := (list byte * list byte * Z)%type.

Definition member_ids (ms : list member) : list (list byte) := map (fun m => m.1.1) ms.

(** Distinct, non-empty ids that fit the 37-byte arrays. *)
Record config_ok (ms : list member) : Prop := {
  cfg_nodup : NoDup (member_ids ms);
  cfg_size : Z.of_nat (length ms) < 2 ^ 32 - 1;
  cfg_ids : Forall (fun id => (x00 ∉ id) /\ id <> [] /\ (length id < 37)%nat) (member_ids ms);
}.

Definition peers_of (ms : list member) (v : list byte) : list member :=
  filter (fun m => m.1.1 <> v) ms.

(** ** State *)

(** What the callbacks of one node act on. *)
Record World : Type := {
  w_fs : FS;
  w_out : list (list byte * RaftRequest);
  w_applied : list (list byte);
}.

Inductive packet : Type :=
  | Request (src dst : list byte) (req : RaftRequest)
  | VoteResponse (src dst : list byte) (resp : RaftRequestVoteResp)
  | AppendResponse (src dst : list byte) (resp : RaftAppendEntriesResp).

Record net : Type := {
  nodes : list byte -> RaftNode * World;
  packets : list packet;
}.

(** Callbacks that apply, store and queue. *)
Definition net_cb (wenv : WriteEnv) : Callbacks World :=
  {| cb_apply := Some (fun w d => {| w with w_applied := w_applied w ++ [d] |});
     cb_persist := Some (fun n w =>
       {| w with w_fs := (raft_persist_state wenv (w_fs w) n).2 |});
     cb_send_rpc := Some (fun peer req s =>
       (s.1, {| (s.2) with w_out := w_out s.2 ++ [(peer, req)] |})) |}.

#[export] Instance net_cb_async (wenv : WriteEnv) : AsyncTransport (net_cb wenv).
Proof. done. Qed.

Section Net.
Context (wenv : WriteEnv) (renv : ReadEnv) (ms : list member).

Abbreviation cb := (net_cb wenv).
Abbreviation ids := (member_ids ms).

Definition boot (fs : FS) (rnd now : Z) (v : list byte) : outcome (option RaftNode) :=
  example_raft_init alloc_ok true renv fs rnd now v (peers_of ms v).

(** The queued requests become packets. *)
Definition sent (v : list byte) (w : World) : list packet :=
  map (fun m => Request v (cstr m.1) m.2) (w_out w).

Definition commit (v : list byte) (s : RaftNode * World) (extra : list packet) (N : net) : net :=
  {| nodes := <[v := (s.1, {| (s.2) with w_out := [] |})]> (nodes N);
     packets := extra ++ sent v s.2 ++ packets N |}.

Definition net_init (N : net) : Prop :=
  packets N = [] /\
  forall v, v ∈ ids -> exists rnd now n,
    boot ∅ rnd now v = Returns (Some n) /\
    nodes N v = (n, {| w_fs := ∅; w_out := []; w_applied := [] |}).

Inductive net_step (N : net) : net -> Prop :=
  | net_tick v now now' rnd :
      v ∈ ids -> current_term (nodes N v).1 < 2 ^ 64 - 1 ->
      net_step N (commit v (raft_tick cb now now' rnd (nodes N v)) [] N)
  | net_submit v al data :
      v ∈ ids -> net_step N (commit v (raft_submit cb al (nodes N v) data).2 [] N)
  | net_vote_request c v req now resp s' :
      v ∈ ids -> Request c v (RequestVote req) ∈ packets N ->
      raft_handle_request_vote cb now (nodes N v) req = (resp, s') ->
      net_step N (commit v s' [VoteResponse v c resp] N)
  | net_append_request l v req al now ptr resp s' :
      v ∈ ids -> Request l v (AppendEntries req) ∈ packets N ->
      raft_handle_append_entries cb al now (nodes N v) req ptr (ae_entry_count req)
        = Returns (resp, s') ->
      net_step N (commit v s' [AppendResponse v l resp] N)
  | net_vote_response v c resp al :
      c ∈ ids -> VoteResponse v c resp ∈ packets N ->
      net_step N (commit c (raft_handle_request_vote_response cb al (nodes N c) v resp) [] N)
  | net_append_response v l resp :
      l ∈ ids -> AppendResponse v l resp ∈ packets N ->
      net_step N (commit l (raft_handle_append_entries_response cb (nodes N l) v resp) [] N)
  | net_restart v rnd now n :
      v ∈ ids -> boot (w_fs (nodes N v).2) rnd now v = Returns (Some n) ->
      net_step N (commit v (n, (nodes N v).2) [] N).

Definition net_reachable (N : net) : Prop :=
  exists N0, net_init N0 /\ rtc net_step N0 N.

(** ** Abstraction *)

Definition abs_vote (n : RaftNode) : option (list byte) :=
  match cstr (voted_for n) with [] => None | c => Some c end.

Definition granted_ids (n : RaftNode) : gset (list byte) :=
  list_to_set (map (fun p => cstr (p_node_id p)) (filter (fun p => vote_granted p = true) (peers n))).

Definition abs_node (n : RaftNode) : anode (list byte) :=
  ANode (current_term n) (abs_vote n) (state n)
    (if decide (state n = RAFT_STATE_CANDIDATE) then granted_ids n else ∅).

(** The file holds the node's term and vote, or there is none and the node has
    neither. *)
Definition disk_ok (n : RaftNode) (fs : FS) : Prop :=
  match fs !! wal_path (node_id n) with
  | None => current_term n = 0 /\ cstr (voted_for n) = []
  | Some file => exists m rest, file = wal_header m ++ rest /\
      current_term m = current_term n /\ cstr (voted_for m) = cstr (voted_for n)
  end.

Record node_ok (v : list byte) (s : RaftNode * World) : Prop := {
  nk_id : cstr (node_id s.1) = v;
  nk_id_array : char_array 37 (node_id s.1);
  nk_voted_for : char_array 37 (voted_for s.1);
  nk_term : is_u64 (current_term s.1);
  nk_peers : peer_ids s.1 = member_ids (peers_of ms v);
  nk_votes : state s.1 = RAFT_STATE_CANDIDATE -> votes_received s.1 = 1 + granted_count s.1;
  nk_disk : disk_ok s.1 (w_fs s.2);
}.

Definition packet_ok (A : astate (list byte)) (p : packet) : Prop :=
  match p with
  | Request c v (RequestVote req) =>
      c ∈ ids /\ cstr (rv_candidate_id req) = c /\ is_u64 (rv_term req) /\
      AReqVote c v (rv_term req) ∈ a_packets A
  | Request l v (AppendEntries req) =>
      is_u64 (ae_term req) /\ AHeartbeat l v (ae_term req) ∈ a_packets A
  | VoteResponse v c resp =>
      v ∈ ids /\ is_u64 (rvr_term resp) /\
      (rvr_vote_granted resp <> 0 -> AVoteGranted v c (rvr_term resp) ∈ a_packets A)
  | AppendResponse v l resp => is_u64 (aer_term resp)
  end.

Record refines (N : net) (A : astate (list byte)) : Prop := {
  rf_nodes : forall v, v ∈ ids -> abs_node (nodes N v).1 = a_nodes A v;
  rf_ok : forall v, v ∈ ids -> node_ok v (nodes N v);
  rf_out : forall v, v ∈ ids -> w_out (nodes N v).2 = [];
  rf_packets : forall p, p ∈ packets N -> packet_ok A p;
}.

(** ** Disk *)

(** The header reaches the disk; nothing is asked of the entries. *)
Definition header_written : Prop :=
  we_open wenv = true /\ forall len, we_write wenv 0 len = Some len.

Hypothesis Hw : header_written.
Hypothesis Hr : read_succeeds renv.
Hypothesis Hcfg : config_ok ms.

Lemma persist_header (fs : FS) (n : RaftNode) :
  exists rest, (raft_persist_state wenv fs n).2 !! wal_path (node_id n)
               = Some (wal_header n ++ rest).
Proof.
  destruct Hw as [Ho Hlen]. unfold raft_persist_state, sys_write. rewrite Ho, Hlen. cbn [negb].
  rewrite bool_decide_eq_true_2, take_ge by lia. cbn [negb app].
  destruct (persist_entries_prefix wenv (log n) 0 (wal_header n)) as (k & Hk & _).
  destruct (persist_entries _ _ _ _) as [rc file]. cbn [snd] in *. subst file.
  eexists. apply lookup_insert_eq.
Qed.

(** [persist_state] makes the disk agree with the node. *)
Lemma persist_disk (s : RaftNode * World) :
  disk_ok (persist_state cb s).1 (w_fs (persist_state cb s).2).
Proof.
  destruct (persist_header (w_fs s.2) s.1) as [rest Hrest].
  unfold disk_ok. change (persist_state cb s).1 with s.1.
  change (w_fs (persist_state cb s).2) with (raft_persist_state wenv (w_fs s.2) s.1).2.
  rewrite Hrest. by exists s.1, rest.
Qed.

(** Changes that keep the id, the term and the vote keep the disk valid. *)
Lemma disk_ok_ext (n n' : RaftNode) (fs : FS) :
  cstr (node_id n') = cstr (node_id n) -> current_term n' = current_term n ->
  cstr (voted_for n') = cstr (voted_for n) -> disk_ok n fs -> disk_ok n' fs.
Proof. intros H1 H2 H3. unfold disk_ok, wal_path. by rewrite H1, H2, H3. Qed.

(** The entry loop of [raft_restore_state] only touches the log. *)
Lemma restore_entries_log (fuel i : nat) (rest : list byte) (n : RaftNode) :
  exists l cap, restore_entries renv fuel i rest n
                = Returns {| n with log := l; log_capacity := cap |}.
Proof.
  assert (forall m : RaftNode, exists l cap, Returns m
            = Returns {| m with log := l; log_capacity := cap |}) as Hid.
  { intros m. exists (log m), (log_capacity m). by destruct m. }
  revert i rest n. induction fuel as [|fuel IH]; intros i rest n; cbn [restore_entries]; [done|].
  destruct (proj2 Hr i) as (Hd & Hb & Hre). rewrite Hd, Hb, Hre. cbn [negb orb].
  rewrite andb_false_r.
  repeat match goal with |- context [if negb ?b then _ else _] => destruct b; cbn [negb]; [|done] end.
  edestruct IH as (l & cap & Heq). exists l, cap. exact Heq.
Qed.

Lemma restore_disk (n m : RaftNode) (fs : FS) :
  disk_ok n fs -> is_u64 (current_term n) -> char_array 37 (voted_for n) ->
  cstr (node_id m) = cstr (node_id n) ->
  current_term m = 0 -> voted_for m = zeros 37 ->
  exists rc t vf l cap,
    raft_restore_state renv fs m
    = Returns (rc, {| m with current_term := t; voted_for := vf; log := l; log_capacity := cap |}) /\
    t = current_term n /\ cstr vf = cstr (voted_for n) /\ char_array 37 vf.
Proof.
  intros Hdisk Ht Hvf Hid Hm0 Hmv. unfold disk_ok in Hdisk. unfold raft_restore_state, wal_path in *.
  rewrite Hid. destruct (fs !! _) as [file|].
  - destruct Hdisk as (h & rest & -> & Hht & Hhv).
    rewrite (proj1 Hr), length_app, length_wal_header, (proj2 (Nat.ltb_ge _ _)) by lia.
    destruct (wal_header_fields h rest) as (-> & -> & ->); [by rewrite Hht|].
    rewrite Z.eqb_refl. cbn [negb].
    set (fuel := S _). set (m1 := {| m with current_term := _; voted_for := _ |}).
    destruct (restore_entries_log fuel 0 (drop 64 (wal_header h ++ rest)) m1) as (l & cap & ->).
    eexists 0, _, _, l, cap. split; [done|]. cbn. rewrite Hmv. split; [done|].
    split; [|by auto with droole]. rewrite cstr_strncpy37; [|auto with droole|].
    2:{ auto with droole. }
    rewrite cstr_strncpy37; [done|auto with droole|]. rewrite Hhv. auto with droole.
  - destruct Hdisk as [Ht0 Hv]. exists 0, 0, (zeros 37), (log m), (log_capacity m).
    split; [destruct m; cbn in *; by subst|]. rewrite Hv. split; [done|].
    split; [done|auto with droole].
Qed.

(** ** Start-up *)

Lemma config_id (v : list byte) :
  v ∈ ids -> cstr v = v /\ v <> [] /\ (length v < 37)%nat.
Proof.
  intros Hv. destruct Hcfg as [_ _ Hids]. eapply Forall_forall in Hids as (H0 & Hne & Hl); [|done].
  split; [by apply cstr_id|done].
Qed.

Lemma peers_of_ids (v x : list byte) : x ∈ member_ids (peers_of ms v) <-> x ∈ ids /\ x <> v.
Proof.
  unfold member_ids, peers_of. rewrite !list_elem_of_fmap. split.
  - intros (m & -> & [Hne Hm]%list_elem_of_filter). eauto.
  - intros [(m & -> & Hm) Hne]. exists m. split; [done|]. by apply list_elem_of_filter.
Qed.

Lemma peers_of_nodup (v : list byte) : NoDup (member_ids (peers_of ms v)).
Proof.
  destruct Hcfg as [Hnd _ _]. unfold member_ids, peers_of in *. clear -Hnd.
  induction ms as [|m l IH]; [constructor|]. cbn in Hnd. apply NoDup_cons in Hnd as [Hm Hnd].
  rewrite filter_cons. case_decide; [|auto]. cbn. apply NoDup_cons. split; [|auto].
  intros (m' & Heq & [_ Hm']%list_elem_of_filter)%list_elem_of_fmap. apply Hm.
  rewrite Heq. apply list_elem_of_fmap. eauto.
Qed.

Lemma find_peer_absent (n : RaftNode) (id : list byte) :
  cstr id ∉ peer_ids n -> find_peer n id = None.
Proof.
  intros Hn. destruct (find_peer n id) as [[i p]|] eqn:E; [|done].
  apply find_peer_Some in E as [Hi Hp]. destruct Hn. rewrite <- Hp.
  apply list_elem_of_fmap. exists p. split; [done|]. by eapply list_elem_of_lookup_2.
Qed.

Lemma add_peers_spec (ps : list member) (n : RaftNode) :
  NoDup (peer_ids n ++ member_ids ps) ->
  Forall (fun id => cstr id = id /\ (length id < 37)%nat) (member_ids ps) ->
  exists l cap,
    add_peers alloc_ok ps n = {| n with peers := l; peer_capacity := cap |} /\
    map (fun p => cstr (p_node_id p)) l = peer_ids n ++ member_ids ps /\
    (Forall (fun p => vote_granted p = false) (peers n) ->
     Forall (fun p => vote_granted p = false) l).
Proof.
  revert n. induction ps as [|[[id ip] port] ps IH]; intros n Hnd Hids.
  { exists (peers n), (peer_capacity n). cbn. rewrite app_nil_r. split; [by destruct n|done]. }
  cbn in Hnd, Hids. apply Forall_cons in Hids as [[Hid Hlen] Hids].
  change (add_peers alloc_ok ((id, ip, port) :: ps) n)
    with (add_peers alloc_ok ps (raft_add_peer alloc_ok n id ip port).2).
  assert (find_peer n id = None) as Hf.
  { apply find_peer_absent. rewrite Hid. apply NoDup_app in Hnd as (_ & Hnd & _).
    intros Hin. apply (Hnd id Hin). left. }
  unfold raft_add_peer. rewrite Hf, andb_false_r. cbn [snd].
  set (n1 := {| n with peer_capacity := _; peers := _ |}).
  assert (peer_ids n1 = peer_ids n ++ [id]) as Hp.
  { unfold peer_ids. cbn. rewrite map_app. cbn.
    by rewrite cstr_strncpy37, Hid by (auto with droole; by rewrite Hid). }
  destruct (IH n1) as (l & cap & Heq & Hl & Hg); [|done|].
  { rewrite Hp. by rewrite <- app_assoc. }
  exists l, cap. rewrite Heq. split; [done|]. rewrite Hl, Hp, <- app_assoc. split; [done|].
  intros Hall. apply Hg. cbn. apply Forall_app. split; [done|]. by constructor.
Qed.

(** What [example_raft_init] yields on a disk left by node state [n0]. *)
Lemma boot_spec (fs : FS) (rnd now : Z) (v : list byte) (n0 : RaftNode) :
  v ∈ ids -> cstr (node_id n0) = v -> disk_ok n0 fs -> is_u64 (current_term n0) ->
  char_array 37 (voted_for n0) ->
  exists n, boot fs rnd now v = Returns (Some n) /\
    abs_node n = ANode (current_term n0) (abs_vote n0) RAFT_STATE_FOLLOWER ∅ /\
    forall w, w_fs w = fs -> node_ok v (n, w).
Proof.
  intros Hv Hid Hdisk Ht Hvf. destruct (config_id v Hv) as (Hc & Hne & Hlen).
  unfold boot, example_raft_init, raft_init. cbn [malloc_ok alloc_ok negb].
  set (n1 := {| node_id := _ |}).
  destruct (add_peers_spec (peers_of ms v) n1) as (l & cap & -> & Hl & Hg).
  { apply peers_of_nodup. }
  { apply Forall_forall. intros x [Hx _]%peers_of_ids. by destruct (config_id x Hx) as (? & _ & ?). }
  assert (cstr (node_id n1) = v) as Hid1.
  { cbn. rewrite cstr_strncpy37, Hc; [done|auto with droole|by rewrite Hc]. }
  destruct (restore_disk n0 {| n1 with peers := l; peer_capacity := cap |} fs)
    as (rc & t & vf & lg & cap' & -> & -> & Hvote & Harr); try done.
  { by rewrite Hid. }
  eexists. split; [done|].
  split; [unfold abs_node, abs_vote; cbn; by rewrite Hvote|].
  intros w Hfs. constructor; try done; cbn; [auto with droole|].
  rewrite Hfs. eapply disk_ok_ext; [..|exact Hdisk]; [by rewrite Hid|done|done].
Qed.

(** ** Operations on one node *)

(** Updates that leave the election alone. *)
Definition ballots (n : RaftNode) : list (list byte * bool) :=
  map (fun p => (cstr (p_node_id p), vote_granted p)) (peers n).

Record same_election (n n' : RaftNode) : Prop := {
  se_id : node_id n' = node_id n;
  se_term : current_term n' = current_term n;
  se_vote : voted_for n' = voted_for n;
  se_state : state n' = state n;
  se_votes : votes_received n' = votes_received n;
  se_ballots : ballots n' = ballots n;
}.

Lemma peer_ids_ballots (n : RaftNode) : peer_ids n = map fst (ballots n).
Proof. unfold peer_ids, ballots. by rewrite map_map. Qed.

Lemma filter_ballots (ps : list RaftPeer) :
  map (fun p => (cstr (p_node_id p), vote_granted p)) (filter (fun p => vote_granted p = true) ps)
  = filter (fun b => b.2 = true) (map (fun p => (cstr (p_node_id p), vote_granted p)) ps).
Proof.
  induction ps as [|p ps IH]; [done|]. cbn [map]. rewrite !filter_cons. cbn [snd].
  case_decide; cbn [map]; by rewrite IH.
Qed.

Lemma granted_ballots (n : RaftNode) :
  map (fun p => cstr (p_node_id p)) (filter (fun p => vote_granted p = true) (peers n))
  = map fst (filter (fun b => b.2 = true) (ballots n)).
Proof. unfold ballots. rewrite <- filter_ballots. by rewrite map_map. Qed.

Lemma granted_count_ballots (n : RaftNode) :
  granted_count n = Z.of_nat (length (filter (fun b => b.2 = true) (ballots n))).
Proof. unfold granted_count, ballots. by rewrite <- filter_ballots, length_map. Qed.

Lemma same_election_abs (n n' : RaftNode) : same_election n n' -> abs_node n' = abs_node n.
Proof.
  intros [? Ht Hv Hs ? Hb]. unfold abs_node, abs_vote, granted_ids.
  by rewrite !granted_ballots, Ht, Hv, Hs, Hb.
Qed.

Lemma same_election_ok (v : list byte) (s s' : RaftNode * World) :
  same_election s.1 s'.1 -> w_fs s'.2 = w_fs s.2 \/ disk_ok s'.1 (w_fs s'.2) ->
  node_ok v s -> node_ok v s'.
Proof.
  intros [Hid Ht Hv Hs Hc Hb] Hfs []. constructor; rewrite ?Hid, ?Ht, ?Hv, ?Hs, ?Hc; try done.
  - by rewrite peer_ids_ballots, Hb, <- peer_ids_ballots.
  - by rewrite granted_count_ballots, Hb, <- granted_count_ballots.
  - destruct Hfs as [->|]; [|done]. by eapply disk_ok_ext; [..|exact nk_disk0]; rewrite ?Hid, ?Ht, ?Hv.
Qed.

Lemma same_election_refl (n : RaftNode) : same_election n n.
Proof. done. Qed.

Lemma same_election_trans (n1 n2 n3 : RaftNode) :
  same_election n1 n2 -> same_election n2 n3 -> same_election n1 n3.
Proof. intros [] []. constructor; congruence. Qed.

(** Operations that leave the election alone and send nothing. *)
Record quiet (s s' : RaftNode * World) : Prop := {
  q_same : same_election s.1 s'.1;
  q_out : w_out s'.2 = w_out s.2;
  q_disk : w_fs s'.2 = w_fs s.2 \/ disk_ok s'.1 (w_fs s'.2);
}.

Lemma quiet_refl (s : RaftNode * World) : quiet s s.
Proof. split; [done|done|by left]. Qed.

Lemma quiet_trans (s1 s2 s3 : RaftNode * World) : quiet s1 s2 -> quiet s2 s3 -> quiet s1 s3.
Proof.
  intros [H1 O1 D1] [H2 O2 D2]. split; [by eapply same_election_trans|congruence|].
  destruct D2 as [D2|]; [|by right]. destruct D1 as [D1|D1]; [left; congruence|].
  right. rewrite D2. destruct H2 as [Hi Ht Hv _ _ _].
  by eapply disk_ok_ext; [..|exact D1]; rewrite ?Hi, ?Ht, ?Hv.
Qed.

Lemma quiet_node (n n' : RaftNode) (w : World) : same_election n n' -> quiet (n, w) (n', w).
Proof. intros H. split; [done|done|by left]. Qed.

Lemma quiet_persist (n n' : RaftNode) (w : World) :
  same_election n n' -> quiet (n, w) (persist_state cb (n', w)).
Proof. intros H. split; [done|done|]. right. apply persist_disk. Qed.

Lemma quiet_submit (al : Alloc) (s : RaftNode * World) (data : list byte) :
  quiet s (raft_submit cb al s data).2.
Proof.
  destruct (raft_submit_cases cb al s data) as [[_ ->]|[[_ ->]|[_ [_ ->]]]]; destruct s as [n w].
  - apply quiet_refl.
  - cbn [fst snd]. apply quiet_node. rewrite (ensure_log_capacity_node al n). done.
  - apply quiet_persist. done.
Qed.

Lemma quiet_apply_loop (fuel : nat) (s : RaftNode * World) : quiet s (apply_loop cb fuel s).
Proof.
  revert s. induction fuel as [|fuel IH]; intros [n w]; cbn [apply_loop]; [apply quiet_refl|].
  destruct (_ <? _); [|apply quiet_refl]. cbn [fst snd].
  set (s1 := ({| n with last_applied := _ |}, w)). assert (quiet (n, w) s1) as H1 by (by apply quiet_node).
  destruct (get_log_entry _ _) as [e|]; [|done].
  eapply quiet_trans; [exact H1|]. eapply quiet_trans; [|apply IH].
  split; [done|done|by left].
Qed.

Lemma same_commit_loop (fuel : nat) (idx : Z) (n : RaftNode) :
  same_election n (commit_loop fuel idx n).
Proof.
  revert idx n. induction fuel as [|fuel IH]; intros idx n; cbn [commit_loop]; [done|].
  destruct (_ <=? _); [|done]. eapply same_election_trans; [|apply IH].
  destruct (negb _); [done|]. by destruct (has_majority _ _).
Qed.

Lemma append_loop_log (al : nat -> Alloc) (ptr : option (list RaftLogEntry)) (k i : nat)
    (n n' : RaftNode) :
  append_loop al ptr i k n = Returns n' ->
  exists l cap, n' = {| n with log := l; log_capacity := cap |}.
Proof.
  revert i n. induction k as [|k IH]; intros i n; cbn [append_loop].
  { intros H. simplify_eq. exists (log n'), (log_capacity n'). by destruct n'. }
  destruct (ptr ≫= _) as [e|]; [|done].
  destruct (append_one (al i) n e) as [n1|] eqn:E; [|done].
  intros (l & cap & ->)%IH. exists l, cap. revert E. unfold append_one.
  destruct (get_log_entry n _) as [e'|]; [destruct (negb _)|];
    destruct (get_log_entry _ _); intros E; simplify_eq; try done;
    rewrite (ensure_log_capacity_node (al i)) in E; cbn in E;
    repeat (destruct (_ : bool) in E; try done); simplify_eq; done.
Qed.

(** The effect of stepping down. *)
Lemma follower_effect (v : list byte) (s : RaftNode * World) (t : Z) :
  node_ok v s -> is_u64 t ->
  node_ok v (become_follower cb s t) /\
  abs_node (become_follower cb s t).1 = ANode t None RAFT_STATE_FOLLOWER ∅ /\
  w_out (become_follower cb s t).2 = w_out s.2.
Proof.
  intros [] Ht. split; [|done].
  constructor; try done. apply persist_disk.
Qed.

Lemma step_down_effect (v : list byte) (s : RaftNode * World) (t : Z) :
  node_ok v s -> is_u64 t ->
  node_ok v (step_down_if_newer cb s t) /\
  w_out (step_down_if_newer cb s t).2 = w_out s.2 /\
  (t <= current_term s.1 /\ step_down_if_newer cb s t = s \/
   current_term s.1 < t /\
   abs_node (step_down_if_newer cb s t).1 = ANode t None RAFT_STATE_FOLLOWER ∅).
Proof.
  intros Hok Ht. unfold step_down_if_newer. destruct (t >? _) eqn:E; bool_to_prop.
  - destruct (follower_effect v s t Hok Ht) as (? & ? & ?). auto.
  - auto.
Qed.

Lemma for_each_peer_out (mk : RaftNode -> RaftPeer -> RaftRequest) (n : RaftNode) (w : World) :
  for_each_peer cb (length (peers n)) 0 mk (n, w)
  = (n, {| w with w_out := w_out w ++ map (fun p => (p_node_id p, mk n p)) (peers n) |}).
Proof.
  assert (forall k i w, (i + k = length (peers n))%nat ->
    for_each_peer cb k i mk (n, w)
    = (n, {| w with w_out := w_out w ++ map (fun p => (p_node_id p, mk n p)) (drop i (peers n)) |}))
    as Hgen; [|by rewrite (Hgen _ 0%nat)].
  clear w. induction k as [|k IH]; intros i w Hk; cbn [for_each_peer].
  - rewrite drop_ge by lia. cbn. rewrite app_nil_r. by destruct w.
  - destruct (peers n !! i) as [p|] eqn:E; [|apply lookup_ge_None_1 in E; lia].
    cbn [fst]. rewrite E. change (send_rpc cb (p_node_id p) (mk n p) (n, w))
      with (n, {| w with w_out := w_out w ++ [(p_node_id p, mk n p)] |}).
    rewrite IH by lia. cbn. rewrite <- app_assoc. by rewrite (drop_S _ _ _ E).
Qed.

(** ** Abstract runs that concern one node *)

Abbreviation members := (list_to_set ids : gset (list byte)).
Abbreviation steps := (rtc (el_step members)).

Record reach (v : list byte) (A A' : astate (list byte)) : Prop := {
  rc_steps : steps A A';
  rc_others : forall u, u <> v -> a_nodes A' u = a_nodes A u;
  rc_packets : forall p, p ∈ a_packets A -> p ∈ a_packets A';
}.

Lemma reach_refl (v : list byte) (A : astate (list byte)) : reach v A A.
Proof. by split; [apply rtc_refl|..]. Qed.

Lemma reach_trans (v : list byte) (A1 A2 A3 : astate (list byte)) :
  reach v A1 A2 -> reach v A2 A3 -> reach v A1 A3.
Proof.
  intros [S1 O1 P1] [S2 O2 P2]. split; [by etrans| |by auto].
  intros u Hu. by rewrite O2, O1.
Qed.

Lemma reach_step (v : list byte) (n : anode (list byte)) (A A' : astate (list byte)) :
  el_step members A A' -> a_nodes A' = <[v := n]> (a_nodes A) ->
  (forall p, p ∈ a_packets A -> p ∈ a_packets A') ->
  reach v A A' /\ a_nodes A' v = n.
Proof.
  intros Hs Hn Hp. rewrite Hn, fn_lookup_insert. split; [|done].
  split; [by apply rtc_once| |done]. intros u Hu. by rewrite Hn, fn_lookup_insert_ne.
Qed.

Lemma reach_see_term (v : list byte) (A : astate (list byte)) (t : Z) :
  a_term (a_nodes A v) < t ->
  exists A', reach v A A' /\ a_nodes A' v = ANode t None RAFT_STATE_FOLLOWER ∅.
Proof.
  intros Ht. eexists. eapply reach_step; [by eapply el_see_term|done|done].
Qed.

(** The abstract form of a queued request. *)
Definition abs_request (v : list byte) (m : list byte * RaftRequest) : apacket (list byte) :=
  match m.2 with
  | RequestVote r => AReqVote v (cstr m.1) (rv_term r)
  | AppendEntries r => AHeartbeat v (cstr m.1) (ae_term r)
  end.

Lemma reach_sends (v : list byte) (A : astate (list byte))
    (out : list (list byte * RaftRequest)) :
  (forall m, m ∈ out -> a_sends v (a_nodes A v) (abs_request v m)) ->
  exists A', reach v A A' /\ a_nodes A' v = a_nodes A v /\
    forall m, m ∈ out -> abs_request v m ∈ a_packets A'.
Proof.
  induction out as [|m out IH]; intros Hout.
  { exists A. split; [apply reach_refl|]. split; [done|]. by intros m ?%elem_of_nil. }
  destruct IH as (A1 & H1 & Hv & Hm); [intros x Hx; apply Hout; by right|].
  exists (add_packet (abs_request v m) A1). split; [|split; [done|]].
  - eapply reach_trans; [exact H1|]. split; [|done|by right].
    apply rtc_once, (el_send _ _ v). rewrite Hv. apply Hout. left.
  - intros x [->|Hx]%elem_of_cons; [left|right; auto].
Qed.

(** ** Simulation *)

Lemma packet_ok_mono (A A' : astate (list byte)) (p : packet) :
  (forall q, q ∈ a_packets A -> q ∈ a_packets A') -> packet_ok A p -> packet_ok A' p.
Proof.
  intros Hincl. destruct p as [? ? []| |]; cbn; naive_solver.
Qed.

Lemma sim_commit (N : net) (A A' : astate (list byte)) (v : list byte)
    (s' : RaftNode * World) (extra : list packet) :
  refines N A -> v ∈ ids -> reach v A A' -> node_ok v s' ->
  abs_node s'.1 = a_nodes A' v ->
  (forall p, p ∈ extra -> packet_ok A' p) ->
  (forall p, p ∈ sent v s'.2 -> packet_ok A' p) ->
  refines (commit v s' extra N) A'.
Proof.
  intros Href Hv Hreach Hok Habs Hextra Hsent. unfold commit. constructor; cbn [nodes packets].
  - intros u Hu. destruct (decide (u = v)) as [->|Hne].
    + by rewrite fn_lookup_insert.
    + rewrite fn_lookup_insert_ne, (rc_others _ _ _ Hreach) by done. by apply Href.
  - intros u Hu. destruct (decide (u = v)) as [->|Hne].
    + rewrite fn_lookup_insert. by destruct Hok.
    + rewrite fn_lookup_insert_ne by done. by apply Href.
  - intros u Hu. destruct (decide (u = v)) as [->|Hne].
    + by rewrite fn_lookup_insert.
    + rewrite fn_lookup_insert_ne by done. by eapply Href.
  - intros p [Hp|[Hp|Hp]%elem_of_app]%elem_of_app; [auto..|].
    eapply packet_ok_mono; [apply Hreach|]. by apply Href.
Qed.

(** A step that leaves the election alone. *)
Lemma sim_quiet (N : net) (A : astate (list byte)) (v : list byte) (s' : RaftNode * World) :
  refines N A -> v ∈ ids -> quiet (nodes N v) s' -> refines (commit v s' [] N) A.
Proof.
  intros Href Hv [Hse Hout Hd]. apply (sim_commit N A A); [done|done|apply reach_refl|..].
  - eapply same_election_ok; [done|done|by apply Href].
  - rewrite (same_election_abs _ _ Hse). by apply Href.
  - by intros p ?%elem_of_nil.
  - unfold sent. rewrite Hout, (rf_out _ _ Href v Hv). by intros p ?%elem_of_nil.
Qed.

Lemma peer_not_self (v : list byte) (s : RaftNode * World) (p : RaftPeer) :
  node_ok v s -> p ∈ peers s.1 -> cstr (p_node_id p) <> v.
Proof.
  intros Hok Hp. assert (cstr (p_node_id p) ∈ peer_ids s.1) as Hin
    by (apply list_elem_of_fmap; eauto).
  rewrite (nk_peers _ _ Hok) in Hin. by apply peers_of_ids in Hin as [_ ?].
Qed.

(** A step in which node [v] becomes [n'] in the abstract and sends [out]. *)
Lemma sim_sending (N : net) (A A1 : astate (list byte)) (v : list byte) (s' : RaftNode * World) :
  refines N A -> v ∈ ids -> reach v A A1 -> node_ok v s' -> abs_node s'.1 = a_nodes A1 v ->
  (forall m, m ∈ w_out s'.2 -> a_sends v (abs_node s'.1) (abs_request v m) /\
     match m.2 with
     | RequestVote r => cstr (rv_candidate_id r) = v
     | AppendEntries _ => True
     end) ->
  exists A', steps A A' /\ refines (commit v s' [] N) A'.
Proof.
  intros Href Hv Hreach Hok Habs Hout.
  destruct (reach_sends v A1 (w_out s'.2)) as (A' & H' & Hn & Hp).
  { intros m Hm. rewrite <- Habs. by apply Hout. }
  exists A'. assert (reach v A A') as Hr' by (by eapply reach_trans).
  split; [apply Hr'|]. apply (sim_commit N A A'); try done; [by rewrite Hn|by intros p ?%elem_of_nil|].
  intros p (m & -> & Hm)%list_elem_of_fmap. specialize (Hp m Hm). apply Hout in Hm as [Hs Hc].
  pose proof (nk_term _ _ Hok) as Ht.
  destruct m as [peer [r|r]]; cbn in Hp, Hs, Hc; destruct Hs as (_ & _ & _ & Hrt);
    cbn [packet_ok fst snd]; rewrite Hrt in *; done.
Qed.

(** *** Ticks *)

Lemma heartbeat_effect (now : Z) (s : RaftNode * World) :
  w_out s.2 = [] ->
  same_election s.1 (leader_tick cb now s).1 /\ w_fs (leader_tick cb now s).2 = w_fs s.2 /\
  forall m, m ∈ w_out (leader_tick cb now s).2 ->
    exists p r, p ∈ peers s.1 /\ m = (p_node_id p, AppendEntries r) /\ ae_term r = current_term s.1.
Proof.
  intros Hout. destruct s as [n w]. unfold leader_tick, leader_heartbeats. cbn [fst snd] in *.
  destruct (_ >=? _).
  - set (n1 := {| n with last_heartbeat_ms := _; heartbeats_sent := _ |}).
    rewrite for_each_peer_out. cbn [fst snd].
    split; [eapply same_election_trans; [|apply same_commit_loop]; done|]. split; [done|].
    cbn [w_out]. rewrite Hout. intros m (p & -> & Hp)%list_elem_of_fmap.
    exists p. eexists. split; [exact Hp|done].
  - split; [apply same_commit_loop|]. split; [done|]. cbn [snd]. rewrite Hout.
    by intros m ?%elem_of_nil.
Qed.

Lemma candidate_effect (v : list byte) (now rnd : Z) (s : RaftNode * World) :
  node_ok v s -> v ∈ ids -> w_out s.2 = [] -> current_term s.1 < 2 ^ 64 - 1 ->
  let s' := become_candidate cb now rnd s in
  node_ok v s' /\
  abs_node s'.1 = ANode (current_term s.1 + 1) (Some v) RAFT_STATE_CANDIDATE ∅ /\
  forall m, m ∈ w_out s'.2 -> exists p r,
    p ∈ peers s.1 /\ cstr m.1 = cstr (p_node_id p) /\ m.2 = RequestVote r /\
    rv_term r = current_term s.1 + 1 /\ cstr (rv_candidate_id r) = v.
Proof.
  intros Hok Hv Hout Ht. destruct s as [n w]. unfold become_candidate. cbn [fst snd] in *.
  match goal with |- context [persist_state cb (?x, w)] => set (n1 := x) end.
  change (persist_state cb (n1, w))
    with (n1, {| w with w_fs := (raft_persist_state wenv (w_fs w) n1).2 |}).
  set (w1 := {| w with w_fs := _ |}). rewrite for_each_peer_out. cbn [fst snd].
  destruct (config_id v Hv) as (_ & Hne & _). destruct Hok as [Hid Harr Hvf Ht64 Hpeers _ _].
  cbn [fst snd] in *.
  assert (current_term n1 = current_term n + 1) as Hterm
    by (apply u64_small; solve_u).
  assert (cstr (voted_for n1) = v) as Hvote
    by (cbn; rewrite cstr_strncpy37; [done|done|auto with droole]).
  split; [|split].
  - constructor; cbn [fst snd]; try done.
    + cbn. auto with droole.
    + rewrite Hterm. solve_u.
    + rewrite <- Hpeers. unfold peer_ids. cbn. by apply map_peer_ids.
    + intros _. unfold granted_count. cbn [peers n1]. by rewrite granted_reset.
    + apply (persist_disk (n1, w)).
  - unfold abs_node, abs_vote, granted_ids. rewrite Hterm, Hvote. cbn [state peers n1].
    rewrite granted_reset. by destruct v.
  - cbn [w_out w1]. rewrite Hout.
    intros m (p1 & -> & (p & <- & Hp)%list_elem_of_In%in_map_iff)%list_elem_of_fmap.
    exists p. eexists. split; [by apply list_elem_of_In|]. split; [done|]. split; [done|].
    split; [done|]. cbn [rv_candidate_id]. rewrite cstr_strncpy37; [done|auto with droole|].
    cbn. auto with droole.
Qed.

Lemma quiet_apply (s : RaftNode * World) : quiet s (apply_committed_entries cb s).
Proof. apply quiet_apply_loop. Qed.

Lemma sim_tick (N : net) (A : astate (list byte)) (v : list byte) (now now' rnd : Z) :
  refines N A -> v ∈ ids -> current_term (nodes N v).1 < 2 ^ 64 - 1 ->
  exists A', steps A A' /\ refines (commit v (raft_tick cb now now' rnd (nodes N v)) [] N) A'.
Proof.
  intros Href Hv Ht. pose proof (rf_ok _ _ Href v Hv) as Hok.
  pose proof (rf_out _ _ Href v Hv) as Hout. pose proof (rf_nodes _ _ Href v Hv) as Habs.
  unfold raft_tick. set (s := nodes N v) in *. case_decide as Hl.
  - destruct (heartbeat_effect now s Hout) as (Hse1 & Hfs1 & Hm).
    set (s1 := leader_tick cb now s) in *. destruct (quiet_apply s1) as [Hse Ho Hd].
    assert (same_election s.1 (apply_committed_entries cb s1).1) as Hse2
      by (by eapply same_election_trans).
    apply (sim_sending N A A v); [done|done|apply reach_refl| | |].
    + apply (same_election_ok v s1); [done|done|]. apply (same_election_ok v s); auto.
    + by rewrite (same_election_abs _ _ Hse2).
    + intros m Hin. rewrite Ho in Hin. apply Hm in Hin as (p & r & Hp & -> & Hr').
      split; [|done]. rewrite (same_election_abs _ _ Hse2). cbn.
      split; [done|]. split; [by apply (peer_not_self v s)|done].
  - unfold follower_candidate_tick. destruct (_ >=? _).
    2:{ exists A. split; [apply rtc_refl|]. apply sim_quiet; [done|done|]. apply quiet_apply. }
    destruct (candidate_effect v now' rnd s Hok Hv Hout Ht) as (Hok1 & Habs1 & Hm).
    set (s1 := become_candidate cb now' rnd s) in *. destruct (quiet_apply s1) as [Hse Ho Hd].
    destruct (reach_step v (abs_node s1.1) A
      (add_vote v (a_term (a_nodes A v) + 1) v (set_node v (abs_node s1.1) A))) as [Hre Hn1];
      [|done|done|].
    { rewrite Habs1, <- Habs. apply (el_timeout _ A v); [done|by apply elem_of_list_to_set]. }
    apply (sim_sending N A _ v _ Href Hv Hre).
    + by apply (same_election_ok v s1).
    + by rewrite (same_election_abs _ _ Hse), Hn1.
    + intros m Hin. rewrite Ho in Hin. apply Hm in Hin as (p & r & Hp & Hmp & Hmr & Hrt & Hrc).
      rewrite (same_election_abs _ _ Hse), Habs1. unfold abs_request. rewrite Hmr, Hmp.
      split; [|done]. cbn. split; [done|]. split; [by apply (peer_not_self v s)|done].
Qed.

(** *** Requests *)

Lemma sim_step_down (N : net) (A : astate (list byte)) (v : list byte) (t : Z) :
  refines N A -> v ∈ ids -> is_u64 t ->
  exists A1, reach v A A1 /\ a_nodes A1 v = abs_node (step_down_if_newer cb (nodes N v) t).1 /\
    node_ok v (step_down_if_newer cb (nodes N v) t) /\
    w_out (step_down_if_newer cb (nodes N v) t).2 = [].
Proof.
  intros Href Hv Ht. pose proof (rf_nodes _ _ Href v Hv) as Habs.
  destruct (step_down_effect v (nodes N v) t) as (Hok & Ho & Hcase); [by apply Href|done|].
  rewrite (rf_out _ _ Href v Hv) in Ho. destruct Hcase as [[_ Heq]|[Hlt Heq]].
  - exists A. split; [apply reach_refl|]. by rewrite Heq in *.
  - destruct (reach_see_term v A t) as (A1 & H1 & Hn); [by rewrite <- Habs|].
    exists A1. by rewrite Heq, Hn.
Qed.

(** The node after a granted vote. *)
Lemma grant_effect (v c : list byte) (now : Z) (s1 : RaftNode * World) (cand : list byte) :
  node_ok v s1 -> cstr cand = c -> c <> [] -> (length c < 37)%nat ->
  let s2 := persist_state cb
    ({| (s1.1) with voted_for := strncpy (voted_for s1.1) cand 36 |}, s1.2) in
  let s' := ({| (s2.1) with last_heartbeat_ms := now |}, s2.2) in
  node_ok v s' /\ w_out s'.2 = w_out s1.2 /\
  abs_node s'.1 = ANode (current_term s1.1) (Some c) (state s1.1) (a_granted (abs_node s1.1)).
Proof.
  intros Hok Hc Hne Hl s2 s'.
  assert (cstr (strncpy (voted_for s1.1) cand 36) = c) as Hvote.
  { rewrite cstr_strncpy37; [done|apply Hok|by rewrite Hc]. }
  split; [|split; [done|]].
  - destruct Hok. constructor; try done; [cbn; auto with droole|].
    apply (disk_ok_ext s2.1); [done..|]. apply persist_disk.
  - unfold abs_node, abs_vote. cbn. rewrite Hvote. by destruct c.
Qed.

Lemma sim_vote_request (N : net) (A : astate (list byte)) (c v : list byte)
    (req : RaftRequestVoteReq) (now : Z) (resp : RaftRequestVoteResp) (s' : RaftNode * World) :
  refines N A -> v ∈ ids -> Request c v (RequestVote req) ∈ packets N ->
  raft_handle_request_vote cb now (nodes N v) req = (resp, s') ->
  exists A', steps A A' /\ refines (commit v s' [VoteResponse v c resp] N) A'.
Proof.
  intros Href Hv Hp Hh. apply (rf_packets _ _ Href) in Hp as (Hc & Hcand & Ht & Hpk).
  pose proof (nk_term _ _ (rf_ok _ _ Href v Hv)) as Ht0.
  destruct (config_id c Hc) as (_ & Hcne & Hcl).
  destruct (sim_step_down N A v (rv_term req) Href Hv Ht) as (A1 & H1 & Hn1 & Hok1 & Ho1).
  pose proof (step_down_term cb (nodes N v) (rv_term req)) as Hmax.
  unfold raft_handle_request_vote in Hh. set (s1 := step_down_if_newer cb _ _) in *.
  assert (forall resp0, rvr_vote_granted resp0 = 0 -> rvr_term resp0 = current_term (nodes N v).1 ->
    exists A', steps A A' /\ refines (commit v s1 [VoteResponse v c resp0] N) A') as Hrefuse.
  { intros resp0 Hg Hrt. exists A1. split; [apply H1|].
    apply (sim_commit N A A1); [done..| |].
    - intros p ->%list_elem_of_singleton. cbn. by rewrite Hg, Hrt.
    - unfold sent. rewrite Ho1. by intros p ?%elem_of_nil. }
  destruct (rv_term req <? _) eqn:Est; [simplify_eq; by apply Hrefuse|].
  destruct (_ && _) eqn:Eav; [simplify_eq; by apply Hrefuse|].
  destruct (negb (log_up_to_date s1.1 req)) eqn:Elog; [simplify_eq; by apply Hrefuse|].
  bool_to_prop. injection Hh as <- <-.
  destruct (grant_effect v c now s1 (rv_candidate_id req) Hok1 Hcand Hcne Hcl)
    as (Hok2 & Ho2 & Habs2).
  set (s2 := persist_state cb _) in *.
  assert (current_term s1.1 = rv_term req) as Hterm by lia.
  destruct (reach_step v (ANode (current_term s1.1) (Some c) (state s1.1) (a_granted (abs_node s1.1))) A1
    (add_packet (AVoteGranted v c (current_term (nodes N v).1)) (add_vote v (current_term s1.1) c
      (set_node v (ANode (current_term s1.1) (Some c) (state s1.1) (a_granted (abs_node s1.1))) A1))))
    as [H2 Hn2]; [|done|by right|].
  { apply (el_grant _ A1 v c (current_term (nodes N v).1) (abs_node s1.1)).
    - done.
    - by apply elem_of_list_to_set.
    - cbn. rewrite Hterm. by apply H1.
    - cbn. unfold abs_vote. rewrite strlen_pos in Eav. apply andb_false_iff in Eav.
      destruct (cstr (voted_for s1.1)) as [|b l] eqn:Ev; [by left|right].
      destruct Eav as [Eav|Eav]; bool_to_prop; [done|].
      apply streq_true in Eav. by rewrite <- Hcand, <- Eav, Ev.
    - cbn. lia. }
  eexists. split; [eapply (rc_steps v); by eapply reach_trans|].
  apply (sim_commit N A); [done|done|by eapply reach_trans|done|by rewrite Hn2| |].
  - intros p ->%list_elem_of_singleton. cbn. split; [done|]. split; [done|]. intros _. left.
  - intros p Hp. change (p ∈ sent v s1.2) in Hp. unfold sent in Hp. rewrite Ho1 in Hp.
    by apply elem_of_nil in Hp.
Qed.

(** After a leader of the current term is accepted, the rest of the
    AppendEntries handler leaves the election alone. *)
Lemma quiet_append (al : nat -> Alloc) (ptr : option (list RaftLogEntry)) (k : nat)
    (s3 : RaftNode * World) (n4 : RaftNode) (lc : Z) :
  append_loop al ptr 0 k s3.1 = Returns n4 ->
  quiet s3 (update_commit (persist_state cb (n4, s3.2)).1 lc, (persist_state cb (n4, s3.2)).2).
Proof.
  intros (l & cap & ->)%append_loop_log. destruct s3 as [n w].
  eapply quiet_trans; [apply (quiet_persist n {| n with log := l; log_capacity := cap |}); done|].
  destruct (persist_state cb _) as [n5 w5]. apply quiet_node.
  unfold update_commit. by destruct (_ >? _).
Qed.

Lemma append_request_cases (al : nat -> Alloc) (now : Z) (s s' : RaftNode * World)
    (req : RaftAppendEntriesReq) (ptr : option (list RaftLogEntry)) (k : Z)
    (resp : RaftAppendEntriesResp) :
  raft_handle_append_entries cb al now s req ptr k = Returns (resp, s') ->
  aer_term resp = current_term s.1 /\
  (s' = step_down_if_newer cb s (ae_term req) \/
   current_term (step_down_if_newer cb s (ae_term req)).1 = ae_term req /\
   quiet (accept_leader cb now (step_down_if_newer cb s (ae_term req)) req) s').
Proof.
  unfold raft_handle_append_entries. pose proof (step_down_term cb s (ae_term req)) as Hmax.
  set (s1 := step_down_if_newer cb s (ae_term req)) in *.
  destruct (_ <? current_term s1.1) eqn:Est.
  { intros H. simplify_eq. auto. }
  bool_to_prop. set (s3 := accept_leader cb now s1 req).
  assert (current_term s1.1 = ae_term req) as Ht by lia.
  destruct (negb (log_matches s3.1 req)).
  { intros H. simplify_eq. split; [done|right]. split; [done|apply quiet_refl]. }
  destruct (append_loop al ptr 0 (Z.to_nat k) s3.1) as [n4|] eqn:E; [|done].
  intros H. simplify_eq. split; [done|right]. split; [done|].
  by eapply quiet_append.
Qed.

Lemma sim_append_request (N : net) (A : astate (list byte)) (l v : list byte)
    (req : RaftAppendEntriesReq) (al : nat -> Alloc) (now : Z)
    (ptr : option (list RaftLogEntry)) (k : Z)
    (resp : RaftAppendEntriesResp) (s' : RaftNode * World) :
  refines N A -> v ∈ ids -> Request l v (AppendEntries req) ∈ packets N ->
  raft_handle_append_entries cb al now (nodes N v) req ptr k = Returns (resp, s') ->
  exists A', steps A A' /\ refines (commit v s' [AppendResponse v l resp] N) A'.
Proof.
  intros Href Hv Hp Hh. apply (rf_packets _ _ Href) in Hp as (Ht & Hpk).
  pose proof (nk_term _ _ (rf_ok _ _ Href v Hv)) as Ht0.
  destruct (sim_step_down N A v (ae_term req) Href Hv Ht) as (A1 & H1 & Hn1 & Hok1 & Ho1).
  apply append_request_cases in Hh as (Hrt & Hcase).
  set (s1 := step_down_if_newer cb (nodes N v) (ae_term req)) in *.
  assert (forall A2 s2, reach v A A2 -> a_nodes A2 v = abs_node s2.1 -> node_ok v s2 ->
    w_out s2.2 = [] -> quiet s2 s' ->
    exists A', steps A A' /\ refines (commit v s' [AppendResponse v l resp] N) A') as Hend.
  { intros A2 s2 H2 Hn2 Hok2 Ho2 [Hse Hout Hd]. exists A2. split; [apply H2|].
    apply (sim_commit N A A2); [done|done|done| | | |].
    - by apply (same_election_ok v s2).
    - by rewrite (same_election_abs _ _ Hse).
    - intros p ->%list_elem_of_singleton. cbn. by rewrite Hrt.
    - unfold sent. rewrite Hout, Ho2. by intros p ?%elem_of_nil. }
  destruct Hcase as [->|[Hterm Hq]].
  { apply (Hend A1 s1); try done. apply quiet_refl. }
  unfold accept_leader in Hq.
  match type of Hq with context [become_follower cb (?x, _)] => set (n2 := x) in * end.
  assert (node_ok v (n2, s1.2)) as Hok2 by (by apply (same_election_ok v s1); [|left|]).
  assert (abs_node n2 = abs_node s1.1) as Habs2 by done.
  case_decide as Hst.
  2:{ by apply (Hend A1 (n2, s1.2)). }
  destruct (follower_effect v (n2, s1.2) (ae_term req) Hok2 Ht) as (Hok3 & Habs3 & Ho3).
  set (A2 := set_node v (ANode (ae_term req) None RAFT_STATE_FOLLOWER ∅) A1).
  destruct (reach_step v (ANode (ae_term req) None RAFT_STATE_FOLLOWER ∅) A1 A2) as [H2 Hn2];
    [|done|done|].
  { unfold A2. rewrite <- Hterm. apply (el_yield _ A1 v l (abs_node s1.1)); [done|done|].
    cbn. rewrite Hterm. by apply H1. }
  apply (Hend A2 (become_follower cb (n2, s1.2) (ae_term req)));
    [by eapply reach_trans|by rewrite Hn2, Habs3|done|by rewrite Ho3|done].
Qed.

(** *** Responses *)

Lemma granted_ids_elem (n : RaftNode) (x : list byte) :
  x ∈ granted_ids n <->
  exists i p, peers n !! i = Some p /\ vote_granted p = true /\ cstr (p_node_id p) = x.
Proof.
  unfold granted_ids. rewrite elem_of_list_to_set, list_elem_of_fmap. split.
  - intros (p & -> & [Hg [i Hi]%list_elem_of_lookup]%list_elem_of_filter). eauto.
  - intros (i & p & Hi & Hg & <-). exists p. split; [done|]. apply list_elem_of_filter.
    split; [done|]. by eapply list_elem_of_lookup_2.
Qed.

Lemma granted_ids_insert (n n1 : RaftNode) (i : nat) (p : RaftPeer) :
  peers n !! i = Some p -> vote_granted p = false ->
  peers n1 = <[i := {| p with vote_granted := true |}]> (peers n) ->
  granted_ids n1 = {[cstr (p_node_id p)]} ∪ granted_ids n.
Proof.
  intros Hi Hg Hp. apply set_eq. intros x.
  rewrite elem_of_union, elem_of_singleton, !granted_ids_elem, Hp.
  assert (i < length (peers n))%nat as Hlt by (by eapply lookup_lt_Some). split.
  - intros (j & q & Hq & Hqg & <-). destruct (decide (i = j)) as [->|Hne].
    + rewrite list_lookup_insert_eq in Hq by done. simplify_eq. by left.
    + rewrite list_lookup_insert_ne in Hq by done. right. eauto.
  - intros [->|(j & q & Hq & Hqg & <-)].
    + exists i. eexists. by rewrite list_lookup_insert_eq.
    + exists j, q. rewrite list_lookup_insert_ne by congruence. done.
Qed.

Lemma granted_size (v : list byte) (s : RaftNode * World) :
  node_ok v s ->
  Z.of_nat (size ({[v]} ∪ granted_ids s.1)) = 1 + granted_count s.1 /\
  granted_ids s.1 ⊆ members.
Proof.
  intros Hok. pose proof (nk_peers _ _ Hok) as Hp.
  assert (granted_ids s.1 ⊆ list_to_set (member_ids (peers_of ms v))) as Hsub.
  { intros x (i & p & Hi & _ & <-)%granted_ids_elem. rewrite <- Hp.
    apply elem_of_list_to_set, list_elem_of_fmap. exists p. split; [done|].
    by eapply list_elem_of_lookup_2. }
  assert (forall x, x ∈ granted_ids s.1 -> x ∈ ids /\ x <> v) as Hin.
  { intros x Hx%Hsub%elem_of_list_to_set. by apply peers_of_ids. }
  split; [|intros x Hx; apply elem_of_list_to_set; by apply Hin].
  rewrite size_union by (apply disjoint_singleton_l; intros Hv; by apply Hin in Hv as [_ ?]).
  rewrite size_singleton. unfold granted_ids, granted_count. rewrite size_list_to_set.
  - rewrite length_map. lia.
  - pose proof (peers_of_nodup v) as Hnd. rewrite <- Hp in Hnd. unfold peer_ids in Hnd.
    eapply sublist_NoDup; [exact Hnd|].
    apply (fmap_sublist (fun p => cstr (p_node_id p))), sublist_filter.
Qed.

Lemma members_size (v : list byte) (s : RaftNode * World) :
  v ∈ ids -> node_ok v s ->
  Z.of_nat (size members) <= peer_count s.1 + 1 /\ peer_count s.1 < 2 ^ 32 - 1.
Proof.
  intros Hv Hok. pose proof (f_equal length (nk_peers _ _ Hok)) as Hp.
  unfold peer_ids in Hp. rewrite length_map in Hp. unfold peer_count. rewrite Hp. split.
  - assert (size members <= size ({[v]} ∪ list_to_set (member_ids (peers_of ms v)) : gset _))%nat
      as Hsz.
    { apply subseteq_size. intros x Hx%elem_of_list_to_set. apply elem_of_union.
      destruct (decide (x = v)) as [->|]; [left; set_solver|right].
      by apply elem_of_list_to_set, peers_of_ids. }
    pose proof (size_union_alt ({[v]} : gset (list byte))
                  (list_to_set (member_ids (peers_of ms v)))) as Hu.
    rewrite size_singleton in Hu.
    assert (size (list_to_set (member_ids (peers_of ms v)) ∖ {[v]} : gset (list byte))
            <= length (member_ids (peers_of ms v)))%nat; [|lia].
    etrans; [apply subseteq_size, (subseteq_difference_l _ _ _ (reflexivity _))|].
    by rewrite size_list_to_set by apply peers_of_nodup.
  - destruct Hcfg as [_ Hs _]. unfold member_ids, peers_of in *. rewrite length_map.
    pose proof (length_filter (fun m : member => m.1.1 <> v) ms). lia.
Qed.

Lemma leader_effect (v : list byte) (al : Alloc) (s : RaftNode * World) :
  node_ok v s ->
  node_ok v (become_leader cb al s) /\
  abs_node (become_leader cb al s).1
  = ANode (current_term s.1) (abs_vote s.1) RAFT_STATE_LEADER ∅ /\
  w_out (become_leader cb al s).2 = w_out s.2.
Proof.
  intros Hok. destruct s as [n w]. unfold become_leader. cbn [fst snd] in *.
  match goal with |- context [raft_submit cb al (?x, w) _] => set (n1 := x) end.
  assert (node_ok v (n1, w)) as Hok1.
  { destruct Hok. constructor; try done. cbn [fst] in *. rewrite <- nk_peers0.
    unfold peer_ids. cbn. by apply map_peer_ids. }
  assert (quiet (n1, w) (raft_submit cb al (n1, w) [x00]).2) as Hq by apply quiet_submit.
  destruct (raft_submit cb al (n1, w) [x00]).2 as [n2 w2]. cbn [fst snd].
  assert (quiet (n1, w) ({| n2 with last_heartbeat_ms := 0 |}, w2)) as [Hse Ho Hd].
  { eapply quiet_trans; [exact Hq|]. by apply quiet_node. }
  split; [by apply (same_election_ok v (n1, w))|]. split; [|done].
  cbn [fst] in Hse. by rewrite (same_election_abs _ _ Hse).
Qed.

(** Counting one more vote. *)
Lemma count_effect (v : list byte) (s : RaftNode * World) (i : nat) (p : RaftPeer) (n1 : RaftNode) :
  v ∈ ids -> node_ok v s -> state s.1 = RAFT_STATE_CANDIDATE ->
  peers s.1 !! i = Some p -> vote_granted p = false ->
  n1 = {| (s.1) with peers := <[i := {| p with vote_granted := true |}]> (peers s.1);
                     votes_received := votes_received s.1 +32 1 |} ->
  node_ok v (n1, s.2) /\
  abs_node n1 = ANode (current_term s.1) (abs_vote s.1) RAFT_STATE_CANDIDATE
                  ({[cstr (p_node_id p)]} ∪ granted_ids s.1).
Proof.
  intros Hv Hok Hst Hi Hg Hn1. pose proof (granted_le n1) as Hle. subst n1. split.
  - pose proof (members_size v s Hv Hok) as [_ Hpc].
    unfold granted_count, peer_count in Hle. cbn in Hle.
    rewrite granted_insert, length_insert in Hle by done.
    destruct Hok as [? ? ? ? Hp Hvotes ?]. constructor; try done.
    + rewrite <- Hp. unfold peer_ids. cbn. by eapply insert_peer_ids.
    + intros _. unfold granted_count. cbn. rewrite granted_insert by done.
      rewrite Hvotes by done. unfold granted_count in *. rewrite u32_small; [lia|].
      unfold is_u32, peer_count in *. lia.
  - unfold abs_node, abs_vote. cbn [current_term voted_for state].
    rewrite Hst, decide_True by done. f_equal. by eapply granted_ids_insert.
Qed.

Lemma majority_quorum (v : list byte) (s : RaftNode * World) :
  v ∈ ids -> node_ok v s -> state s.1 = RAFT_STATE_CANDIDATE ->
  has_majority s.1 (votes_received s.1) = true -> quorum members ({[v]} ∪ granted_ids s.1).
Proof.
  intros Hv Hok Hst Hm. destruct (granted_size v s Hok) as [Hsize Hsub].
  destruct (members_size v s Hv Hok) as [Hms _]. unfold has_majority in Hm. bool_to_prop.
  rewrite (nk_votes _ _ Hok Hst) in Hm. split.
  - intros x [->%elem_of_singleton|Hx]%elem_of_union; [by apply elem_of_list_to_set|by apply Hsub].
  - pose proof (Z.mul_succ_div_gt (peer_count s.1 + 1) 2). lia.
Qed.

Lemma sim_follower (N : net) (A : astate (list byte)) (v : list byte) (t : Z) :
  refines N A -> v ∈ ids -> is_u64 t -> current_term (nodes N v).1 < t ->
  exists A', steps A A' /\ refines (commit v (become_follower cb (nodes N v) t) [] N) A'.
Proof.
  intros Href Hv Ht Hlt. destruct (sim_step_down N A v t Href Hv Ht) as (A1 & H1 & Hn1 & Hok1 & Ho1).
  unfold step_down_if_newer in *. rewrite Z.gtb_ltb, (proj2 (Z.ltb_lt _ _)) in * by done.
  exists A1. split; [apply H1|]. apply (sim_commit N A A1); try done; [by intros p ?%elem_of_nil|].
  unfold sent. rewrite Ho1. by intros p ?%elem_of_nil.
Qed.

Lemma sim_vote_response (N : net) (A : astate (list byte)) (v c : list byte)
    (resp : RaftRequestVoteResp) (al : Alloc) :
  refines N A -> c ∈ ids -> VoteResponse v c resp ∈ packets N ->
  exists A', steps A A' /\
    refines (commit c (raft_handle_request_vote_response cb al (nodes N c) v resp) [] N) A'.
Proof.
  intros Href Hc Hp. apply (rf_packets _ _ Href) in Hp as (Hv & Ht & Hgrant).
  pose proof (rf_ok _ _ Href c Hc) as Hok. pose proof (rf_nodes _ _ Href c Hc) as Habs.
  pose proof (rf_out _ _ Href c Hc) as Hout. destruct (config_id v Hv) as (Hcv & _ & _).
  unfold raft_handle_request_vote_response.
  assert (exists A', steps A A' /\ refines (commit c (nodes N c) [] N) A') as Hid.
  { exists A. split; [apply rtc_refl|]. apply sim_quiet; [done|done|apply quiet_refl]. }
  destruct (rvr_term resp >? _) eqn:Egt; [bool_to_prop; by apply sim_follower|].
  destruct (bool_decide _ || _) eqn:Eig; [done|]. bool_to_prop.
  assert (state (nodes N c).1 = RAFT_STATE_CANDIDATE) as Hst by (by apply dec_stable).
  destruct (find_peer (nodes N c).1 v) as [[i p]|] eqn:Ef; [|done].
  apply find_peer_Some in Ef as [Hi Hpv]. rewrite Hcv in Hpv.
  destruct (_ && _) eqn:Eg; [|done]. bool_to_prop.
  match goal with |- context [has_majority ?x _] => set (n1 := x) in * end.
  destruct (count_effect c (nodes N c) i p n1 Hc Hok Hst Hi) as [Hok1 Habs1]; [done|done|].
  rewrite Hpv in Habs1.
  set (A1 := set_node c (abs_node n1) A).
  destruct (reach_step c (abs_node n1) A A1) as [Hre1 Hn1]; [|done|done|].
  { unfold A1. rewrite Habs1. pose proof (el_count members A c v _ Habs) as Hcount.
    cbn in Hcount. rewrite Hst in Hcount. cbn in Hcount. apply Hcount; [done|].
    replace (current_term (nodes N c).1) with (rvr_term resp) by lia. by apply Hgrant. }
  destruct (has_majority n1 (votes_received n1)) eqn:Em.
  2:{ exists A1. split; [apply Hre1|]. apply (sim_commit N A A1); try done.
      - by intros q ?%elem_of_nil.
      - unfold sent. cbn [snd]. rewrite Hout. by intros q ?%elem_of_nil. }
  destruct (leader_effect c al (n1, (nodes N c).2) Hok1) as (Hok2 & Habs2 & Ho2).
  set (A2 := add_leader c (current_term n1)
    (set_node c (ANode (current_term n1) (abs_vote n1) RAFT_STATE_LEADER ∅) A1)).
  destruct (reach_step c (ANode (current_term n1) (abs_vote n1) RAFT_STATE_LEADER ∅) A1 A2)
    as [Hre2 Hn2]; [|done|done|].
  { assert (state n1 = RAFT_STATE_CANDIDATE) as Hst1 by done.
    apply (el_lead members A1 c (abs_node n1)); [done|done|].
    unfold abs_node. rewrite Hst1. cbn [a_granted]. rewrite decide_True by done.
    by apply (majority_quorum c (n1, (nodes N c).2)). }
  exists A2. assert (reach c A A2) as Hre12 by (by eapply reach_trans). split; [apply Hre12|].
  apply (sim_commit N A A2); [done|done|done|done|by rewrite Hn2| |].
  - by intros q ?%elem_of_nil.
  - unfold sent. rewrite Ho2. cbn [snd]. rewrite Hout. by intros q ?%elem_of_nil.
Qed.

Lemma insert_ballots (ps : list RaftPeer) (i : nat) (p q : RaftPeer) :
  ps !! i = Some p -> p_node_id q = p_node_id p -> vote_granted q = vote_granted p ->
  map (fun p => (cstr (p_node_id p), vote_granted p)) (<[i := q]> ps)
  = map (fun p => (cstr (p_node_id p), vote_granted p)) ps.
Proof.
  intros Hi Hid Hg. apply list_eq. intros j. rewrite !list_lookup_fmap.
  destruct (decide (i = j)) as [->|Hne].
  - rewrite list_lookup_insert_eq by (by eapply lookup_lt_Some). rewrite Hi. cbn. by rewrite Hid, Hg.
  - by rewrite list_lookup_insert_ne.
Qed.

Lemma sim_append_response (N : net) (A : astate (list byte)) (v l : list byte)
    (resp : RaftAppendEntriesResp) :
  refines N A -> l ∈ ids -> AppendResponse v l resp ∈ packets N ->
  exists A', steps A A' /\
    refines (commit l (raft_handle_append_entries_response cb (nodes N l) v resp) [] N) A'.
Proof.
  intros Href Hl Hp. apply (rf_packets _ _ Href) in Hp as Ht. cbn in Ht.
  unfold raft_handle_append_entries_response.
  destruct (aer_term resp >? _) eqn:Egt; [bool_to_prop; by apply sim_follower|].
  exists A. split; [apply rtc_refl|]. apply sim_quiet; [done|done|].
  destruct (_ || _); [apply quiet_refl|].
  destruct (find_peer (nodes N l).1 v) as [[i p]|] eqn:Ef; [|apply quiet_refl].
  apply find_peer_Some in Ef as [Hi _]. destruct (nodes N l) as [n w]. apply quiet_node.
  constructor; try done. unfold ballots. cbn [peers fst] in *.
  apply (insert_ballots _ i p); [done| |];
    (destruct (negb _); [done|]); by destruct (next_index p >? 1).
Qed.

Lemma sim_restart (N : net) (A : astate (list byte)) (v : list byte) (rnd now : Z) (n : RaftNode) :
  refines N A -> v ∈ ids -> boot (w_fs (nodes N v).2) rnd now v = Returns (Some n) ->
  exists A', steps A A' /\ refines (commit v (n, (nodes N v).2) [] N) A'.
Proof.
  intros Href Hv Hboot. pose proof (rf_ok _ _ Href v Hv) as Hok.
  destruct (boot_spec (w_fs (nodes N v).2) rnd now v (nodes N v).1) as (n' & Hb & Habs & Hn);
    try apply Hok; [done|].
  rewrite Hboot in Hb. simplify_eq.
  set (A1 := set_node v (ANode (current_term (nodes N v).1) (abs_vote (nodes N v).1)
                           RAFT_STATE_FOLLOWER ∅) A).
  destruct (reach_step v (abs_node n') A A1) as [Hre Hn1]; [|by rewrite Habs|done|].
  { pose proof (el_restart members A v _ (rf_nodes _ _ Href v Hv)) as H. exact H. }
  exists A1. split; [apply Hre|]. apply (sim_commit N A A1); try done.
  - by apply Hn.
  - by intros q ?%elem_of_nil.
  - unfold sent. cbn [snd]. rewrite (rf_out _ _ Href v Hv). by intros q ?%elem_of_nil.
Qed.

(** Every step of the cluster is a run of the abstract election. *)
Lemma sim_step (N N' : net) (A : astate (list byte)) :
  refines N A -> net_step N N' -> exists A', steps A A' /\ refines N' A'.
Proof.
  intros Href Hstep. destruct Hstep.
  - by apply sim_tick.
  - exists A. split; [apply rtc_refl|]. apply sim_quiet; [done|done|apply quiet_submit].
  - by eapply sim_vote_request.
  - by eapply sim_append_request.
  - by apply sim_vote_response.
  - by apply sim_append_response.
  - by eapply sim_restart.
Qed.

Lemma sim_init (N : net) : net_init N -> refines N a_init.
Proof.
  intros [Hpk Hn].
  assert (forall v, v ∈ ids -> w_out (nodes N v).2 = [] /\
    abs_node (nodes N v).1 = ANode 0 None RAFT_STATE_FOLLOWER ∅ /\ node_ok v (nodes N v)) as Hall.
  { intros v Hv. destruct (Hn v Hv) as (rnd & now & n & Hb & ->). split; [done|].
    destruct (config_id v Hv) as (Hc & _ & Hl).
    set (n0 := {| n with node_id := strncpy (zeros 37) v 36; current_term := 0;
                         voted_for := zeros 37 |}).
    destruct (boot_spec ∅ rnd now v n0) as (n' & Hb' & Habs & Hok); try done.
    - cbn. rewrite cstr_strncpy37, Hc; [done|auto with droole|by rewrite Hc].
    - rewrite Hb in Hb'. simplify_eq. split; [done|by apply Hok]. }
  constructor.
  - intros v Hv. apply Hall in Hv as (_ & -> & _). done.
  - intros v Hv. by apply Hall.
  - intros v Hv. by apply Hall.
  - rewrite Hpk. by intros p ?%elem_of_nil.
Qed.

(** A leader of the concrete cluster is a recorded leader. *)
Lemma refines_leader (N : net) (A : astate (list byte)) (v : list byte) :
  refines N A -> el_inv members A -> v ∈ ids -> state (nodes N v).1 = RAFT_STATE_LEADER ->
  (v, current_term (nodes N v).1) ∈ leaders A.
Proof.
  intros Href Hinv Hv Hst. pose proof (ni_leader _ _ _ _ (ei_nodes _ _ Hinv v)) as Hl.
  rewrite <- (rf_nodes _ _ Href v Hv) in Hl. by apply Hl.
Qed.
End Net.

(** A step in which the disk fails in any way but these: the header of a file that
    is rewritten reaches the disk, and a file can be read.  The entries behind the
    header may be lost or torn, differently in every step. *)
Definition disk_step (ms : list member) (N N' : net) : Prop :=
  exists wenv renv, header_written wenv /\ read_succeeds renv /\ net_step wenv renv ms N N'.

Lemma disk_reachable (ms : list member) (N0 N : net) (A : astate (list byte)) :
  config_ok ms -> refines ms N0 A -> rtc (disk_step ms) N0 N ->
  exists A', rtc (el_step (list_to_set (member_ids ms))) A A' /\ refines ms N A'.
Proof.
  intros Hcfg Href Hs. revert A Href.
  induction Hs as [N|N1 N2 N3 (wenv & renv & Hw & Hr & Hs) _ IH]; intros A Href.
  { exists A. split; [apply rtc_refl|done]. }
  destruct (sim_step wenv renv ms Hw Hr Hcfg N1 N2 A Href Hs) as (A2 & H2 & Href2).
  destruct (IH A2 Href2) as (A3 & H3 & Href3). exists A3. split; [by etrans|done].
Qed.

(** C2: refinement.  Every execution of a fixed set of nodes over callbacks that
    queue requests and store the node (ticks, client writes, lost, duplicated and
    reordered messages, crashes between operations followed by [example_raft_init]
    from the write-ahead log), in which the header of every file that is rewritten
    reaches the disk and files can be read, is an execution of the abstract
    election: terms, votes, roles and counted votes of all nodes agree with the
    abstract state, every file holds its node's term and vote, and every message in
    flight is accounted for. *)
Theorem cluster_refines_election (renv : ReadEnv) (ms : list member) (N0 N : net) :
  read_succeeds renv -> config_ok ms -> net_init renv ms N0 -> rtc (disk_step ms) N0 N ->
  exists A, rtc (el_step (list_to_set (member_ids ms))) a_init A /\ refines ms N A.
Proof.
  intros Hr Hcfg Hinit Hs. eapply disk_reachable; [done|by apply (sim_init renv)|done].
Qed.

(** C1: election safety.  In such an execution (queued requests, crashes between
    operations, headers that reach the disk; [lost_header_two_leaders] shows that the
    last is needed) at most one leader is ever elected in a term: if [v] leads term
    [t] at some point and [w] leads the same term then or later, they are the same
    node. *)
Theorem election_safety (renv : ReadEnv) (ms : list member) (N0 N1 N2 : net) (v w : list byte) :
  read_succeeds renv -> config_ok ms ->
  net_init renv ms N0 -> rtc (disk_step ms) N0 N1 -> rtc (disk_step ms) N1 N2 ->
  v ∈ member_ids ms -> w ∈ member_ids ms ->
  state (nodes N1 v).1 = RAFT_STATE_LEADER -> state (nodes N2 w).1 = RAFT_STATE_LEADER ->
  current_term (nodes N1 v).1 = current_term (nodes N2 w).1 -> v = w.
Proof.
  intros Hr Hcfg Hinit H01 H12 Hv Hw' Hlv Hlw Ht.
  destruct (disk_reachable ms N0 N1 a_init) as (A1 & S1 & R1); [done|by apply (sim_init renv)|done|].
  destruct (disk_reachable ms N1 N2 A1) as (A2 & S2 & R2); [done..|].
  pose proof (el_steps_inv _ _ _ (el_inv_init _) S1) as I1.
  pose proof (el_steps_inv _ _ _ I1 S2) as I2.
  eapply (ei_unique _ _ I2).
  - eapply el_steps_leaders; [exact S2|]. by eapply refines_leader.
  - rewrite Ht. by eapply refines_leader.
Qed.

(** ** A run with an election *)

Definition demo_members : list member :=
  [(text "n1", text "10.0.0.1", 9001); (text "n2", text "10.0.0.2", 9001);
   (text "n3", text "10.0.0.3", 9001)].

Lemma demo_config_ok : config_ok demo_members.
Proof.
  split; [|done|].
  - apply (bool_decide_unpack _). vm_compute. exact I.
  - apply (bool_decide_unpack _). vm_compute. exact I.
Qed.

Lemma write_ok_header : header_written write_ok.
Proof. by split. Qed.

Definition demo_boot (v : list byte) : RaftNode :=
  match boot read_ok demo_members ∅ 7 1000 v with
  | Returns (Some n) => n
  | _ => demo_node RAFT_STATE_FOLLOWER 0
  end.

Definition demo_net0 : net :=
  {| nodes := fun v => (demo_boot v, {| w_fs := ∅; w_out := []; w_applied := [] |});
     packets := [] |}.

Lemma demo_net0_init : net_init read_ok demo_members demo_net0.
Proof.
  split; [done|]. intros v Hv. exists 7, 1000, (demo_boot v). split; [|done].
  repeat (apply elem_of_cons in Hv as [->|Hv]; [vm_compute; reflexivity|]).
  by apply elem_of_nil in Hv.
Qed.

Definition demo_vote_req : RaftRequestVoteReq :=
  {| rv_term := 1; rv_candidate_id := strncpy (zeros 37) (text "n1") 36;
     rv_last_log_index := 0; rv_last_log_term := 0 |}.

Definition demo_deliver (N : net) : RaftRequestVoteResp * (RaftNode * World) :=
  raft_handle_request_vote (net_cb write_ok) 3000 (nodes N (text "n2")) demo_vote_req.

(** [n1] times out, its request reaches [n2] twice (the first answer carries the
    old term, the second counts), and the second answer makes [n1] leader. *)
Definition demo_net1 : net :=
  commit (text "n1") (raft_tick (net_cb write_ok) 2000 2000 7 (nodes demo_net0 (text "n1"))) []
    demo_net0.
Definition demo_net2 : net :=
  commit (text "n2") (demo_deliver demo_net1).2
    [VoteResponse (text "n2") (text "n1") (demo_deliver demo_net1).1] demo_net1.
Definition demo_net3 : net :=
  commit (text "n2") (demo_deliver demo_net2).2
    [VoteResponse (text "n2") (text "n1") (demo_deliver demo_net2).1] demo_net2.
Definition demo_net4 : net :=
  commit (text "n1")
    (raft_handle_request_vote_response (net_cb write_ok) alloc_ok (nodes demo_net3 (text "n1"))
       (text "n2") (demo_deliver demo_net2).1) [] demo_net3.

Lemma demo_vote_step (N : net) (k : nat) :
  packets N !! k = Some (Request (text "n1") (text "n2") (RequestVote demo_vote_req)) ->
  net_step write_ok read_ok demo_members N
    (commit (text "n2") (demo_deliver N).2
       [VoteResponse (text "n2") (text "n1") (demo_deliver N).1] N).
Proof.
  intros Hk. apply net_vote_request with (req := demo_vote_req) (now := 3000).
  - right. left.
  - by eapply list_elem_of_lookup_2.
  - apply surjective_pairing.
Qed.

Lemma demo_disk_step (N N' : net) :
  net_step write_ok read_ok demo_members N N' -> disk_step demo_members N N'.
Proof. intros Hs. exists write_ok, read_ok. split; [apply write_ok_header|]. split; [apply read_ok_succeeds|done]. Qed.

Lemma demo_run : rtc (disk_step demo_members) demo_net0 demo_net4.
Proof.
  eapply rtc_subrel; [apply demo_disk_step|].
  assert (text "n1" ∈ member_ids demo_members) as Hn1 by left.
  apply (rtc_l _ _ demo_net1); [apply net_tick; [exact Hn1|vm_compute; reflexivity]|].
  apply (rtc_l _ _ demo_net2); [apply (demo_vote_step demo_net1 0); vm_compute; reflexivity|].
  apply (rtc_l _ _ demo_net3); [apply (demo_vote_step demo_net2 1); vm_compute; reflexivity|].
  apply rtc_once, net_vote_response; [exact Hn1|].
  apply (list_elem_of_lookup_2 _ 0). vm_compute. reflexivity.
Qed.

Lemma cluster_refines_election_witness :
  exists A, rtc (el_step (list_to_set (member_ids demo_members))) a_init A /\
    refines demo_members demo_net4 A.
Proof.
  apply (cluster_refines_election read_ok demo_members demo_net0 demo_net4).
  - exact read_ok_succeeds.
  - exact demo_config_ok.
  - exact demo_net0_init.
  - exact demo_run.
Defined.

Lemma election_safety_witness :
  state (nodes demo_net4 (text "n1")).1 = RAFT_STATE_LEADER /\
  forall w, w ∈ member_ids demo_members -> state (nodes demo_net4 w).1 = RAFT_STATE_LEADER ->
    current_term (nodes demo_net4 (text "n1")).1 = current_term (nodes demo_net4 w).1 ->
    text "n1" = w.
Proof.
  split; [vm_compute; reflexivity|]. intros w Hw Hl Ht.
  apply (election_safety read_ok demo_members demo_net0 demo_net4 demo_net4 (text "n1") w).
  - exact read_ok_succeeds.
  - exact demo_config_ok.
  - exact demo_net0_init.
  - exact demo_run.
  - apply rtc_refl.
  - left.
  - exact Hw.
  - vm_compute. reflexivity.
  - exact Hl.
  - exact Ht.
Defined.
