(* ===== verification/LogNet.v ===== *)
(** * The logs of a cluster

    What the cluster of [RaftNet.v] does to the logs.  [leader_tick] of
    [src/cluster/raft_core.c] sends heartbeats without entries and nothing else
    sends [AppendEntries], so a log only ever holds what its own node appended as
    leader ([entries_stay_home]), across crashes and torn files.  A follower still
    acknowledges its own last index, and [raft_handle_append_entries] commits up to
    it: [replicas_diverge] is a run in which two members apply different commands
    at the same position. *)

From stdpp Require Import functions.
From S2P Require Import Prelude RaftCore RaftInv RaftSpec RaftPersist RaftRpc Election RaftNet.

Section LogNet.
Context (wenv : WriteEnv) (renv : ReadEnv) (ms : list member).
Hypothesis Hw : header_written wenv.
Hypothesis Hr : read_succeeds renv.
Hypothesis Hcfg : config_ok ms.

Abbreviation cb := (net_cb wenv).
Abbreviation ids := (member_ids ms).

(** ** What an operation does to the log and the file *)

(** A file that holds a prefix of the image of a node with log [l]. *)
Definition image_of (l : list RaftLogEntry) (file : list byte) : Prop :=
  exists m k, file = take k (wal_image m) /\ (k <= length (wal_image m))%nat /\
    is_u64 (current_term m) /\ log m = l.

(** Queued [AppendEntries] carry no entries. *)
Definition plain_out (w : World) : Prop :=
  Forall (fun m => match m.2 with AppendEntries r => ae_entry_count r = 0 | _ => True end) (w_out w).

(** The log grows by entries of the current term of a leader; the file is kept or
    holds the log before or after. *)
Record grows (es : list RaftLogEntry) (s s' : RaftNode * World) : Prop := {
  gr_id : node_id s'.1 = node_id s.1;
  gr_log : log s'.1 = log s.1 ++ es;
  gr_new : Forall (fun e => e_term e = current_term s'.1 /\ state s'.1 = RAFT_STATE_LEADER /\
                            is_u64 (e_index e) /\ e_type e = 0) es;
  gr_disk : w_fs s'.2 = w_fs s.2 \/
    exists file, w_fs s'.2 !! wal_path (node_id s.1) = Some file /\
      (image_of (log s.1) file \/ image_of (log s'.1) file);
  gr_out : plain_out s.2 -> plain_out s'.2;
}.

Abbreviation log_kept := (grows []).

Lemma log_kept_refl (s : RaftNode * World) : log_kept s s.
Proof. split; [done|by rewrite app_nil_r|constructor|by left|done]. Qed.

Lemma keeps_log (s s' : RaftNode * World) : log_kept s s' -> log s'.1 = log s.1.
Proof. intros H. by rewrite (gr_log _ _ _ H), app_nil_r. Qed.

Lemma log_kept_trans (es : list RaftLogEntry) (s1 s2 s3 : RaftNode * World) :
  log_kept s1 s2 -> grows es s2 s3 -> grows es s1 s3.
Proof.
  intros H1 [Hid Hlog Hnew Hd Ho]. pose proof (keeps_log _ _ H1) as Hl.
  destruct H1 as [Hid1 _ _ Hd1 Ho1]. split; [congruence|congruence|done| |auto].
  destruct Hd as [Hd|(file & Hf & Hi)]; [|right; exists file; rewrite Hl, Hid1 in *; done].
  rewrite Hd. destruct Hd1 as [Hd1|(file & Hf & Hi)]; [by left|right].
  exists file. split; [done|]. left. rewrite Hl in Hi. tauto.
Qed.

Lemma keeps_node (n n' : RaftNode) (w w' : World) :
  node_id n' = node_id n -> log n' = log n -> w_fs w' = w_fs w -> (plain_out w -> plain_out w') ->
  log_kept (n, w) (n', w').
Proof. intros Hi Hl Hf Ho. split; [done|by rewrite app_nil_r|constructor|by left|done]. Qed.

Lemma persist_grows (es : list RaftLogEntry) (n n' : RaftNode) (w : World) :
  node_id n' = node_id n -> log n' = log n ++ es -> is_u64 (current_term n') ->
  Forall (fun e => e_term e = current_term n' /\ state n' = RAFT_STATE_LEADER /\
                   is_u64 (e_index e) /\ e_type e = 0) es ->
  grows es (n, w) (persist_state cb (n', w)).
Proof.
  intros Hi Hl Ht Hn. split; [done|done|done| |done]. right.
  destruct (persist_prefix wenv (w_fs w) n' (proj1 Hw)) as (k & Hk & Hfs & _).
  exists (take k (wal_image n')). cbn. rewrite Hfs, Hi. split; [apply lookup_insert_eq|].
  right. by exists n', k.
Qed.

Lemma persist_keeps (n n' : RaftNode) (w : World) :
  node_id n' = node_id n -> log n' = log n -> is_u64 (current_term n') ->
  log_kept (n, w) (persist_state cb (n', w)).
Proof. intros Hi Hl Ht. apply persist_grows; [done|by rewrite app_nil_r|done|constructor]. Qed.

Lemma follower_keeps (s : RaftNode * World) (t : Z) : is_u64 t -> log_kept s (become_follower cb s t).
Proof. destruct s as [n w]. intros Ht. by apply persist_keeps. Qed.

Lemma step_down_keeps (s : RaftNode * World) (t : Z) : is_u64 t -> log_kept s (step_down_if_newer cb s t).
Proof.
  intros Ht. unfold step_down_if_newer. destruct (_ >? _); [by apply follower_keeps|apply log_kept_refl].
Qed.

Lemma apply_keeps (fuel : nat) (s : RaftNode * World) : log_kept s (apply_loop cb fuel s).
Proof.
  revert s. induction fuel as [|fuel IH]; intros [n w]; cbn [apply_loop]; [apply log_kept_refl|].
  destruct (_ <? _); [|apply log_kept_refl]. destruct (get_log_entry _ _) as [e|]; [|by apply keeps_node].
  eapply log_kept_trans; [|apply IH]. by apply keeps_node.
Qed.

Lemma commit_loop_keeps (fuel : nat) (idx : Z) (n : RaftNode) :
  node_id (commit_loop fuel idx n) = node_id n /\ log (commit_loop fuel idx n) = log n.
Proof.
  revert idx n. induction fuel as [|fuel IH]; intros idx n; cbn [commit_loop]; [done|].
  destruct (_ <=? _); [|done]. destruct (negb _); [apply IH|].
  destruct (has_majority _ _); [|apply IH]. apply (IH _ {| n with commit_index := idx |}).
Qed.

Lemma tick_keeps (now now' rnd : Z) (s : RaftNode * World) : log_kept s (raft_tick cb now now' rnd s).
Proof.
  unfold raft_tick. eapply log_kept_trans; [|apply apply_keeps]. destruct s as [n w].
  case_decide.
  - unfold leader_tick, leader_heartbeats. cbn [fst snd]. destruct (_ >=? _); cbn [fst snd].
    + rewrite for_each_peer_out. cbn [fst snd]. unfold advance_commit_index.
      edestruct commit_loop_keeps as [Hi Hl]. apply keeps_node; [by rewrite Hi|by rewrite Hl|done|].
      intros Ho. apply Forall_app. split; [done|]. by apply Forall_map, Forall_forall.
    + unfold advance_commit_index. edestruct commit_loop_keeps as [Hi Hl]. by apply keeps_node.
  - unfold follower_candidate_tick. destruct (_ >=? _); [|apply log_kept_refl].
    unfold become_candidate. cbn [fst snd].
    match goal with |- context [persist_state cb (?x, w)] => set (n1 := x) end.
    eapply log_kept_trans; [apply (persist_keeps n n1 w); [done|done|]|].
    { cbn. apply u64_range. }
    destruct (persist_state cb (n1, w)) as [n2 w2]. rewrite for_each_peer_out.
    apply keeps_node; [done..|]. intros Ho. apply Forall_app. split; [done|]. by apply Forall_map, Forall_forall.
Qed.

Lemma submit_grows (al : Alloc) (s : RaftNode * World) (data : list byte) :
  is_u64 (current_term s.1) -> exists es, grows es s (raft_submit cb al s data).2.
Proof.
  intros Ht. destruct (raft_submit_cases cb al s data) as [[_ ->]|[[_ ->]|[Hst [_ ->]]]];
    destruct s as [n w].
  - exists []. apply log_kept_refl.
  - exists []. cbn [fst snd]. rewrite (ensure_log_capacity_node al n). by apply keeps_node.
  - eexists. apply persist_grows; [done|done|done|]. repeat constructor; [by apply Hst|apply u64_range..].
Qed.

Lemma vote_request_keeps (now : Z) (s s' : RaftNode * World) req resp :
  is_u64 (rv_term req) -> is_u64 (current_term s.1) ->
  raft_handle_request_vote cb now s req = (resp, s') -> log_kept s s'.
Proof.
  intros Ht Hc. unfold raft_handle_request_vote.
  pose proof (step_down_keeps s (rv_term req) Ht) as Hk.
  assert (is_u64 (current_term (step_down_if_newer cb s (rv_term req)).1)) as Hc1.
  { unfold step_down_if_newer. by destruct (_ >? _). }
  destruct (step_down_if_newer cb s (rv_term req)) as [n1 w1]. cbn [fst snd] in *.
  destruct (_ <? _); [by intros [= _ <-]|]. destruct (_ && _); [by intros [= _ <-]|].
  destruct (negb _); [by intros [= _ <-]|]. intros [= _ <-].
  eapply log_kept_trans; [exact Hk|].
  set (n2 := {| n1 with voted_for := strncpy (voted_for n1) (rv_candidate_id req) 36 |}).
  eapply log_kept_trans; [by apply (persist_keeps n1 n2 w1)|]. by apply keeps_node.
Qed.

Lemma append_request_keeps al (now : Z) (s s' : RaftNode * World) req ptr resp :
  is_u64 (ae_term req) -> is_u64 (current_term s.1) ->
  raft_handle_append_entries cb al now s req ptr 0 = Returns (resp, s') -> log_kept s s'.
Proof.
  intros Ht Hc. unfold raft_handle_append_entries.
  pose proof (step_down_keeps s (ae_term req) Ht) as Hk.
  assert (is_u64 (current_term (step_down_if_newer cb s (ae_term req)).1)) as Hc1.
  { unfold step_down_if_newer. by destruct (_ >? _). }
  destruct (step_down_if_newer cb s (ae_term req)) as [n1 w1]. cbn [fst snd] in *.
  destruct (_ <? _); [by intros [= _ <-]|].
  assert (log_kept (n1, w1) (accept_leader cb now (n1, w1) req) /\
          is_u64 (current_term (accept_leader cb now (n1, w1) req).1)) as [Hk2 Hc2].
  { unfold accept_leader. case_decide; [|split; [by apply keeps_node|done]].
    split; [|done]. by apply persist_keeps. }
  destruct (accept_leader cb now (n1, w1) req) as [n3 w3].
  destruct (negb _); [intros [= _ <-]; by eapply log_kept_trans|]. cbn [append_loop Z.to_nat fst snd].
  intros [= _ <-]. eapply log_kept_trans; [exact Hk|]. eapply log_kept_trans; [exact Hk2|].
  eapply log_kept_trans; [by apply (persist_keeps n3 n3 w3)|]. unfold update_commit.
  destruct (ae_leader_commit req >? _); by apply keeps_node.
Qed.

Lemma vote_response_grows al (s : RaftNode * World) peer resp :
  is_u64 (rvr_term resp) -> is_u64 (current_term s.1) ->
  exists es, grows es s (raft_handle_request_vote_response cb al s peer resp).
Proof.
  intros Ht Hc. unfold raft_handle_request_vote_response.
  destruct (_ >? _); [exists []; by apply follower_keeps|].
  destruct (_ || _); [exists []; apply log_kept_refl|].
  destruct (find_peer s.1 peer) as [[i p]|]; [|exists []; apply log_kept_refl].
  destruct (_ && _); [|exists []; apply log_kept_refl]. destruct s as [n w].
  match goal with |- context [has_majority ?x _] => set (n1 := x) in * end.
  destruct (has_majority _ _); [|exists []; by apply keeps_node].
  unfold become_leader. cbn [fst snd].
  match goal with |- context [raft_submit cb al (?x, w) _] => set (n2 := x) end.
  destruct (submit_grows al (n2, w) [x00]) as [es Hg]; [done|]. exists es.
  destruct (raft_submit cb al (n2, w) [x00]).2 as [n3 w3]. cbn [fst snd].
  destruct Hg as [Hi Hl Hn Hd Ho]. split; done.
Qed.

Lemma append_response_keeps (s : RaftNode * World) peer resp :
  is_u64 (aer_term resp) -> log_kept s (raft_handle_append_entries_response cb s peer resp).
Proof.
  intros Ht. unfold raft_handle_append_entries_response.
  destruct (_ >? _); [by apply follower_keeps|].
  destruct (_ || _); [apply log_kept_refl|].
  destruct (find_peer s.1 peer) as [[i p]|]; [|apply log_kept_refl]. destruct s as [n w].
  by apply keeps_node.
Qed.

(** ** Restart *)

Lemma add_peers_log (ps : list member) (n : RaftNode) :
  log (add_peers alloc_ok ps n) = log n /\ node_id (add_peers alloc_ok ps n) = node_id n.
Proof.
  revert n. induction ps as [|p ps IH]; intros n; [done|]. cbn.
  destruct (IH (raft_add_peer alloc_ok n p.1.1 p.1.2 p.2).2) as [Hl Hi]. unfold add_peers in *.
  rewrite Hl, Hi. unfold raft_add_peer. destruct (find_peer n p.1.1); [done|].
  by destruct (_ && _).
Qed.

Lemma boot_log (fs : FS) (rnd now : Z) (v : list byte) (n : RaftNode) :
  v ∈ ids -> boot renv ms fs rnd now v = Returns (Some n) ->
  match fs !! wal_path v with
  | None => log n = []
  | Some file => forall l, image_of l file -> Forall entry_fits l -> exists j, log n = take j l
  end.
Proof.
  intros Hv. destruct (config_id ms Hcfg v Hv) as (Hc & _ & Hlen).
  unfold boot, example_raft_init, raft_init. cbn [malloc_ok alloc_ok negb].
  lazymatch goal with |- context [add_peers _ _ ?x] => set (n0 := x) end.
  destruct (add_peers_log (peers_of ms v) n0) as [Hl Hi]. set (m := add_peers _ _ n0) in *.
  assert (wal_path (node_id m) = wal_path v) as Hp.
  { rewrite Hi. unfold wal_path, n0. cbn. by rewrite cstr_strncpy37, Hc by (auto with droole; by rewrite Hc). }
  destruct (fs !! wal_path v) as [file|] eqn:Hf.
  - destruct (raft_restore_state renv fs m) as [[rc n1]|] eqn:E; [|done]. intros [= <-]. cbn.
    intros l (m0 & k & -> & Hk & Ht & <-) Hfit. rewrite <- Hp in Hf.
    rewrite (restore_image renv fs m m0 k) in E by done.
    destruct (_ <? _)%nat; simplify_eq; [exists 0%nat; by rewrite Hl|].
    unfold restored. edestruct grow_all_node as [cap ->]. cbn. rewrite Hl. eauto.
  - unfold raft_restore_state. rewrite Hp, Hf. by intros [= <-].
Qed.

(** ** The invariant *)

(** Entries that [v] appended as the leader of their term. *)
Definition own_log (A : astate (list byte)) (v : list byte) (l : list RaftLogEntry) : Prop :=
  Forall (fun e => (v, e_term e) ∈ leaders A /\ entry_fits e) l.

Definition small_data (l : list RaftLogEntry) : Prop :=
  Forall (fun e => Z.of_nat (length (e_data e)) < 2 ^ 32) l.

Record node_log_ok (A : astate (list byte)) (v : list byte) (s : RaftNode * World) : Prop := {
  nl_log : own_log A v (log s.1);
  nl_disk : forall file, w_fs s.2 !! wal_path v = Some file ->
    exists l, image_of l file /\ own_log A v l;
}.

Record logs_inv (N : net) (A : astate (list byte)) : Prop := {
  lg_refines : refines ms N A;
  lg_election : el_inv (list_to_set ids) A;
  lg_nodes : forall v, v ∈ ids -> node_log_ok A v (nodes N v);
  lg_packets : forall src dst r, Request src dst (AppendEntries r) ∈ packets N -> ae_entry_count r = 0;
}.

Lemma own_log_mono A A' v l :
  rtc (el_step (list_to_set ids)) A A' -> own_log A v l -> own_log A' v l.
Proof.
  intros Hs Ho. eapply Forall_impl; [exact Ho|]. intros e [He Hf]. split; [|done].
  by eapply el_steps_leaders.
Qed.

Lemma node_log_mono A A' v s :
  rtc (el_step (list_to_set ids)) A A' -> node_log_ok A v s -> node_log_ok A' v s.
Proof.
  intros Hs [Hl Hd]. split; [by eapply own_log_mono|].
  intros file Hf. destruct (Hd file Hf) as (l & Hi & Ho). exists l. split; [done|]. by eapply own_log_mono.
Qed.

Lemma node_log_grows A v es s s' :
  node_log_ok A v s -> grows es s s' -> cstr (node_id s.1) = v -> cstr v = v ->
  is_u64 (current_term s'.1) -> small_data (log s'.1) ->
  (state s'.1 = RAFT_STATE_LEADER -> (v, current_term s'.1) ∈ leaders A) ->
  node_log_ok A v s'.
Proof.
  intros [Hl Hd] [Hid Hlog Hnew Hdisk _] Hv Hcv Ht Hsm Hlead.
  assert (own_log A v (log s'.1)) as Hown.
  { rewrite Hlog in *. apply Forall_app. split; [done|]. apply Forall_app in Hsm as [_ Hsm].
    apply Forall_forall. intros e He. rewrite Forall_forall in Hnew, Hsm.
    destruct (Hnew e He) as (Het & Hst & Hix & Hty). specialize (Hsm e He).
    rewrite Het. split; [auto|]. unfold entry_fits. rewrite Het, Hty. split; [done|]. solve_u. }
  split; [done|]. intros file Hf.
  assert (wal_path (node_id s.1) = wal_path v) as Hp by (unfold wal_path; by rewrite Hv, Hcv).
  destruct Hdisk as [Hs|(file' & Hf' & Hi)].
  - rewrite Hs in Hf. auto.
  - rewrite Hp, Hf in Hf'. simplify_eq. destruct Hi; eauto.
Qed.

Lemma logs_inv_commit (N : net) (A A' : astate (list byte)) v s' extra :
  logs_inv N A -> v ∈ ids -> rtc (el_step (list_to_set ids)) A A' ->
  refines ms (commit v s' extra N) A' ->
  node_log_ok A' v s' ->
  (forall src dst r, Request src dst (AppendEntries r) ∉ extra) -> plain_out s'.2 ->
  logs_inv (commit v s' extra N) A'.
Proof.
  intros [Hrf Hel Hn Hp] Hv Hs Hrf' Hv' Hx Hout. split; [done|by eapply el_steps_inv| |].
  - intros u Hu. unfold commit. cbn [nodes]. destruct (decide (u = v)) as [->|Hne].
    + rewrite fn_lookup_insert. by destruct Hv' as [Hl Hd].
    + rewrite fn_lookup_insert_ne by done. eapply node_log_mono; [done|]. by apply Hn.
  - intros src dst r. unfold commit. cbn [packets].
    intros [Hin|[Hin|Hin]%elem_of_app]%elem_of_app; [by destruct (Hx _ _ _ Hin)| |by eapply Hp].
    unfold sent in Hin. apply list_elem_of_fmap in Hin as ([peer q] & Hq & Hin). cbn in Hq. simplify_eq.
    unfold plain_out in Hout. rewrite Forall_forall in Hout. exact (Hout _ Hin).
Qed.

Abbreviation steps := (rtc (el_step (list_to_set ids))).

Lemma logs_inv_step (N : net) (A : astate (list byte)) v s' extra :
  logs_inv N A -> v ∈ ids -> net_step wenv renv ms N (commit v s' extra N) ->
  (forall src dst r, Request src dst (AppendEntries r) ∉ extra) ->
  (forall A', steps A A' -> is_u64 (current_term s'.1) ->
     (state s'.1 = RAFT_STATE_LEADER -> (v, current_term s'.1) ∈ leaders A') -> node_log_ok A' v s') ->
  plain_out s'.2 ->
  exists A', steps A A' /\ logs_inv (commit v s' extra N) A'.
Proof.
  intros Hinv Hv Hstep Hx Hok Hout.
  destruct (sim_step wenv renv ms Hw Hr Hcfg N _ A (lg_refines _ _ Hinv) Hstep) as (A' & Hs & Href).
  exists A'. split; [done|]. apply (logs_inv_commit N A A'); try done.
  pose proof (rf_ok _ _ _ Href v Hv) as Hnk. pose proof (fun H => refines_leader ms _ _ v Href H Hv) as Hl.
  unfold commit in Hnk, Hl. cbn [nodes] in Hnk, Hl. rewrite fn_lookup_insert in Hnk, Hl.
  apply Hok; [done|apply Hnk|]. apply Hl. eapply el_steps_inv; [|exact Hs]. apply Hinv.
Qed.

Lemma logs_inv_grows (N : net) (A : astate (list byte)) v s' extra es :
  logs_inv N A -> v ∈ ids -> net_step wenv renv ms N (commit v s' extra N) ->
  (forall src dst r, Request src dst (AppendEntries r) ∉ extra) ->
  grows es (nodes N v) s' -> small_data (log s'.1) ->
  exists A', steps A A' /\ logs_inv (commit v s' extra N) A'.
Proof.
  intros Hinv Hv Hstep Hx Hg Hsm. apply logs_inv_step; try done.
  - intros A' Hs Ht Hl. eapply node_log_grows; [|exact Hg|..]; try done.
    + eapply node_log_mono; [done|]. by apply Hinv.
    + apply (rf_ok _ _ _ (lg_refines _ _ Hinv) v Hv).
    + by apply (config_id ms Hcfg).
  - apply Hg. unfold plain_out. rewrite (rf_out _ _ _ (lg_refines _ _ Hinv) v Hv). constructor.
Qed.

Lemma logs_inv_restart (N : net) (A : astate (list byte)) v rnd now n :
  logs_inv N A -> v ∈ ids -> boot renv ms (w_fs (nodes N v).2) rnd now v = Returns (Some n) ->
  exists A', steps A A' /\ logs_inv (commit v (n, (nodes N v).2) [] N) A'.
Proof.
  intros Hinv Hv Hb. apply logs_inv_step; try done; [by eapply net_restart|set_solver| |].
  - intros A' Hs _ _. pose proof (lg_nodes _ _ Hinv v Hv) as Hn.
    apply (node_log_mono A A') in Hn; [|done]. split; [|apply Hn].
    pose proof (boot_log _ _ _ _ _ Hv Hb) as Hl. cbn [fst].
    destruct (w_fs (nodes N v).2 !! wal_path v) as [file|] eqn:Hf; [|rewrite Hl; constructor].
    destruct (nl_disk _ _ _ Hn file Hf) as (l & Hi & Ho). destruct (Hl l Hi) as [j ->].
    + eapply Forall_impl; [exact Ho|]. by intros e [_ He].
    + by apply Forall_take.
  - unfold plain_out. cbn. rewrite (rf_out _ _ _ (lg_refines _ _ Hinv) v Hv). constructor.
Qed.

(** Steps after which no log holds data of 4 GiB or more. *)
Definition fit_step (N N' : net) : Prop :=
  net_step wenv renv ms N N' /\ forall v, v ∈ ids -> small_data (log (nodes N' v).1).

Lemma commit_small v s extra N :
  (forall u, u ∈ ids -> small_data (log (nodes (commit v s extra N) u).1)) -> v ∈ ids ->
  small_data (log s.1).
Proof. intros H Hv. specialize (H v Hv). unfold commit in H. cbn in H. by rewrite fn_lookup_insert in H. Qed.

Lemma fit_step_inv (N N' : net) (A : astate (list byte)) :
  logs_inv N A -> fit_step N N' -> exists A', steps A A' /\ logs_inv N' A'.
Proof.
  intros Hinv [Hstep Hsm]. pose proof Hstep as Hs. pose proof (lg_refines _ _ Hinv) as Href.
  destruct Hstep as [v now now' rnd Hv Ht|v al data Hv|c v req now resp s' Hv Hp He
    |l v req al now ptr resp s' Hv Hp He|v c resp al Hv Hp|v l resp Hv Hp|v rnd now n Hv Hb];
    try pose proof (rf_ok _ _ _ Href v Hv) as Hok; pose proof (commit_small _ _ _ _ Hsm) as Hsv.
  - eapply logs_inv_grows; [done|done|done|set_solver|apply tick_keeps|auto].
  - destruct (submit_grows al (nodes N v) data (nk_term _ _ _ Hok)) as [es Hg].
    eapply logs_inv_grows; [done|done|done|set_solver|exact Hg|auto].
  - eapply logs_inv_grows; [done|done|done|set_solver| |auto].
    apply (rf_packets _ _ _ Href) in Hp as (_ & _ & Hrt & _).
    eapply vote_request_keeps; [done|apply Hok|done].
  - rewrite (lg_packets _ _ Hinv _ _ _ Hp) in He. apply (rf_packets _ _ _ Href) in Hp as [Hrt _].
    eapply logs_inv_grows; [done|done|done|set_solver| |auto].
    eapply append_request_keeps; [done|apply Hok|done].
  - apply (rf_packets _ _ _ Href) in Hp as (_ & Hrt & _).
    destruct (vote_response_grows al (nodes N c) v resp Hrt) as [es Hg].
    { apply (rf_ok _ _ _ Href c Hv). }
    eapply logs_inv_grows; [done|done|done|set_solver|exact Hg|auto].
  - apply (rf_packets _ _ _ Href) in Hp as Hrt.
    eapply logs_inv_grows; [done|done|done|set_solver|by apply append_response_keeps|auto].
  - by eapply logs_inv_restart.
Qed.

Lemma logs_inv_init (N : net) : net_init renv ms N -> logs_inv N a_init.
Proof.
  intros Hinit. split; [by apply (sim_init renv ms Hr Hcfg)|apply el_inv_init| |].
  - intros v Hv. destruct Hinit as [_ Hn]. destruct (Hn v Hv) as (rnd & now & n & Hb & ->).
    pose proof (boot_log _ _ _ _ _ Hv Hb) as Hl. rewrite lookup_empty in Hl.
    split; cbn; [rewrite Hl; constructor|done].
  - destruct Hinit as [-> _]. set_solver.
Qed.

End LogNet.

(** The same with a disk that fails differently in every step, as in [disk_step]. *)
Definition fit_disk_step (ms : list member) (N N' : net) : Prop :=
  exists wenv renv, header_written wenv /\ read_succeeds renv /\ fit_step wenv renv ms N N'.

Lemma fit_steps_inv (ms : list member) (N N' : net) (A : astate (list byte)) :
  config_ok ms -> logs_inv ms N A -> rtc (fit_disk_step ms) N N' ->
  exists A', rtc (el_step (list_to_set (member_ids ms))) A A' /\ logs_inv ms N' A'.
Proof.
  intros Hcfg Hinv Hs. revert A Hinv.
  induction Hs as [N|N1 N2 N3 (wenv & renv & Hw & Hr & Hs) _ IH]; intros A Hinv.
  { exists A. split; [apply rtc_refl|done]. }
  destruct (fit_step_inv wenv renv ms Hw Hr Hcfg N1 N2 A Hinv Hs) as (A2 & H2 & I2).
  destruct (IH A2 I2) as (A3 & H3 & I3). exists A3. split; [by etrans|done].
Qed.

(** C9: no entry ever leaves the node that created it.  In every run of a cluster as
    in [election_safety] (ticks, client writes, lost, duplicated and reordered
    messages, crashes between operations and restarts; entries in files may be torn,
    headers reach the disk), with commands below 4 GiB, an entry in the log of [v] at
    some point and an entry of the same term in the log of [w] then or later are in
    the log of the same member: the logs of two members have no term in common, so
    nothing a leader accepts is ever replicated. *)
Theorem entries_stay_home (renv : ReadEnv) (ms : list member)
    (N0 N1 N2 : net) (v w : list byte) (e e' : RaftLogEntry) :
  read_succeeds renv -> config_ok ms ->
  net_init renv ms N0 -> rtc (fit_disk_step ms) N0 N1 -> rtc (fit_disk_step ms) N1 N2 ->
  v ∈ member_ids ms -> w ∈ member_ids ms ->
  e ∈ log (nodes N1 v).1 -> e' ∈ log (nodes N2 w).1 -> e_term e = e_term e' -> v = w.
Proof.
  intros Hr Hcfg Hinit H01 H12 Hv Hw' He He' Ht.
  destruct (fit_steps_inv ms N0 N1 a_init) as (A1 & S1 & I1); [done|by apply (logs_inv_init write_ok renv ms write_ok_header Hr Hcfg)|done|].
  destruct (fit_steps_inv ms N1 N2 A1 Hcfg I1 H12) as (A2 & S2 & I2).
  pose proof (nl_log _ _ _ (lg_nodes _ _ _ I1 v Hv)) as Ho. pose proof (nl_log _ _ _ (lg_nodes _ _ _ I2 w Hw')) as Ho'.
  unfold own_log in *. rewrite Forall_forall in Ho, Ho'. destruct (Ho e He) as [Hl _], (Ho' e' He') as [Hl' _].
  eapply (ei_unique _ _ (lg_election _ _ _ I2)); [by eapply el_steps_leaders|]. by rewrite Ht.
Qed.

(** ** Running a schedule *)

(** What the scheduler picks; a delivery takes the newest packet of that kind. *)
Inductive event : Type :=
  | Tick (v : list byte) (now : Z)
  | Write (v data : list byte)
  | DeliverVote (c v : list byte)
  | DeliverAppend (l v : list byte)
  | DeliverVoteResponse (v c : list byte)
  | DeliverAppendResponse (v l : list byte)
  | Restart (v : list byte).

Section Schedule.
Context (wenv : WriteEnv) (renv : ReadEnv) (ms : list member).
Abbreviation cb := (net_cb wenv).

Fixpoint newest {B} (f : packet -> option B) (ps : list packet) : option B :=
  match ps with
  | [] => None
  | p :: ps' => match f p with Some b => Some b | None => newest f ps' end
  end.

Definition vote_request_of (c v : list byte) (p : packet) : option RaftRequestVoteReq :=
  match p with
  | Request c' v' (RequestVote r) => if decide (c' = c /\ v' = v) then Some r else None
  | _ => None
  end.
Definition append_request_of (l v : list byte) (p : packet) : option RaftAppendEntriesReq :=
  match p with
  | Request l' v' (AppendEntries r) => if decide (l' = l /\ v' = v) then Some r else None
  | _ => None
  end.
Definition vote_response_of (v c : list byte) (p : packet) : option RaftRequestVoteResp :=
  match p with
  | VoteResponse v' c' r => if decide (v' = v /\ c' = c) then Some r else None
  | _ => None
  end.
Definition append_response_of (v l : list byte) (p : packet) : option RaftAppendEntriesResp :=
  match p with
  | AppendResponse v' l' r => if decide (v' = v /\ l' = l) then Some r else None
  | _ => None
  end.

(** The node that acts. *)
Definition actor (e : event) : list byte :=
  match e with
  | Tick v _ | Write v _ | DeliverVote _ v | DeliverAppend _ v | Restart v => v
  | DeliverVoteResponse _ c => c
  | DeliverAppendResponse _ l => l
  end.

(** One step; an event that is not enabled is skipped. *)
Definition exec (N : net) (e : event) : net :=
  let v := actor e in
  if negb (bool_decide (v ∈ member_ids ms)) then N
  else match e with
  | Tick _ now =>
      if current_term (nodes N v).1 <? 2 ^ 64 - 1
      then commit v (raft_tick cb now now 7 (nodes N v)) [] N else N
  | Write _ data => commit v (raft_submit cb alloc_ok (nodes N v) data).2 [] N
  | DeliverVote c _ =>
      match newest (vote_request_of c v) (packets N) with
      | Some req => let r := raft_handle_request_vote cb 3000 (nodes N v) req in
                    commit v r.2 [VoteResponse v c r.1] N
      | None => N
      end
  | DeliverAppend l _ =>
      match newest (append_request_of l v) (packets N) with
      | Some req =>
          match raft_handle_append_entries cb (fun _ => alloc_ok) 3000 (nodes N v) req None (ae_entry_count req) with
          | Returns r => commit v r.2 [AppendResponse v l r.1] N
          | Undefined => N
          end
      | None => N
      end
  | DeliverVoteResponse u _ =>
      match newest (vote_response_of u v) (packets N) with
      | Some resp => commit v (raft_handle_request_vote_response cb alloc_ok (nodes N v) u resp) [] N
      | None => N
      end
  | DeliverAppendResponse u _ =>
      match newest (append_response_of u v) (packets N) with
      | Some resp => commit v (raft_handle_append_entries_response cb (nodes N v) u resp) [] N
      | None => N
      end
  | Restart _ =>
      match boot renv ms (w_fs (nodes N v).2) 7 1000 v with
      | Returns (Some n) => commit v (n, (nodes N v).2) [] N
      | _ => N
      end
  end.

Definition run (es : list event) (N : net) : net := foldl exec N es.

Lemma newest_in {B} (f : packet -> option B) ps b : newest f ps = Some b -> exists p, p ∈ ps /\ f p = Some b.
Proof.
  induction ps as [|p ps IH]; cbn; [done|]. destruct (f p) eqn:E; [intros [= <-]; exists p; by split; [left|]|].
  intros (q & Hq & Hf)%IH. exists q. by split; [right|].
Qed.

Ltac packet_found H :=
  apply newest_in in H as (p & Hp & Hf); destruct p as [? ? []| |]; cbn in Hf; try done;
  case_decide; simplify_eq; destruct_and!; simplify_eq.

Lemma exec_sound (N : net) (e : event) : exec N e = N \/ net_step wenv renv ms N (exec N e).
Proof.
  unfold exec. destruct (bool_decide _) eqn:Hm; cbn [negb]; [|by left]. bool_to_prop.
  destruct e as [v now|v data|c v|l v|u c|u l|v]; cbn [actor] in *.
  - destruct (_ <? _) eqn:E; [|by left]. bool_to_prop. right. by apply net_tick.
  - right. by apply net_submit.
  - destruct (newest _ _) as [req|] eqn:E; [|by left]. right. packet_found E.
    eapply net_vote_request; [done|done|apply surjective_pairing].
  - destruct (newest _ _) as [req|] eqn:E; [|by left].
    destruct (raft_handle_append_entries _ _ _ _ _ _ _) as [[resp s']|] eqn:Eh; [|by left].
    right. packet_found E. by eapply net_append_request.
  - destruct (newest _ _) as [resp|] eqn:E; [|by left]. right. packet_found E. by apply net_vote_response.
  - destruct (newest _ _) as [resp|] eqn:E; [|by left]. right. packet_found E. by apply net_append_response.
  - destruct (boot _ _ _ _ _ _) as [[n|]|] eqn:E; [|by left..]. right. by eapply net_restart.
Qed.

Lemma run_sound (es : list event) (N : net) : rtc (net_step wenv renv ms) N (run es N).
Proof.
  revert N. induction es as [|e es IH]; intros N; [apply rtc_refl|].
  change (run (e :: es) N) with (run es (exec N e)).
  destruct (exec_sound N e) as [->|Hs]; [apply IH|]. by eapply rtc_l.
Qed.

Definition small_net (N : net) : bool :=
  forallb (fun v => forallb (fun e => Z.of_nat (length (e_data e)) <? 2 ^ 32) (log (nodes N v).1))
    (member_ids ms).

Fixpoint run_small (es : list event) (N : net) : bool :=
  match es with
  | [] => true
  | e :: es' => small_net (exec N e) && run_small es' (exec N e)
  end.

Lemma run_fit (es : list event) (N : net) :
  run_small es N = true -> rtc (fit_step wenv renv ms) N (run es N).
Proof.
  revert N. induction es as [|e es IH]; intros N Hs; [apply rtc_refl|]. cbn in Hs. bool_to_prop.
  change (run (e :: es) N) with (run es (exec N e)).
  destruct (exec_sound N e) as [Heq|Hstep]; [rewrite Heq in *; by apply IH|].
  eapply rtc_l; [|by apply IH]. split; [done|]. intros v Hv. unfold small_net, small_data in *.
  rewrite forallb_forall in H. apply list_elem_of_In in Hv. specialize (H v Hv).
  rewrite forallb_forall in H. apply Forall_forall. intros x Hx%list_elem_of_In. by apply Z.ltb_lt, H.
Qed.
End Schedule.

(** ** Two members apply different commands *)

Definition n1 : list byte := text "n1".
Definition n2 : list byte := text "n2".
Definition n3 : list byte := text "n3".

(** A candidate wins with one vote: the first answer of a voter carries its old
    term, so the request is delivered twice. *)
Definition win (c v : list byte) (now : Z) : list event :=
  [Tick c now; DeliverVote c v; DeliverVote c v; DeliverVoteResponse v c].

Definition heartbeat (l v : list byte) (now : Z) : list event :=
  [Tick l now; DeliverAppend l v; DeliverAppend l v; DeliverAppendResponse v l].

Definition diverging : list event :=
  win n1 n2 2000 ++ [Write n1 (text "a")] ++
  win n2 n3 4000 ++ [Write n2 (text "b")] ++
  heartbeat n2 n1 5000 ++ heartbeat n2 n1 5100 ++ heartbeat n2 n1 5200 ++ heartbeat n2 n1 5300 ++
  [Tick n1 3010].

Definition diverged : net := run write_ok read_ok demo_members diverging demo_net0.

(** State machine safety fails.  There is a run of a three-member cluster, with
    no crash and no lost write, in which [n1] and [n2] apply different commands at
    the same position: [n1] leads term 1 and accepts "a", [n2] leads term 2 and
    accepts "b", a heartbeat without entries makes [n1] acknowledge its own last
    index, [n2] commits "b" on that, and the next accepted heartbeat makes [n1]
    commit "a". *)
Theorem replicas_diverge :
  exists N0 N, net_init read_ok demo_members N0 /\
    rtc (net_step write_ok read_ok demo_members) N0 N /\
    w_applied (nodes N n1).2 = [[x00]; text "a"] /\
    w_applied (nodes N n2).2 = [[x00]; text "b"].
Proof.
  exists demo_net0, diverged. split; [apply demo_net0_init|]. split; [apply run_sound|].
  split; vm_compute; reflexivity.
Qed.

Lemma entries_stay_home_witness :
  exists e, e ∈ log (nodes diverged n1).1 /\
    forall w e', w ∈ member_ids demo_members -> e' ∈ log (nodes diverged w).1 ->
      e_term e = e_term e' -> n1 = w.
Proof.
  exists {| e_term := 1; e_index := 2; e_data := text "a"; e_type := 0 |}.
  assert ({| e_term := 1; e_index := 2; e_data := text "a"; e_type := 0 |} ∈ log (nodes diverged n1).1) as Hin.
  { apply (list_elem_of_lookup_2 _ 1). vm_compute. reflexivity. }
  split; [exact Hin|]. intros w e' Hw He' Ht.
  apply (entries_stay_home read_ok demo_members demo_net0 diverged diverged n1 w
           {| e_term := 1; e_index := 2; e_data := text "a"; e_type := 0 |} e').
  - exact read_ok_succeeds.
  - exact demo_config_ok.
  - exact demo_net0_init.
  - eapply rtc_subrel; [|apply (run_fit write_ok read_ok); vm_compute; reflexivity].
    intros N N' Hs. exists write_ok, read_ok. split; [apply write_ok_header|].
    split; [apply read_ok_succeeds|exact Hs].
  - apply rtc_refl.
  - left.
  - exact Hw.
  - exact Hin.
  - exact He'.
  - exact Ht.
Defined.

(** ** Losing a header *)

(** [raft_persist_state] opens the file with [O_TRUNC] and then cannot write. *)
Definition write_lost : WriteEnv := {| write_ok with we_write := fun _ _ => None |}.

Definition lost_vote : net :=
  run write_ok read_ok demo_members
    ([DeliverVoteResponse n2 n1; Restart n2] ++ win n3 n2 4000)
    (run write_lost read_ok demo_members [DeliverVote n1 n2; DeliverVote n1 n2]
       (run write_ok read_ok demo_members [Tick n1 2000] demo_net0)).

(** The assumption on headers is needed: when the write of one vote fails and the
    voter restarts, it votes again in the same term, and the term has two leaders. *)
Theorem lost_header_two_leaders :
  rtc (fun N N' => exists wenv, net_step wenv read_ok demo_members N N') demo_net0 lost_vote /\
  state (nodes lost_vote n1).1 = RAFT_STATE_LEADER /\
  state (nodes lost_vote n3).1 = RAFT_STATE_LEADER /\
  current_term (nodes lost_vote n1).1 = current_term (nodes lost_vote n3).1.
Proof.
  split; [|vm_compute; done]. unfold lost_vote.
  assert (forall wenv N N', rtc (net_step wenv read_ok demo_members) N N' ->
    rtc (fun N N' => exists wenv, net_step wenv read_ok demo_members N N') N N') as Hsub.
  { intros wenv N N'. apply rtc_subrel. eauto. }
  etrans; [eapply Hsub, run_sound|]. etrans; eapply Hsub, run_sound.
Qed.
