(* ===== verification/Cluster.v ===== *)
(** * Cluster membership

    Models [src/cluster/cluster_manager.c] with [include/common/types.h], and the
    gossip, heartbeat and reaper callbacks of [src/main.c].  The member array
    and its count are a list, the capacity is a field.  A C [enum] is an
    integer, because roles and statuses arrive from the network unchecked. *)

From S2P Require Import Prelude RaftCore Wire.

(** ** Data *)

Definition ROLE_UNKNOWN : Z := 0.
Definition ROLE_CONTROL_NODE : Z := 1.
Definition ROLE_WORKER_NODE : Z := 2.

Definition NODE_STATUS_ALIVE : Z := 0.
Definition NODE_STATUS_SUSPECT : Z := 1.
Definition NODE_STATUS_DEAD : Z := 2.

Inductive ClusterState : Type :=
  | CLUSTER_STATE_INIT
  | CLUSTER_STATE_JOINING
  | CLUSTER_STATE_ACTIVE
  | CLUSTER_STATE_LEAVING
  | CLUSTER_STATE_ISOLATED.

Record NodeInfo : Type := {
  ni_node_id : list byte;
  ni_ip_address : list byte;
  tcp_port : Z;
  udp_port : Z;
  role : Z;
  status : Z;
  cpu_load : Z;
  mem_load : Z;
  last_updated_ts : Z;
}.

Record ClusterManager : Type := {
  self : NodeInfo;
  cluster_state : ClusterState;
  cm_members : list NodeInfo;
  member_capacity : Z;
  cluster_name : list byte;
  heartbeat_interval_ms : Z;
}.

Definition member_count (cm : ClusterManager) : Z := Z.of_nat (length (cm_members cm)).

Record JoinRequestPayload : Type := {
  jr_node_id : list byte;
  jr_ip_address : list byte;
  jr_tcp_port : Z;
  jr_udp_port : Z;
  jr_role : Z;
}.

(** [sizeof] of the packed payload structs and of [NodeInfo] with its padding. *)
Definition JOIN_REQUEST_SIZE : nat := 89.
Definition JOIN_RESPONSE_SIZE : nat := 45.
Definition NODE_INFO_SIZE : nat := 112.

Definition zero_node : NodeInfo :=
  {| ni_node_id := zeros 37; ni_ip_address := zeros 46; tcp_port := 0; udp_port := 0;
     role := 0; status := 0; cpu_load := 0; mem_load := 0; last_updated_ts := 0 |}.

(** The request as [cluster_join] lays it out and as the server reads it after
    [ntohs]. *)
Definition join_request_bytes (r : JoinRequestPayload) : list byte :=
  jr_node_id r ++ jr_ip_address r ++ net_bytes 2 (jr_tcp_port r) ++ net_bytes 2 (jr_udp_port r)
  ++ net_bytes 2 (jr_role r).

Definition join_request_of (b : list byte) : JoinRequestPayload :=
  {| jr_node_id := field 0 37 b; jr_ip_address := field 37 46 b;
     jr_tcp_port := of_net (field 83 2 b); jr_udp_port := of_net (field 85 2 b);
     jr_role := of_net (field 87 2 b) |}.

(** [htons] on a value, as a number. *)
Definition htons (z : Z) : Z := of_host (net_bytes 2 z).

(** A [NodeInfo] of the response; [pad] are the seven padding bytes. *)
Definition node_info_bytes (pad : list byte) (n : NodeInfo) : list byte :=
  ni_node_id n ++ ni_ip_address n ++ take 1 pad
  ++ host_bytes 2 (htons (tcp_port n)) ++ host_bytes 2 (htons (udp_port n))
  ++ host_bytes 4 (htons (role n)) ++ host_bytes 4 (htons (status n))
  ++ host_bytes 1 (cpu_load n) ++ host_bytes 1 (mem_load n) ++ drop 1 pad
  ++ net_bytes 8 (last_updated_ts n).

Definition join_response_bytes (pads : nat -> list byte) (cm : ClusterManager) : list byte :=
  host_bytes 4 0 ++ net_bytes 4 (member_count cm)
  ++ strncpy (zeros 37) (ni_node_id (self cm)) 36
  ++ concat (imap (fun i n => node_info_bytes (pads i) n) (cm_members cm)).

(** ** Operations *)

Definition ensure_capacity (al : Alloc) (cm : ClusterManager) : ClusterManager :=
  if member_count cm <? member_capacity cm then cm
  else if realloc_ok al then
    {| cm with member_capacity :=
         if member_capacity cm =? 0 then 8 else u64 (member_capacity cm * 2) |}
  else cm.

Definition cluster_init (r : Z) (id ip : list byte) (port now : Z) : Z * ClusterManager :=
  (0, {| self := {| ni_node_id := strncpy (zeros 37) id 36;
                    ni_ip_address := strncpy (zeros 46) ip 45;
                    tcp_port := port; udp_port := port; role := r;
                    status := NODE_STATUS_ALIVE; cpu_load := 0; mem_load := 0;
                    last_updated_ts := now |};
         cluster_state := CLUSTER_STATE_INIT;
         cm_members := []; member_capacity := 0;
         cluster_name := zeros 32; heartbeat_interval_ms := 0 |}).

(** Position and contents of the first member with that id. *)
Definition find_member (cm : ClusterManager) (id : list byte) : option (nat * NodeInfo) :=
  list_find (fun m => streq (ni_node_id m) id = true) (cm_members cm).

(** [now] is the monotonic clock.  The log line of a transition is [update_line]. *)
Definition cluster_update_member_status (now : Z) (cm : ClusterManager) (id : list byte)
    (st : Z) : Z * ClusterManager :=
  match find_member cm id with
  | Some (i, m) =>
      (1, {| cm with cm_members :=
               <[i := {| m with status := st; last_updated_ts := now |}]> (cm_members cm) |})
  | None => (0, cm)
  end.

(** The names of the statuses, indexed by status: an index beyond them is an access
    out of bounds. *)
Definition status_str : list string := ["ALIVE"; "SUSPECT"; "DEAD"]%string.

Definition status_name (st : Z) : outcome string :=
  if st <? 0 then Undefined
  else match status_str !! Z.to_nat st with Some s => Returns s | None => Undefined end.

(** What [cluster_update_member_status] logs: the id, the old and the new status of
    a member whose status changes. *)
Definition update_line (cm : ClusterManager) (id : list byte) (st : Z)
  : outcome (option (list byte * string * string)) :=
  match find_member cm id with
  | Some (_, m) =>
      if status m =? st then Returns None
      else
        match status_name (status m), status_name st with
        | Returns o, Returns n => Returns (Some (id, o, n))
        | _, _ => Undefined
        end
  | None => Returns None
  end.

(** [wall] is [time(NULL)]; [al] the reallocation of the array and the
    allocation of the response. *)
Definition cluster_handle_join_req (al : Alloc) (pads : nat -> list byte) (wall : Z)
    (cm : ClusterManager) (req : JoinRequestPayload) : Z * option (list byte) * ClusterManager :=
  let build_response cm' :=
    if malloc_ok al then (0, Some (join_response_bytes pads cm'), cm') else (-1, None, cm') in
  match find_member cm (jr_node_id req) with
  | Some (i, m) =>
      build_response {| cm with cm_members :=
        <[i := {| m with ni_ip_address := strncpy (ni_ip_address m) (jr_ip_address req) 45;
                         tcp_port := jr_tcp_port req; udp_port := jr_udp_port req;
                         role := jr_role req; status := NODE_STATUS_ALIVE;
                         last_updated_ts := wall |}]> (cm_members cm) |}
  | None =>
      let cm1 := ensure_capacity al cm in
      if member_count cm1 >=? member_capacity cm1 then (-1, None, cm1)
      else
        build_response {| cm1 with cm_members := cm_members cm1 ++
          [{| ni_node_id := strncpy (zeros 37) (jr_node_id req) 36;
              ni_ip_address := strncpy (zeros 46) (jr_ip_address req) 45;
              tcp_port := jr_tcp_port req; udp_port := jr_udp_port req;
              role := jr_role req; status := NODE_STATUS_ALIVE;
              cpu_load := 0; mem_load := 0; last_updated_ts := wall |}] |}
  end.

(** ** Joining through a seed *)

Definition join_request (cm : ClusterManager) : JoinRequestPayload :=
  {| jr_node_id := strncpy (zeros 37) (ni_node_id (self cm)) 36;
     jr_ip_address := strncpy (zeros 46) (ni_ip_address (self cm)) 45;
     jr_tcp_port := tcp_port (self cm); jr_udp_port := udp_port (self cm);
     jr_role := role (self cm) |}.

Definition join_header (cm : ClusterManager) : RpcHeader :=
  {| magic := RPC_MAGIC; version := 1; command_type := RPC_CMD_JOIN_REQ;
     payload_len := Z.of_nat JOIN_REQUEST_SIZE;
     origin_id := strncpy (zeros 37) (ni_node_id (self cm)) 36; request_id := zeros 37 |}.

(** The bytes a joining node sends. *)
Definition join_message (cm : ClusterManager) : list byte :=
  serializer_pack_rpc (join_header cm) ++ join_request_bytes (join_request cm).

(** One round of the import loop on the entry at offset [off] of the payload;
    [junk] is what the fresh array slot held. *)
Definition import_member (al : Alloc) (junk : Z * Z) (now : Z) (payload : list byte) (off : nat)
    (cm : ClusterManager) : option ClusterManager :=
  if streq (drop off payload) (ni_node_id (self cm)) then Some cm
  else
    let cm1 := ensure_capacity al cm in
    if member_count cm1 >=? member_capacity cm1 then None
    else
      let src := drop off payload in
      Some {| cm1 with cm_members := cm_members cm1 ++
        [{| ni_node_id := field 0 37 src; ni_ip_address := field 37 46 src;
            tcp_port := of_net (field 84 2 src); udp_port := of_net (field 86 2 src);
            role := of_net (host_bytes 2 (of_host (field 88 4 src)));
            status := of_net (host_bytes 2 (of_host (field 92 4 src)));
            cpu_load := junk.1; mem_load := junk.2; last_updated_ts := now |}] |}.

(** [for (i = 0; i < member_count; i++)]; reading past the payload is
    undefined. *)
Fixpoint import_members (al : nat -> Alloc) (junk : nat -> Z * Z) (now : Z)
    (payload : list byte) (i : nat) (rounds : nat) (cm : ClusterManager)
  : outcome ClusterManager :=
  match rounds with
  | O => Returns cm
  | S rounds' =>
      let off := (JOIN_RESPONSE_SIZE + i * NODE_INFO_SIZE)%nat in
      if (length payload <? off + NODE_INFO_SIZE)%nat then Undefined
      else
        match import_member (al i) (junk i) now payload off cm with
        | None => Returns cm
        | Some cm1 => import_members al junk now payload (S i) rounds' cm1
        end
  end.

Definition add_seed (al : Alloc) (now : Z) (seed_id seed_ip : list byte) (seed_port : Z)
    (cm : ClusterManager) : ClusterManager :=
  match find_member cm seed_id with
  | Some _ => cm
  | None =>
      let cm1 := ensure_capacity al cm in
      if member_count cm1 <? member_capacity cm1 then
        {| cm1 with cm_members := cm_members cm1 ++
          [{| zero_node with ni_node_id := strncpy (zeros 37) seed_id 36;
                             ni_ip_address := strncpy (zeros 46) seed_ip 45;
                             tcp_port := seed_port; udp_port := seed_port;
                             status := NODE_STATUS_ALIVE; last_updated_ts := now |}] |}
      else cm1
  end.

(** Processing of the response payload. *)
Definition import_response (al : nat -> Alloc) (junk : nat -> Z * Z) (now : Z)
    (seed_ip : list byte) (seed_port : Z) (payload : list byte) (cm : ClusterManager)
  : outcome ClusterManager :=
  if (length payload <? JOIN_RESPONSE_SIZE)%nat then Undefined
  else
    let count := of_net (field 4 4 payload) in
    let seed_id := take 36 (cstr (drop 8 payload)) in
    match import_members al junk now payload 0 (Z.to_nat count) cm with
    | Undefined => Undefined
    | Returns cm1 => Returns (add_seed (al (Z.to_nat count)) now seed_id seed_ip seed_port cm1)
    end.

(** [cluster_join]; [exchange] is the TCP exchange with the seed: [None] when
    the connection or a send fails, otherwise the bytes received before the
    connection closes. *)
Definition cluster_join (exchange : list byte -> Z -> list byte -> option (list byte))
    (malloc_payload : bool) (al : nat -> Alloc) (junk : nat -> Z * Z) (now : Z)
    (cm : ClusterManager) (seed_ip : list byte) (seed_port : Z) : outcome (Z * ClusterManager) :=
  match exchange seed_ip seed_port (join_message cm) with
  | None => Returns (-1, cm)
  | Some stream =>
      if (length stream <? RPC_HEADER_SIZE)%nat then Returns (-1, cm)
      else
        let hdr := serializer_unpack_rpc stream in
        let rest := drop RPC_HEADER_SIZE stream in
        if negb (magic hdr =? RPC_MAGIC) || negb (command_type hdr =? RPC_CMD_JOIN_RESP)
        then Returns (-1, cm)
        else if payload_len hdr >? 0 then
          if negb malloc_payload then Returns (-1, cm)
          else if Z.of_nat (length rest) <? payload_len hdr then Returns (-1, cm)
          else
            match import_response al junk now seed_ip seed_port
                    (take (Z.to_nat (payload_len hdr)) rest) cm with
            | Undefined => Undefined
            | Returns cm1 => Returns (0, {| cm1 with cluster_state := CLUSTER_STATE_ACTIVE |})
            end
        else Returns (0, {| cm with cluster_state := CLUSTER_STATE_ACTIVE |})
  end.

(** ** Leaving *)

Definition leave_header (cm : ClusterManager) : RpcHeader :=
  {| magic := RPC_MAGIC; version := 1; command_type := RPC_CMD_LEAVE; payload_len := 0;
     origin_id := strncpy (zeros 37) (ni_node_id (self cm)) 36;
     request_id := text "LEAVE-MSG" ++ zeros 28 |}.

(** The members a LEAVE reaches: [send] tells whether connecting and sending to
    a member succeeds; the loop stops after three. *)
Fixpoint leave_targets (send : NodeInfo -> bool) (id : list byte) (sent : nat)
    (ms : list NodeInfo) : list NodeInfo :=
  match ms with
  | [] => []
  | m :: ms' =>
      if (3 <=? sent)%nat then []
      else if streq (ni_node_id m) id then leave_targets send id sent ms'
      else if (status m =? NODE_STATUS_ALIVE) && send m
           then m :: leave_targets send id (S sent) ms'
           else leave_targets send id sent ms'
  end.

Definition cluster_leave (send : NodeInfo -> bool) (cm : ClusterManager)
  : list (NodeInfo * list byte) * ClusterManager :=
  (map (fun m => (m, serializer_pack_rpc (leave_header cm)))
       (leave_targets send (ni_node_id (self cm)) 0 (cm_members cm)),
   {| cm with cluster_state := CLUSTER_STATE_LEAVING |}).

(** ** Gossip, heartbeat and reaper callbacks *)

(** [on_gossip_receive] on a datagram. *)
Definition on_gossip_receive (now : Z) (cm : ClusterManager) (datagram : list byte)
  : ClusterManager :=
  if (length datagram <? GOSSIP_SIZE)%nat then cm
  else
    let pkt := serializer_unpack_gossip datagram in
    if negb (g_magic pkt =? GOSSIP_MAGIC) then cm
    else (cluster_update_member_status now cm (g_node_id pkt) NODE_STATUS_ALIVE).2.

(** What it logs about the status. *)
Definition gossip_line (cm : ClusterManager) (datagram : list byte)
  : outcome (option (list byte * string * string)) :=
  if (length datagram <? GOSSIP_SIZE)%nat then Returns None
  else
    let pkt := serializer_unpack_gossip datagram in
    if negb (g_magic pkt =? GOSSIP_MAGIC) then Returns None
    else update_line cm (g_node_id pkt) NODE_STATUS_ALIVE.

(** The gossip targets: from a random start, at most three members that are
    neither self nor dead. *)
Fixpoint gossip_targets (id : list byte) (sent : nat) (ms : list NodeInfo) : list NodeInfo :=
  match ms with
  | [] => []
  | m :: ms' =>
      if (3 <=? sent)%nat then []
      else if streq (ni_node_id m) id then gossip_targets id sent ms'
      else if status m =? NODE_STATUS_DEAD then gossip_targets id sent ms'
      else m :: gossip_targets id (S sent) ms'
  end.

Definition on_heartbeat_timer (now rnd : Z) (cm : ClusterManager)
  : list (NodeInfo * list byte) :=
  let pkt := {| g_magic := GOSSIP_MAGIC; g_type := 1; g_sequence := u32 now;
                g_node_id := strncpy (zeros 37) (ni_node_id (self cm)) 36 |} in
  let start := Z.to_nat (rnd mod member_count cm) in
  map (fun m => (m, serializer_pack_gossip pkt))
      (if member_count cm >? 0
       then gossip_targets (ni_node_id (self cm)) 0
              (drop start (cm_members cm) ++ take start (cm_members cm))
       else []).

Definition reap (now : Z) (id : list byte) (m : NodeInfo) : NodeInfo :=
  if streq (ni_node_id m) id then m
  else
    let diff := if now >? last_updated_ts m then now - last_updated_ts m else 0 in
    if diff >? 3000 then {| m with status := NODE_STATUS_DEAD |}
    else if (diff >? 1500) && (status m =? NODE_STATUS_ALIVE)
         then {| m with status := NODE_STATUS_SUSPECT |}
         else m.

Definition cluster_reaper_tick (now : Z) (cm : ClusterManager) : ClusterManager :=
  {| cm with cm_members := map (reap now (ni_node_id (self cm))) (cm_members cm) |}.

(** ** Statuses *)

(** Every status is one of the enumeration's. *)
Definition statuses_ok (cm : ClusterManager) : Prop :=
  Forall (fun m => 0 <= status m <= 2) (cm_members cm).

Lemma status_name_ok (st : Z) : 0 <= st <= 2 -> exists s, status_name st = Returns s.
Proof.
  intros Hst. assert (st = 0 \/ st = 1 \/ st = 2) as [->|[->| ->]] by lia; eexists; reflexivity.
Qed.

(** With statuses of the enumeration the log line is in bounds, and it is written
    exactly when the status changes. *)
Lemma update_line_ok (cm : ClusterManager) (id : list byte) (st : Z) :
  statuses_ok cm -> 0 <= st <= 2 ->
  exists l, update_line cm id st = Returns l /\
    (l = None <-> forall i m, find_member cm id = Some (i, m) -> status m = st).
Proof.
  intros Hs Hst. unfold update_line, statuses_ok in *.
  destruct (find_member cm id) as [[i m]|] eqn:E; [|exists None; split; [done|]; split; done].
  apply list_find_Some in E as (Hi & _ & _). pose proof (Forall_lookup_1 _ _ _ _ Hs Hi) as Hm.
  cbn in Hm. destruct (Z.eqb_spec (status m) st) as [He|He].
  - exists None. split; [done|]. split; [|done]. by intros _ ? ? [= <- <-].
  - destruct (status_name_ok _ Hm) as [o ->], (status_name_ok _ Hst) as [n ->].
    eexists. split; [done|]. split; [done|]. intros H. destruct He. by eapply H.
Qed.

Lemma update_statuses (now st : Z) (cm : ClusterManager) (id : list byte) :
  statuses_ok cm -> 0 <= st <= 2 -> statuses_ok (cluster_update_member_status now cm id st).2.
Proof.
  intros Hs Hst. unfold cluster_update_member_status. destruct (find_member cm id) as [[i m]|]; [|done].
  by apply Forall_insert.
Qed.

Lemma gossip_statuses (now : Z) (cm : ClusterManager) (d : list byte) :
  statuses_ok cm -> statuses_ok (on_gossip_receive now cm d).
Proof.
  intros Hs. unfold on_gossip_receive. destruct (_ <? _)%nat; [done|]. destruct (negb _); [done|].
  by apply update_statuses.
Qed.

Lemma gossip_line_ok (cm : ClusterManager) (d : list byte) :
  statuses_ok cm -> exists l, gossip_line cm d = Returns l.
Proof.
  intros Hs. unfold gossip_line. destruct (_ <? _)%nat; [eauto|]. destruct (negb _); [eauto|].
  destruct (update_line_ok cm (g_node_id (serializer_unpack_gossip d)) NODE_STATUS_ALIVE Hs)
    as (l & Hl & _); [done|eauto].
Qed.

Lemma reaper_statuses (now : Z) (cm : ClusterManager) :
  statuses_ok cm -> statuses_ok (cluster_reaper_tick now cm).
Proof.
  intros Hs. apply Forall_map. eapply Forall_impl; [exact Hs|]. intros m Hm. unfold reap. cbn in *.
  destruct (streq _ _); [done|]. destruct (_ >? 3000); [done|]. by destruct (_ && _).
Qed.

Lemma join_req_statuses (al : Alloc) (pads : nat -> list byte) (wall : Z) (cm : ClusterManager)
    (req : JoinRequestPayload) :
  statuses_ok cm -> statuses_ok (cluster_handle_join_req al pads wall cm req).2.
Proof.
  intros Hs. unfold cluster_handle_join_req. destruct (find_member cm _) as [[i m]|].
  - destruct (malloc_ok al); by apply Forall_insert.
  - assert (cm_members (ensure_capacity al cm) = cm_members cm) as He.
    { unfold ensure_capacity. destruct (_ <? _); [done|]. by destruct (realloc_ok al). }
    destruct (_ >=? _); [unfold statuses_ok in *; cbn; by rewrite He|].
    destruct (malloc_ok al); unfold statuses_ok in *; cbn; rewrite He;
      (apply Forall_app; split; [done|by apply Forall_singleton]).
Qed.

(** ** Invariant *)

Definition cm_ids (cm : ClusterManager) : list (list byte) :=
  map (fun m => cstr (ni_node_id m)) (cm_members cm).

Definition info_ok (m : NodeInfo) : Prop :=
  char_array 37 (ni_node_id m) /\ char_array 46 (ni_ip_address m).

Record cluster_wf (cm : ClusterManager) : Prop := {
  cw_ids : NoDup (cm_ids cm);
  cw_infos : Forall info_ok (cm_members cm);
  cw_self : info_ok (self cm);
  cw_cap : member_count cm <= member_capacity cm < 2 ^ 62;
}.

Lemma find_member_Some (cm : ClusterManager) (id : list byte) (i : nat) (m : NodeInfo) :
  find_member cm id = Some (i, m) -> cm_members cm !! i = Some m /\ cstr (ni_node_id m) = cstr id.
Proof. unfold find_member. rewrite list_find_Some. intros (H1 & H2%streq_true & _). done. Qed.

Lemma find_member_None (cm : ClusterManager) (id : list byte) :
  find_member cm id = None <-> cstr id ∉ cm_ids cm.
Proof.
  unfold find_member, cm_ids. rewrite list_find_None, Forall_forall, list_elem_of_fmap.
  setoid_rewrite streq_true. naive_solver.
Qed.

(** With distinct ids, looking up an id finds the member that has it. *)
Lemma find_member_elem (cm : ClusterManager) (id : list byte) (m : NodeInfo) :
  NoDup (cm_ids cm) -> m ∈ cm_members cm -> cstr (ni_node_id m) = cstr id ->
  snd <$> find_member cm id = Some m.
Proof.
  intros Hnd Hm Hid. destruct (find_member cm id) as [[i m']|] eqn:E.
  - apply find_member_Some in E as [Hi Hid'].
    apply list_elem_of_lookup in Hm as [j Hj]. cbn. f_equal.
    assert (i = j) as ->; [|congruence].
    apply (NoDup_lookup (cm_ids cm) i j (cstr id)); [done|..]; unfold cm_ids;
      rewrite list_lookup_fmap; [rewrite Hi|rewrite Hj]; cbn; congruence.
  - apply find_member_None in E. destruct E. apply list_elem_of_fmap. eauto.
Qed.

Lemma insert_cm_ids (ms : list NodeInfo) (i : nat) (m m' : NodeInfo) :
  ms !! i = Some m -> ni_node_id m' = ni_node_id m ->
  map (fun m => cstr (ni_node_id m)) (<[i := m']> ms) = map (fun m => cstr (ni_node_id m)) ms.
Proof.
  intros Hi Hid. apply list_eq. intros j. rewrite !list_lookup_fmap.
  destruct (decide (i = j)) as [->|Hne].
  - rewrite list_lookup_insert_eq, Hi by (by eapply lookup_lt_Some). cbn. by rewrite Hid.
  - by rewrite list_lookup_insert_ne.
Qed.

(** Updating the member at [i] in place keeps the invariant. *)
Lemma wf_update_member (cm : ClusterManager) (i : nat) (m m' : NodeInfo) :
  cluster_wf cm -> cm_members cm !! i = Some m -> ni_node_id m' = ni_node_id m -> info_ok m' ->
  cluster_wf {| cm with cm_members := <[i := m']> (cm_members cm) |}.
Proof.
  intros [] Hi Hid Hok. constructor; try done.
  - unfold cm_ids in *. cbn. by erewrite insert_cm_ids.
  - cbn. by apply Forall_insert.
  - unfold member_count in *. cbn. by rewrite length_insert.
Qed.

Definition cap_ok (cm : ClusterManager) : Prop := member_count cm <= member_capacity cm < 2 ^ 62.

Lemma ensure_capacity_room (al : Alloc) (cm : ClusterManager) :
  cap_ok cm -> realloc_ok al = true -> member_count cm < 2 ^ 60 ->
  exists cap, ensure_capacity al cm = {| cm with member_capacity := cap |} /\
    member_count cm < cap < 2 ^ 62.
Proof.
  intros Hcap Hr Hs. unfold ensure_capacity, cap_ok in *. rewrite Hr.
  assert (0 <= member_count cm) by (unfold member_count; lia).
  destruct (Z.ltb_spec (member_count cm) (member_capacity cm)).
  - exists (member_capacity cm). split; [by destruct cm|lia].
  - eexists. split; [done|]. destruct (Z.eqb_spec (member_capacity cm) 0); [lia|].
    rewrite u64_small; [lia|]. unfold is_u64. lia.
Qed.

(** Appending a member with a new id keeps the invariant. *)
Lemma wf_append_member (cm : ClusterManager) (m : NodeInfo) (cap : Z) :
  cluster_wf cm -> cstr (ni_node_id m) ∉ cm_ids cm -> info_ok m ->
  member_count cm < cap < 2 ^ 62 ->
  cluster_wf {| cm with cm_members := cm_members cm ++ [m]; member_capacity := cap |}.
Proof.
  intros [] Hnew Hok Hcap. constructor; try done.
  - unfold cm_ids in *. cbn. rewrite map_app. apply NoDup_app. split; [done|].
    split; [|apply NoDup_singleton]. by intros x Hx ->%list_elem_of_singleton.
  - cbn. by apply Forall_app_2; [|apply Forall_singleton].
  - unfold member_count in *. cbn. rewrite length_app. cbn. lia.
Qed.

Lemma find_member_insert_other (cm : ClusterManager) (i : nat) (m m' : NodeInfo) (id : list byte) :
  cluster_wf cm -> cm_members cm !! i = Some m -> ni_node_id m' = ni_node_id m ->
  cstr id <> cstr (ni_node_id m) ->
  snd <$> find_member {| cm with cm_members := <[i := m']> (cm_members cm) |} id
  = snd <$> find_member cm id.
Proof.
  intros Hwf Hi Hid Hne. set (cm' := {| cm with cm_members := _ |}).
  assert (NoDup (cm_ids cm')) as Hnd.
  { unfold cm_ids. cbn. erewrite insert_cm_ids by done. apply Hwf. }
  destruct (find_member cm id) as [[j q]|] eqn:E.
  - apply find_member_Some in E as [Hj Hq]. apply find_member_elem; [done| |done].
    apply list_elem_of_lookup. exists j. cbn. rewrite list_lookup_insert_ne; [done|].
    intros ->. congruence.
  - apply find_member_None in E. assert (find_member cm' id = None) as ->; [|done].
    apply find_member_None. unfold cm_ids in *. cbn. by erewrite insert_cm_ids.
Qed.

Lemma find_member_append_other (cm : ClusterManager) (m : NodeInfo) (cap : Z) (id : list byte) :
  cluster_wf cm -> cstr (ni_node_id m) ∉ cm_ids cm -> cstr id <> cstr (ni_node_id m) ->
  snd <$> find_member {| cm with cm_members := cm_members cm ++ [m]; member_capacity := cap |} id
  = snd <$> find_member cm id.
Proof.
  intros Hwf Hnew Hne. set (cm' := {| cm with cm_members := _; member_capacity := _ |}).
  assert (cm_ids cm' = cm_ids cm ++ [cstr (ni_node_id m)]) as Hids
    by (unfold cm_ids; cbn; by rewrite map_app).
  assert (NoDup (cm_ids cm')) as Hnd.
  { rewrite Hids. apply NoDup_app. split; [apply Hwf|]. split; [|apply NoDup_singleton].
    by intros x Hx ->%list_elem_of_singleton. }
  destruct (find_member cm id) as [[j q]|] eqn:E.
  - apply find_member_Some in E as [Hj Hq]. apply find_member_elem; [done| |done].
    cbn. apply elem_of_app. left. by eapply list_elem_of_lookup_2.
  - apply find_member_None in E. assert (find_member cm' id = None) as ->; [|done].
    apply find_member_None. rewrite Hids. set_solver.
Qed.

(** ** Joining at the seed *)

Definition req_ok (req : JoinRequestPayload) : Prop := (length (cstr (jr_node_id req)) < 37)%nat.

(** The member [m] carries what the request announced. *)
Definition announces (req : JoinRequestPayload) (m : NodeInfo) : Prop :=
  cstr (ni_node_id m) = cstr (jr_node_id req) /\
  cstr (ni_ip_address m) = take 45 (cstr (jr_ip_address req)) /\
  tcp_port m = jr_tcp_port req /\ udp_port m = jr_udp_port req /\ role m = jr_role req /\
  status m = NODE_STATUS_ALIVE.

Lemma join_req_spec (al : Alloc) (pads : nat -> list byte) (wall : Z)
    (cm : ClusterManager) (req : JoinRequestPayload) :
  cluster_wf cm -> req_ok req -> realloc_ok al = true -> malloc_ok al = true ->
  member_count cm < 2 ^ 60 ->
  exists cm', cluster_handle_join_req al pads wall cm req
              = (0, Some (join_response_bytes pads cm'), cm') /\
    cluster_wf cm' /\
    (exists m, snd <$> find_member cm' (jr_node_id req) = Some m /\ announces req m /\
       last_updated_ts m = wall) /\
    forall id, cstr id <> cstr (jr_node_id req) ->
      snd <$> find_member cm' id = snd <$> find_member cm id.
Proof.
  intros Hwf Hreq Hr Hm Hcap. unfold cluster_handle_join_req. rewrite Hm.
  destruct (find_member cm (jr_node_id req)) as [[i m]|] eqn:E.
  - apply find_member_Some in E as [Hi Hid]. eexists. split; [done|].
    set (m' := {| m with ni_ip_address := _; tcp_port := _; udp_port := _; role := _;
                         status := _; last_updated_ts := _ |}).
    assert (info_ok m) as [Hmid Hmip]
      by (eapply Forall_lookup_1; [apply (cw_infos _ Hwf)|done]).
    assert (info_ok m') as Hok by (split; [done|cbn; auto with droole]).
    pose proof (wf_update_member cm i m m' Hwf Hi eq_refl Hok) as Hwf'.
    split; [done|]. split.
    + exists m'. split.
      * apply find_member_elem; [apply Hwf'| |done]. cbn.
        apply list_elem_of_insert. by eapply lookup_lt_Some.
      * split; [|done]. split; [done|]. split; [|done]. by apply (cstr_strncpy 46); [lia|].
    + intros id Hne. apply (find_member_insert_other cm i m m'); [done..|congruence].
  - apply find_member_None in E.
    destruct (ensure_capacity_room al cm (cw_cap _ Hwf) Hr Hcap) as (cap & -> & Hc).
    unfold member_count in *. cbn [cm_members member_capacity].
    rewrite Z.geb_leb, (proj2 (Z.leb_gt _ _)) by lia. eexists. split; [done|].
    match goal with |- context [cm_members cm ++ [?x]] => set (m' := x) end.
    assert (cstr (ni_node_id m') = cstr (jr_node_id req)) as Hid'
      by (apply cstr_strncpy37; [auto with droole|done]).
    assert (info_ok m') as Hok by (split; cbn; auto with droole).
    assert (cluster_wf {| cm with cm_members := cm_members cm ++ [m']; member_capacity := cap |})
      as Hwf' by (apply wf_append_member; [done|by rewrite Hid'|done|done]).
    split; [exact Hwf'|]. split.
    + exists m'. split.
      * apply find_member_elem; [apply Hwf'| |done]. cbn. apply elem_of_app. right. left.
      * split; [|done]. split; [done|]. split; [|done]. apply (cstr_strncpy 46); [lia|auto with droole].
    + intros id Hne. apply (find_member_append_other cm m' cap); rewrite ?Hid'; done.
Qed.

(** A JOIN_REQ with memory available succeeds, keeps the member list
    well formed (distinct ids), leaves the node that asked in it exactly once,
    alive and with the announced address, ports and role, leaves every other
    member as it was, and answers with the member list after the join. *)
Theorem join_req_membership (al : Alloc) (pads : nat -> list byte) (wall : Z)
    (cm : ClusterManager) (req : JoinRequestPayload) :
  cluster_wf cm -> req_ok req -> realloc_ok al = true -> malloc_ok al = true ->
  member_count cm < 2 ^ 60 ->
  exists cm', cluster_handle_join_req al pads wall cm req
              = (0, Some (join_response_bytes pads cm'), cm') /\
    cluster_wf cm' /\
    (exists m, snd <$> find_member cm' (jr_node_id req) = Some m /\ announces req m) /\
    forall id, cstr id <> cstr (jr_node_id req) ->
      snd <$> find_member cm' id = snd <$> find_member cm id.
Proof.
  intros Hwf Hreq Hr Hm Hcap.
  destruct (join_req_spec al pads wall cm req Hwf Hreq Hr Hm Hcap)
    as (cm' & Heq & Hwf' & (m & Hf & Ha & _) & Hother). eauto 10.
Qed.

Definition demo_seed : ClusterManager :=
  (cluster_init ROLE_CONTROL_NODE (text "seed-01") (text "10.0.0.1") 9000 500).2.

Definition demo_joiner : ClusterManager :=
  (cluster_init ROLE_WORKER_NODE (text "w1") (text "10.0.0.2") 9000 500).2.

Lemma demo_seed_wf : cluster_wf demo_seed.
Proof. constructor; [constructor|constructor|by repeat split|done]. Qed.

Lemma join_req_membership_witness :
  exists cm', cluster_handle_join_req alloc_ok (fun _ => zeros 7) 1700000000 demo_seed
                (join_request demo_joiner)
              = (0, Some (join_response_bytes (fun _ => zeros 7) cm'), cm') /\
    cluster_wf cm' /\
    (exists m, snd <$> find_member cm' (jr_node_id (join_request demo_joiner)) = Some m /\
       announces (join_request demo_joiner) m) /\
    forall id, cstr id <> cstr (jr_node_id (join_request demo_joiner)) ->
      snd <$> find_member cm' id = snd <$> find_member demo_seed id.
Proof.
  apply join_req_membership; [exact demo_seed_wf|vm_compute; lia|reflexivity|reflexivity|].
  vm_compute. reflexivity.
Defined.

(** ** Failure detection *)

Lemma reap_other (now : Z) (id : list byte) (m : NodeInfo) :
  cstr (ni_node_id m) <> cstr id ->
  reap now id m
  = {| m with status :=
         if decide (3000 < now - last_updated_ts m) then NODE_STATUS_DEAD
         else if decide (1500 < now - last_updated_ts m /\ status m = NODE_STATUS_ALIVE)
              then NODE_STATUS_SUSPECT else status m |}.
Proof.
  intros Hne. unfold reap. rewrite (proj2 (streq_false _ _)) by done.
  set (diff := if now >? last_updated_ts m then now - last_updated_ts m else 0).
  assert (diff = Z.max 0 (now - last_updated_ts m)) as Hd.
  { unfold diff. rewrite Z.gtb_ltb. destruct (Z.ltb_spec (last_updated_ts m) now); lia. }
  rewrite Hd, !Z.gtb_ltb. destruct (Z.ltb_spec 3000 (Z.max 0 (now - last_updated_ts m))).
  { by rewrite decide_True by lia. }
  rewrite decide_False by lia.
  destruct (Z.ltb_spec 1500 (Z.max 0 (now - last_updated_ts m))); cbn [andb];
    [destruct (Z.eqb_spec (status m) NODE_STATUS_ALIVE)|].
  - by rewrite decide_True by (split; [lia|done]).
  - rewrite decide_False by naive_solver. by destruct m.
  - rewrite decide_False by lia. by destruct m.
Qed.

(** The reaper classifies every other member by its silence: more than 3000
    ms is DEAD, more than 1500 ms turns ALIVE into SUSPECT, anything else keeps
    the status; it never revives a member and changes nothing but statuses, and
    the member list stays well formed. *)
Theorem reaper_classifies (now : Z) (cm : ClusterManager) (i : nat) (m : NodeInfo) :
  cluster_wf cm -> cm_members cm !! i = Some m ->
  cstr (ni_node_id m) <> cstr (ni_node_id (self cm)) ->
  cluster_wf (cluster_reaper_tick now cm) /\
  exists st, cm_members (cluster_reaper_tick now cm) !! i = Some {| m with status := st |} /\
    (3000 < now - last_updated_ts m -> st = NODE_STATUS_DEAD) /\
    (1500 < now - last_updated_ts m <= 3000 ->
     st = if decide (status m = NODE_STATUS_ALIVE) then NODE_STATUS_SUSPECT else status m) /\
    (now - last_updated_ts m <= 1500 -> st = status m).
Proof.
  intros Hwf Hi Hne. split.
  - destruct Hwf as [Hids Hinfo Hself Hcap].
    assert (forall m, ni_node_id (reap now (ni_node_id (self cm)) m) = ni_node_id m /\
      ni_ip_address (reap now (ni_node_id (self cm)) m) = ni_ip_address m) as Hreap
      by (intros q; unfold reap; by repeat case_match).
    constructor; try done.
    + unfold cm_ids in *. cbn. rewrite map_map. erewrite map_ext; [exact Hids|].
      intros q. cbn. by rewrite (proj1 (Hreap q)).
    + cbn. apply Forall_map. eapply Forall_impl; [exact Hinfo|]. intros q [H1 H2].
      destruct (Hreap q) as [Hq1 Hq2]. split; [by rewrite Hq1|by rewrite Hq2].
    + unfold member_count in *. cbn. by rewrite length_map.
  - cbn [cm_members cluster_reaper_tick]. rewrite list_lookup_fmap, Hi. cbn [fmap option_fmap option_map].
    rewrite reap_other by done. eexists. split; [done|].
    split_and!; intros; repeat case_decide; (done || lia || naive_solver).
Qed.

Definition demo_cluster : ClusterManager :=
  {| demo_seed with member_capacity := 8;
       cm_members := [{| zero_node with ni_node_id := strncpy (zeros 37) (text "w1") 36;
                         last_updated_ts := 1000 |}] |}.

Lemma reaper_classifies_witness :
  cluster_wf (cluster_reaper_tick 3000 demo_cluster) /\
  exists st, cm_members (cluster_reaper_tick 3000 demo_cluster) !! 0%nat
    = Some {| (nth 0 (cm_members demo_cluster) zero_node) with status := st |} /\
    st = NODE_STATUS_SUSPECT.
Proof.
  destruct (reaper_classifies 3000 demo_cluster 0 (nth 0 (cm_members demo_cluster) zero_node))
    as (Hwf & st & Hi & _ & Hs & _).
  - constructor; [apply NoDup_singleton|by repeat constructor|by repeat split|done].
  - reflexivity.
  - vm_compute. discriminate.
  - split; [exact Hwf|]. exists st. split; [exact Hi|]. rewrite Hs; [reflexivity|cbn; lia].
Defined.

(** Members that joined through a JOIN_REQ are stamped with [time(NULL)], a
    number of seconds since 1970, while the reaper compares stamps with the
    monotonic clock in milliseconds.  Until the machine's uptime in milliseconds
    exceeds that number (about twenty days) a member that joined and went silent
    stays ALIVE at every reaper tick. *)
Theorem joined_member_not_reaped (al : Alloc) (pads : nat -> list byte) (wall now : Z)
    (cm cm' : ClusterManager) (req : JoinRequestPayload) (resp : option (list byte)) :
  cluster_wf cm -> req_ok req -> realloc_ok al = true -> malloc_ok al = true ->
  member_count cm < 2 ^ 60 -> now <= wall + 1500 ->
  cluster_handle_join_req al pads wall cm req = (0, resp, cm') ->
  exists m, cstr (ni_node_id m) = cstr (jr_node_id req) /\
    m ∈ cm_members (cluster_reaper_tick now cm') /\ status m = NODE_STATUS_ALIVE.
Proof.
  intros Hwf Hreq Hr Hm Hcap Hnow Heq.
  destruct (join_req_spec al pads wall cm req Hwf Hreq Hr Hm Hcap)
    as (cm2 & Heq2 & _ & (m & Hf & (Hid & _ & _ & _ & _ & Hst) & Hts) & _).
  rewrite Heq in Heq2. injection Heq2 as _ <-.
  exists (reap now (ni_node_id (self cm')) m).
  assert (reap now (ni_node_id (self cm')) m = m) as Hreap.
  { unfold reap. destruct (streq _ _); [done|]. rewrite Hts, Hst.
    destruct (now >? wall) eqn:E; [|done]. bool_to_prop.
    by rewrite !Z.gtb_ltb, !(proj2 (Z.ltb_ge _ _)) by lia. }
  rewrite Hreap. split; [done|]. split; [|done].
  rewrite <- Hreap. apply list_elem_of_fmap. exists m. split; [done|].
  destruct (find_member cm' _) as [[i q]|] eqn:E; [|done]. cbn in Hf. simplify_eq.
  apply find_member_Some in E as [Hi _]. by eapply list_elem_of_lookup_2.
Qed.

Lemma joined_member_not_reaped_witness :
  exists m, cstr (ni_node_id m) = text "w1" /\
    m ∈ cm_members (cluster_reaper_tick 86400000
          (cluster_handle_join_req alloc_ok (fun _ => zeros 7) 1700000000 demo_seed
             (join_request demo_joiner)).2) /\ status m = NODE_STATUS_ALIVE.
Proof.
  apply (joined_member_not_reaped alloc_ok (fun _ => zeros 7) 1700000000 86400000 demo_seed
    (cluster_handle_join_req alloc_ok (fun _ => zeros 7) 1700000000 demo_seed
       (join_request demo_joiner)).2 (join_request demo_joiner)
    (cluster_handle_join_req alloc_ok (fun _ => zeros 7) 1700000000 demo_seed
       (join_request demo_joiner)).1.2).
  - exact demo_seed_wf.
  - vm_compute. lia.
  - reflexivity.
  - reflexivity.
  - vm_compute. reflexivity.
  - lia.
  - vm_compute. reflexivity.
Defined.

(** ** Joining: the response read back *)

Lemma host_bytes_htons (z : Z) : host_bytes 2 (htons z) = net_bytes 2 z.
Proof.
  unfold htons, host_bytes, of_host. rewrite <- (length_net_bytes 2 z) at 1.
  apply LittleEndianList.split_le_combine.
Qed.

Lemma htons_range (z : Z) : 0 <= htons z < 2 ^ 16.
Proof. pose proof (of_host_bound (net_bytes 2 z)) as H. by rewrite length_net_bytes in H. Qed.

Lemma of_host_bytes4_htons (z : Z) : of_host (host_bytes 4 (htons z)) = htons z.
Proof. rewrite of_host_bytes. apply Z.mod_small. pose proof (htons_range z). simpl. lia. Qed.

Lemma cstr_cons (c : byte) (l : list byte) :
  cstr (c :: l) = if decide (c = x00) then [] else c :: cstr l.
Proof. done. Qed.

Lemma cstr_array_app (n : nat) (a b : list byte) :
  (0 < n)%nat -> char_array n a -> cstr (a ++ b) = cstr a.
Proof.
  intros Hn [<- Hl]. clear Hn. revert Hl. induction a as [|c a IH]; [done|]. intros Hl.
  cbn [app]. rewrite !cstr_cons. case_decide; [done|]. f_equal. apply IH.
  destruct a as [|c' a]; cbn in Hl; [congruence|]. cbn. by rewrite Nat.sub_0_r.
Qed.

Record node_fits (m : NodeInfo) : Prop := {
  nf_info : info_ok m;
  nf_tcp : is_u16 (tcp_port m);
  nf_udp : is_u16 (udp_port m);
  nf_role : is_u16 (role m);
  nf_status : is_u16 (status m);
}.

(** What the joining node stores for a member of the seed: everything but the
    loads, which are not transferred, and the time, which is its own. *)
Definition learned (now : Z) (m m' : NodeInfo) : Prop :=
  m' = {| m with cpu_load := cpu_load m'; mem_load := mem_load m'; last_updated_ts := now |}.

Definition not_self (cm : ClusterManager) (m : NodeInfo) : Prop :=
  cstr (ni_node_id m) <> cstr (ni_node_id (self cm)).

#[local] Instance not_self_dec (cm : ClusterManager) (m : NodeInfo) : Decision (not_self cm m).
Proof. unfold not_self. apply _. Defined.

Lemma length_node_info_bytes (pad : list byte) (m : NodeInfo) :
  info_ok m -> length pad = 7%nat -> length (node_info_bytes pad m) = NODE_INFO_SIZE.
Proof.
  intros [[Hi _] [Hp _]] Hpad. unfold node_info_bytes. len. rewrite Hi, Hp, Hpad. done.
Qed.

(** One imported entry. *)
Lemma import_one (al : Alloc) (junk : Z * Z) (now : Z) (payload pad rest : list byte) (off : nat)
    (m : NodeInfo) (cm : ClusterManager) :
  drop off payload = node_info_bytes pad m ++ rest -> length pad = 7%nat -> node_fits m ->
  cap_ok cm -> realloc_ok al = true -> member_count cm < 2 ^ 60 ->
  exists l cap, import_member al junk now payload off cm
    = Some {| cm with cm_members := cm_members cm ++ l; member_capacity := cap |} /\
    Forall2 (learned now) (filter (not_self cm) [m]) l /\
    member_count cm + Z.of_nat (length l) <= cap < 2 ^ 62.
Proof.
  intros Hoff Hpad [Hok Htcp Hudp Hrole Hst] Hcap Hr Hc. unfold import_member. rewrite Hoff.
  pose proof Hok as [Hid Hip]. pose proof (proj1 Hid) as Hid37. pose proof (proj1 Hip) as Hip46.
  assert (streq (node_info_bytes pad m ++ rest) (ni_node_id (self cm))
          = streq (ni_node_id m) (ni_node_id (self cm))) as ->.
  { unfold streq, node_info_bytes. rewrite <- app_assoc. by rewrite (cstr_array_app 37) by (done || lia). }
  destruct (streq (ni_node_id m) (ni_node_id (self cm))) eqn:E.
  - apply streq_true in E. exists [], (member_capacity cm). unfold cap_ok in Hcap. split; [|split].
    + rewrite app_nil_r. by destruct cm.
    + rewrite filter_cons_False by (intros Hn; by apply Hn). constructor.
    + cbn. lia.
  - apply streq_false in E. destruct (ensure_capacity_room al cm Hcap Hr Hc) as (cap & -> & Hcc).
    unfold member_count in *. cbn [cm_members member_capacity].
    rewrite Z.geb_leb, (proj2 (Z.leb_gt _ _)) by lia.
    eexists [_], cap. split; [reflexivity|]. split; [|cbn; lia].
    rewrite filter_cons_True by done. constructor; [|constructor].
    unfold learned, node_info_bytes. cbn [cpu_load mem_load]. rewrite <- !app_assoc.
    destruct pad as [|p0 pad]; [done|]. change (take 1 (p0 :: pad)) with [p0].
    do 12 (read_fields; rewrite ?Hid37, ?Hip46; cbn [Nat.sub]).
    rewrite !of_host_bytes4_htons, !host_bytes_htons, !of_net_bytes2 by done. done.
Qed.

Lemma import_all (al : nat -> Alloc) (junk : nat -> Z * Z) (now : Z) (payload : list byte)
    (pads : nat -> list byte) (ms : list NodeInfo) (i : nat) (cm : ClusterManager) :
  (forall k, realloc_ok (al k) = true) -> (forall k, length (pads k) = 7%nat) ->
  Forall node_fits ms -> cap_ok cm -> member_count cm + Z.of_nat (length ms) < 2 ^ 60 ->
  (JOIN_RESPONSE_SIZE + i * NODE_INFO_SIZE <= length payload)%nat ->
  drop (JOIN_RESPONSE_SIZE + i * NODE_INFO_SIZE) payload
    = concat (imap (fun j n => node_info_bytes (pads j) n) ms) ->
  exists l cap, import_members al junk now payload i (length ms) cm
    = Returns {| cm with cm_members := cm_members cm ++ l; member_capacity := cap |} /\
    Forall2 (learned now) (filter (not_self cm) ms) l /\
    member_count cm + Z.of_nat (length l) <= cap < 2 ^ 62.
Proof.
  intros Hal Hpads. revert i pads Hpads cm.
  induction ms as [|m ms IH]; intros i pads Hpads cm Hfit Hcap Hc Hlen Hdrop; cbn [length import_members].
  { exists [], (member_capacity cm). unfold cap_ok in Hcap.
    split; [rewrite app_nil_r; by destruct cm|]. split; [constructor|cbn; lia]. }
  apply Forall_cons in Hfit as [Hm Hms]. cbn [imap concat] in Hdrop.
  pose proof (f_equal length Hdrop) as Hdl.
  rewrite length_drop, length_app, length_node_info_bytes in Hdl by (done || apply Hm).
  rewrite (proj2 (Nat.ltb_ge _ _)) by lia.
  destruct (import_one (al i) (junk i) now payload (pads 0%nat) _ _ m cm Hdrop)
    as (l1 & cap1 & -> & Hl1 & Hcap1); [done|done|done|done|cbn in Hc; lia|].
  assert (length l1 <= 1)%nat as Hl1len.
  { apply Forall2_length in Hl1. rewrite <- Hl1. rewrite filter_cons. case_decide; cbn; lia. }
  destruct (IH (S i) (pads ∘ S) (fun k => Hpads (S k))
     {| cm with cm_members := cm_members cm ++ l1; member_capacity := cap1 |})
    as (l2 & cap2 & -> & Hl2 & Hcap2).
  - done.
  - unfold cap_ok, member_count in *. cbn. rewrite length_app. lia.
  - unfold member_count in *. cbn in *. rewrite length_app. lia.
  - lia.
  - replace (JOIN_RESPONSE_SIZE + S i * NODE_INFO_SIZE)%nat
      with ((JOIN_RESPONSE_SIZE + i * NODE_INFO_SIZE) + NODE_INFO_SIZE)%nat by lia.
    rewrite <- drop_drop, Hdrop. apply drop_app_length'.
    symmetry. apply length_node_info_bytes; [apply Hm|done].
  - exists (l1 ++ l2), cap2. cbn [cm_members]. rewrite <- app_assoc. split; [done|]. split.
    + change (m :: ms) with ([m] ++ ms). rewrite filter_app. by apply Forall2_app.
    + unfold member_count in *. cbn in Hcap2. rewrite !length_app in *. lia.
Qed.

Lemma add_seed_spec (al : Alloc) (now : Z) (id ip : list byte) (port : Z) (cm : ClusterManager) :
  cap_ok cm -> realloc_ok al = true -> member_count cm < 2 ^ 60 -> (length (cstr id) < 37)%nat ->
  (cstr id ∈ cm_ids cm /\ add_seed al now id ip port cm = cm) \/
  (cstr id ∉ cm_ids cm /\ exists m cap, add_seed al now id ip port cm
     = {| cm with cm_members := cm_members cm ++ [m]; member_capacity := cap |} /\
     cstr (ni_node_id m) = cstr id /\ status m = NODE_STATUS_ALIVE /\ tcp_port m = port /\
     last_updated_ts m = now).
Proof.
  intros Hcap Hr Hc Hid. unfold add_seed. destruct (find_member cm id) as [[i m]|] eqn:E.
  - left. split; [|done]. apply find_member_Some in E as [Hi Hm]. rewrite <- Hm.
    apply list_elem_of_fmap. exists m. split; [done|]. by eapply list_elem_of_lookup_2.
  - right. apply find_member_None in E. split; [done|].
    destruct (ensure_capacity_room al cm Hcap Hr Hc) as (cap & -> & Hcc).
    unfold member_count in *. cbn [cm_members member_capacity].
    rewrite (proj2 (Z.ltb_lt _ _)) by lia. eexists _, cap. split; [done|].
    cbn. rewrite cstr_strncpy37; auto with droole.
Qed.

(** The fixed part of the response. *)
Lemma join_response_fields (pads : nat -> list byte) (cm : ClusterManager) :
  info_ok (self cm) -> member_count cm < 2 ^ 32 ->
  of_net (field 4 4 (join_response_bytes pads cm)) = member_count cm /\
  take 36 (cstr (drop 8 (join_response_bytes pads cm))) = cstr (ni_node_id (self cm)) /\
  drop 45 (join_response_bytes pads cm)
    = concat (imap (fun j n => node_info_bytes (pads j) n) (cm_members cm)) /\
  (45 <= length (join_response_bytes pads cm))%nat.
Proof.
  intros [Hid _] Hc. pose proof (cstr_length37 _ Hid) as Hl. unfold join_response_bytes.
  assert (cstr (strncpy (zeros 37) (ni_node_id (self cm)) 36) = cstr (ni_node_id (self cm)))
    as Hcs by (by apply cstr_strncpy37; [auto with droole|]).
  assert (char_array 37 (strncpy (zeros 37) (ni_node_id (self cm)) 36)) as Harr
    by auto with droole.
  generalize dependent (strncpy (zeros 37) (ni_node_id (self cm)) 36). intros rid Hcs Harr.
  pose proof (proj1 Harr) as Hr37.
  split; [|split; [|split]].
  - read_fields. apply of_net_bytes4. unfold is_u32, member_count in *. lia.
  - rewrite app_assoc, drop_app_length' by by len.
    rewrite (cstr_array_app 37) by (done || lia). rewrite Hcs. apply take_ge. lia.
  - rewrite !app_assoc. apply drop_app_length'. rewrite !length_app, Hr37. len.
  - rewrite !length_app, Hr37. len.
Qed.

(** The import of an answer. *)
Lemma import_answer (al : nat -> Alloc) (junk : nat -> Z * Z) (pads : nat -> list byte) (now : Z)
    (seed cm : ClusterManager) (seed_ip : list byte) (seed_port : Z) :
  cluster_wf seed -> Forall node_fits (cm_members seed) -> member_count seed < 2 ^ 32 ->
  cm_members cm = [] -> member_capacity cm = 0 ->
  (forall k, realloc_ok (al k) = true) -> (forall k, length (pads k) = 7%nat) ->
  exists cm1 l,
    import_response al junk now seed_ip seed_port (join_response_bytes pads seed) cm = Returns cm1 /\
    Forall2 (learned now) (filter (not_self cm) (cm_members seed)) l /\
    ((cm_members cm1 = l /\ cstr (ni_node_id (self seed)) ∈ cm_ids cm1) \/
     exists m, cm_members cm1 = l ++ [m] /\
       cstr (ni_node_id m) = cstr (ni_node_id (self seed)) /\
       status m = NODE_STATUS_ALIVE /\ tcp_port m = seed_port /\ last_updated_ts m = now).
Proof.
  intros Hseed Hfit Hcnt Hm0 Hc0 Hal Hpads.
  destruct (join_response_fields pads seed (cw_self _ Hseed) Hcnt) as (Hn & Hsid & Hbody & Hlen).
  unfold import_response.
  rewrite (proj2 (Nat.ltb_ge _ _)) by exact Hlen. rewrite Hn, Hsid.
  unfold member_count at 1. rewrite Nat2Z.id.
  assert (cap_ok cm) as Hcap by (unfold cap_ok, member_count; rewrite Hm0, Hc0; done).
  assert (member_count cm = 0) as Hmc by (unfold member_count; by rewrite Hm0).
  destruct (import_all al junk now (join_response_bytes pads seed) pads (cm_members seed) 0 cm)
    as (l & cap & -> & Hl & Hlc); try done; [unfold member_count in *; lia|].
  rewrite Hmc in Hlc. assert (length l <= length (cm_members seed))%nat as Hll.
  { apply Forall2_length in Hl. rewrite <- Hl. apply length_filter. }
  set (cm1 := {| cm with cm_members := _; member_capacity := cap |}).
  destruct (add_seed_spec (al (Z.to_nat (member_count seed))) now (cstr (ni_node_id (self seed)))
              seed_ip seed_port cm1) as [[Hin ->]|(_ & m & cap' & -> & Hmid & Hms & Hmp & Hmt)].
  - unfold cap_ok, member_count, cm1. cbn. rewrite Hm0. cbn. lia.
  - done.
  - unfold member_count, cm1 in *. cbn. rewrite Hm0. cbn. lia.
  - rewrite cstr_cstr. apply cstr_length37, Hseed.
  - rewrite cstr_cstr in Hin. eexists _, l. split; [done|]. split; [done|].
    left. split; [cbn; by rewrite Hm0|exact Hin].
  - rewrite cstr_cstr in Hmid. eexists _, l. split; [done|]. split; [done|].
    right. exists m. split; [cbn; by rewrite Hm0|done].
Qed.

(** [cluster_join] on an answer that is a header and a payload of its length. *)
Lemma join_answered (exchange : list byte -> Z -> list byte -> option (list byte))
    (al : nat -> Alloc) (junk : nat -> Z * Z) (now : Z) (cm cm1 : ClusterManager) (h : RpcHeader)
    (payload seed_ip : list byte) (seed_port : Z) :
  header_fits h -> magic h = RPC_MAGIC -> command_type h = RPC_CMD_JOIN_RESP ->
  payload_len h = Z.of_nat (length payload) -> payload <> [] ->
  exchange seed_ip seed_port (join_message cm) = Some (serializer_pack_rpc h ++ payload) ->
  import_response al junk now seed_ip seed_port payload cm = Returns cm1 ->
  cluster_join exchange true al junk now cm seed_ip seed_port
  = Returns (0, {| cm1 with cluster_state := CLUSTER_STATE_ACTIVE |}).
Proof.
  intros Hh Hmag Hcmd Hplen Hne Hex Himp. destruct payload as [|b payload']; [done|].
  set (payload := b :: payload') in *.
  unfold cluster_join. rewrite Hex, length_app, length_pack_rpc by done.
  rewrite (proj2 (Nat.ltb_ge _ _)) by lia. rewrite unpack_pack_rpc, Hmag, Hcmd by done.
  rewrite !Z.eqb_refl. cbn [negb orb].
  rewrite Hplen, Z.gtb_ltb, (proj2 (Z.ltb_lt _ _)) by (unfold payload; cbn [length]; lia).
  rewrite drop_app_length' by (symmetry; by apply length_pack_rpc).
  by rewrite Z.ltb_irrefl, Nat2Z.id, firstn_all, Himp.
Qed.

(** A node that joins through a seed ends up with the seed's view.  When
    the seed answers with the member list it holds, [cluster_join] returns 0,
    the node is ACTIVE, and its members are the seed's members other than itself
    (same id, address, ports, role and status, stamped with the local clock),
    followed by the seed itself unless it was in the list. *)
Theorem join_roundtrip (exchange : list byte -> Z -> list byte -> option (list byte))
    (al : nat -> Alloc) (junk : nat -> Z * Z) (pads : nat -> list byte) (now : Z)
    (seed cm : ClusterManager) (h : RpcHeader) (seed_ip : list byte) (seed_port : Z) :
  cluster_wf seed -> Forall node_fits (cm_members seed) -> member_count seed < 2 ^ 32 ->
  cm_members cm = [] -> member_capacity cm = 0 ->
  (forall k, realloc_ok (al k) = true) -> (forall k, length (pads k) = 7%nat) ->
  header_fits h -> magic h = RPC_MAGIC -> command_type h = RPC_CMD_JOIN_RESP ->
  payload_len h = Z.of_nat (length (join_response_bytes pads seed)) ->
  exchange seed_ip seed_port (join_message cm)
    = Some (serializer_pack_rpc h ++ join_response_bytes pads seed) ->
  exists cm' l, cluster_join exchange true al junk now cm seed_ip seed_port = Returns (0, cm') /\
    cluster_state cm' = CLUSTER_STATE_ACTIVE /\
    Forall2 (learned now) (filter (not_self cm) (cm_members seed)) l /\
    ((cm_members cm' = l /\ cstr (ni_node_id (self seed)) ∈ cm_ids cm') \/
     exists m, cm_members cm' = l ++ [m] /\
       cstr (ni_node_id m) = cstr (ni_node_id (self seed)) /\
       status m = NODE_STATUS_ALIVE /\ tcp_port m = seed_port /\ last_updated_ts m = now).
Proof.
  intros Hseed Hfit Hcnt Hm0 Hc0 Hal Hpads Hh Hmag Hcmd Hplen Hex.
  destruct (import_answer al junk pads now seed cm seed_ip seed_port)
    as (cm1 & l & Himp & Hl & Hend); [done..|].
  destruct (join_response_fields pads seed (cw_self _ Hseed) Hcnt) as (_ & _ & _ & Hlen).
  eexists _, l. split.
  - eapply join_answered; [done..| |done|done]. intros He. rewrite He in Hlen. cbn in Hlen. lia.
  - done.
Qed.

(** The seed after [w1] and [w2] joined, and its answer to [w2]. *)
Definition demo_second : ClusterManager :=
  (cluster_init ROLE_WORKER_NODE (text "w2") (text "10.0.0.3") 9000 500).2.

Definition demo_seed2 : ClusterManager :=
  (cluster_handle_join_req alloc_ok (fun _ => zeros 7) 1700000000
     (cluster_handle_join_req alloc_ok (fun _ => zeros 7) 1700000000 demo_seed
        (join_request demo_joiner)).2 (join_request demo_second)).2.

Definition demo_join_header : RpcHeader :=
  {| demo_header with command_type := RPC_CMD_JOIN_RESP; payload_len := 269 |}.

Definition demo_join_exchange (ip : list byte) (port : Z) (b : list byte) : option (list byte) :=
  Some (serializer_pack_rpc demo_join_header ++ join_response_bytes (fun _ => zeros 7) demo_seed2).

Lemma join_roundtrip_witness :
  exists cm' l, cluster_join demo_join_exchange true (fun _ => alloc_ok) (fun _ => (0, 0)) 900
                  demo_second (text "10.0.0.1") 9000 = Returns (0, cm') /\
    cluster_state cm' = CLUSTER_STATE_ACTIVE /\
    Forall2 (learned 900) (filter (not_self demo_second) (cm_members demo_seed2)) l /\
    ((cm_members cm' = l /\ text "seed-01" ∈ cm_ids cm') \/
     exists m, cm_members cm' = l ++ [m] /\ cstr (ni_node_id m) = text "seed-01" /\
       status m = NODE_STATUS_ALIVE /\ tcp_port m = 9000 /\ last_updated_ts m = 900).
Proof.
  apply (join_roundtrip demo_join_exchange (fun _ => alloc_ok) (fun _ => (0, 0))
           (fun _ => zeros 7) 900 demo_seed2 demo_second demo_join_header (text "10.0.0.1") 9000).
  - constructor.
    + apply (bool_decide_unpack _). vm_compute. exact I.
    + repeat constructor.
    + by repeat split.
    + vm_compute. split; [discriminate|reflexivity].
  - repeat constructor; (discriminate || reflexivity).
  - vm_compute. reflexivity.
  - reflexivity.
  - reflexivity.
  - reflexivity.
  - reflexivity.
  - constructor; (done || vm_compute; reflexivity).
  - reflexivity.
  - reflexivity.
  - vm_compute. reflexivity.
  - reflexivity.
Defined.

(** A seed's answer that lists [w1] with a status of the sender's choice. *)
Definition status_exchange (st : Z) (ip : list byte) (port : Z) (b : list byte) : option (list byte) :=
  Some (serializer_pack_rpc demo_join_header ++
        join_response_bytes (fun _ => zeros 7)
          {| demo_seed2 with cm_members := map (fun m => {| m with status := st |}) (cm_members demo_seed2) |}).

(** Statuses arrive unchecked in the answer to a join, and the first heartbeat of a
    member listed with a status that does not exist makes the log line of its
    transition index the array of status names out of bounds. *)
Theorem imported_status_out_of_bounds :
  exists cm', cluster_join (status_exchange 7) true (fun _ => alloc_ok) (fun _ => (0, 0)) 900
                demo_second (text "10.0.0.1") 9000 = Returns (0, cm') /\
    ~ statuses_ok cm' /\
    gossip_line cm' (serializer_pack_gossip {| g_magic := GOSSIP_MAGIC; g_type := 1; g_sequence := 5;
      g_node_id := strncpy (zeros 37) (text "w1") 36 |}) = Undefined.
Proof.
  eexists. split; [vm_compute; reflexivity|]. split; [|vm_compute; reflexivity].
  intros H. apply Forall_cons in H as [[_ H] _]. cbn in H. lia.
Qed.
