(* ===== verification/FailureDetector.v ===== *)
(** * The failure detector

    [on_gossip_receive] and [cluster_reaper_tick] of [src/main.c], with
    [on_heartbeat_timer] on the sending side, form a failure detector: gossip
    stamps a member, the reaper judges the silence since.  [watch] is what the
    pair does to one member, whatever else happens to the others
    ([detect_refines_watch]); [detector_verdict] says that the verdict after a
    reaper tick is a function of the silence alone. *)

From Stdlib Require Import Sorting.
From S2P Require Import Prelude RaftCore Wire Cluster.

(** ** Signals *)

(** What drives the detector of a node: a datagram or a reaper tick, with the
    clock read by the callback. *)
Inductive signal : Type :=
  | Heard (t : Z) (datagram : list byte)
  | Reap (t : Z).

Definition sig_time (s : signal) : Z := match s with Heard t _ | Reap t => t end.

Definition observe (cm : ClusterManager) (s : signal) : ClusterManager :=
  match s with
  | Heard t d => on_gossip_receive t cm d
  | Reap t => cluster_reaper_tick t cm
  end.

Definition detect (ss : list signal) (cm : ClusterManager) : ClusterManager := foldl observe cm ss.

(** The datagram is a gossip packet of the node [id]. *)
Definition hears (id d : list byte) : bool :=
  (GOSSIP_SIZE <=? length d)%nat && (g_magic (serializer_unpack_gossip d) =? GOSSIP_MAGIC)
  && streq (g_node_id (serializer_unpack_gossip d)) id.

(** ** One member *)

(** Status and stamp of the member [id]. *)
Definition watch (id : list byte) (x : Z * Z) (s : signal) : Z * Z :=
  match s with
  | Heard t d => if hears id d then (NODE_STATUS_ALIVE, t) else x
  | Reap t =>
      (if decide (3000 < t - x.2) then NODE_STATUS_DEAD
       else if decide (1500 < t - x.2 /\ x.1 = NODE_STATUS_ALIVE) then NODE_STATUS_SUSPECT
            else x.1, x.2)
  end.

Definition judged (m : NodeInfo) (x : Z * Z) : NodeInfo :=
  {| m with status := x.1; last_updated_ts := x.2 |}.

Lemma hears_gossip (now : Z) (cm : ClusterManager) (d : list byte) :
  on_gossip_receive now cm d
  = if (GOSSIP_SIZE <=? length d)%nat && (g_magic (serializer_unpack_gossip d) =? GOSSIP_MAGIC)
    then (cluster_update_member_status now cm (g_node_id (serializer_unpack_gossip d)) NODE_STATUS_ALIVE).2
    else cm.
Proof.
  unfold on_gossip_receive. rewrite Nat.ltb_antisym.
  by destruct (GOSSIP_SIZE <=? length d)%nat, (g_magic _ =? _).
Qed.

Lemma update_status_wf (now : Z) (cm : ClusterManager) (id : list byte) (st : Z) :
  cluster_wf cm ->
  cluster_wf (cluster_update_member_status now cm id st).2 /\
  self (cluster_update_member_status now cm id st).2 = self cm.
Proof.
  intros Hwf. unfold cluster_update_member_status. destruct (find_member cm id) as [[i m]|] eqn:E; [|done].
  apply find_member_Some in E as [Hi _]. split; [|done]. apply wf_update_member with (m := m); try done.
  apply (Forall_lookup_1 _ _ _ _ (cw_infos _ Hwf) Hi).
Qed.

(** The update reaches the member with that id and no other. *)
Lemma update_status_lookup (now : Z) (cm : ClusterManager) (id : list byte) (st : Z) i m :
  cluster_wf cm -> cm_members cm !! i = Some m ->
  cm_members (cluster_update_member_status now cm id st).2 !! i
  = Some (if streq id (ni_node_id m) then judged m (st, now) else m).
Proof.
  intros Hwf Hi. unfold cluster_update_member_status.
  destruct (find_member cm id) as [[j m']|] eqn:E.
  - apply find_member_Some in E as [Hj Hid]. cbn. destruct (decide (j = i)) as [->|Hne].
    + rewrite Hi in Hj. simplify_eq. rewrite (proj2 (streq_true _ _)) by congruence.
      by rewrite list_lookup_insert_eq by (by eapply lookup_lt_Some).
    + rewrite list_lookup_insert_ne, Hi by done. rewrite (proj2 (streq_false _ _)); [done|].
      intros Heq. apply Hne. apply (NoDup_lookup (cm_ids cm) j i (cstr id)); [apply Hwf|..];
        unfold cm_ids; rewrite list_lookup_fmap; [rewrite Hj|rewrite Hi]; cbn; congruence.
  - apply find_member_None in E. cbn. rewrite Hi, (proj2 (streq_false _ _)); [done|].
    intros Heq. apply E. rewrite Heq. apply list_elem_of_fmap. exists m. split; [done|].
    by eapply list_elem_of_lookup_2.
Qed.

Lemma observe_member (cm : ClusterManager) (s : signal) i m :
  cluster_wf cm -> cm_members cm !! i = Some m ->
  cstr (ni_node_id m) <> cstr (ni_node_id (self cm)) ->
  cluster_wf (observe cm s) /\ self (observe cm s) = self cm /\
  cm_members (observe cm s) !! i
  = Some (judged m (watch (ni_node_id m) (status m, last_updated_ts m) s)).
Proof.
  intros Hwf Hi Hne. destruct s as [t d|t]; cbn [observe watch].
  - rewrite hears_gossip. unfold hears. destruct (_ && (_ =? _)); cbn [andb].
    + destruct (update_status_wf t cm (g_node_id (serializer_unpack_gossip d)) NODE_STATUS_ALIVE Hwf) as [H1 H2].
      split; [done|]. split; [done|]. rewrite (update_status_lookup _ _ _ _ i m) by done.
      destruct (streq _ _); [done|]. by destruct m.
    + split; [done|]. split; [done|]. rewrite Hi. by destruct m.
  - destruct (reaper_classifies t cm i m Hwf Hi Hne) as [Hwf' _]. split; [done|]. split; [done|].
    cbn. rewrite list_lookup_fmap, Hi. cbn. by rewrite reap_other.
Qed.

(** The detector does to a member what [watch] says. *)
Lemma detect_refines_watch (ss : list signal) (cm : ClusterManager) i m :
  cluster_wf cm -> cm_members cm !! i = Some m ->
  cstr (ni_node_id m) <> cstr (ni_node_id (self cm)) ->
  cluster_wf (detect ss cm) /\
  cm_members (detect ss cm) !! i
  = Some (judged m (foldl (watch (ni_node_id m)) (status m, last_updated_ts m) ss)).
Proof.
  revert cm m. induction ss as [|s ss IH]; intros cm m Hwf Hi Hne; [split; [done|by destruct m]|].
  destruct (observe_member cm s i m Hwf Hi Hne) as (Hwf' & Hself & Hi').
  destruct (IH (observe cm s) _ Hwf' Hi') as [Hd Hl]; [by rewrite Hself|].
  split; [done|]. change (detect (s :: ss) cm) with (detect ss (observe cm s)). rewrite Hl. cbn.
  by rewrite <- surjective_pairing.
Qed.

(** ** Silence *)

Definition last_heard (id : list byte) (t0 : Z) (ss : list signal) : Z :=
  foldl (fun t s => match s with Heard t' d => if hears id d then t' else t | Reap _ => t end) t0 ss.

Definition verdict (silence : Z) : Z :=
  if decide (3000 < silence) then NODE_STATUS_DEAD
  else if decide (1500 < silence) then NODE_STATUS_SUSPECT else NODE_STATUS_ALIVE.

(** The clock does not go back. *)
Abbreviation in_order t0 ss := (Sorted Z.le (t0 :: map sig_time ss)).

(** The status is the verdict at some earlier time.  The stamp may lie ahead of the
    clock. *)
Definition consistent (now : Z) (x : Z * Z) : Prop :=
  exists tau, tau <= now /\ x.1 = verdict (tau - x.2).

Lemma reap_verdict (id : list byte) (now t : Z) (x : Z * Z) :
  consistent now x -> now <= t -> watch id x (Reap t) = (verdict (t - x.2), x.2).
Proof.
  intros (tau & Htau & Hx) Ht. cbn. rewrite Hx. f_equal. unfold verdict, NODE_STATUS_DEAD,
    NODE_STATUS_SUSPECT, NODE_STATUS_ALIVE in *. repeat case_decide; lia || naive_solver lia.
Qed.

Lemma watch_consistent (id : list byte) (now : Z) (x : Z * Z) (s : signal) :
  consistent now x -> now <= sig_time s -> consistent (sig_time s) (watch id x s).
Proof.
  intros Hc Ht. destruct s as [t d|t].
  - cbn in *. destruct (hears id d).
    + exists t. cbn. rewrite Z.sub_diag. split; [lia|done].
    + destruct Hc as (tau & ? & ?). exists tau. split; [lia|done].
  - rewrite (reap_verdict id now) by done. cbn in *. by exists t.
Qed.

Lemma alive_consistent (now t : Z) : consistent now (NODE_STATUS_ALIVE, t).
Proof.
  exists (Z.min now t). cbn. split; [lia|]. unfold verdict. by rewrite !decide_False by lia.
Qed.

Lemma watch_last (id : list byte) (ss : list signal) (x : Z * Z) :
  (foldl (watch id) x ss).2 = last_heard id x.2 ss.
Proof.
  unfold last_heard. revert x. induction ss as [|s ss IH]; intros x; [done|]. cbn [foldl]. rewrite IH.
  f_equal. destruct s as [t d|t]; cbn; [by destruct (hears id d)|done].
Qed.

Lemma watch_all (id : list byte) (ss : list signal) (t0 t : Z) (x : Z * Z) :
  consistent t0 x -> in_order t0 (ss ++ [Reap t]) ->
  foldl (watch id) x (ss ++ [Reap t]) = (verdict (t - last_heard id x.2 ss), last_heard id x.2 ss).
Proof.
  revert t0 x. induction ss as [|s ss IH]; intros t0 x Hc Ho; cbn [app map foldl] in *;
    apply Sorted_inv in Ho as [Ho Hh]; inversion_clear Hh; cbn [sig_time] in *.
  - by rewrite (reap_verdict id t0).
  - rewrite (IH (sig_time s)); [|by eapply watch_consistent|done].
    unfold last_heard. cbn [foldl].
    assert ((watch id x s).2 = match s with Heard t' d => if hears id d then t' else x.2 | Reap _ => x.2 end)
      as -> by (destruct s as [t' d|t']; cbn; [by destruct (hears id d)|done]).
    done.
Qed.

(** ** Heartbeats *)

Lemma gossip_packet_heard (now : Z) (id id' : list byte) :
  char_array 37 id ->
  hears id' (serializer_pack_gossip {| g_magic := GOSSIP_MAGIC; g_type := 1; g_sequence := u32 now;
                                       g_node_id := strncpy (zeros 37) id 36 |}) = streq id id'.
Proof.
  intros Hid. set (g := {| g_magic := _ |}).
  assert (length (g_node_id g) = 37%nat) as Hl by (cbn; rewrite length_strncpy; len).
  assert (gossip_fits g) as Hg by (constructor; [done|done|apply u32_range|done]).
  assert (length (serializer_pack_gossip g) = GOSSIP_SIZE) as Hlen
    by (unfold serializer_pack_gossip; len; by rewrite Hl).
  unfold hears. rewrite Hlen, Nat.leb_refl.
  rewrite <- (app_nil_r (serializer_pack_gossip g)), unpack_pack_gossip by done.
  cbn [g_magic g g_node_id andb]. rewrite Z.eqb_refl. cbn [andb].
  unfold streq. by rewrite cstr_strncpy37 by (auto with droole).
Qed.

(** What [on_heartbeat_timer] sends is heard as its sender. *)
Lemma heartbeat_heard (now rnd : Z) (cm : ClusterManager) (m : NodeInfo) (d id : list byte) :
  cluster_wf cm -> (m, d) ∈ on_heartbeat_timer now rnd cm ->
  hears id d = streq (ni_node_id (self cm)) id.
Proof.
  intros Hwf. unfold on_heartbeat_timer. intros (m' & Heq & _)%list_elem_of_fmap. simplify_eq.
  apply gossip_packet_heard, (cw_self _ Hwf).
Qed.

(** ** Claims *)


Lemma last_heard_quiet (id : list byte) (t0 : Z) (ss : list signal) :
  (forall t d, Heard t d ∈ ss -> hears id d = false) -> last_heard id t0 ss = t0.
Proof.
  unfold last_heard. revert t0. induction ss as [|s ss IH]; intros t0 Hq; [done|]. cbn.
  rewrite IH by (intros; eapply Hq; by right). destruct s as [t d|t]; [|done].
  by rewrite (Hq t d) by left.
Qed.

Lemma last_heard_app (id : list byte) (t0 : Z) (ss1 ss2 : list signal) :
  last_heard id t0 (ss1 ++ ss2) = last_heard id (last_heard id t0 ss1) ss2.
Proof. apply foldl_app. Qed.

(** Heartbeats from end to end.  When the packet that a peer's
    [on_heartbeat_timer] sent arrives at time [t1] and is the last one of that peer
    to arrive, the reaper tick at [t] finds the peer ALIVE up to 1500 ms later,
    SUSPECT up to 3000 ms later, and DEAD after that. *)
Theorem heartbeat_detected (peer cm : ClusterManager) (beat rnd : Z) (target : NodeInfo) (d : list byte)
    (ss1 ss2 : list signal) (t0 t1 t : Z) (i : nat) (m : NodeInfo) :
  cluster_wf peer -> (target, d) ∈ on_heartbeat_timer beat rnd peer ->
  cluster_wf cm -> cm_members cm !! i = Some m ->
  cstr (ni_node_id m) = cstr (ni_node_id (self peer)) ->
  cstr (ni_node_id m) <> cstr (ni_node_id (self cm)) ->
  status m = NODE_STATUS_ALIVE ->
  in_order t0 ((ss1 ++ Heard t1 d :: ss2) ++ [Reap t]) ->
  (forall t' d', Heard t' d' ∈ ss2 -> hears (ni_node_id m) d' = false) ->
  exists m', cm_members (detect ((ss1 ++ Heard t1 d :: ss2) ++ [Reap t]) cm) !! i = Some m' /\
    cstr (ni_node_id m') = cstr (ni_node_id (self peer)) /\
    (t - t1 <= 1500 -> status m' = NODE_STATUS_ALIVE) /\
    (1500 < t - t1 <= 3000 -> status m' = NODE_STATUS_SUSPECT) /\
    (3000 < t - t1 -> status m' = NODE_STATUS_DEAD).
Proof.
  intros Hp Hd Hwf Hi Hid Hne Hst Ho Hq.
  destruct (detect_refines_watch ((ss1 ++ Heard t1 d :: ss2) ++ [Reap t]) cm i m Hwf Hi Hne) as [_ Hl].
  eexists. split; [exact Hl|]. split; [done|].
  rewrite Hst, (watch_all _ _ t0) by (done || apply alive_consistent). cbn [snd].
  assert (last_heard (ni_node_id m) (last_updated_ts m) (ss1 ++ Heard t1 d :: ss2) = t1) as Hlast.
  { rewrite last_heard_app. unfold last_heard at 1. cbn [foldl].
    rewrite (heartbeat_heard beat rnd peer target d), (proj2 (streq_true _ _)) by done.
    by apply last_heard_quiet. }
  cbn [status judged fst snd]. rewrite Hlast. unfold verdict.
  split_and!; intros; repeat case_decide; (done || lia).
Qed.

(** ** A peer that stops *)

Definition beating_peer : ClusterManager :=
  (cluster_init ROLE_WORKER_NODE (text "w1") (text "10.0.0.7") 9000 0).2.

Definition demo_beat : list byte :=
  serializer_pack_gossip {| g_magic := GOSSIP_MAGIC; g_type := 1; g_sequence := u32 2000;
                            g_node_id := strncpy (zeros 37) (text "w1") 36 |}.

Definition demo_signals : list signal :=
  [Reap 1500; Heard 2100 demo_beat; Heard 2200 (text "garbage"); Reap 2500; Reap 3500].

Lemma demo_cluster_wf : cluster_wf demo_cluster.
Proof. constructor; [apply NoDup_singleton|by repeat constructor|by repeat split|done]. Qed.


Definition demo_sender : ClusterManager :=
  {| beating_peer with member_capacity := 8; cm_members := [self demo_seed] |}.

Lemma heartbeat_detected_witness :
  exists m', cm_members (detect ((demo_signals ++ Heard 4100 demo_beat :: [Reap 4200]) ++ [Reap 9000])
                           demo_cluster) !! 0%nat = Some m' /\
    status m' = NODE_STATUS_DEAD.
Proof.
  destruct (heartbeat_detected demo_sender demo_cluster 2000 0 (self demo_seed) demo_beat
              demo_signals [Reap 4200] 1000 4100 9000 0 (nth 0 (cm_members demo_cluster) zero_node))
    as (m' & Hm' & _ & _ & _ & Hdead).
  - constructor; [apply NoDup_singleton|by repeat constructor|by repeat split|done].
  - apply (list_elem_of_lookup_2 _ 0). vm_compute. reflexivity.
  - apply demo_cluster_wf.
  - reflexivity.
  - vm_compute. reflexivity.
  - vm_compute. discriminate.
  - reflexivity.
  - repeat constructor; cbn; lia.
  - intros t' d' Hin. apply list_elem_of_singleton in Hin. discriminate.
  - exists m'. split; [exact Hm'|]. apply Hdead. lia.
Defined.

(** ** The clock *)

(** [get_monotonic_time_ms]: seconds and nanoseconds of [clock_gettime], [None] when
    it fails. *)
Definition get_monotonic_time_ms (ts : option (Z * Z)) : Z :=
  match ts with
  | None => 0
  | Some (sec, nsec) => u64 (u64 (u64 sec * 1000) + u64 nsec / 1000000)
  end.

(** A reading of the clock, from a start-up less than 500 million years ago. *)
Definition timespec_ok (ts : Z * Z) : Prop := 0 <= ts.1 < 2 ^ 53 /\ 0 <= ts.2 < 10 ^ 9.

Lemma clock_value (sec nsec : Z) :
  timespec_ok (sec, nsec) -> get_monotonic_time_ms (Some (sec, nsec)) = sec * 1000 + nsec / 1000000.
Proof.
  intros [H1 H2]. cbn in *. assert (0 <= nsec / 1000000 < 1000) as H3.
  { split; [apply Z.div_pos; lia|apply Z.div_lt_upper_bound; lia]. }
  rewrite (u64_small sec), (u64_small nsec), (u64_small (sec * 1000)), u64_small;
    unfold is_u64; lia.
Qed.

(** Later readings give no smaller time stamps. *)
Lemma clock_monotone (a b : Z * Z) :
  timespec_ok a -> timespec_ok b -> a.1 < b.1 \/ (a.1 = b.1 /\ a.2 <= b.2) ->
  get_monotonic_time_ms (Some a) <= get_monotonic_time_ms (Some b).
Proof.
  destruct a as [s1 n1], b as [s2 n2]. intros Ha Hb Hle. rewrite !clock_value by done.
  destruct Ha as [_ Ha], Hb as [_ Hb]. cbn in *.
  assert (0 <= n1 / 1000000 < 1000) by (split; [apply Z.div_pos; lia|apply Z.div_lt_upper_bound; lia]).
  assert (0 <= n2 / 1000000) by (apply Z.div_pos; lia).
  destruct Hle as [Hlt|[-> Hle]]; [lia|]. pose proof (Z.div_le_mono n1 n2 1000000). lia.
Qed.

(** A clock that fails gives the time 0.  The reaper then judges nobody.  A heartbeat
    that is received while the clock fails is stamped 0, so that the next reaper
    tick, once the machine has been up for more than three seconds, declares the
    member that just spoke DEAD. *)
Theorem clock_failure_kills (cm : ClusterManager) (d : list byte) (t : Z) (i : nat) (m : NodeInfo) :
  cluster_wf cm -> cm_members cm !! i = Some m ->
  cstr (ni_node_id m) <> cstr (ni_node_id (self cm)) -> hears (ni_node_id m) d = true ->
  0 <= last_updated_ts m -> 3000 < t ->
  cm_members (cluster_reaper_tick (get_monotonic_time_ms None) cm) !! i = Some m /\
  cm_members (detect [Heard (get_monotonic_time_ms None) d; Reap t] cm) !! i
  = Some {| m with status := NODE_STATUS_DEAD; last_updated_ts := 0 |}.
Proof.
  intros Hwf Hi Hne Hh Hts Ht. split.
  - cbn. rewrite list_lookup_fmap, Hi. cbn. rewrite reap_other by done.
    rewrite !decide_False by lia. by destruct m.
  - destruct (detect_refines_watch [Heard (get_monotonic_time_ms None) d; Reap t] cm i m Hwf Hi Hne)
      as [_ ->].
    cbn [foldl watch get_monotonic_time_ms]. rewrite Hh. cbn [fst snd]. by rewrite decide_True by lia.
Qed.

Lemma clock_failure_kills_witness :
  status <$> (cm_members (detect [Heard (get_monotonic_time_ms None) demo_beat; Reap 60000] demo_cluster) !! 0%nat)
  = Some NODE_STATUS_DEAD.
Proof.
  destruct (clock_failure_kills demo_cluster demo_beat 60000 0 (nth 0 (cm_members demo_cluster) zero_node))
    as [_ ->].
  - apply demo_cluster_wf.
  - reflexivity.
  - vm_compute. discriminate.
  - vm_compute. reflexivity.
  - cbn. lia.
  - lia.
  - reflexivity.
Defined.
