(* ===== verification/EventLoop.v ===== *)
(** * Event loop

    Models [src/common/event_loop.c]: the hash table that tracks registered
    descriptors, with its chains linked through memory, the epoll interest list
    that points into the same memory, and the dispatch loop.  The heap of
    [FileContext] objects is part of the state, so that a pointer kept by epoll
    after its object was freed is visible: reading it is [Undefined].

    Results of [malloc], [epoll_create1], [timerfd_create] and the like are
    arguments; [epoll_ctl] fails when the descriptor is (ADD) or is not (MOD,
    DEL) in the interest list, or when the argument says so. *)

From S2P Require Import Prelude RaftCore.

(** ** Data *)

Definition FD_HASH_SIZE : nat := 256.

Definition EVENT_READ : Z := 1.
Definition EVENT_WRITE : Z := 2.
Definition EVENT_ERROR : Z := 4.

Definition has_event (events flag : Z) : bool := negb (Z.land events flag =? 0).

Definition EPOLLIN : Z := 1.
Definition EPOLLOUT : Z := 4.
Definition EPOLLERR : Z := 8.
Definition EPOLLHUP : Z := 16.

(** Address of a [FileContext]. *)
Abbreviation ptr := positive.

(** Callbacks and contexts are addresses; 0 is NULL. *)
Record FileContext : Type := {
  fc_fd : Z;
  fc_callback : Z;
  fc_context : Z;
  fc_next : option ptr;
}.

(** [heap] is the memory of the contexts, [epoll] the kernel's interest list:
    event mask and [data.ptr] of each descriptor. *)
Record EventLoop : Type := {
  running : bool;
  max_events : Z;
  fd_table : list (option ptr);
  heap : gmap ptr FileContext;
  epoll : gmap Z (Z * ptr);
}.

(** ** Table *)

Definition fd_hash (fd : Z) : nat := Z.to_nat (Z.land (u32 (u32 fd * 2654435761)) 255).

(** The chain walk.  [fuel] bounds its length. *)
Fixpoint find_loop (fuel : nat) (h : gmap ptr FileContext) (fc : option ptr) (fd : Z)
  : outcome (option ptr) :=
  match fuel with
  | O => Returns None
  | S fuel' =>
      match fc with
      | None => Returns None
      | Some p =>
          match h !! p with
          | None => Undefined
          | Some c => if fc_fd c =? fd then Returns (Some p)
                      else find_loop fuel' h (fc_next c) fd
          end
      end
  end.

Definition chain_fuel (L : EventLoop) : nat := S (size (heap L)).

Definition find_file_context (L : EventLoop) (fd : Z) : outcome (option ptr) :=
  find_loop (chain_fuel L) (heap L) (fd_table L !!! fd_hash fd) fd.

Definition set_table (i : nat) (o : option ptr) (L : EventLoop) : EventLoop :=
  {| L with fd_table := <[i := o]> (fd_table L) |}.

Definition set_heap (h : gmap ptr FileContext) (L : EventLoop) : EventLoop :=
  {| L with heap := h |}.

(** [insert_file_context] of the context at [p]. *)
Definition insert_file_context (L : EventLoop) (p : ptr) : outcome (Z * EventLoop) :=
  match heap L !! p with
  | None => Undefined
  | Some c =>
      match find_file_context L (fc_fd c) with
      | Undefined => Undefined
      | Returns (Some _) => Returns (-1, L)
      | Returns None =>
          let i := fd_hash (fc_fd c) in
          Returns (0, set_table i (Some p)
            (set_heap (<[p := {| c with fc_next := fd_table L !!! i |}]> (heap L)) L))
      end
  end.

(** What [pp] points to: a slot of the table or the [next] field of a context. *)
Inductive place : Type :=
  | Slot (i : nat)
  | Next (p : ptr).

Definition read_place (L : EventLoop) (pp : place) : outcome (option ptr) :=
  match pp with
  | Slot i => Returns (fd_table L !!! i)
  | Next p => match heap L !! p with Some c => Returns (fc_next c) | None => Undefined end
  end.

Definition write_place (pp : place) (o : option ptr) (L : EventLoop) : EventLoop :=
  match pp with
  | Slot i => set_table i o L
  | Next p => set_heap (alter (fun c => {| c with fc_next := o |}) p (heap L)) L
  end.

Fixpoint remove_loop (fuel : nat) (L : EventLoop) (pp : place) (fd : Z)
  : outcome (option ptr * EventLoop) :=
  match fuel with
  | O => Returns (None, L)
  | S fuel' =>
      match read_place L pp with
      | Undefined => Undefined
      | Returns None => Returns (None, L)
      | Returns (Some p) =>
          match heap L !! p with
          | None => Undefined
          | Some c =>
              if fc_fd c =? fd then
                Returns (Some p, write_place (Next p) None (write_place pp (fc_next c) L))
              else remove_loop fuel' L (Next p) fd
          end
      end
  end.

Definition remove_file_context (L : EventLoop) (fd : Z) : outcome (option ptr * EventLoop) :=
  remove_loop (chain_fuel L) L (Slot (fd_hash fd)) fd.

(** ** Registration *)

Inductive ctl_op : Type := EPOLL_CTL_ADD | EPOLL_CTL_MOD | EPOLL_CTL_DEL.

(** [epoll_ctl]: whether it succeeds, and the loop with the new interest list. *)
Definition epoll_ctl (ok : bool) (op : ctl_op) (fd : Z) (ev : Z * ptr) (L : EventLoop)
  : bool * EventLoop :=
  let present := bool_decide (is_Some (epoll L !! fd)) in
  match op with
  | EPOLL_CTL_ADD =>
      if ok && negb present then (true, {| L with epoll := <[fd := ev]> (epoll L) |}) else (false, L)
  | EPOLL_CTL_MOD =>
      if ok && present then (true, {| L with epoll := <[fd := ev]> (epoll L) |}) else (false, L)
  | EPOLL_CTL_DEL =>
      if ok && present then (true, {| L with epoll := delete fd (epoll L) |}) else (false, L)
  end.

Definition epoll_mask (events : Z) : Z :=
  Z.lor (if has_event events EVENT_READ then EPOLLIN else 0)
        (if has_event events EVENT_WRITE then EPOLLOUT else 0).

(** What closing a descriptor does to the interest list: the kernel drops it, as the
    program duplicates no descriptor. *)
Definition close_fd (fd : Z) (L : EventLoop) : EventLoop := {| L with epoll := delete fd (epoll L) |}.

Definition free_context (p : ptr) (L : EventLoop) : EventLoop := set_heap (delete p (heap L)) L.

Definition loop_create (alloc epoll_ok events_alloc : bool) (max : Z) : option EventLoop :=
  if alloc && epoll_ok && events_alloc then
    Some {| running := false; max_events := max; fd_table := replicate FD_HASH_SIZE None;
            heap := ∅; epoll := ∅ |}
  else None.

Definition loop_stop (L : EventLoop) : EventLoop := {| L with running := false |}.

(** [mem] is what [malloc] returns. *)
Definition loop_add_fd (mem : option ptr) (ctl_ok : bool) (L : EventLoop)
    (fd events cb context : Z) : outcome (Z * EventLoop) :=
  if (fd <? 0) || (cb =? 0) then Returns (-1, L)
  else
    match mem with
    | None => Returns (-1, L)
    | Some p =>
        let fc := {| fc_fd := fd; fc_callback := cb; fc_context := context; fc_next := None |} in
        match insert_file_context (set_heap (<[p := fc]> (heap L)) L) p with
        | Undefined => Undefined
        | Returns (rc, L1) =>
            if negb (rc =? 0) then Returns (-1, free_context p L1)
            else
              let (ok, L2) := epoll_ctl ctl_ok EPOLL_CTL_ADD fd (epoll_mask events, p) L1 in
              if ok then Returns (0, L2)
              else
                match remove_file_context L2 fd with
                | Undefined => Undefined
                | Returns (_, L3) => Returns (-1, free_context p L3)
                end
        end
    end.

Definition loop_mod_fd (ctl_ok : bool) (L : EventLoop) (fd events cb context : Z)
  : outcome (Z * EventLoop) :=
  if (fd <? 0) || (cb =? 0) then Returns (-1, L)
  else
    match find_file_context L fd with
    | Undefined => Undefined
    | Returns None => Returns (-1, L)
    | Returns (Some p) =>
        let L1 := set_heap (alter (fun c => {| c with fc_callback := cb; fc_context := context |})
                                  p (heap L)) L in
        let (ok, L2) := epoll_ctl ctl_ok EPOLL_CTL_MOD fd (epoll_mask events, p) L1 in
        Returns (if ok then 0 else -1, L2)
    end.

Definition loop_del_fd (ctl_ok : bool) (L : EventLoop) (fd : Z) : outcome (Z * EventLoop) :=
  if fd <? 0 then Returns (-1, L)
  else
    match remove_file_context L fd with
    | Undefined => Undefined
    | Returns (None, L1) => Returns (-1, L1)
    | Returns (Some p, L1) =>
        let (_, L2) := epoll_ctl ctl_ok EPOLL_CTL_DEL fd (0, p) L1 in
        Returns (0, free_context p L2)
    end.

(** [loop_add_timer]: seconds and nanoseconds of the interval, and the loop.
    [tfd] is the new timer descriptor, -1 on failure. *)
Definition timer_interval (interval_ms : Z) : Z * Z :=
  (interval_ms / 1000, u32 (interval_ms mod 1000 * 1000000)).

Definition loop_add_timer (tfd : Z) (settime_ok : bool) (mem : option ptr) (ctl_ok : bool)
    (L : EventLoop) (cb context : Z) : outcome (Z * EventLoop) :=
  if (cb =? 0) || (tfd =? -1) || negb settime_ok then Returns (-1, L)
  else
    match loop_add_fd mem ctl_ok L tfd EVENT_READ cb context with
    | Undefined => Undefined
    | Returns (rc, L1) => Returns (if rc =? 0 then tfd else -1, L1)
    end.

(** ** Dispatch *)

Definition translate_events (ev : Z) : Z :=
  Z.lor (if has_event ev EPOLLIN then EVENT_READ else 0)
    (Z.lor (if has_event ev EPOLLOUT then EVENT_WRITE else 0)
           (if has_event ev (Z.lor EPOLLERR EPOLLHUP) then EVENT_ERROR else 0)).

Section Dispatch.
Context {W : Type}.

(** What calling the function at an address does, with the context, the
    descriptor and the events; callbacks may change the loop. *)
Variable call : Z -> Z -> Z -> Z -> EventLoop * W -> outcome (EventLoop * W).

(** The [for] loop over one batch of [epoll_wait]. *)
Fixpoint dispatch (batch : list (Z * ptr)) (s : EventLoop * W) : outcome (EventLoop * W) :=
  match batch with
  | [] => Returns s
  | (ev, p) :: batch' =>
      match heap s.1 !! p with
      | None => Undefined
      | Some c =>
          if fc_callback c =? 0 then dispatch batch' s
          else
            match call (fc_callback c) (fc_context c) (fc_fd c) (translate_events ev) s with
            | Undefined => Undefined
            | Returns s' => dispatch batch' s'
            end
      end
  end.

(** Results of [epoll_wait].  [stop]: the handler of the interrupting signal called
    [loop_stop]. *)
Inductive wait_result : Type :=
  | WaitEvents (batch : list (Z * ptr))
  | WaitInterrupted (stop : bool)
  | WaitError.

(** The kernel: what the [i]-th [epoll_wait] returns. *)
Variable epoll_wait : nat -> EventLoop -> wait_result.

(** The [while] loop.  The flag tells whether it ended within [fuel] rounds. *)
Fixpoint loop_rounds (fuel i : nat) (s : EventLoop * W) : outcome (bool * (EventLoop * W)) :=
  match fuel with
  | O => Returns (false, s)
  | S fuel' =>
      if running s.1 then
        match epoll_wait i s.1 with
        | WaitInterrupted stop =>
            loop_rounds fuel' (S i) (if stop then loop_stop s.1 else s.1, s.2)
        | WaitError => Returns (true, s)
        | WaitEvents batch =>
            match dispatch batch s with
            | Undefined => Undefined
            | Returns s' => loop_rounds fuel' (S i) s'
            end
        end
      else Returns (true, s)
  end.

Definition loop_run (fuel : nat) (s : EventLoop * W) : outcome (bool * (EventLoop * W)) :=
  loop_rounds fuel 0 ({| (s.1) with running := true |}, s.2).
End Dispatch.

(** ** Shutdown *)

(** Frees one chain; the descriptors leave epoll first. *)
Fixpoint free_chain (ctl_ok : Z -> bool) (fuel : nat) (fc : option ptr) (L : EventLoop)
  : outcome EventLoop :=
  match fuel with
  | O => Returns L
  | S fuel' =>
      match fc with
      | None => Returns L
      | Some p =>
          match heap L !! p with
          | None => Undefined
          | Some c =>
              let L1 := (epoll_ctl (ctl_ok (fc_fd c)) EPOLL_CTL_DEL (fc_fd c) (0, p) L).2 in
              free_chain ctl_ok fuel' (fc_next c) (free_context p L1)
          end
      end
  end.

(** The buckets from [i] on. *)
Fixpoint free_buckets (ctl_ok : Z -> bool) (fuel rounds i : nat) (L : EventLoop)
  : outcome EventLoop :=
  match rounds with
  | O => Returns L
  | S rounds' =>
      match free_chain ctl_ok fuel (fd_table L !!! i) L with
      | Undefined => Undefined
      | Returns L1 => free_buckets ctl_ok fuel rounds' (S i) (set_table i None L1)
      end
  end.

(** [loop_free]: what is left when the loop object itself is about to be
    freed. *)
Definition loop_free (ctl_ok : Z -> bool) (L : EventLoop) : outcome EventLoop :=
  free_buckets ctl_ok (chain_fuel L) FD_HASH_SIZE 0 L.

Fixpoint chain_fds (fuel : nat) (h : gmap ptr FileContext) (fc : option ptr)
  : outcome (list Z) :=
  match fuel with
  | O => Returns []
  | S fuel' =>
      match fc with
      | None => Returns []
      | Some p =>
          match h !! p with
          | None => Undefined
          | Some c =>
              match chain_fds fuel' h (fc_next c) with
              | Undefined => Undefined
              | Returns fds => Returns (fc_fd c :: fds)
              end
          end
      end
  end.

Fixpoint bucket_fds (L : EventLoop) (rounds i : nat) : outcome (list Z) :=
  match rounds with
  | O => Returns []
  | S rounds' =>
      match chain_fds (chain_fuel L) (heap L) (fd_table L !!! i) with
      | Undefined => Undefined
      | Returns fds =>
          match bucket_fds L rounds' (S i) with
          | Undefined => Undefined
          | Returns rest => Returns (fds ++ rest)
          end
      end
  end.

(** [loop_emergency_close_all]: the descriptors it closes, in order. *)
Definition loop_emergency_close_all (L : EventLoop) (exclude : list Z) : outcome (list Z) :=
  match bucket_fds L FD_HASH_SIZE 0 with
  | Undefined => Undefined
  | Returns fds => Returns (filter (fun fd => fd ∉ exclude /\ 0 <= fd) fds)
  end.

(** ** Chains in memory *)

(** [o] heads a linked list through exactly the addresses [ps]. *)
Fixpoint chain (h : gmap ptr FileContext) (o : option ptr) (ps : list ptr) : Prop :=
  match ps with
  | [] => o = None
  | p :: ps' => o = Some p /\ exists c, h !! p = Some c /\ chain h (fc_next c) ps'
  end.

Lemma chain_frame (h h' : gmap ptr FileContext) (ps : list ptr) (o : option ptr) :
  chain h o ps -> (forall p, p ∈ ps -> h' !! p = h !! p) -> chain h' o ps.
Proof.
  revert o. induction ps as [|p ps IH]; intros o Hc Hf; [done|].
  destruct Hc as (-> & c & Hp & Hc). split; [done|]. exists c.
  split; [rewrite Hf by set_solver; done|]. apply IH; [done|]. set_solver.
Qed.

Lemma chain_lookup (h : gmap ptr FileContext) (ps : list ptr) (o : option ptr) (p : ptr) :
  chain h o ps -> p ∈ ps -> is_Some (h !! p).
Proof.
  revert o. induction ps as [|q ps IH]; intros o Hc Hp; [set_solver|].
  destruct Hc as (-> & c & Hq & Hc). apply elem_of_cons in Hp as [->|Hp]; eauto.
Qed.

(** A chain without repetitions is no longer than the heap. *)
Lemma chain_length (h : gmap ptr FileContext) (ps : list ptr) :
  NoDup ps -> (forall p, p ∈ ps -> is_Some (h !! p)) -> (length ps <= size h)%nat.
Proof.
  intros Hnd Hin. rewrite <- (size_list_to_set (C := gset ptr)) by done.
  rewrite <- size_dom. apply subseteq_size. intros p Hp%elem_of_list_to_set.
  by apply elem_of_dom, Hin.
Qed.

(** The walk finds the context with that descriptor if the chain has one. *)
Lemma find_loop_spec (h : gmap ptr FileContext) (fd : Z) (ps : list ptr) (fuel : nat)
    (o : option ptr) :
  chain h o ps -> (length ps < fuel)%nat ->
  (exists p c, p ∈ ps /\ h !! p = Some c /\ fc_fd c = fd /\
     find_loop fuel h o fd = Returns (Some p)) \/
  ((forall p c, p ∈ ps -> h !! p = Some c -> fc_fd c <> fd) /\
   find_loop fuel h o fd = Returns None).
Proof.
  revert fuel o. induction ps as [|p ps IH]; intros [|fuel] o Hc Hl; cbn in Hl; try lia.
  { right. cbn in *. subst. split; [set_solver|done]. }
  destruct Hc as (-> & c & Hp & Hc). cbn. rewrite Hp.
  destruct (Z.eqb_spec (fc_fd c) fd) as [He|Hne].
  { left. exists p, c. set_solver. }
  destruct (IH fuel (fc_next c) Hc) as [(q & d & Hq & ?)|[Hno Hr]]; [lia|left|right].
  - exists q, d. set_solver.
  - split; [|done]. intros q d Hq Hd. apply elem_of_cons in Hq as [->|Hq]; [|by eapply Hno].
    by simplify_eq.
Qed.

(** Unlinking: either the chain has no such descriptor and nothing happens, or
    the link that leads to it is redirected to its successor. *)
Definition pred_place (pp : place) (ps : list ptr) : place :=
  match last ps with Some q => Next q | None => pp end.

Lemma remove_loop_spec (L : EventLoop) (fd : Z) (ps : list ptr) (fuel : nat) (pp : place)
    (o : option ptr) :
  read_place L pp = Returns o -> chain (heap L) o ps -> (length ps < fuel)%nat ->
  (exists ps1 p ps2 c, ps = ps1 ++ p :: ps2 /\ heap L !! p = Some c /\ fc_fd c = fd /\
     remove_loop fuel L pp fd
     = Returns (Some p, write_place (Next p) None
                          (write_place (pred_place pp ps1) (fc_next c) L))) \/
  ((forall p c, p ∈ ps -> heap L !! p = Some c -> fc_fd c <> fd) /\
   remove_loop fuel L pp fd = Returns (None, L)).
Proof.
  revert fuel pp o. induction ps as [|p ps IH]; intros [|fuel] pp o Hrd Hc Hl; cbn in Hl; try lia.
  { right. cbn in *. subst. rewrite Hrd. split; [set_solver|done]. }
  destruct Hc as (-> & c & Hp & Hc). cbn. rewrite Hrd, Hp.
  destruct (Z.eqb_spec (fc_fd c) fd) as [He|Hne].
  { left. by exists [], p, ps, c. }
  destruct (IH fuel (Next p) (fc_next c)) as [(ps1 & q & ps2 & d & -> & Hq & Hd & ->)|[Hno ->]].
  - cbn. by rewrite Hp.
  - done.
  - lia.
  - left. exists (p :: ps1), q, ps2, d. repeat split; try done.
    unfold pred_place. by destruct ps1 using rev_ind; [|rewrite app_comm_cons, !last_snoc].
  - right. split; [|done]. intros q d Hq Hd. apply elem_of_cons in Hq as [->|Hq]; [|by eapply Hno].
    by simplify_eq.
Qed.

(** The chain after unlinking and freeing [p]. *)
Lemma chain_unlink (h : gmap ptr FileContext) (ps1 ps2 : list ptr) (p q : ptr) (c : FileContext)
    (o : option ptr) :
  NoDup (ps1 ++ q :: p :: ps2) -> h !! p = Some c -> chain h o (ps1 ++ q :: p :: ps2) ->
  chain (delete p (alter (fun d => {| d with fc_next := fc_next c |}) q h)) o (ps1 ++ q :: ps2).
Proof.
  revert o. induction ps1 as [|x ps1 IH]; intros o Hnd Hp Hc; cbn in *.
  - destruct Hc as (-> & d & Hq & Heq & c' & Hp' & Hc). simplify_eq.
    split; [done|]. exists {| d with fc_next := fc_next c |}.
    apply NoDup_cons in Hnd as [Hqn Hnd]. apply NoDup_cons in Hnd as [Hpn _].
    split.
    { rewrite lookup_delete_ne, lookup_alter_eq, Hq by set_solver. done. }
    eapply chain_frame; [exact Hc|]. intros y Hy.
    rewrite lookup_delete_ne, lookup_alter_ne by set_solver. done.
  - destruct Hc as (-> & d & Hx & Hc). apply NoDup_cons in Hnd as [Hxn Hnd].
    split; [done|]. exists d. split; [|by apply IH].
    rewrite lookup_delete_ne, lookup_alter_ne by set_solver. done.
Qed.

(** ** Table invariant *)

(** [bs] are the chains of the buckets. *)
Record table_ok (L : EventLoop) (bs : nat -> list ptr) : Prop := {
  to_len : length (fd_table L) = FD_HASH_SIZE;
  to_chain : forall i, (i < FD_HASH_SIZE)%nat -> chain (heap L) (fd_table L !!! i) (bs i);
  to_nodup : forall i, NoDup (bs i);
  to_home : forall i p, p ∈ bs i -> exists c, heap L !! p = Some c /\ fd_hash (fc_fd c) = i;
  to_in : forall p c, heap L !! p = Some c -> p ∈ bs (fd_hash (fc_fd c));
  to_inj : forall p q c d, heap L !! p = Some c -> heap L !! q = Some d ->
           fc_fd c = fc_fd d -> p = q;
}.

(** The contents of the contexts, without the links. *)
Definition fc_body (c : FileContext) : Z * Z * Z := (fc_fd c, fc_callback c, fc_context c).
Definition bodies (L : EventLoop) : gmap ptr (Z * Z * Z) := fc_body <$> heap L.

(** The loop tracks the descriptors of [m] with their callback and context, and
    every pointer in the interest list leads to the context of its
    descriptor. *)
Record tracks (L : EventLoop) (m : gmap Z (Z * Z)) : Prop := {
  tr_table : exists bs, table_ok L bs;
  tr_map : forall fd cb ctx, m !! fd = Some (cb, ctx) <->
    exists p, bodies L !! p = Some (fd, cb, ctx);
  tr_valid : forall p fd cb ctx, bodies L !! p = Some (fd, cb, ctx) -> 0 <= fd /\ cb <> 0;
  tr_epoll : forall fd e p, epoll L !! fd = Some (e, p) ->
    exists cb ctx, bodies L !! p = Some (fd, cb, ctx);
}.

Lemma fd_hash_lt (fd : Z) : (fd_hash fd < FD_HASH_SIZE)%nat.
Proof.
  unfold fd_hash, FD_HASH_SIZE. change 255 with (Z.ones 8).
  rewrite Z.land_ones by lia. pose proof (Z.mod_pos_bound (u32 (u32 fd * 2654435761)) (2 ^ 8)).
  lia.
Qed.

Lemma table_fuel (L : EventLoop) (bs : nat -> list ptr) (i : nat) :
  table_ok L bs -> (length (bs i) < chain_fuel L)%nat.
Proof.
  intros H. unfold chain_fuel. enough (length (bs i) <= size (heap L))%nat by lia.
  apply chain_length; [apply (to_nodup _ _ H)|]. intros p Hp.
  destruct (to_home _ _ H i p Hp) as (c & -> & _). done.
Qed.

(** What [find_file_context] returns on a well-formed table. *)
Lemma find_spec (L : EventLoop) (bs : nat -> list ptr) (fd : Z) :
  table_ok L bs ->
  (exists p c, heap L !! p = Some c /\ fc_fd c = fd /\
     find_file_context L fd = Returns (Some p)) \/
  ((forall p c, heap L !! p = Some c -> fc_fd c <> fd) /\
   find_file_context L fd = Returns None).
Proof.
  intros H. destruct (find_loop_spec (heap L) fd (bs (fd_hash fd)) (chain_fuel L)
    (fd_table L !!! fd_hash fd)) as [(p & c & _ & Hp & Hc & Hr)|[Hno Hr]].
  - apply (to_chain _ _ H), fd_hash_lt.
  - by apply table_fuel.
  - left. by exists p, c.
  - right. split; [|done]. intros p c Hp He. eapply Hno; [|done..]. rewrite <- He.
    by eapply to_in.
Qed.

(** A new context linked at the head of its bucket. *)
Definition linked (p : ptr) (c : FileContext) (L : EventLoop) : EventLoop :=
  let i := fd_hash (fc_fd c) in
  set_table i (Some p) (set_heap (<[p := {| c with fc_next := fd_table L !!! i |}]> (heap L)) L).

Lemma lookup_set_table (L : EventLoop) (i j : nat) (o : option ptr) :
  length (fd_table L) = FD_HASH_SIZE -> (i < FD_HASH_SIZE)%nat ->
  fd_table (set_table i o L) !!! j = if decide (i = j) then o else fd_table L !!! j.
Proof.
  intros Hl Hi. cbn. case_decide; [subst|].
  - by rewrite list_lookup_total_insert_eq by lia.
  - by rewrite list_lookup_total_insert_ne.
Qed.

Lemma linked_ok (L : EventLoop) (bs : nat -> list ptr) (p : ptr) (c : FileContext) :
  table_ok L bs -> heap L !! p = None ->
  (forall q d, heap L !! q = Some d -> fc_fd d <> fc_fd c) ->
  let i := fd_hash (fc_fd c) in
  table_ok (linked p c L) (fun j => if decide (i = j) then p :: bs j else bs j).
Proof.
  intros H Hp Hfd i. pose proof (fd_hash_lt (fc_fd c)) as Hi.
  assert (forall j, p ∉ bs j) as Hfresh.
  { intros j Hj. destruct (to_home _ _ H j p Hj) as (d & Hd & _). by rewrite Hp in Hd. }
  assert (forall j q, q ∈ bs j -> heap (linked p c L) !! q = heap L !! q) as Hf.
  { intros j q Hq. cbn. rewrite lookup_insert_ne; [done|]. intros ->. by eapply Hfresh. }
  split.
  - cbn. rewrite length_insert. apply H.
  - intros j Hj. unfold linked. rewrite lookup_set_table by (apply H || done). fold i.
    case_decide; [subst j; split; [done|]|].
    + eexists. split; [cbn; apply lookup_insert_eq|]. cbn.
      eapply chain_frame; [by apply (to_chain _ _ H)|]. intros q Hq. by apply (Hf i).
    + eapply chain_frame; [by apply (to_chain _ _ H)|]. intros q Hq. by apply (Hf j).
  - intros j. case_decide; [|apply H]. apply NoDup_cons. split; [apply Hfresh|apply H].
  - intros j q Hq. cbn. destruct (decide (p = q)) as [<-|Hne].
    + rewrite lookup_insert_eq. eexists. split; [done|]. cbn. case_decide; [done|].
      by destruct (Hfresh j).
    + rewrite lookup_insert_ne by done. apply (to_home _ _ H). case_decide; set_solver.
  - intros q d. cbn. destruct (decide (p = q)) as [<-|Hne].
    + rewrite lookup_insert_eq. intros [= <-]. cbn. rewrite decide_True by done. left.
    + rewrite lookup_insert_ne by done. intros Hq. pose proof (to_in _ _ H q d Hq).
      case_decide; set_solver.
  - intros q r d e. cbn. rewrite !lookup_insert_Some. intros [[<- <-]|[? Hd]] [[<- <-]|[? He]];
      cbn; try done; intros Heq.
    + by destruct (Hfd r e He).
    + by destruct (Hfd q d Hd).
    + by eapply to_inj.
Qed.

Lemma delete_alter_eq (h : gmap ptr FileContext) (p : ptr) (f : FileContext -> FileContext) :
  delete p (alter f p h) = delete p h.
Proof.
  apply map_eq. intros q. destruct (decide (p = q)) as [<-|Hne].
  - by rewrite !lookup_delete_eq.
  - by rewrite !lookup_delete_ne, lookup_alter_ne.
Qed.

(** Memory after the link of [pp] was redirected past [p] and [p] freed. *)
Definition unlinked (pp : place) (p : ptr) (c : FileContext) (L : EventLoop) : EventLoop :=
  free_context p (write_place pp (fc_next c) L).

Lemma free_after_unlink (pp : place) (p : ptr) (c : FileContext) (L : EventLoop) :
  free_context p (write_place (Next p) None (write_place pp (fc_next c) L)) = unlinked pp p c L.
Proof. unfold unlinked, free_context, set_heap. cbn. by rewrite delete_alter_eq. Qed.

Lemma bodies_unlinked (pp : place) (p : ptr) (c : FileContext) (L : EventLoop) :
  bodies (unlinked pp p c L) = delete p (bodies L).
Proof.
  unfold bodies, unlinked, free_context, set_heap. cbn. rewrite fmap_delete. f_equal.
  destruct pp as [i|q]; [done|]. cbn. apply map_eq. intros x. rewrite !lookup_fmap.
  destruct (decide (q = x)) as [<-|Hne].
  - rewrite lookup_alter_eq. by destruct (heap L !! q).
  - by rewrite lookup_alter_ne.
Qed.

Lemma body_lookup (L : EventLoop) (p : ptr) (fd cb ctx : Z) :
  bodies L !! p = Some (fd, cb, ctx) <->
  exists c, heap L !! p = Some c /\ fc_body c = (fd, cb, ctx).
Proof.
  unfold bodies. rewrite lookup_fmap, fmap_Some. split; intros (c & ? & ?); eauto.
Qed.

(** Contexts that survive keep their contents. *)
Lemma unlinked_lookup (pp : place) (p q : ptr) (c d : FileContext) (L : EventLoop) :
  heap (unlinked pp p c L) !! q = Some d ->
  q <> p /\ exists d', heap L !! q = Some d' /\ fc_body d' = fc_body d.
Proof.
  intros Hq. pose proof (bodies_unlinked pp p c L) as Hb.
  apply (f_equal (fun m => m !! q)) in Hb. unfold bodies in Hb at 1.
  rewrite lookup_fmap, Hq in Hb. cbn in Hb. symmetry in Hb.
  apply lookup_delete_Some in Hb as [Hne Hb]. split; [done|].
  unfold bodies in Hb. rewrite lookup_fmap, fmap_Some in Hb. destruct Hb as (d' & ? & ?). eauto.
Qed.

Lemma unlinked_chain (L : EventLoop) (i : nat) (ps1 ps2 : list ptr) (p : ptr) (c : FileContext) :
  length (fd_table L) = FD_HASH_SIZE -> (i < FD_HASH_SIZE)%nat ->
  heap L !! p = Some c -> NoDup (ps1 ++ p :: ps2) ->
  chain (heap L) (fd_table L !!! i) (ps1 ++ p :: ps2) ->
  chain (heap (unlinked (pred_place (Slot i) ps1) p c L))
        (fd_table (unlinked (pred_place (Slot i) ps1) p c L) !!! i) (ps1 ++ ps2).
Proof.
  intros Hl Hi Hp Hnd Hc. destruct ps1 as [|q ps1 _] using rev_ind; cbn [app] in *.
  - destruct Hc as (_ & c' & Hp' & Hc). simplify_eq.
    unfold unlinked, pred_place. cbn [last write_place].
    change (fd_table (free_context p (set_table i (fc_next c) L)))
      with (fd_table (set_table i (fc_next c) L)).
    rewrite lookup_set_table, decide_True by done. cbn.
    apply NoDup_cons in Hnd as [Hpn _]. eapply chain_frame; [exact Hc|].
    intros y Hy. rewrite lookup_delete_ne by set_solver. done.
  - unfold unlinked, pred_place. rewrite last_snoc. cbn.
    rewrite <- app_assoc in Hnd, Hc |- *. by apply chain_unlink.
Qed.

Lemma unlinked_frame (pp : place) (p x : ptr) (c : FileContext) (L : EventLoop) :
  x <> p -> pp <> Next x -> heap (unlinked pp p c L) !! x = heap L !! x.
Proof.
  intros Hp Hpp. unfold unlinked, free_context, set_heap. cbn. rewrite lookup_delete_ne by done.
  destruct pp as [j|q]; [done|]. cbn. by rewrite lookup_alter_ne by congruence.
Qed.

Lemma pred_place_in (i : nat) (ps : list ptr) (x : ptr) :
  pred_place (Slot i) ps = Next x -> x ∈ ps.
Proof.
  unfold pred_place. destruct (last ps) as [q|] eqn:E; [|done]. intros [= ->].
  apply last_Some in E as [l ->]. set_solver.
Qed.

Lemma unlinked_table (L : EventLoop) (i j : nat) (ps : list ptr) (p : ptr) (c : FileContext) :
  i <> j -> fd_table (unlinked (pred_place (Slot i) ps) p c L) !!! j = fd_table L !!! j.
Proof.
  intros Hne. unfold unlinked, pred_place. destruct (last ps); cbn; [done|].
  by rewrite list_lookup_total_insert_ne.
Qed.

Lemma unlinked_ok (L : EventLoop) (bs : nat -> list ptr) (p : ptr) (c : FileContext)
    (ps1 ps2 : list ptr) :
  let i := fd_hash (fc_fd c) in
  table_ok L bs -> heap L !! p = Some c -> bs i = ps1 ++ p :: ps2 ->
  table_ok (unlinked (pred_place (Slot i) ps1) p c L)
           (fun j => if decide (i = j) then ps1 ++ ps2 else bs j).
Proof.
  intros i H Hp Hbs. pose proof (fd_hash_lt (fc_fd c)) as Hi. fold i in Hi.
  pose proof (to_nodup _ _ H i) as Hnd. rewrite Hbs in Hnd.
  assert (forall j x, x ∈ bs j -> j <> i ->
            heap (unlinked (pred_place (Slot i) ps1) p c L) !! x = heap L !! x) as Hf.
  { intros j x Hx Hj. destruct (to_home _ _ H j x Hx) as (d & Hd & <-).
    assert (x ∉ bs i) as Hxi.
    { intros (d' & Hd' & He)%(to_home _ _ H). simplify_eq. }
    rewrite Hbs in Hxi. apply unlinked_frame; [set_solver|].
    intros Hpp%pred_place_in. set_solver. }
  assert (forall x, x ∈ ps1 ++ ps2 -> x <> p /\ x ∈ bs i) as Hsub.
  { intros x Hx. rewrite Hbs. apply NoDup_app in Hnd as (_ & Hd & Hnd).
    apply NoDup_cons in Hnd as [Hpn _]. set_solver. }
  split.
  - rewrite <- (to_len _ _ H). unfold unlinked, pred_place. destruct (last ps1); cbn; [done|].
    apply length_insert.
  - intros j Hj. case_decide; [subst j|].
    + apply unlinked_chain; [apply H|done..|]. rewrite <- Hbs. by apply (to_chain _ _ H).
    + rewrite unlinked_table by done. eapply chain_frame; [by apply (to_chain _ _ H)|].
      intros x Hx. by apply (Hf j).
  - intros j. case_decide; [|apply H]. apply NoDup_app in Hnd as (H1 & H2 & H3).
    apply NoDup_cons in H3 as [_ H3]. apply NoDup_app. set_solver.
  - intros j x Hx.
    assert (x <> p /\ x ∈ bs j) as [Hxp Hxj].
    { case_decide; [subst j; auto|]. split; [|done]. intros ->.
      destruct (to_home _ _ H j p Hx) as (d & Hd & He). simplify_eq. }
    destruct (to_home _ _ H j x Hxj) as (d & Hd & <-).
    assert (bodies (unlinked (pred_place (Slot i) ps1) p c L) !! x = Some (fc_body d)) as Hb.
    { rewrite bodies_unlinked, lookup_delete_ne by done. unfold bodies. by rewrite lookup_fmap, Hd. }
    unfold bodies in Hb. rewrite lookup_fmap, fmap_Some in Hb. destruct Hb as (d' & Hd' & Hb).
    exists d'. split; [done|]. by injection Hb as -> _ _.
  - intros x d Hx. apply unlinked_lookup in Hx as (Hxp & d' & Hd' & Hb).
    injection Hb as Hb _ _. pose proof (to_in _ _ H x d' Hd') as Hin. rewrite Hb in Hin.
    case_decide as Hj; [|done]. rewrite <- Hj, Hbs in Hin. set_solver.
  - intros x y d e Hx Hy Heq. apply unlinked_lookup in Hx as (_ & d' & Hd' & Hb).
    apply unlinked_lookup in Hy as (_ & e' & He' & Hb').
    injection Hb as Hb _ _. injection Hb' as Hb' _ _. eapply (to_inj _ _ H); [done..|congruence].
Qed.

(** What [remove_file_context] does on a well-formed table. *)
Lemma remove_spec (L : EventLoop) (bs : nat -> list ptr) (fd : Z) :
  table_ok L bs ->
  (exists p c L1 bs', heap L !! p = Some c /\ fc_fd c = fd /\
     remove_file_context L fd = Returns (Some p, L1) /\
     epoll L1 = epoll L /\
     table_ok (free_context p L1) bs' /\ bodies (free_context p L1) = delete p (bodies L)) \/
  ((forall p c, heap L !! p = Some c -> fc_fd c <> fd) /\
   remove_file_context L fd = Returns (None, L)).
Proof.
  intros H. pose proof (fd_hash_lt fd) as Hi.
  destruct (remove_loop_spec L fd (bs (fd_hash fd)) (chain_fuel L) (Slot (fd_hash fd))
    (fd_table L !!! fd_hash fd)) as [(ps1 & p & ps2 & c & Hbs & Hp & Hc & Hr)|[Hno Hr]].
  - done.
  - by apply (to_chain _ _ H).
  - by apply table_fuel.
  - left. subst fd. exists p, c. eexists _, _. split; [done|]. split; [done|]. split; [exact Hr|].
    rewrite free_after_unlink. split; [|split; [by apply unlinked_ok|apply bodies_unlinked]].
    unfold pred_place. by destruct (last ps1).
  - right. split; [|done]. intros p c Hp He. eapply Hno; [|done..]. rewrite <- He. by eapply to_in.
Qed.

(** ** The loop as a map *)

Lemma table_ok_ext (L L' : EventLoop) (bs : nat -> list ptr) :
  fd_table L' = fd_table L -> heap L' = heap L -> table_ok L bs -> table_ok L' bs.
Proof. intros Ht Hh [? ? ? ? ? ?]. split; rewrite ?Ht, ?Hh; auto. Qed.

Lemma tracks_create (alloc eok evok : bool) (max : Z) (L : EventLoop) :
  loop_create alloc eok evok max = Some L -> tracks L ∅.
Proof.
  unfold loop_create. destruct (_ && _); [|done]. intros [= <-]. split.
  - exists (fun _ => []). split; cbn; try done; try set_solver.
    + intros i Hi. apply (lookup_total_replicate_2 FD_HASH_SIZE None i Hi).
    + constructor.
  - intros fd cb ctx. unfold bodies. cbn. rewrite fmap_empty.
    split; [done|]. by intros (p & ?).
  - intros p fd cb ctx. unfold bodies. cbn. by rewrite fmap_empty.
  - done.
Qed.

Lemma tracks_ext (L L' : EventLoop) (m : gmap Z (Z * Z)) :
  (exists bs, table_ok L' bs) -> bodies L' = bodies L -> epoll L' = epoll L ->
  tracks L m -> tracks L' m.
Proof. intros Ht Hb He [? ? ? ?]. split; rewrite ?Hb, ?He; auto. Qed.

Lemma tracks_ptr (L : EventLoop) (m : gmap Z (Z * Z)) (fd : Z) :
  tracks L m -> m !! fd = None <-> (forall p c, heap L !! p = Some c -> fc_fd c <> fd).
Proof.
  intros H. split.
  - intros Hm p c Hp He.
    assert (m !! fd = Some (fc_callback c, fc_context c)); [|congruence].
    apply (tr_map _ _ H). exists p. apply body_lookup. exists c. by rewrite <- He.
  - intros Hn. destruct (m !! fd) as [[cb ctx]|] eqn:E; [|done].
    apply (tr_map _ _ H) in E as (p & (c & Hp & Hb)%body_lookup). injection Hb as Hb _ _.
    by destruct (Hn p c Hp).
Qed.

Lemma find_loop_frame (h h' : gmap ptr FileContext) (fd : Z) (ps : list ptr) (f f' : nat)
    (o : option ptr) :
  chain h o ps -> (forall p, p ∈ ps -> h' !! p = h !! p) ->
  (length ps < f)%nat -> (length ps < f')%nat -> find_loop f' h' o fd = find_loop f h o fd.
Proof.
  revert f f' o. induction ps as [|p ps IH]; intros [|f] [|f'] o Hc Hf H1 H2; cbn in H1, H2; try lia.
  { cbn in *. by subst. }
  destruct Hc as (-> & c & Hp & Hc). cbn. rewrite Hf, Hp by set_solver.
  destruct (_ =? _); [done|]. apply IH; [done|set_solver|lia|lia].
Qed.

(** The search does not see a context that is not linked yet. *)
Lemma find_fresh (L : EventLoop) (bs : nat -> list ptr) (p : ptr) (c : FileContext) (fd : Z) :
  table_ok L bs -> heap L !! p = None ->
  find_file_context (set_heap (<[p := c]> (heap L)) L) fd = find_file_context L fd.
Proof.
  intros H Hp. apply find_loop_frame with (ps := bs (fd_hash fd)).
  - apply (to_chain _ _ H), fd_hash_lt.
  - intros q Hq. destruct (to_home _ _ H _ q Hq) as (d & Hd & _).
    cbn. rewrite lookup_insert_ne by congruence. done.
  - by apply table_fuel.
  - pose proof (table_fuel L bs (fd_hash fd) H). unfold chain_fuel in *. cbn.
    rewrite map_size_insert_None by done. lia.
Qed.

Lemma insert_spec (L : EventLoop) (m : gmap Z (Z * Z)) (p : ptr) (c : FileContext) :
  tracks L m -> heap L !! p = None ->
  insert_file_context (set_heap (<[p := c]> (heap L)) L) p
  = if decide (m !! fc_fd c = None) then Returns (0, linked p c L)
    else Returns (-1, set_heap (<[p := c]> (heap L)) L).
Proof.
  intros H Hp. destruct (tr_table _ _ H) as [bs Hok].
  unfold insert_file_context. cbn [heap set_heap]. rewrite lookup_insert_eq.
  rewrite (find_fresh L bs) by done.
  destruct (find_spec L bs (fc_fd c) Hok) as [(q & d & Hq & Hd & ->)|[Hno ->]].
  - rewrite decide_False; [done|]. intros Hm. eapply (tracks_ptr L m) in Hm; eauto.
  - rewrite decide_True by by apply (tracks_ptr L m).
    unfold linked, set_table, set_heap. cbn. by rewrite insert_insert_eq.
Qed.

Lemma set_heap_id (L : EventLoop) (h : gmap ptr FileContext) :
  h = heap L -> set_heap h L = L.
Proof. intros ->. by destruct L. Qed.

Lemma bodies_linked (L : EventLoop) (p : ptr) (c : FileContext) :
  bodies (linked p c L) = <[p := fc_body c]> (bodies L).
Proof. unfold bodies, linked. cbn. by rewrite fmap_insert. Qed.

(** Registering a descriptor that is not tracked. *)
Lemma tracks_linked (L : EventLoop) (m : gmap Z (Z * Z)) (p : ptr) (c : FileContext) (e : Z) :
  tracks L m -> heap L !! p = None -> m !! fc_fd c = None -> 0 <= fc_fd c -> fc_callback c <> 0 ->
  tracks {| (linked p c L) with epoll := <[fc_fd c := (e, p)]> (epoll L) |}
         (<[fc_fd c := (fc_callback c, fc_context c)]> m).
Proof.
  intros H Hp Hm Hfd Hcb. destruct (tr_table _ _ H) as [bs Hok].
  assert (bodies L !! p = None) as Hbp by (unfold bodies; by rewrite lookup_fmap, Hp).
  split.
  - eexists. eapply table_ok_ext; [..|apply linked_ok; [exact Hok|exact Hp|]]; [done..|].
    by apply (tracks_ptr L m).
  - intros fd cb ctx.
    change (bodies {| (linked p c L) with epoll := _ |}) with (bodies (linked p c L)).
    rewrite bodies_linked. split.
    + intros [[<- [= <- <-]]|[Hne Hfd']]%lookup_insert_Some.
      { exists p. apply lookup_insert_eq. }
      apply (tr_map _ _ H) in Hfd' as (q & Hq). exists q.
      rewrite lookup_insert_ne; [done|]. congruence.
    + intros (q & [[<- [= <- <- <-]]|[Hne Hq]]%lookup_insert_Some); [apply lookup_insert_eq|].
      assert (m !! fd = Some (cb, ctx)) by (apply (tr_map _ _ H); eauto).
      rewrite lookup_insert_ne; [done|]. congruence.
  - intros q fd cb ctx. change (bodies {| (linked p c L) with epoll := _ |}) with (bodies (linked p c L)).
    rewrite bodies_linked. intros [[<- [= <- <- <-]]|[Hne Hq]]%lookup_insert_Some; [done|].
    by eapply (tr_valid _ _ H).
  - intros fd e' q. change (bodies {| (linked p c L) with epoll := _ |}) with (bodies (linked p c L)).
    rewrite bodies_linked. cbn. intros [[<- [= <- <-]]|[Hne Hq]]%lookup_insert_Some.
    { eexists _, _. apply lookup_insert_eq. }
    apply (tr_epoll _ _ H) in Hq as (cb & ctx & Hq). exists cb, ctx.
    rewrite lookup_insert_ne; [done|]. congruence.
Qed.

(** Forgetting a tracked descriptor. *)
Lemma tracks_removed (L L' : EventLoop) (m : gmap Z (Z * Z)) (bs : nat -> list ptr) (p : ptr)
    (fd cb ctx : Z) :
  tracks L m -> bodies L !! p = Some (fd, cb, ctx) ->
  table_ok L' bs -> bodies L' = delete p (bodies L) -> epoll L' = delete fd (epoll L) ->
  tracks L' (delete fd m).
Proof.
  intros H Hp Hok Hb He. destruct (tr_table _ _ H) as [bs0 Hok0].
  assert (forall q cb' ctx', bodies L !! q = Some (fd, cb', ctx') -> q = p) as Hinj.
  { intros q cb' ctx' (d & Hd & Hdb)%body_lookup. apply body_lookup in Hp as (c & Hc & Hcb).
    eapply (to_inj _ _ Hok0); [done..|]. by injection Hdb as -> _ _; injection Hcb as -> _ _. }
  split; [eauto|..]; rewrite ?Hb, ?He.
  - intros fd' cb' ctx'. rewrite lookup_delete_Some. split.
    + intros [Hne (q & Hq)%(tr_map _ _ H)]. exists q. apply lookup_delete_Some. split; [|done].
      intros <-. congruence.
    + intros (q & [Hne Hq]%lookup_delete_Some). split; [|apply (tr_map _ _ H); eauto].
      intros <-. by apply Hinj in Hq.
  - intros q fd' cb' ctx' [_ Hq]%lookup_delete_Some. by eapply (tr_valid _ _ H).
  - intros fd' e q [Hne Hq]%lookup_delete_Some. apply (tr_epoll _ _ H) in Hq as (cb' & ctx' & Hq).
    exists cb', ctx'. apply lookup_delete_Some. split; [|done]. congruence.
Qed.

(** [loop_add_fd], on every branch. *)
Lemma add_spec (mem : option ptr) (ok : bool) (L : EventLoop) (m : gmap Z (Z * Z))
    (fd events cb ctx : Z) :
  tracks L m -> (forall p, mem = Some p -> heap L !! p = None) ->
  exists rc L', loop_add_fd mem ok L fd events cb ctx = Returns (rc, L') /\
    if decide (0 <= fd /\ cb <> 0 /\ m !! fd = None /\ mem <> None /\ ok = true)
    then rc = 0 /\ tracks L' (<[fd := (cb, ctx)]> m) /\
         (exists p, mem = Some p /\ epoll L' = <[fd := (epoll_mask events, p)]> (epoll L) /\
                    bodies L' = <[p := (fd, cb, ctx)]> (bodies L))
    else rc = -1 /\ tracks L' m /\ epoll L' = epoll L /\ bodies L' = bodies L.
Proof.
  intros H Hmem. unfold loop_add_fd.
  destruct (Z.ltb_spec fd 0) as [Hfd|Hfd]; cbn [orb].
  { eexists _, _. split; [done|]. rewrite decide_False by lia. done. }
  destruct (Z.eqb_spec cb 0) as [Hcb|Hcb].
  { eexists _, _. split; [done|]. rewrite decide_False by tauto. done. }
  destruct mem as [p|].
  2:{ eexists _, _. split; [done|]. rewrite decide_False by tauto. done. }
  specialize (Hmem p eq_refl). set (c := {| fc_fd := fd |}).
  rewrite (insert_spec L m) by done. change (fc_fd c) with fd.
  destruct (decide (m !! fd = None)) as [Hm|Hm].
  2:{ eexists _, L. split; [|rewrite decide_False by tauto; done].
      cbn. unfold free_context. cbn. rewrite delete_insert_id by done. by destruct L. }
  cbn [Z.eqb negb]. unfold epoll_ctl.
  assert (epoll L !! fd = None) as He.
  { destruct (epoll L !! fd) as [[e q]|] eqn:E; [|done].
    apply (tr_epoll _ _ H) in E as (cb' & ctx' & Hq).
    assert (m !! fd = Some (cb', ctx')) by (apply (tr_map _ _ H); eauto). congruence. }
  change (epoll (linked p c L)) with (epoll L). rewrite He, bool_decide_eq_false_2 by by intros [].
  destruct ok; cbn [andb negb].
  { eexists _, _. split; [done|]. rewrite decide_True by (split_and!; done). split; [done|].
    split; [by apply (tracks_linked L m p c)|]. exists p. split; [done|]. split; [done|].
    apply (bodies_linked L p c). }
  destruct (tr_table _ _ H) as [bs Hok].
  assert (table_ok (linked p c L) (fun j => if decide (fd_hash fd = j) then p :: bs j else bs j))
    as Hok1.
  { apply (linked_ok L bs p c); [done..|]. by apply (tracks_ptr L m). }
  assert (exists d, heap (linked p c L) !! p = Some d /\ fc_fd d = fd) as (d & Hd & Hdfd).
  { eexists. split; [cbn; apply lookup_insert_eq|done]. }
  destruct (remove_spec (linked p c L) _ fd Hok1)
    as [(q & d' & L1 & bs' & Hq & Hqfd & -> & He1 & Hok2 & Hb)|[Hno _]]; [|by destruct (Hno p d)].
  assert (q = p) as -> by (eapply (to_inj _ _ Hok1); [done..|congruence]).
  eexists _, _. split; [done|]. rewrite decide_False by by intros (_ & _ & _ & _ & ?). split; [done|].
  assert (bodies (free_context p L1) = bodies L) as HbL.
  { rewrite Hb, bodies_linked, delete_insert_id; [done|].
    unfold bodies. by rewrite lookup_fmap, Hmem. }
  split; [eapply (tracks_ext L); eauto|done].
Qed.

(** Rewriting the callback and context of a context in place. *)
Definition rebound (cb ctx : Z) (c : FileContext) : FileContext :=
  {| c with fc_callback := cb; fc_context := ctx |}.

Lemma chain_alter (h : gmap ptr FileContext) (p : ptr) (cb ctx : Z) (ps : list ptr)
    (o : option ptr) :
  chain h o ps -> chain (alter (rebound cb ctx) p h) o ps.
Proof.
  revert o. induction ps as [|q ps IH]; intros o Hc; [done|].
  destruct Hc as (-> & c & Hq & Hc). split; [done|]. destruct (decide (p = q)) as [<-|Hne].
  - exists (rebound cb ctx c). rewrite lookup_alter_eq, Hq. eauto.
  - exists c. rewrite lookup_alter_ne by done. eauto.
Qed.

Lemma alter_lookup (h : gmap ptr FileContext) (p q : ptr) (cb ctx : Z) (c : FileContext) :
  alter (rebound cb ctx) p h !! q = Some c ->
  exists d, h !! q = Some d /\ fc_fd d = fc_fd c.
Proof.
  destruct (decide (p = q)) as [<-|Hne].
  - rewrite lookup_alter_eq, fmap_Some. intros (d & Hd & ->). eauto.
  - rewrite lookup_alter_ne by done. eauto.
Qed.

Lemma rebound_ok (L : EventLoop) (bs : nat -> list ptr) (p : ptr) (cb ctx : Z) :
  table_ok L bs -> table_ok (set_heap (alter (rebound cb ctx) p (heap L)) L) bs.
Proof.
  intros H. split; cbn.
  - apply H.
  - intros i Hi. by apply chain_alter, (to_chain _ _ H).
  - apply H.
  - intros i q Hq. destruct (to_home _ _ H i q Hq) as (d & Hd & Hh).
    destruct (decide (p = q)) as [<-|Hne].
    + exists (rebound cb ctx d). by rewrite lookup_alter_eq, Hd.
    + exists d. by rewrite lookup_alter_ne.
  - intros q c (d & Hd & <-)%alter_lookup. by apply (to_in _ _ H).
  - intros q r c d (c' & Hc & <-)%alter_lookup (d' & Hd & <-)%alter_lookup. by apply (to_inj _ _ H).
Qed.

Lemma bodies_rebound (L : EventLoop) (p : ptr) (c : FileContext) (cb ctx : Z) :
  heap L !! p = Some c ->
  bodies (set_heap (alter (rebound cb ctx) p (heap L)) L) = <[p := (fc_fd c, cb, ctx)]> (bodies L).
Proof.
  intros Hp. unfold bodies. cbn. apply map_eq. intros q. rewrite lookup_fmap.
  destruct (decide (p = q)) as [<-|Hne].
  - by rewrite lookup_alter_eq, lookup_insert_eq, Hp.
  - by rewrite lookup_alter_ne, lookup_insert_ne, lookup_fmap.
Qed.

Lemma tracks_rebound (L L' : EventLoop) (m : gmap Z (Z * Z)) (bs : nat -> list ptr) (p : ptr)
    (fd cb0 ctx0 cb ctx : Z) :
  tracks L m -> bodies L !! p = Some (fd, cb0, ctx0) -> cb <> 0 ->
  table_ok L' bs -> bodies L' = <[p := (fd, cb, ctx)]> (bodies L) ->
  (epoll L' = epoll L \/ exists e, epoll L' = <[fd := (e, p)]> (epoll L)) ->
  tracks L' (<[fd := (cb, ctx)]> m).
Proof.
  intros H Hp Hcb Hok Hb He. destruct (tr_table _ _ H) as [bs0 Hok0].
  assert (forall q cb' ctx', bodies L !! q = Some (fd, cb', ctx') -> q = p) as Hinj.
  { intros q cb' ctx' (d & Hd & Hdb)%body_lookup. apply body_lookup in Hp as (c & Hc & Hcb').
    eapply (to_inj _ _ Hok0); [done..|]. by injection Hdb as -> _ _; injection Hcb' as -> _ _. }
  split; [eauto|..]; rewrite ?Hb.
  - intros fd' cb' ctx'. rewrite lookup_insert_Some. split.
    + intros [[<- [= <- <-]]|[Hne (q & Hq)%(tr_map _ _ H)]]; [exists p; apply lookup_insert_eq|].
      exists q. rewrite lookup_insert_ne; [done|]. congruence.
    + intros (q & [[<- [= <- <- <-]]|[Hne Hq]]%lookup_insert_Some); [by left|right].
      split; [|apply (tr_map _ _ H); eauto]. intros <-. by apply Hinj in Hq.
  - intros q fd' cb' ctx' [[<- [= <- <- <-]]|[Hne Hq]]%lookup_insert_Some.
    + split; [|done]. by eapply (tr_valid _ _ H).
    + by eapply (tr_valid _ _ H).
  - intros fd' e q Hq.
    assert (exists cb' ctx', bodies L !! q = Some (fd', cb', ctx')) as (cb' & ctx' & Hq').
    { destruct He as [Hee|(e' & Hee)]; rewrite Hee in Hq; [by eapply (tr_epoll _ _ H)|].
      apply lookup_insert_Some in Hq as [[<- [= <- <-]]|[_ Hq]]; [eauto|].
      by eapply (tr_epoll _ _ H). }
    destruct (decide (p = q)) as [<-|Hne].
    + rewrite Hp in Hq'. injection Hq' as <- _ _. eexists _, _. apply lookup_insert_eq.
    + exists cb', ctx'. by rewrite lookup_insert_ne.
Qed.

Lemma mod_spec (ok : bool) (L : EventLoop) (m : gmap Z (Z * Z)) (fd events cb ctx : Z) :
  tracks L m ->
  exists rc L', loop_mod_fd ok L fd events cb ctx = Returns (rc, L') /\
    if decide (0 <= fd /\ cb <> 0 /\ is_Some (m !! fd))
    then tracks L' (<[fd := (cb, ctx)]> m) /\
         (exists p cb0 ctx0, bodies L !! p = Some (fd, cb0, ctx0) /\
            bodies L' = <[p := (fd, cb, ctx)]> (bodies L)) /\
         rc = (if ok && bool_decide (is_Some (epoll L !! fd)) then 0 else -1)
    else rc = -1 /\ L' = L.
Proof.
  intros H. unfold loop_mod_fd. destruct (Z.ltb_spec fd 0) as [Hfd|Hfd]; cbn [orb].
  { eexists _, _. split; [done|]. rewrite decide_False by lia. done. }
  destruct (Z.eqb_spec cb 0) as [Hcb|Hcb].
  { eexists _, _. split; [done|]. rewrite decide_False by tauto. done. }
  destruct (tr_table _ _ H) as [bs Hok].
  destruct (find_spec L bs fd Hok) as [(p & c & Hp & Hc & ->)|[Hno ->]].
  2:{ eexists _, _. split; [done|]. rewrite decide_False; [done|].
      rewrite (proj2 (tracks_ptr L m fd H)) by done. by intros (_ & _ & []). }
  fold (rebound cb ctx). set (L1 := set_heap _ _).
  assert (bodies L !! p = Some (fd, fc_callback c, fc_context c)) as Hbp.
  { apply body_lookup. exists c. by rewrite <- Hc. }
  assert (bodies L1 = <[p := (fd, cb, ctx)]> (bodies L)) as Hb.
  { rewrite <- Hc. by apply bodies_rebound. }
  assert (table_ok L1 bs) as Hok1 by by apply rebound_ok.
  assert (is_Some (m !! fd)) as Hm.
  { eexists. apply (tr_map _ _ H). eauto. }
  unfold epoll_ctl. change (epoll L1) with (epoll L).
  destruct (ok && _) eqn:E; eexists _, _; (split; [done|]); rewrite decide_True by done.
  - split; [|split; [by eexists _, _, _|done]].
    eapply tracks_rebound; [done|exact Hbp|done|..|exact Hb|]; [|by right; eexists].
    eapply table_ok_ext; [..|exact Hok1]; done.
  - split; [|split; [by eexists _, _, _|done]].
    eapply tracks_rebound; [done|exact Hbp|done|exact Hok1|exact Hb|by left].
Qed.

Lemma close_fd_id (fd : Z) (L : EventLoop) : epoll L !! fd = None -> close_fd fd L = L.
Proof. intros H. unfold close_fd. rewrite delete_id by done. by destruct L. Qed.

Lemma untracked_epoll (L : EventLoop) (m : gmap Z (Z * Z)) (fd : Z) :
  tracks L m -> m !! fd = None -> epoll L !! fd = None.
Proof.
  intros H Hm. destruct (epoll L !! fd) as [[e q]|] eqn:E; [|done].
  apply (tr_epoll _ _ H) in E as (cb & ctx & Hq).
  assert (m !! fd = Some (cb, ctx)) by (apply (tr_map _ _ H); eauto). congruence.
Qed.

(** [loop_del_fd], whatever the kernel answers.  A refusal leaves the descriptor in
    the interest list; closing the descriptor makes up for it. *)
Lemma del_spec (ok : bool) (L : EventLoop) (m : gmap Z (Z * Z)) (fd : Z) :
  tracks L m ->
  exists rc L', loop_del_fd ok L fd = Returns (rc, L') /\
    if decide (is_Some (m !! fd))
    then rc = 0 /\ tracks (close_fd fd L') (delete fd m) /\
         epoll L' = (if ok then delete fd (epoll L) else epoll L) /\
         exists p cb ctx, bodies L !! p = Some (fd, cb, ctx) /\ bodies L' = delete p (bodies L)
    else rc = -1 /\ L' = L.
Proof.
  intros H. unfold loop_del_fd. destruct (tr_table _ _ H) as [bs Hok].
  destruct (Z.ltb_spec fd 0) as [Hfd|Hfd].
  { eexists _, _. split; [done|]. rewrite decide_False; [done|].
    intros [[cb ctx] (p & Hp)%(tr_map _ _ H)]. apply (tr_valid _ _ H) in Hp. lia. }
  destruct (remove_spec L bs fd Hok)
    as [(p & c & L1 & bs' & Hp & Hc & -> & He & Hok2 & Hb)|[Hno ->]].
  2:{ eexists _, _. split; [done|]. rewrite decide_False; [done|].
      rewrite (proj2 (tracks_ptr L m fd H)) by done. by intros []. }
  assert (bodies L !! p = Some (fd, fc_callback c, fc_context c)) as Hbp.
  { apply body_lookup. exists c. by rewrite <- Hc. }
  set (L2 := (epoll_ctl ok EPOLL_CTL_DEL fd (0, p) L1).2).
  assert (epoll L2 = (if ok then delete fd (epoll L) else epoll L)) as He2.
  { unfold L2, epoll_ctl. rewrite He. destruct ok; cbn [andb]; [|done].
    destruct (bool_decide _) eqn:E; [done|]. apply bool_decide_eq_false, eq_None_not_Some in E.
    cbn [snd]. by rewrite He, delete_id. }
  assert (heap L2 = heap L1 /\ fd_table L2 = fd_table L1) as [Hh2 Ht2]
    by (unfold L2, epoll_ctl; by destruct (ok && _)).
  exists 0, (free_context p L2). split; [unfold L2; by destruct (epoll_ctl _ _ _ _ _)|].
  rewrite decide_True; [|eexists; apply (tr_map _ _ H); eauto]. split; [done|].
  assert (bodies (free_context p L2) = delete p (bodies L)) as Hbf.
  { rewrite <- Hb. unfold bodies, free_context. cbn. by rewrite Hh2. }
  split; [|split; [done|by eexists _, _, _]].
  eapply tracks_removed; [done|exact Hbp| |exact Hbf|].
  - eapply table_ok_ext; [..|exact Hok2]; unfold free_context; cbn; by rewrite ?Hh2, ?Ht2.
  - cbn. rewrite He2. destruct ok; [by rewrite delete_delete_eq|done].
Qed.

(** ** Dispatch *)

(** What the loop expects of callbacks, under an invariant [Inv] of the loop and
    of what the callbacks share: a callback returns, keeps the invariant, which
    includes that no pointer of the interest list is stale, and leaves the contexts of
    other descriptors as they are.  It may unregister and close its own descriptor
    and register new ones. *)
Class OwnDescriptor {W : Type} (call : Z -> Z -> Z -> Z -> EventLoop * W -> outcome (EventLoop * W))
    (Inv : EventLoop * W -> Prop) : Prop := {
  own_tracks : forall s, Inv s -> exists m, tracks s.1 m;
  own_running : forall s r, Inv s -> Inv ({| (s.1) with running := r |}, s.2);
  own_call : forall s p fd cb ctx ev, Inv s -> bodies s.1 !! p = Some (fd, cb, ctx) ->
    exists s', call cb ctx fd ev s = Returns s' /\ Inv s' /\
      forall q fd' b, bodies s.1 !! q = Some (fd', b.1, b.2) -> fd' <> fd ->
        bodies s'.1 !! q = Some (fd', b.1, b.2);
}.

(** A batch the kernel may report: pointers from the interest list, each at most
    once. *)
Definition reported (L : EventLoop) (batch : list (Z * ptr)) : Prop :=
  NoDup (map snd batch) /\
  forall ev p, (ev, p) ∈ batch -> exists fd e, epoll L !! fd = Some (e, p).

(** The calls a batch stands for when it is reported, and making them. *)
Definition calls_of (L : EventLoop) (batch : list (Z * ptr)) : list (Z * Z * Z * Z) :=
  omap (fun ep => (fun b : Z * Z * Z => (b.1.2, b.2, b.1.1, translate_events ep.1))
                  <$> bodies L !! ep.2) batch.

Fixpoint run_calls {W : Type} (call : Z -> Z -> Z -> Z -> EventLoop * W -> outcome (EventLoop * W))
    (cs : list (Z * Z * Z * Z)) (s : EventLoop * W) : outcome (EventLoop * W) :=
  match cs with
  | [] => Returns s
  | (cb, ctx, fd, ev) :: cs' =>
      match call cb ctx fd ev s with
      | Undefined => Undefined
      | Returns s' => run_calls call cs' s'
      end
  end.

Lemma calls_of_ext (L L' : EventLoop) (batch : list (Z * ptr)) :
  (forall p, p ∈ map snd batch -> bodies L' !! p = bodies L !! p) ->
  calls_of L' batch = calls_of L batch.
Proof.
  unfold calls_of. induction batch as [|[ev p] batch IH]; intros Hp; [done|]. cbn.
  rewrite Hp by (left; done). rewrite IH; [done|]. intros q Hq. apply Hp. by right.
Qed.

Section Safety.
Context {W : Type} (call : Z -> Z -> Z -> Z -> EventLoop * W -> outcome (EventLoop * W))
  (Inv : EventLoop * W -> Prop) `{!OwnDescriptor call Inv}.

Lemma dispatch_calls (batch : list (Z * ptr)) (s : EventLoop * W) :
  Inv s -> NoDup (map snd batch) -> (forall p, p ∈ map snd batch -> is_Some (bodies s.1 !! p)) ->
  exists s', dispatch call batch s = Returns s' /\ Inv s' /\
    run_calls call (calls_of s.1 batch) s = Returns s'.
Proof.
  revert s. induction batch as [|[ev p] batch IH]; intros s HI Hnd Hlive; [by exists s|].
  cbn [map snd] in *. apply NoDup_cons in Hnd as [Hp Hnd].
  destruct (Hlive p) as [[[fd cb] ctx] Hb]; [left|].
  destruct (own_tracks s HI) as [m Hm]. destruct (tr_table _ _ Hm) as [bs Hok].
  pose proof Hb as (c & Hc & Hcb)%body_lookup. injection Hcb as Hfd Hcb Hctx.
  destruct (own_call s p fd cb ctx (translate_events ev) HI Hb) as (s1 & Hcall & HI1 & Hkeep).
  assert (forall q, q ∈ map snd batch -> bodies s1.1 !! q = bodies s.1 !! q) as Hsame.
  { intros q Hq. destruct (Hlive q) as [[[fd' cb'] ctx'] Hb']; [by right|]. rewrite Hb'.
    apply (Hkeep q fd' (cb', ctx') Hb'). intros ->. destruct Hp.
    apply body_lookup in Hb' as (d & Hd & Hdb). injection Hdb as Hdb _ _.
    rewrite (to_inj _ _ Hok p q c d); [done..|congruence]. }
  destruct (IH s1 HI1 Hnd) as (s' & Hd & HI' & Hr).
  { intros q Hq. rewrite Hsame by done. apply Hlive. by right. }
  exists s'. cbn [dispatch]. rewrite Hc, Hcb, Hctx, Hfd.
  rewrite (proj2 (Z.eqb_neq cb 0)) by by eapply (tr_valid _ _ Hm).
  rewrite Hcall. split; [done|]. split; [done|]. unfold calls_of. cbn. rewrite Hb. cbn.
  rewrite Hcall. rewrite (calls_of_ext s.1 s1.1) in Hr by done. exact Hr.
Qed.

Lemma reported_live (s : EventLoop * W) (batch : list (Z * ptr)) :
  Inv s -> reported s.1 batch -> forall p, p ∈ map snd batch -> is_Some (bodies s.1 !! p).
Proof.
  intros HI [_ Hr] p ([ev q] & -> & Hin)%list_elem_of_fmap. destruct (Hr ev q Hin) as (fd & e & He).
  destruct (own_tracks s HI) as [m Hm]. apply (tr_epoll _ _ Hm) in He as (cb & ctx & Hb). cbn. by rewrite Hb.
Qed.

(** However many rounds the loop runs, it does not touch freed memory. *)
Lemma rounds_safe (epoll_wait : nat -> EventLoop -> wait_result) (fuel i : nat)
    (s : EventLoop * W) :
  (forall i L batch, epoll_wait i L = WaitEvents batch -> reported L batch) -> Inv s ->
  exists b s', loop_rounds call epoll_wait fuel i s = Returns (b, s') /\ Inv s'.
Proof.
  intros Hk. revert i s. induction fuel as [|fuel IH]; intros i s HI; cbn; [by eauto|].
  destruct (running s.1); [|by eauto]. destruct (epoll_wait i s.1) as [batch|stop|] eqn:E; eauto.
  2:{ apply IH. destruct stop; [exact (own_running s false HI)|by destruct s]. }
  apply Hk in E. destruct (dispatch_calls batch s HI) as (s' & -> & HI' & _); [apply E| |eauto].
  by apply reported_live.
Qed.
End Safety.

(** A stop signal ends the loop: once the [k]-th wait is interrupted by it, one
    more test of the flag leaves the loop, so [k + 2] rounds are enough. *)
Lemma stop_ends {W : Type} (call : Z -> Z -> Z -> Z -> EventLoop * W -> outcome (EventLoop * W))
    (epoll_wait : nat -> EventLoop -> wait_result) (k fuel i : nat) (s s' : EventLoop * W) (b : bool) :
  (forall L, epoll_wait k L = WaitInterrupted true) -> (i <= k)%nat -> (k + 2 <= fuel + i)%nat ->
  loop_rounds call epoll_wait fuel i s = Returns (b, s') -> b = true.
Proof.
  intros Hk. revert i s. induction fuel as [|fuel IH]; intros i s Hi Hf; [lia|]. cbn.
  destruct (running s.1); [|by intros [= <- _]]. destruct (decide (i = k)) as [->|Hne].
  - rewrite Hk. destruct fuel as [|fuel]; [lia|]. cbn. by intros [= <- _].
  - destruct (epoll_wait i s.1) as [batch|stop|].
    + destruct (dispatch call batch s) as [s1|]; [|done]. apply IH; lia.
    + apply IH; lia.
    + by intros [= <- _].
Qed.

(** ** Shutdown *)

Lemma free_chain_spec (ctl_ok : Z -> bool) (ps : list ptr) (fuel : nat) (o : option ptr)
    (L : EventLoop) :
  chain (heap L) o ps -> NoDup ps -> (length ps < fuel)%nat ->
  exists L', free_chain ctl_ok fuel o L = Returns L' /\ fd_table L' = fd_table L /\
    (forall q, heap L' !! q = if decide (q ∈ ps) then None else heap L !! q) /\
    (forall fd x, epoll L' !! fd = Some x -> epoll L !! fd = Some x /\
       (ctl_ok fd = true -> forall p c, p ∈ ps -> heap L !! p = Some c -> fc_fd c <> fd)).
Proof.
  revert fuel o L. induction ps as [|p ps IH]; intros [|fuel] o L Hc Hnd Hl; cbn in Hl; try lia.
  { cbn in Hc. subst. exists L. split; [done|]. split; [done|]. split; [intros q; by rewrite decide_False by set_solver|].
    intros fd x Hx. split; [done|]. set_solver. }
  destruct Hc as (-> & c & Hp & Hc). apply NoDup_cons in Hnd as [Hpn Hnd]. cbn [free_chain].
  rewrite Hp. set (L1 := (epoll_ctl _ _ _ _ L).2).
  assert (heap L1 = heap L /\ fd_table L1 = fd_table L) as [Hh Ht].
  { unfold L1, epoll_ctl. by destruct (_ && _). }
  assert (forall fd x, epoll L1 !! fd = Some x -> epoll L !! fd = Some x /\
            (ctl_ok fd = true -> fc_fd c <> fd)) as He.
  { unfold L1, epoll_ctl. intros fd x. destruct (_ && _) eqn:E; cbn.
    - intros [Hne Hx]%lookup_delete_Some. done.
    - intros Hx. split; [done|]. intros Hok Hfd. by rewrite Hfd, Hok, Hx in E. }
  destruct (IH fuel (fc_next c) (free_context p L1)) as (L' & -> & Ht' & Hh' & He'); [|done|lia|].
  { eapply chain_frame; [exact Hc|]. intros q Hq. cbn. rewrite Hh, lookup_delete_ne by set_solver.
    done. }
  exists L'. split; [done|]. split; [by rewrite Ht', <- Ht|]. split.
  - intros q. rewrite Hh'. cbn. rewrite Hh. destruct (decide (p = q)) as [<-|Hne].
    + rewrite lookup_delete_eq, (decide_True (P := p ∈ p :: ps)) by left. by case_decide.
    + rewrite lookup_delete_ne by done.
      rewrite (decide_ext (q ∈ p :: ps) (q ∈ ps)) by set_solver. done.
  - intros fd x Hx. apply He' in Hx as [Hx Hrest]. cbn in Hx. apply He in Hx as [Hx Hfd].
    split; [done|]. intros Hok q d Hq Hd. apply elem_of_cons in Hq as [->|Hq].
    + rewrite Hp in Hd. injection Hd as <-. auto.
    + apply (Hrest Hok q d Hq). cbn. rewrite Hh, lookup_delete_ne by set_solver. done.
Qed.

Section Free.
Context (ctl_ok : Z -> bool) (L0 : EventLoop) (bs : nat -> list ptr).
Hypothesis Hok : table_ok L0 bs.

Lemma buckets_disjoint (i j : nat) (p : ptr) : p ∈ bs i -> p ∈ bs j -> i = j.
Proof.
  intros (c & Hc & <-)%(to_home _ _ Hok) (d & Hd & <-)%(to_home _ _ Hok). by simplify_eq.
Qed.

(** The state when the buckets below [i] are freed. *)
Record freed_below (i : nat) (L : EventLoop) : Prop := {
  fb_heap : forall p c, heap L !! p = Some c <->
    heap L0 !! p = Some c /\ (i <= fd_hash (fc_fd c))%nat;
  fb_table : forall j, (i <= j < FD_HASH_SIZE)%nat -> fd_table L !!! j = fd_table L0 !!! j;
  fb_len : length (fd_table L) = FD_HASH_SIZE;
  fb_none : forall j, (j < i)%nat -> fd_table L !! j = Some None;
  fb_epoll : forall fd x, epoll L !! fd = Some x -> epoll L0 !! fd = Some x /\
    (ctl_ok fd = true -> forall p c, heap L0 !! p = Some c -> fc_fd c = fd ->
       (i <= fd_hash fd)%nat);
}.

Lemma free_bucket (i : nat) (L : EventLoop) :
  (i < FD_HASH_SIZE)%nat -> freed_below i L ->
  exists L1, free_chain ctl_ok (chain_fuel L0) (fd_table L !!! i) L = Returns L1 /\
    freed_below (S i) (set_table i None L1).
Proof.
  intros Hi [Hh Ht Hlen Hn He].
  assert (forall p, p ∈ bs i -> heap L !! p = heap L0 !! p) as Hsame.
  { intros p (c & Hc & Hhash)%(to_home _ _ Hok). rewrite Hc. apply Hh. split; [done|lia]. }
  destruct (free_chain_spec ctl_ok (bs i) (chain_fuel L0) (fd_table L !!! i) L)
    as (L1 & -> & Ht1 & Hh1 & He1).
  { rewrite Ht by lia. eapply chain_frame; [by apply (to_chain _ _ Hok)|done]. }
  { apply (to_nodup _ _ Hok). }
  { by apply table_fuel. }
  exists L1. split; [done|]. split; cbn; rewrite ?Ht1.
  - intros p c. rewrite Hh1. case_decide as Hp.
    + split; [done|]. intros [Hc Hhash]. apply (to_home _ _ Hok) in Hp as (d & Hd & Hdi).
      simplify_eq. lia.
    + rewrite Hh. split; intros [Hc Hhash]; (split; [done|]); [|lia].
      enough (fd_hash (fc_fd c) <> i) by lia. intros <-. apply Hp. by apply (to_in _ _ Hok).
  - intros j Hj. rewrite list_lookup_total_insert_ne by lia. apply Ht. lia.
  - by rewrite length_insert.
  - intros j Hj. destruct (decide (j = i)) as [->|Hne].
    + apply list_lookup_insert_eq. lia.
    + rewrite list_lookup_insert_ne by done. apply Hn. lia.
  - intros fd x [Hx Hrest]%He1. apply He in Hx as [Hx Hold]. split; [done|].
    intros Hctl p c Hc Hfd. specialize (Hold Hctl p c Hc Hfd).
    enough (fd_hash fd <> i) by lia. intros Heq.
    assert (p ∈ bs i) as Hp by (rewrite <- Heq, <- Hfd; by apply (to_in _ _ Hok)).
    apply (Hrest Hctl p c Hp); [by rewrite Hsame|done].
Qed.

Lemma free_buckets_spec (rounds i : nat) (L : EventLoop) :
  (i + rounds = FD_HASH_SIZE)%nat -> freed_below i L ->
  exists L', free_buckets ctl_ok (chain_fuel L0) rounds i L = Returns L' /\
    freed_below FD_HASH_SIZE L'.
Proof.
  revert i L. induction rounds as [|rounds IH]; intros i L Hi HL; cbn [free_buckets].
  { exists L. split; [done|]. by replace FD_HASH_SIZE with i by lia. }
  destruct (free_bucket i L) as (L1 & -> & H1); [lia|done|]. apply IH; [lia|done].
Qed.
End Free.

Lemma chain_fds_spec (h : gmap ptr FileContext) (ps : list ptr) (fuel : nat) (o : option ptr) :
  chain h o ps -> (length ps < fuel)%nat ->
  chain_fds fuel h o = Returns (omap (fun p => fc_fd <$> h !! p) ps).
Proof.
  revert fuel o. induction ps as [|p ps IH]; intros [|fuel] o Hc Hl; cbn in Hl; try lia.
  { cbn in *. by subst. }
  destruct Hc as (-> & c & Hp & Hc). cbn. rewrite Hp, (IH fuel (fc_next c)) by (done || lia). done.
Qed.

Lemma NoDup_omap_inj {A B : Type} (f : A -> option B) (l : list A) :
  (forall x y b, x ∈ l -> y ∈ l -> f x = Some b -> f y = Some b -> x = y) ->
  NoDup l -> NoDup (omap f l).
Proof.
  induction l as [|a l IH]; intros Hinj Hnd; cbn; [constructor|].
  apply NoDup_cons in Hnd as [Ha Hnd].
  assert (NoDup (omap f l)) as IHl by (apply IH; [intros x y b ? ?; apply Hinj; by right|done]).
  destruct (f a) as [b|] eqn:E; [|done]. apply NoDup_cons. split; [|done].
  intros (x & Hx & Hf)%list_elem_of_omap. assert (a = x) by (eapply Hinj; [left|by right|done..]).
  by subst.
Qed.

Lemma bucket_fds_spec (L : EventLoop) (bs : nat -> list ptr) (rounds i : nat) :
  table_ok L bs -> (i + rounds <= FD_HASH_SIZE)%nat ->
  exists fds, bucket_fds L rounds i = Returns fds /\ NoDup fds /\
    forall fd, fd ∈ fds <-> exists p c, heap L !! p = Some c /\ fc_fd c = fd /\
                            (i <= fd_hash fd < i + rounds)%nat.
Proof.
  intros Hok. revert i. induction rounds as [|rounds IH]; intros i Hi; cbn [bucket_fds].
  { exists []. split; [done|]. split; [constructor|]. intros fd. split; [set_solver|].
    intros (p & c & _ & _ & ?). lia. }
  assert (chain (heap L) (fd_table L !!! i) (bs i)) as Hc by (apply (to_chain _ _ Hok); lia).
  rewrite (chain_fds_spec _ _ _ _ Hc) by by apply table_fuel.
  destruct (IH (S i)) as (rest & -> & Hnd & Hrest); [lia|].
  assert (forall fd, fd ∈ omap (fun p => fc_fd <$> heap L !! p) (bs i) <->
            exists p c, heap L !! p = Some c /\ fc_fd c = fd /\ fd_hash fd = i) as Hfst.
  { intros fd. rewrite list_elem_of_omap. split.
    - intros (p & Hp & (c & Hc' & ->)%fmap_Some). exists p, c. repeat split; [done|].
      destruct (to_home _ _ Hok i p Hp) as (d & Hd & <-). by simplify_eq.
    - intros (p & c & Hp & <- & <-). exists p. rewrite Hp. split; [|done].
      by apply (to_in _ _ Hok). }
  eexists. split; [done|]. split.
  - apply NoDup_app. split; [|split; [|done]].
    + apply NoDup_omap_inj; [|apply (to_nodup _ _ Hok)].
      intros p q fd Hp Hq (c & Hc1 & Hf1)%fmap_Some (d & Hd1 & Hf2)%fmap_Some. subst.
      eapply (to_inj _ _ Hok); [done..|congruence].
    + intros fd (p & c & _ & _ & Hh)%Hfst (q & d & _ & _ & ?)%Hrest. lia.
  - intros fd. rewrite elem_of_app, Hfst, Hrest. split.
    + intros [(p & c & ? & ? & ?)|(p & c & ? & ? & ?)]; exists p, c; repeat split; auto; lia.
    + intros (p & c & ? & ? & ?). destruct (decide (fd_hash fd = i)); [left|right];
        exists p, c; repeat split; auto; lia.
Qed.

(** [loop_free] leaves nothing behind. *)
Lemma free_all (ctl_ok : Z -> bool) (L : EventLoop) (m : gmap Z (Z * Z)) :
  tracks L m ->
  exists L', loop_free ctl_ok L = Returns L' /\ heap L' = ∅ /\
    fd_table L' = replicate FD_HASH_SIZE None /\
    ((forall fd, ctl_ok fd = true) -> epoll L' = ∅).
Proof.
  intros H. destruct (tr_table _ _ H) as [bs Hok].
  destruct (free_buckets_spec ctl_ok L bs Hok FD_HASH_SIZE 0 L) as (L' & HL & [Hh Ht Hlen Hn He]);
    [done| |].
  { split; try done; [intros; split; [intros; split; [done|lia]|tauto]|apply Hok|lia|].
    intros fd x Hx. split; [done|]. intros. lia. }
  exists L'. split; [exact HL|]. split; [|split].
  - apply map_eq. intros p. rewrite lookup_empty. destruct (heap L' !! p) as [c|] eqn:E; [|done].
    apply Hh in E as [_ Hlt]. pose proof (fd_hash_lt (fc_fd c)). lia.
  - apply list_eq. intros j. destruct (decide (j < FD_HASH_SIZE)%nat) as [Hj|Hj].
    + rewrite Hn, lookup_replicate_2 by done. done.
    + rewrite !lookup_ge_None_2; [done|..]; rewrite ?length_replicate, ?Hlen; lia.
  - intros Hctl. apply map_eq. intros fd. rewrite lookup_empty.
    destruct (epoll L' !! fd) as [[e p]|] eqn:E; [|done]. apply He in E as [E Hlt].
    apply (tr_epoll _ _ H) in E as (cb & ctx & (c & Hc & Hb)%body_lookup).
    injection Hb as Hb _ _. specialize (Hlt (Hctl fd) p c Hc Hb).
    pose proof (fd_hash_lt fd). lia.
Qed.

(** ** Properties *)

(** C23: the hash table with its chains in memory implements a finite map from
    descriptors to callbacks, whatever the kernel answers.  On a loop that tracks
    [m], [loop_add_fd] adds a valid, new descriptor and otherwise (bad arguments,
    duplicate, no memory, [epoll_ctl] failure, whose insertion it rolls back) fails
    and keeps the map and the interest list.  [loop_mod_fd] rebinds a tracked
    descriptor also when the kernel refuses the new event mask, in which case it
    returns -1.  [loop_del_fd] removes a tracked descriptor from the map and returns 0
    also when the kernel refuses to drop it: then the interest list keeps a stale
    pointer for this descriptor until the descriptor is closed.  All other
    pointers of the interest list stay valid, and no operation touches memory it does
    not own. *)
Theorem loop_refines_map (mem : option ptr) (ok : bool) (L : EventLoop) (m : gmap Z (Z * Z))
    (fd events cb ctx : Z) :
  tracks L m -> (forall p, mem = Some p -> heap L !! p = None) ->
  (exists rc L', loop_add_fd mem ok L fd events cb ctx = Returns (rc, L') /\
     if decide (0 <= fd /\ cb <> 0 /\ m !! fd = None /\ mem <> None /\ ok = true)
     then rc = 0 /\ tracks L' (<[fd := (cb, ctx)]> m) /\
          exists p, epoll L' = <[fd := (epoll_mask events, p)]> (epoll L)
     else rc = -1 /\ tracks L' m /\ epoll L' = epoll L) /\
  (exists rc L', loop_mod_fd ok L fd events cb ctx = Returns (rc, L') /\
     if decide (0 <= fd /\ cb <> 0 /\ is_Some (m !! fd))
     then tracks L' (<[fd := (cb, ctx)]> m) /\
          rc = (if ok && bool_decide (is_Some (epoll L !! fd)) then 0 else -1)
     else rc = -1 /\ L' = L) /\
  (exists rc L', loop_del_fd ok L fd = Returns (rc, L') /\
     if decide (is_Some (m !! fd))
     then rc = 0 /\ tracks (close_fd fd L') (delete fd m) /\
          epoll L' = (if ok then delete fd (epoll L) else epoll L) /\
          (ok = true -> tracks L' (delete fd m))
     else rc = -1 /\ L' = L).
Proof.
  intros H Hmem. split_and!.
  - destruct (add_spec mem ok L m fd events cb ctx H Hmem) as (rc & L' & HL & Hr).
    exists rc, L'. split; [done|]. case_decide; [|tauto].
    destruct Hr as (-> & Ht & p & _ & He & _). eauto.
  - destruct (mod_spec ok L m fd events cb ctx H) as (rc & L' & HL & Hr).
    exists rc, L'. split; [done|]. case_decide; tauto.
  - destruct (del_spec ok L m fd H) as (rc & L' & HL & Hr). exists rc, L'. split; [done|].
    case_decide; [|done]. destruct Hr as (-> & Ht & He & _). split_and!; [done..|].
    intros ->. by rewrite close_fd_id in Ht by (rewrite He; apply lookup_delete_eq).
Qed.

(** A loop with two descriptors in one bucket. *)
Definition demo_add (p : ptr) (fd cb ctx : Z) (L : EventLoop) : EventLoop :=
  match loop_add_fd (Some p) true L fd EVENT_READ cb ctx with
  | Returns (_, L') => L'
  | Undefined => L
  end.

Definition demo_loop0 : EventLoop :=
  {| running := false; max_events := 16; fd_table := replicate FD_HASH_SIZE None;
     heap := ∅; epoll := ∅ |}.
Definition demo_loop1 : EventLoop := demo_add 1 3 7 10 demo_loop0.
Definition demo_loop : EventLoop := demo_add 2 259 8 20 demo_loop1.
Definition demo_map : gmap Z (Z * Z) := <[259 := (8, 20)]> (<[3 := (7, 10)]> ∅).

Lemma demo_add_tracks (p : ptr) (fd cb ctx : Z) (L : EventLoop) (m : gmap Z (Z * Z)) :
  tracks L m -> heap L !! p = None -> 0 <= fd -> cb <> 0 -> m !! fd = None ->
  tracks (demo_add p fd cb ctx L) (<[fd := (cb, ctx)]> m).
Proof.
  intros H Hp Hfd Hcb Hm. unfold demo_add.
  destruct (add_spec (Some p) true L m fd EVENT_READ cb ctx H) as (rc & L' & -> & Hr).
  { congruence. }
  rewrite decide_True in Hr; [tauto|]. by split_and!.
Qed.

Lemma demo_tracks : tracks demo_loop demo_map.
Proof.
  apply demo_add_tracks; [|vm_compute; done|lia|lia|done].
  apply demo_add_tracks; [|vm_compute; done|lia|lia|done].
  by apply (tracks_create true true true 16).
Qed.

Lemma loop_refines_map_witness :
  fd_hash 3 = fd_hash 259 /\
  exists rc L', loop_del_fd false demo_loop 3 = Returns (rc, L') /\ rc = 0 /\
    tracks (close_fd 3 L') (delete 3 demo_map).
Proof.
  split; [reflexivity|].
  destruct (loop_refines_map (Some 9%positive) false demo_loop demo_map 3 1 5 5)
    as (_ & _ & rc & L' & HL & Hr).
  - exact demo_tracks.
  - intros p [= <-]. vm_compute. reflexivity.
  - exists rc, L'. rewrite decide_True in Hr by (vm_compute; eauto). tauto.
Defined.

(** C25: dispatch follows no stale pointer under the contract of callbacks.  When
    every callback leaves the contexts of other descriptors alone and, on its return,
    no stale pointer in the interest list ([OwnDescriptor]; unregistering its own
    descriptor and closing it does, even when the kernel refuses to unregister it), a
    reported batch makes exactly the calls its descriptors had registered when it was
    reported, in order, each with its translated events; and the loop runs for any
    number of rounds without touching freed memory, keeping the invariant of the
    callbacks. *)
Theorem dispatch_safe {W : Type}
    (call : Z -> Z -> Z -> Z -> EventLoop * W -> outcome (EventLoop * W))
    (Inv : EventLoop * W -> Prop) (epoll_wait : nat -> EventLoop -> wait_result)
    (batch : list (Z * ptr)) (fuel : nat) (s : EventLoop * W) :
  OwnDescriptor call Inv -> Inv s -> reported s.1 batch ->
  (forall i L b, epoll_wait i L = WaitEvents b -> reported L b) ->
  (exists s', dispatch call batch s = Returns s' /\ Inv s' /\
     run_calls call (calls_of s.1 batch) s = Returns s') /\
  (exists b s', loop_run call epoll_wait fuel s = Returns (b, s') /\ Inv s').
Proof.
  intros Hown HI Hrep Hk. split.
  - apply (dispatch_calls call Inv); [done|apply Hrep|]. by apply (reported_live call Inv).
  - apply (rounds_safe call Inv); [done|]. by apply (own_running s true).
Qed.

(** A callback that unregisters its own descriptor, which the kernel refuses, closes
    it and records it. *)
Definition closing_call (cb ctx fd ev : Z) (s : EventLoop * list Z) : outcome (EventLoop * list Z) :=
  match loop_del_fd false s.1 fd with
  | Returns (_, L') => Returns (close_fd fd L', s.2 ++ [fd])
  | Undefined => Undefined
  end.

Lemma tracks_running (L : EventLoop) (m : gmap Z (Z * Z)) (r : bool) :
  tracks L m -> tracks {| L with running := r |} m.
Proof.
  intros H. eapply (tracks_ext L); [|done..]. destruct (tr_table _ _ H) as [bs Hok].
  exists bs. by apply (table_ok_ext L).
Qed.

(** Unregistering a descriptor and closing it leaves the contexts of the others
    alone. *)
Lemma del_keeps (ok : bool) (L : EventLoop) (m : gmap Z (Z * Z)) (fd : Z) :
  tracks L m ->
  exists rc L', loop_del_fd ok L fd = Returns (rc, L') /\ tracks (close_fd fd L') (delete fd m) /\
    forall q fd' b, bodies L !! q = Some (fd', b.1, b.2) -> fd' <> fd ->
      bodies (close_fd fd L') !! q = Some (fd', b.1, b.2).
Proof.
  intros Hm. destruct (del_spec ok L m fd Hm) as (rc & L' & -> & Hr). exists rc, L'. split; [done|].
  change (bodies (close_fd fd L')) with (bodies L'). case_decide as Hin.
  - destruct Hr as (-> & Ht & _ & q & cb & ctx & Hq & Hb). split; [done|].
    intros q' fd' b Hb' Hne. rewrite Hb. apply lookup_delete_Some. split; [|done].
    intros ->. congruence.
  - destruct Hr as (-> & ->). apply eq_None_not_Some in Hin. split; [|done].
    by rewrite delete_id, close_fd_id by (done || by eapply untracked_epoll).
Qed.

Lemma closing_own : OwnDescriptor closing_call (fun s => exists m, tracks s.1 m).
Proof.
  split; [done|intros s r [m Hm]; exists m; by apply tracks_running|].
  intros s p fd cb ctx ev [m Hm] Hb. unfold closing_call.
  destruct (del_keeps false s.1 m fd Hm) as (rc & L' & -> & Ht & Hkeep). eauto 10.
Qed.

Lemma dispatch_safe_witness :
  exists s', dispatch closing_call [(EPOLLIN, 1%positive); (EPOLLHUP, 2%positive)] (demo_loop, [])
             = Returns s' /\ s'.2 = [3; 259].
Proof.
  destruct (dispatch_safe closing_call (fun s => exists m, tracks s.1 m)
    (fun _ _ => WaitInterrupted false) [(EPOLLIN, 1%positive); (EPOLLHUP, 2%positive)] 1
    (demo_loop, [])) as [(s' & Hd & _ & Hr) _].
  - exact closing_own.
  - exists demo_map. exact demo_tracks.
  - split.
    + repeat constructor; set_solver.
    + cbn [fst]. intros ev p Hin. rewrite !elem_of_cons in Hin.
      destruct Hin as [[= -> ->]|[[= -> ->]|Hin]]; [exists 3, 1|exists 259, 1|set_solver];
        vm_compute; reflexivity.
  - done.
  - exists s'. split; [exact Hd|]. vm_compute in Hr. by injection Hr as <-.
Defined.

Lemma del_frees (ok : bool) (L L' : EventLoop) (m : gmap Z (Z * Z)) (fd rc cb ctx : Z) (p : ptr) :
  tracks L m -> bodies L !! p = Some (fd, cb, ctx) -> loop_del_fd ok L fd = Returns (rc, L') ->
  heap L' !! p = None /\ (ok = false -> epoll L' = epoll L).
Proof.
  intros H Hp. destruct (tr_table _ _ H) as [bs Hok]. unfold loop_del_fd.
  pose proof (tr_valid _ _ H _ _ _ _ Hp) as [Hfd _]. rewrite (proj2 (Z.ltb_ge fd 0)) by done.
  apply body_lookup in Hp as (c & Hc & Hb). injection Hb as Hcfd _ _.
  destruct (remove_spec L bs fd Hok)
    as [(q & d & L1 & bs' & Hq & Hd & -> & He & _ & _)|[Hno _]]; [|by destruct (Hno p c)].
  assert (q = p) as -> by (eapply (to_inj _ _ Hok); [done..|congruence]).
  unfold epoll_ctl. destruct ok; cbn [andb].
  - destruct (bool_decide _); intros [= <- <-]; (split; [apply lookup_delete_eq|done]).
  - intros [= <- <-]. split; [apply lookup_delete_eq|]. intros _. exact He.
Qed.

(** Stale pointers.  A callback that unregisters the descriptor of a later
    event of the same batch frees the context the kernel's event still points
    to, so the next iteration reads freed memory.  And when [EPOLL_CTL_DEL]
    fails, [loop_del_fd] reports success and frees the context although the
    interest list keeps its address: the next event of that descriptor reads
    freed memory. *)
Theorem stale_pointer_dispatch {W : Type}
    (call : Z -> Z -> Z -> Z -> EventLoop * W -> outcome (EventLoop * W))
    (m : gmap Z (Z * Z)) (L L' : EventLoop) (w w' : W) (ok : bool)
    (p1 p2 : ptr) (fd1 cb1 ctx1 fd2 cb2 ctx2 e1 e2 rc : Z) :
  tracks L m -> bodies L !! p1 = Some (fd1, cb1, ctx1) -> bodies L !! p2 = Some (fd2, cb2, ctx2) ->
  loop_del_fd ok L fd2 = Returns (rc, L') ->
  (call cb1 ctx1 fd1 (translate_events e1) (L, w) = Returns (L', w') ->
   dispatch call [(e1, p1); (e2, p2)] (L, w) = Undefined) /\
  (ok = false -> epoll L !! fd2 = Some (e2, p2) ->
   rc = 0 /\ epoll L' !! fd2 = Some (e2, p2) /\ dispatch call [(e2, p2)] (L', w) = Undefined).
Proof.
  intros H H1 H2 Hdel. destruct (del_frees _ _ _ _ _ _ _ _ _ H H2 Hdel) as [Hfree Hep]. split.
  - intros Hcall. pose proof (tr_valid _ _ H _ _ _ _ H1) as [_ Hcb].
    apply body_lookup in H1 as (c & Hc & Hb). injection Hb as Hbf Hbc Hbx.
    cbn [dispatch fst]. rewrite Hc, Hbc, Hbx, Hbf, (proj2 (Z.eqb_neq cb1 0)), Hcall by done.
    cbn [fst]. by rewrite Hfree.
  - intros -> He. split; [|split].
    + revert Hdel. unfold loop_del_fd. pose proof (tr_valid _ _ H _ _ _ _ H2) as [Hfd _].
      rewrite (proj2 (Z.ltb_ge fd2 0)) by done. destruct (tr_table _ _ H) as [bs Hok].
      apply body_lookup in H2 as (c & Hc & Hb). injection Hb as Hcfd _ _.
      destruct (remove_spec L bs fd2 Hok) as [(q & d & L1 & bs' & _ & _ & -> & _)|[Hno _]];
        [|by destruct (Hno p2 c)]. by intros [= <- _].
    + by rewrite Hep.
    + cbn. by rewrite Hfree.
Qed.

(** The first callback closes the other descriptor. *)
Definition cross_call (cb ctx fd ev : Z) (s : EventLoop * unit) : outcome (EventLoop * unit) :=
  match loop_del_fd true s.1 259 with
  | Returns (_, L') => Returns (L', s.2)
  | Undefined => Undefined
  end.

Lemma stale_pointer_dispatch_witness :
  dispatch cross_call [(EPOLLIN, 1%positive); (EPOLLIN, 2%positive)] (demo_loop, ()) = Undefined.
Proof.
  destruct (loop_del_fd true demo_loop 259) as [[rc L']|] eqn:E; [|vm_compute in E; discriminate E].
  apply (stale_pointer_dispatch cross_call demo_map demo_loop L' () () true 1 2 3 7 10 259 8 20
           EPOLLIN EPOLLIN rc).
  - exact demo_tracks.
  - vm_compute. reflexivity.
  - vm_compute. reflexivity.
  - exact E.
  - unfold cross_call. cbn [fst snd]. rewrite E. reflexivity.
Defined.

(** C37: shutdown is complete.  [loop_free] frees every context exactly once and
    leaves none behind, whatever [epoll_ctl] answers, and empties the interest
    list when it answers with success; [loop_emergency_close_all] closes every
    tracked descriptor that is not excluded, each once, and no other. *)
Theorem loop_shutdown_complete (ctl_ok : Z -> bool) (L : EventLoop) (m : gmap Z (Z * Z))
    (exclude : list Z) :
  tracks L m ->
  (exists L', loop_free ctl_ok L = Returns L' /\ heap L' = ∅ /\
     fd_table L' = replicate FD_HASH_SIZE None /\
     ((forall fd, ctl_ok fd = true) -> epoll L' = ∅)) /\
  (exists fds, loop_emergency_close_all L exclude = Returns fds /\ NoDup fds /\
     forall fd, fd ∈ fds <-> is_Some (m !! fd) /\ fd ∉ exclude).
Proof.
  intros H. destruct (tr_table _ _ H) as [bs Hok]. split.
  - by apply (free_all ctl_ok L m).
  - destruct (bucket_fds_spec L bs FD_HASH_SIZE 0 Hok) as (fds & Hf & Hnd & Hin); [lia|].
    unfold loop_emergency_close_all. rewrite Hf. eexists. split; [done|].
    split; [by apply NoDup_filter|]. intros fd. rewrite list_elem_of_filter, Hin. split.
    + intros [[Hex _] (p & c & Hc & <- & _)]. split; [|done]. eexists. apply (tr_map _ _ H).
      exists p. apply body_lookup. eauto.
    + intros [[[cb ctx] (p & Hp)%(tr_map _ _ H)] Hex].
      pose proof (tr_valid _ _ H _ _ _ _ Hp) as [Hfd _].
      apply body_lookup in Hp as (c & Hc & Hb). injection Hb as Hb _ _.
      split; [done|]. exists p, c. pose proof (fd_hash_lt fd). split_and!; [done..|lia|lia].
Qed.

Lemma loop_shutdown_complete_witness :
  (exists L', loop_free (fun _ => true) demo_loop = Returns L' /\ heap L' = ∅ /\ epoll L' = ∅) /\
  loop_emergency_close_all demo_loop [3] = Returns [259].
Proof.
  destruct (loop_shutdown_complete (fun _ => true) demo_loop demo_map [3] demo_tracks)
    as [(L' & HL & Hh & _ & He) _].
  split; [exists L'; auto|]. vm_compute. reflexivity.
Defined.

(** A stop request that arrives before [loop_run] is lost: the loop sets the flag
    itself. *)
Lemma stop_before_run {W : Type}
    (call : Z -> Z -> Z -> Z -> EventLoop * W -> outcome (EventLoop * W))
    (epoll_wait : nat -> EventLoop -> wait_result) (fuel : nat) (s : EventLoop * W) :
  loop_run call epoll_wait fuel (loop_stop s.1, s.2) = loop_run call epoll_wait fuel s.
Proof. done. Qed.
