(* ===== verification/LoopErrno.v ===== *)
(** * Error codes of the event loop

    [include/common/event_loop.h] documents which [errno] each registration function
    leaves when it fails.  [EventLoop.v] models the functions of
    [src/common/event_loop.c] up to their return value; here is what they leave in
    [errno], along the same branches, and the contract of the header.  A failing
    [malloc] leaves ENOMEM, as documented for it. *)

From S2P Require Import Prelude RaftCore EventLoop.

(** ** Codes *)

Definition ENOENT : Z := 2.
Definition ENOMEM : Z := 12.
Definition EEXIST : Z := 17.
Definition EINVAL : Z := 22.

(** What [epoll_ctl] leaves: [err] when the kernel refuses for a reason of its own,
    otherwise the code for a descriptor that is, or is not, in the interest list. *)
Definition ctl_errno (err : option Z) (op : ctl_op) (fd : Z) (L : EventLoop) : option Z :=
  match err with
  | Some e => Some e
  | None =>
      match op, bool_decide (is_Some (epoll L !! fd)) with
      | EPOLL_CTL_ADD, true => Some EEXIST
      | EPOLL_CTL_MOD, false | EPOLL_CTL_DEL, false => Some ENOENT
      | _, _ => None
      end
  end.

Definition no_error (err : option Z) : bool := bool_decide (err = None).

Lemma ctl_errno_ok (err : option Z) (op : ctl_op) (fd : Z) (ev : Z * ptr) (L : EventLoop) :
  (epoll_ctl (no_error err) op fd ev L).1 = no_error (ctl_errno err op fd L).
Proof.
  unfold epoll_ctl, ctl_errno, no_error. destruct err as [e|]; [by destruct op|].
  by destruct op, (bool_decide (is_Some (epoll L !! fd))).
Qed.

(** ** The functions *)

(** The code a call leaves, [None] when it leaves [errno] alone.  [lp] is the loop
    argument, which may be NULL. *)
Definition add_fd_errno (mem : option ptr) (err : option Z) (lp : option EventLoop)
    (fd events cb context : Z) : outcome (option Z) :=
  match lp with
  | None => Returns (Some EINVAL)
  | Some L =>
      if (fd <? 0) || (cb =? 0) then Returns (Some EINVAL)
      else
        match mem with
        | None => Returns (Some ENOMEM)
        | Some p =>
            let fc := {| fc_fd := fd; fc_callback := cb; fc_context := context; fc_next := None |} in
            match insert_file_context (set_heap (<[p := fc]> (heap L)) L) p with
            | Undefined => Undefined
            | Returns (rc, L1) =>
                if negb (rc =? 0) then Returns (Some EEXIST)
                else Returns (ctl_errno err EPOLL_CTL_ADD fd L1)
            end
        end
  end.

Definition mod_fd_errno (err : option Z) (lp : option EventLoop) (fd cb : Z) : outcome (option Z) :=
  match lp with
  | None => Returns (Some EINVAL)
  | Some L =>
      if (fd <? 0) || (cb =? 0) then Returns (Some EINVAL)
      else
        match find_file_context L fd with
        | Undefined => Undefined
        | Returns None => Returns (Some ENOENT)
        | Returns (Some _) => Returns (ctl_errno err EPOLL_CTL_MOD fd L)
        end
  end.

(** A refusal of the kernel is printed; its code stays in [errno]. *)
Definition del_fd_errno (err : option Z) (lp : option EventLoop) (fd : Z) : outcome (option Z) :=
  match lp with
  | None => Returns (Some EINVAL)
  | Some L =>
      if fd <? 0 then Returns (Some EINVAL)
      else
        match remove_file_context L fd with
        | Undefined => Undefined
        | Returns (None, _) => Returns (Some ENOENT)
        | Returns (Some _, L1) => Returns (ctl_errno err EPOLL_CTL_DEL fd L1)
        end
  end.

(** ** The documented contract *)

(** The table of errors in the header, on the descriptors [m] that are registered. *)
Definition add_contract (m : gmap Z (Z * Z)) (mem : option ptr) (err : option Z) (fd cb : Z)
  : option Z :=
  if decide (fd < 0 \/ cb = 0) then Some EINVAL
  else if decide (mem = None) then Some ENOMEM
  else if decide (is_Some (m !! fd)) then Some EEXIST
  else err.

(** [kernel] is what [epoll_ctl] leaves. *)
Definition mod_contract (m : gmap Z (Z * Z)) (kernel : option Z) (fd cb : Z) : option Z :=
  if decide (fd < 0 \/ cb = 0) then Some EINVAL
  else if decide (is_Some (m !! fd)) then kernel
  else Some ENOENT.

Definition del_contract (m : gmap Z (Z * Z)) (kernel : option Z) (fd : Z) : option Z :=
  if decide (fd < 0) then Some EINVAL
  else if decide (is_Some (m !! fd)) then kernel
  else Some ENOENT.

(** The result of a call and the error it leaves. *)
Definition agrees (rc : Z) (e : option Z) : Prop := rc = if no_error e then 0 else -1.

Section Contract.
Context (L : EventLoop) (m : gmap Z (Z * Z)) (Ht : tracks L m).

Lemma add_errno_contract (mem : option ptr) (err : option Z) (fd events cb ctx : Z) :
  (forall p, mem = Some p -> heap L !! p = None) ->
  add_fd_errno mem err (Some L) fd events cb ctx = Returns (add_contract m mem err fd cb).
Proof.
  intros Hmem. unfold add_fd_errno, add_contract.
  destruct (Z.ltb_spec fd 0); cbn [orb]; [by rewrite decide_True by lia|].
  destruct (Z.eqb_spec cb 0); [by rewrite decide_True by lia|]. rewrite decide_False by lia.
  destruct mem as [p|]; [|done]. rewrite decide_False by done.
  set (c := {| fc_fd := fd |}). rewrite (insert_spec L m) by (done || by apply Hmem).
  change (fc_fd c) with fd. destruct (m !! fd) eqn:E.
  - rewrite (decide_False (P := _ = None)), decide_True by (done || by eexists). done.
  - rewrite decide_True, decide_False by (done || by intros []). cbn [Z.eqb negb].
    unfold ctl_errno. change (epoll (linked p c L)) with (epoll L).
    rewrite (untracked_epoll L m) by done. by destruct err.
Qed.

Lemma mod_errno_contract (err : option Z) (fd cb : Z) :
  mod_fd_errno err (Some L) fd cb
  = Returns (mod_contract m (ctl_errno err EPOLL_CTL_MOD fd L) fd cb).
Proof.
  unfold mod_fd_errno, mod_contract.
  destruct (Z.ltb_spec fd 0); cbn [orb]; [by rewrite decide_True by lia|].
  destruct (Z.eqb_spec cb 0); [by rewrite decide_True by lia|]. rewrite decide_False by lia.
  destruct (tr_table _ _ Ht) as [bs Hok].
  destruct (find_spec L bs fd Hok) as [(p & c & Hp & Hc & ->)|[Hno ->]].
  - rewrite decide_True; [done|]. destruct (m !! fd) eqn:E; [by eexists|].
    by destruct (proj1 (tracks_ptr L m fd Ht) E p c Hp).
  - rewrite (proj2 (tracks_ptr L m fd Ht)), decide_False by (done || by intros []). done.
Qed.

Lemma del_errno_contract (err : option Z) (fd : Z) :
  del_fd_errno err (Some L) fd = Returns (del_contract m (ctl_errno err EPOLL_CTL_DEL fd L) fd).
Proof.
  unfold del_fd_errno, del_contract.
  destruct (Z.ltb_spec fd 0); [by rewrite decide_True by lia|]. rewrite decide_False by lia.
  destruct (tr_table _ _ Ht) as [bs Hok].
  destruct (remove_spec L bs fd Hok) as [(p & c & L1 & bs' & Hp & Hc & -> & He & _)|[Hno ->]].
  - rewrite decide_True; [unfold ctl_errno; by rewrite He|]. destruct (m !! fd) eqn:E; [by eexists|].
    by destruct (proj1 (tracks_ptr L m fd Ht) E p c Hp).
  - rewrite (proj2 (tracks_ptr L m fd Ht)), decide_False by (done || by intros []). done.
Qed.
End Contract.

(** ** Property *)

(** C24: the registration functions fail as documented.  On a loop that tracks [m],
    [loop_add_fd] leaves EINVAL for a negative descriptor or no callback, ENOMEM
    without memory, EEXIST for a registered descriptor and otherwise the kernel's
    code; [loop_mod_fd] EINVAL, ENOENT for an unknown descriptor, or the kernel's
    code; for both a code is left exactly when the function returns -1.  [loop_del_fd]
    returns -1 with EINVAL or ENOENT exactly for a descriptor that is not registered;
    for a registered one it returns 0, also when the kernel refuses, whose code is
    then left.  A NULL loop gives EINVAL everywhere. *)
Theorem loop_errors_documented (L : EventLoop) (m : gmap Z (Z * Z)) (mem : option ptr)
    (err : option Z) (fd events cb ctx : Z) :
  tracks L m -> (forall p, mem = Some p -> heap L !! p = None) ->
  (add_fd_errno mem err (Some L) fd events cb ctx = Returns (add_contract m mem err fd cb) /\
   exists rc L', loop_add_fd mem (no_error err) L fd events cb ctx = Returns (rc, L') /\
     agrees rc (add_contract m mem err fd cb)) /\
  (let kernel := ctl_errno err EPOLL_CTL_MOD fd L in
   mod_fd_errno err (Some L) fd cb = Returns (mod_contract m kernel fd cb) /\
   exists rc L', loop_mod_fd (no_error err) L fd events cb ctx = Returns (rc, L') /\
     agrees rc (mod_contract m kernel fd cb)) /\
  (del_fd_errno err (Some L) fd = Returns (del_contract m (ctl_errno err EPOLL_CTL_DEL fd L) fd) /\
   exists rc L', loop_del_fd (no_error err) L fd = Returns (rc, L') /\
     rc = if decide (is_Some (m !! fd)) then 0 else -1) /\
  add_fd_errno mem err None fd events cb ctx = Returns (Some EINVAL) /\
  mod_fd_errno err None fd cb = Returns (Some EINVAL) /\ del_fd_errno err None fd = Returns (Some EINVAL).
Proof.
  intros Ht Hmem. unfold agrees. split_and!; try done.
  - by apply add_errno_contract.
  - destruct (add_spec mem (no_error err) L m fd events cb ctx Ht Hmem) as (rc & L' & HL & Hr).
    exists rc, L'. split; [done|]. unfold add_contract. case_decide as Hc.
    + destruct Hc as (H1 & H2 & H3 & H4 & H5), Hr as [-> _].
      rewrite !decide_False by (done || lia || by rewrite H3; intros []). by rewrite H5.
    + destruct Hr as [-> _]. do 3 (case_decide; [done|]). destruct err as [e|]; [done|].
      destruct Hc. split_and!; [lia|tauto|by apply eq_None_not_Some|done|done].
  - by apply mod_errno_contract.
  - destruct (mod_spec (no_error err) L m fd events cb ctx Ht) as (rc & L' & HL & Hr).
    exists rc, L'. split; [done|]. unfold mod_contract. case_decide as Hc.
    + destruct Hr as (_ & _ & ->). rewrite decide_False, decide_True by (tauto || lia).
      unfold ctl_errno, no_error. destruct err; [done|]. by destruct (bool_decide (is_Some _)).
    + destruct Hr as [-> _]. repeat case_decide; try done. exfalso. naive_solver lia.
  - by apply del_errno_contract.
  - destruct (del_spec (no_error err) L m fd Ht) as (rc & L' & HL & Hr). exists rc, L'.
    split; [done|]. by case_decide; destruct Hr.
Qed.

Lemma loop_errors_documented_witness :
  add_fd_errno (Some 9%positive) None (Some demo_loop) 3 1 5 5 = Returns (Some EEXIST) /\
  del_fd_errno None (Some demo_loop) 4 = Returns (Some ENOENT).
Proof.
  destruct (loop_errors_documented demo_loop demo_map (Some 9%positive) None 3 1 5 5)
    as ([-> _] & _ & _).
  - exact demo_tracks.
  - intros p [= <-]. vm_compute. reflexivity.
  - destruct (loop_errors_documented demo_loop demo_map None None 4 1 5 5) as (_ & _ & [-> _] & _).
    + exact demo_tracks.
    + intros p [=].
    + split; vm_compute; reflexivity.
Defined.
