(* ===== verification/Session.v ===== *)
(** * Server sessions

    Models the asynchronous server side of [src/protocol/rpc_handler.c]: the
    session state machine that reads a request in pieces, runs it, and sends the
    response in pieces.  A buffer with its byte count is the list of the bytes
    it holds.  The socket is the list of bytes not yet received and the list of
    bytes sent; how many bytes one [recv] or [send] moves, or how it fails, is an
    argument. *)

From S2P Require Import Prelude RaftCore Wire RaftRpc Cluster EventLoop.

Inductive SessionState : Type :=
  | SESSION_READING_HEADER
  | SESSION_READING_PAYLOAD
  | SESSION_PROCESSING
  | SESSION_SENDING_RESPONSE
  | SESSION_DONE.

#[export] Instance SessionState_eq_dec : EqDecision SessionState.
Proof. solve_decision. Defined.

Definition state_to_string (s : SessionState) : string :=
  match s with
  | SESSION_READING_HEADER => "READING_HEADER"
  | SESSION_READING_PAYLOAD => "READING_PAYLOAD"
  | SESSION_PROCESSING => "PROCESSING"
  | SESSION_SENDING_RESPONSE => "SENDING_RESPONSE"
  | SESSION_DONE => "DONE"
  end.

Record ClientSession : Type := {
  ss_state : SessionState;
  header_buf : list byte;
  payload_buf : list byte;
  payload_total : nat;
  ss_header : RpcHeader;
  response_buf : list byte;
  response_bytes_sent : nat;
}.

Record Socket : Type := {
  sk_in : list byte;
  sk_out : list byte;
}.

(** What the kernel does on one call: move up to [k] bytes, report
    [EAGAIN]/[EINTR], or fail (for [recv] also: the peer closed). *)
Inductive io : Type :=
  | IoBytes (k : nat)
  | IoAgain
  | IoFail.

Record SessionEnv : Type := {
  io_recv : io;
  io_send : io;
  payload_alloc : bool;
  join_alloc : Alloc;
  response_alloc : bool;
  mod_fd_ok : bool;
  env_pads : nat -> list byte;
  env_wall : Z;
  env_now : Z;
}.

Definition zero_header : RpcHeader :=
  {| magic := 0; version := 0; command_type := 0; payload_len := 0;
     origin_id := zeros 37; request_id := zeros 37 |}.

(** [calloc] and the initial state. *)
Definition session_create : ClientSession :=
  {| ss_state := SESSION_READING_HEADER; header_buf := []; payload_buf := [];
     payload_total := 0; ss_header := zero_header; response_buf := [];
     response_bytes_sent := 0 |}.

(** [read_into_buffer]: [None] is -1, otherwise the bytes read. *)
Definition read_into_buffer (r : io) (sk : Socket) (offset total : nat)
  : option (list byte) * Socket :=
  let remaining := (total - offset)%nat in
  if Nat.eqb remaining 0 then (Some [], sk)
  else match r with
       | IoFail => (None, sk)
       | IoAgain => (Some [], sk)
       | IoBytes k =>
           let n := Nat.min k remaining in
           (Some (take n (sk_in sk)), {| sk with sk_in := drop n (sk_in sk) |})
       end.

(** [write_from_buffer]: [None] is -1, otherwise the number of bytes sent. *)
Definition write_from_buffer (r : io) (sk : Socket) (buf : list byte) (offset : nat)
  : option nat * Socket :=
  let remaining := (length buf - offset)%nat in
  if Nat.eqb remaining 0 then (Some 0%nat, sk)
  else match r with
       | IoFail => (None, sk)
       | IoAgain => (Some 0%nat, sk)
       | IoBytes k =>
           let n := Nat.min k remaining in
           (Some n, {| sk with sk_out := sk_out sk ++ field offset n buf |})
       end.

(** The state handlers return the result code, the session and what else they
    touch. *)
Definition handle_reading_header (env : SessionEnv) (s : ClientSession) (sk : Socket)
  : Z * ClientSession * Socket :=
  match read_into_buffer (io_recv env) sk (length (header_buf s)) RPC_HEADER_SIZE with
  | (None, sk1) => (-1, s, sk1)
  | (Some [], sk1) => (0, s, sk1)
  | (Some bytes, sk1) =>
      let s1 := {| s with header_buf := header_buf s ++ bytes |} in
      if negb (Nat.eqb (length (header_buf s1)) RPC_HEADER_SIZE) then (0, s1, sk1)
      else
        let h := serializer_unpack_rpc (header_buf s1) in
        let s2 := {| s1 with ss_header := h |} in
        if negb (magic h =? RPC_MAGIC) then (-1, s2, sk1)
        else if payload_len h >? MAX_PAYLOAD_SIZE then (-1, s2, sk1)
        else if payload_len h >? 0 then
          if negb (payload_alloc env) then (-1, s2, sk1)
          else (0, {| s2 with payload_total := Z.to_nat (payload_len h);
                              ss_state := SESSION_READING_PAYLOAD |}, sk1)
        else (0, {| s2 with ss_state := SESSION_PROCESSING |}, sk1)
  end.

Definition handle_reading_payload (env : SessionEnv) (s : ClientSession) (sk : Socket)
  : Z * ClientSession * Socket :=
  match read_into_buffer (io_recv env) sk (length (payload_buf s)) (payload_total s) with
  | (None, sk1) => (-1, s, sk1)
  | (Some [], sk1) => (0, s, sk1)
  | (Some bytes, sk1) =>
      let s1 := {| s with payload_buf := payload_buf s ++ bytes |} in
      if Nat.eqb (length (payload_buf s1)) (payload_total s1)
      then (0, {| s1 with ss_state := SESSION_PROCESSING |}, sk1)
      else (0, s1, sk1)
  end.

Definition join_resp_header (h : RpcHeader) (len : nat) : RpcHeader :=
  {| magic := RPC_MAGIC; version := 1; command_type := RPC_CMD_JOIN_RESP;
     payload_len := Z.of_nat len; origin_id := strncpy (zeros 37) (origin_id h) 36;
     request_id := zeros 37 |}.

(** [sizeof(SyncRulesHeader)] *)
Definition SYNC_RULES_SIZE : nat := 68.

Definition handle_processing (env : SessionEnv) (s : ClientSession) (cm : ClusterManager)
  : Z * ClientSession * ClusterManager :=
  let h := ss_header s in
  if command_type h =? RPC_CMD_JOIN_REQ then
    if negb (Nat.eqb (payload_total s) JOIN_REQUEST_SIZE) then (-1, s, cm)
    else
      match cluster_handle_join_req (join_alloc env) (env_pads env) (env_wall env) cm
              (join_request_of (payload_buf s)) with
      | (0, Some resp, cm1) =>
          let s1 := {| s with response_buf := [] |} in
          if negb (response_alloc env) then (-1, s1, cm1)
          else
            let s2 := {| s with
              response_buf := serializer_pack_rpc (join_resp_header h (length resp)) ++ resp;
              ss_state := SESSION_SENDING_RESPONSE |} in
            if negb (mod_fd_ok env) then (-1, s2, cm1) else (0, s2, cm1)
      | (_, _, cm1) => (-1, s, cm1)
      end
  else if command_type h =? RPC_CMD_LEAVE then
    (0, {| s with ss_state := SESSION_DONE |},
     (cluster_update_member_status (env_now env) cm (origin_id h) NODE_STATUS_DEAD).2)
  else if command_type h =? RPC_CMD_SYNC_RULES then
    if (payload_total s <? SYNC_RULES_SIZE)%nat then (-1, s, cm)
    else (0, {| s with ss_state := SESSION_DONE |}, cm)
  else (-1, s, cm).

Definition handle_sending_response (env : SessionEnv) (s : ClientSession) (sk : Socket)
  : Z * ClientSession * Socket :=
  match write_from_buffer (io_send env) sk (response_buf s) (response_bytes_sent s) with
  | (None, sk1) => (-1, s, sk1)
  | (Some O, sk1) => (0, s, sk1)
  | (Some n, sk1) =>
      let s1 := {| s with response_bytes_sent := (response_bytes_sent s + n)%nat |} in
      if Nat.eqb (response_bytes_sent s1) (length (response_buf s1))
      then (0, {| s1 with ss_state := SESSION_DONE |}, sk1)
      else (0, s1, sk1)
  end.

(** Session, socket and cluster. *)
Record Server : Type := {
  sv_session : ClientSession;
  sv_socket : Socket;
  sv_cluster : ClusterManager;
}.

(** One pass of the [while] loop: result, [keep_processing], and the state. *)
Definition session_pass (env : SessionEnv) (events : Z) (sv : Server) : Z * bool * Server :=
  let s := sv_session sv in
  let processing s' := bool_decide (ss_state s' = SESSION_PROCESSING) in
  match ss_state s with
  | SESSION_READING_HEADER =>
      if has_event events EVENT_READ then
        let '(r, s1, sk1) := handle_reading_header env s (sv_socket sv) in
        (r, processing s1, {| sv with sv_session := s1; sv_socket := sk1 |})
      else (0, false, sv)
  | SESSION_READING_PAYLOAD =>
      if has_event events EVENT_READ then
        let '(r, s1, sk1) := handle_reading_payload env s (sv_socket sv) in
        (r, processing s1, {| sv with sv_session := s1; sv_socket := sk1 |})
      else (0, false, sv)
  | SESSION_PROCESSING =>
      let '(r, s1, cm1) := handle_processing env s (sv_cluster sv) in
      (r, bool_decide (ss_state s1 = SESSION_SENDING_RESPONSE),
       {| sv with sv_session := s1; sv_cluster := cm1 |})
  | SESSION_SENDING_RESPONSE =>
      if has_event events EVENT_WRITE then
        let '(r, s1, sk1) := handle_sending_response env s (sv_socket sv) in
        (r, false, {| sv with sv_session := s1; sv_socket := sk1 |})
      else (0, false, sv)
  | SESSION_DONE => (-1, false, sv)
  end.

Fixpoint session_loop (env : SessionEnv) (events : Z) (fuel : nat) (sv : Server) : Z * Server :=
  match fuel with
  | O => (0, sv)
  | S fuel' =>
      let '(r, keep, sv1) := session_pass env events sv in
      if keep && (r =? 0) then session_loop env events fuel' sv1 else (r, sv1)
  end.

(** [rpc_on_client_event]; the flag tells whether the session is still alive.
    Three passes are enough ([session_loop_fuel]). *)
Definition rpc_on_client_event (env : SessionEnv) (events : Z) (sv : Server) : bool * Server :=
  if has_event events EVENT_ERROR then (false, sv)
  else
    let (r, sv1) := session_loop env events 3 sv in
    (negb (r <? 0), sv1).

(** What the event logs about statuses: one line for every LEAVE that is processed.
    The passes are those of [session_loop]. *)
Definition pass_line (sv : Server) : outcome (option (list byte * string * string)) :=
  let h := ss_header (sv_session sv) in
  if bool_decide (ss_state (sv_session sv) = SESSION_PROCESSING) && (command_type h =? RPC_CMD_LEAVE)
  then update_line (sv_cluster sv) (origin_id h) NODE_STATUS_DEAD
  else Returns None.

Fixpoint session_lines (env : SessionEnv) (events : Z) (fuel : nat) (sv : Server)
  : outcome (list (list byte * string * string)) :=
  match fuel with
  | O => Returns []
  | S fuel' =>
      match pass_line sv with
      | Undefined => Undefined
      | Returns l =>
          let '(r, keep, sv1) := session_pass env events sv in
          if keep && (r =? 0) then
            match session_lines env events fuel' sv1 with
            | Undefined => Undefined
            | Returns ls => Returns (option_list l ++ ls)
            end
          else Returns (option_list l)
      end
  end.

Definition client_event_lines (env : SessionEnv) (events : Z) (sv : Server)
  : outcome (list (list byte * string * string)) :=
  if has_event events EVENT_ERROR then Returns [] else session_lines env events 3 sv.

(** Statuses stay within the enumeration, and then every line is in bounds. *)
Lemma pass_statuses (env : SessionEnv) (events : Z) (sv : Server) :
  statuses_ok (sv_cluster sv) -> statuses_ok (sv_cluster (session_pass env events sv).2).
Proof.
  intros Hs. unfold session_pass. destruct (ss_state (sv_session sv)).
  1, 2, 4: destruct (has_event _ _); [|done].
  - by destruct (handle_reading_header _ _ _) as [[r1 s1] sk1].
  - by destruct (handle_reading_payload _ _ _) as [[r1 s1] sk1].
  - by destruct (handle_sending_response _ _ _) as [[r1 s1] sk1].
  - unfold handle_processing. destruct (_ =? RPC_CMD_JOIN_REQ).
    + destruct (negb _); [done|].
      pose proof (join_req_statuses (join_alloc env) (env_pads env) (env_wall env) (sv_cluster sv)
                    (join_request_of (payload_buf (sv_session sv))) Hs) as H.
      destruct (cluster_handle_join_req _ _ _ _ _) as [[rc resp] cm1]. cbn in H.
      destruct rc; try done. destruct resp; [|done]. destruct (negb _); [done|]. by destruct (negb _).
    + destruct (_ =? RPC_CMD_LEAVE); [by apply update_statuses|].
      destruct (_ =? RPC_CMD_SYNC_RULES); [|done]. by destruct (_ <? _)%nat.
  - done.
Qed.

Lemma loop_statuses (env : SessionEnv) (events : Z) (fuel : nat) (sv : Server) :
  statuses_ok (sv_cluster sv) ->
  statuses_ok (sv_cluster (session_loop env events fuel sv).2) /\
  exists ls, session_lines env events fuel sv = Returns ls.
Proof.
  revert sv. induction fuel as [|fuel IH]; intros sv Hs; [cbn; eauto|]. cbn [session_loop session_lines].
  assert (exists l, pass_line sv = Returns l) as [l ->].
  { unfold pass_line. destruct (_ && _); [|eauto].
    destruct (update_line_ok (sv_cluster sv) (origin_id (ss_header (sv_session sv))) NODE_STATUS_DEAD Hs)
      as (l & Hl & _); [done|eauto]. }
  pose proof (pass_statuses env events sv Hs) as H1.
  destruct (session_pass env events sv) as [[r keep] sv1]. cbn in H1.
  destruct (keep && _); [|eauto]. destruct (IH sv1 H1) as [H2 [ls ->]]. eauto.
Qed.

Lemma client_event_statuses (env : SessionEnv) (events : Z) (sv : Server) :
  statuses_ok (sv_cluster sv) ->
  statuses_ok (sv_cluster (rpc_on_client_event env events sv).2) /\
  exists ls, client_event_lines env events sv = Returns ls.
Proof.
  intros Hs. unfold rpc_on_client_event, client_event_lines. destruct (has_event _ _); [eauto|].
  destruct (loop_statuses env events 3 sv Hs) as [H1 H2].
  by destruct (session_loop env events 3 sv).
Qed.

(** ** The loop terminates *)

Lemma pass_keep_reading (env : SessionEnv) (events r : Z) (sv sv1 : Server) :
  session_pass env events sv = (r, true, sv1) ->
  ss_state (sv_session sv1) = SESSION_PROCESSING \/
  ss_state (sv_session sv) = SESSION_PROCESSING /\
  ss_state (sv_session sv1) = SESSION_SENDING_RESPONSE.
Proof.
  unfold session_pass. destruct (ss_state (sv_session sv)); try done.
  - destruct (has_event _ _); [|done]. destruct (handle_reading_header _ _ _) as [[r1 s1] sk1].
    intros H. injection H as _ Hk <-. left. by apply bool_decide_eq_true in Hk.
  - destruct (has_event _ _); [|done]. destruct (handle_reading_payload _ _ _) as [[r1 s1] sk1].
    intros H. injection H as _ Hk <-. left. by apply bool_decide_eq_true in Hk.
  - destruct (handle_processing _ _ _) as [[r1 s1] cm1].
    intros H. injection H as _ Hk <-. right. by apply bool_decide_eq_true in Hk.
  - destruct (has_event _ _); [|done]. by destruct (handle_sending_response _ _ _) as [[r1 s1] sk1].
Qed.

(** After a pass in PROCESSING one more pass may follow, after one in
    SENDING_RESPONSE none. *)
Lemma loop_from_sending (env : SessionEnv) (events : Z) (k : nat) (sv : Server) :
  ss_state (sv_session sv) = SESSION_SENDING_RESPONSE ->
  session_loop env events (S k) sv = session_loop env events 1 sv.
Proof.
  intros Hs. cbn [session_loop]. unfold session_pass. rewrite Hs.
  destruct (has_event _ _); [|done]. by destruct (handle_sending_response _ _ _) as [[r s1] sk1].
Qed.

Lemma loop_from_processing (env : SessionEnv) (events : Z) (k : nat) (sv : Server) :
  ss_state (sv_session sv) = SESSION_PROCESSING ->
  session_loop env events (S (S k)) sv = session_loop env events 2 sv.
Proof.
  intros Hs. cbn [session_loop]. destruct (session_pass env events sv) as [[r keep] sv1] eqn:E.
  destruct keep; [|done]. destruct (_ && _); [|done].
  assert (ss_state (sv_session sv1) = SESSION_SENDING_RESPONSE) as Hs1.
  { revert E. unfold session_pass. rewrite Hs. destruct (handle_processing _ _ _) as [[r1 s1] cm1].
    intros H. injection H as _ Hk <-. by apply bool_decide_eq_true in Hk. }
  apply (loop_from_sending env events k sv1 Hs1).
Qed.

(** The event callback always terminates: whatever the state, the I/O
    results and the request, its [while] loop makes at most three passes (read
    the last bytes, process, start sending), so more fuel changes nothing. *)
Theorem session_loop_fuel (env : SessionEnv) (events : Z) (k : nat) (sv : Server) :
  session_loop env events (3 + k) sv = session_loop env events 3 sv.
Proof.
  cbn [Nat.add session_loop].
  destruct (session_pass env events sv) as [[r keep] sv1] eqn:E.
  destruct keep; [|done]. destruct (_ && _); [|done].
  apply pass_keep_reading in E as [Hs|[_ Hs]].
  - exact (loop_from_processing env events k sv1 Hs).
  - transitivity (session_loop env events 1 sv1).
    + apply (loop_from_sending env events (S k) sv1 Hs).
    + symmetry. apply (loop_from_sending env events 1 sv1 Hs).
Qed.

(** ** Reassembly *)

Definition with_recv (env : SessionEnv) (k : nat) : SessionEnv := {| env with io_recv := IoBytes k |}.

(** A request as the client serialises it. *)
Record valid_request (h : RpcHeader) (p : list byte) : Prop := {
  vr_fits : header_fits h;
  vr_magic : magic h = RPC_MAGIC;
  vr_len : payload_len h = Z.of_nat (length p);
  vr_max : payload_len h <= MAX_PAYLOAD_SIZE;
}.

(** The server after [n] bytes of the request. *)
Definition session_at (h : RpcHeader) (p : list byte) (n : nat) : ClientSession :=
  if (n <? RPC_HEADER_SIZE)%nat then
    {| session_create with header_buf := take n (serializer_pack_rpc h) |}
  else
    {| session_create with ss_state := SESSION_READING_PAYLOAD;
         header_buf := serializer_pack_rpc h; ss_header := h;
         payload_buf := take (n - RPC_HEADER_SIZE) p; payload_total := length p |}.

Definition server_at (h : RpcHeader) (p : list byte) (n : nat) (cm : ClusterManager) : Server :=
  {| sv_session := session_at h p n;
     sv_socket := {| sk_in := drop n (serializer_pack_rpc h ++ p); sk_out := [] |};
     sv_cluster := cm |}.

(** The session that has the whole request. *)
Definition ready (h : RpcHeader) (p : list byte) : ClientSession :=
  {| session_create with ss_state := SESSION_PROCESSING; header_buf := serializer_pack_rpc h;
       ss_header := h; payload_buf := p; payload_total := length p |}.

Definition processed (env : SessionEnv) (h : RpcHeader) (p : list byte) (cm : ClusterManager)
  : bool * Server :=
  let '(r, s1, cm1) := handle_processing env (ready h p) cm in
  (negb (r <? 0),
   {| sv_session := s1; sv_socket := {| sk_in := []; sk_out := [] |}; sv_cluster := cm1 |}).

(** The rest of the event once the request is complete: process, and (with only
    [EVENT_READ]) leave the response for later. *)
Lemma loop_processes (env : SessionEnv) (h : RpcHeader) (p : list byte) (cm : ClusterManager) :
  (let (r, sv1) := session_loop env EVENT_READ 2
       {| sv_session := ready h p; sv_socket := {| sk_in := []; sk_out := [] |};
          sv_cluster := cm |} in (negb (r <? 0), sv1))
  = processed env h p cm.
Proof.
  unfold processed. cbn [session_loop]. unfold session_pass at 1. cbn [sv_session ready ss_state].
  change (sv_cluster {| sv_session := _; sv_socket := _; sv_cluster := cm |}) with cm.
  destruct (handle_processing env (ready h p) cm) as [[r s1] cm1].
  destruct (bool_decide (ss_state s1 = SESSION_SENDING_RESPONSE)) eqn:E; [|done].
  cbn [andb]. destruct (Z.eqb_spec r 0) as [->|]; [|done].
  apply bool_decide_eq_true in E. unfold session_pass. cbn [sv_session]. by rewrite E.
Qed.

Lemma take_extend {A : Type} (l : list A) (n m : nat) :
  take n l ++ take m (drop n l) = take (n + m) l.
Proof. by rewrite take_take_drop. Qed.

Lemma session_loop_step (env : SessionEnv) (events r : Z) (keep : bool) (k : nat) (sv sv1 : Server) :
  session_pass env events sv = (r, keep, sv1) ->
  session_loop env events (S k) sv
  = if keep && (r =? 0) then session_loop env events k sv1 else (r, sv1).
Proof. intros H. cbn [session_loop]. by rewrite H. Qed.

Section Reading.
Context (env : SessionEnv) (h : RpcHeader) (p : list byte) (cm : ClusterManager) (k : nat).
Hypothesis Hv : valid_request h p.
Hypothesis Halloc : payload_alloc env = true.
Hypothesis Hk : (0 < k)%nat.

Abbreviation total := (RPC_HEADER_SIZE + length p)%nat.

Lemma pack_len : length (serializer_pack_rpc h) = RPC_HEADER_SIZE.
Proof. apply length_pack_rpc, Hv. Qed.

Lemma unpack_packed : serializer_unpack_rpc (serializer_pack_rpc h) = h.
Proof. rewrite <- (app_nil_r (serializer_pack_rpc h)). apply unpack_pack_rpc, Hv. Qed.

(** One read while the header is incomplete. *)
Lemma header_step (n : nat) (m := Nat.min k (RPC_HEADER_SIZE - n)) :
  (n < RPC_HEADER_SIZE)%nat ->
  handle_reading_header (with_recv env k)
    {| session_create with header_buf := take n (serializer_pack_rpc h) |}
    {| sk_in := drop n (serializer_pack_rpc h ++ p); sk_out := [] |}
  = (0, (if (n + m <? total)%nat then session_at h p (n + m) else ready h p),
     {| sk_in := drop (n + m) (serializer_pack_rpc h ++ p); sk_out := [] |}).
Proof.
  intros Hn. pose proof pack_len as Hlen. destruct Hv as [Hfit Hmag Hpl Hmax].
  assert (0 < m <= RPC_HEADER_SIZE - n)%nat as Hm by (unfold m; lia).
  unfold handle_reading_header, read_into_buffer. cbn [header_buf with_recv io_recv sk_in].
  rewrite length_take, Nat.min_l by lia. rewrite (proj2 (Nat.eqb_neq _ _)) by lia. fold m.
  assert (take m (drop n (serializer_pack_rpc h ++ p)) = take m (drop n (serializer_pack_rpc h))) as ->.
  { rewrite drop_app_le by lia. apply take_app_le. rewrite length_drop. lia. }
  destruct (take m (drop n (serializer_pack_rpc h))) as [|b bs] eqn:Eb.
  { apply (f_equal length) in Eb. rewrite length_take, length_drop in Eb. cbn in Eb. lia. }
  rewrite <- Eb, take_extend, drop_drop. cbn [header_buf sk_out].
  rewrite length_take, Nat.min_l by lia.
  destruct (Nat.eqb_spec (n + m) RPC_HEADER_SIZE) as [He|Hne]; cbn [negb].
  - rewrite He, take_ge, unpack_packed, Hmag, Z.eqb_refl by lia. cbn [negb].
    rewrite !Z.gtb_ltb, (proj2 (Z.ltb_ge MAX_PAYLOAD_SIZE _)) by lia. rewrite Hpl, Nat2Z.id.
    destruct p as [|b0 p'] eqn:Ep; [done|].
    change (payload_alloc (with_recv env k)) with (payload_alloc env). rewrite Halloc.
    rewrite (proj2 (Z.ltb_lt _ _)), (proj2 (Nat.ltb_lt _ _)) by (cbn [length]; lia).
    unfold session_at. rewrite Nat.ltb_irrefl, Nat.sub_diag. done.
  - rewrite (proj2 (Nat.ltb_lt _ _)) by lia. unfold session_at.
    by rewrite (proj2 (Nat.ltb_lt _ _)) by lia.
Qed.

(** One read of the payload. *)
Lemma payload_step (n : nat) (m := Nat.min k (total - n)) :
  (RPC_HEADER_SIZE <= n < total)%nat ->
  handle_reading_payload (with_recv env k) (session_at h p n)
    {| sk_in := drop n (serializer_pack_rpc h ++ p); sk_out := [] |}
  = (0, (if (n + m <? total)%nat then session_at h p (n + m) else ready h p),
     {| sk_in := drop (n + m) (serializer_pack_rpc h ++ p); sk_out := [] |}).
Proof.
  intros Hn. pose proof pack_len as Hlen.
  assert (0 < m <= total - n)%nat as Hm by (unfold m; lia).
  unfold session_at at 1. rewrite (proj2 (Nat.ltb_ge _ _)) by lia.
  unfold handle_reading_payload, read_into_buffer.
  cbn [payload_buf payload_total with_recv io_recv sk_in].
  rewrite length_take, Nat.min_l by lia. rewrite (proj2 (Nat.eqb_neq _ _)) by lia.
  replace (Nat.min k (length p - (n - RPC_HEADER_SIZE))) with m by (unfold m; lia).
  assert (drop n (serializer_pack_rpc h ++ p) = drop (n - RPC_HEADER_SIZE) p) as Hd
    by (rewrite drop_app_ge, Hlen by lia; done).
  rewrite <- (drop_drop (serializer_pack_rpc h ++ p) m n), Hd.
  destruct (take m (drop (n - RPC_HEADER_SIZE) p)) as [|b bs] eqn:Eb.
  { apply (f_equal length) in Eb. rewrite length_take, length_drop in Eb. cbn in Eb. lia. }
  rewrite <- Eb, take_extend. cbn [payload_buf payload_total sk_out].
  rewrite length_take, Nat.min_l by lia.
  destruct (Nat.eqb_spec (n - RPC_HEADER_SIZE + m) (length p)) as [He|Hne].
  - rewrite He, firstn_all. by rewrite (proj2 (Nat.ltb_ge _ _)) by lia.
  - rewrite (proj2 (Nat.ltb_lt _ _)) by lia. unfold session_at.
    rewrite (proj2 (Nat.ltb_ge _ _)) by lia.
    by replace (n + m - RPC_HEADER_SIZE)%nat with (n - RPC_HEADER_SIZE + m)%nat by lia.
Qed.

(** One READ event: some bytes are consumed; at the last one the request is
    processed. *)
Lemma read_event (n : nat) :
  (n < total)%nat ->
  exists m, (0 < m)%nat /\ (n + m <= total)%nat /\
    rpc_on_client_event (with_recv env k) EVENT_READ (server_at h p n cm)
    = if (n + m <? total)%nat then (true, server_at h p (n + m) cm)
      else processed (with_recv env k) h p cm.
Proof.
  intros Hn. unfold rpc_on_client_event. change (has_event EVENT_READ EVENT_ERROR) with false.
  cbn iota.
  assert (exists m, (0 < m)%nat /\ (n + m <= total)%nat /\
    session_pass (with_recv env k) EVENT_READ (server_at h p n cm)
    = let s1 := if (n + m <? total)%nat then session_at h p (n + m) else ready h p in
      (0, bool_decide (ss_state s1 = SESSION_PROCESSING),
       {| sv_session := s1;
          sv_socket := {| sk_in := drop (n + m) (serializer_pack_rpc h ++ p); sk_out := [] |};
          sv_cluster := cm |})) as (m & Hm & Hle & Hpass).
  { unfold session_pass, server_at. cbn [sv_session sv_socket sv_cluster].
    destruct (decide (n < RPC_HEADER_SIZE)%nat) as [Hh|Hp].
    - exists (Nat.min k (RPC_HEADER_SIZE - n)). split; [lia|]. split; [lia|].
      assert (session_at h p n = {| session_create with header_buf := take n (serializer_pack_rpc h) |})
        as Hs by (unfold session_at; by rewrite (proj2 (Nat.ltb_lt _ _))).
      rewrite Hs, (header_step n Hh). done.
    - exists (Nat.min k (total - n)). split; [lia|]. split; [lia|].
      assert (ss_state (session_at h p n) = SESSION_READING_PAYLOAD) as Hs
        by (unfold session_at; by rewrite (proj2 (Nat.ltb_ge _ _)) by lia).
      rewrite Hs, (payload_step n) by lia. done. }
  exists m. split; [done|]. split; [done|]. rewrite (session_loop_step _ _ _ _ _ _ _ Hpass).
  destruct (Nat.ltb_spec (n + m) total) as [Hlt|Hge].
  - rewrite bool_decide_eq_false_2; [done|]. unfold session_at.
    by destruct (n + m <? RPC_HEADER_SIZE)%nat.
  - rewrite drop_ge by (rewrite length_app, pack_len; lia). apply loop_processes.
Qed.
End Reading.

(** A sequence of READ events with [recv] moving up to the given numbers of
    bytes; stops when the session is destroyed. *)
Fixpoint run_reads (env : SessionEnv) (ks : list nat) (sv : Server) : bool * Server :=
  match ks with
  | [] => (true, sv)
  | k :: ks' =>
      match rpc_on_client_event (with_recv env k) EVENT_READ sv with
      | (true, sv1) => run_reads env ks' sv1
      | dead => dead
      end
  end.

(** From [n] bytes on, enough READ events complete and process the request. *)
Lemma reads_complete (env : SessionEnv) (h : RpcHeader) (p : list byte) (cm : ClusterManager)
    (ks : list nat) (n : nat) :
  valid_request h p -> payload_alloc env = true -> Forall (fun k => 0 < k)%nat ks ->
  (n < RPC_HEADER_SIZE + length p)%nat -> (RPC_HEADER_SIZE + length p <= n + length ks)%nat ->
  exists ks1 k ks2 sv1, ks = ks1 ++ k :: ks2 /\
    run_reads env ks1 (server_at h p n cm) = (true, sv1) /\ sv_cluster sv1 = cm /\
    rpc_on_client_event (with_recv env k) EVENT_READ sv1 = processed (with_recv env k) h p cm.
Proof.
  intros Hv Ha Hks. revert n. induction ks as [|k ks IH]; intros n Hn Hlen; [cbn [length] in Hlen; lia|].
  apply Forall_cons in Hks as [Hk Hks].
  destruct (read_event env h p cm k Hv Ha Hk n Hn) as (m & Hm & Hle & Hev).
  destruct (Nat.ltb_spec (n + m) (RPC_HEADER_SIZE + length p)) as [Hlt|Hge].
  - destruct (IH Hks (n + m)%nat Hlt) as (ks1 & k' & ks2 & sv1 & -> & Hrun & Hcm & Hpr);
      [cbn [length] in Hlen; lia|].
    exists (k :: ks1), k', ks2, sv1. split; [done|]. split; [|done]. cbn [run_reads]. by rewrite Hev.
  - by exists [], k, ks, (server_at h p n cm).
Qed.

(** C29: reassembly.  However the network splits a request into pieces, after
    enough READ events the session has processed exactly the header and payload
    that the client serialised: no byte is lost, repeated or taken from a
    neighbour field, and the cluster is untouched until then. *)
Theorem session_reassembles (env : SessionEnv) (h : RpcHeader) (p : list byte)
    (cm : ClusterManager) (ks : list nat) :
  valid_request h p -> payload_alloc env = true -> Forall (fun k => 0 < k)%nat ks ->
  (RPC_HEADER_SIZE + length p <= length ks)%nat ->
  exists ks1 k ks2 sv1, ks = ks1 ++ k :: ks2 /\
    run_reads env ks1 {| sv_session := session_create;
                         sv_socket := {| sk_in := serializer_pack_rpc h ++ p; sk_out := [] |};
                         sv_cluster := cm |} = (true, sv1) /\
    sv_cluster sv1 = cm /\
    rpc_on_client_event (with_recv env k) EVENT_READ sv1 = processed (with_recv env k) h p cm.
Proof.
  intros Hv Ha Hks Hlen. change {| sv_session := session_create; sv_socket := _; sv_cluster := cm |}
    with (server_at h p 0 cm).
  apply reads_complete; [done..|unfold RPC_HEADER_SIZE; lia|done].
Qed.

Definition demo_env : SessionEnv :=
  {| io_recv := IoAgain; io_send := IoAgain; payload_alloc := true; join_alloc := alloc_ok;
     response_alloc := true; mod_fd_ok := true; env_pads := fun _ => zeros 7;
     env_wall := 1700000000; env_now := 5000 |}.

Definition demo_join_payload : list byte := join_request_bytes (join_request demo_joiner).

Lemma session_reassembles_witness :
  exists ks1 k ks2 sv1, replicate 179 1%nat = ks1 ++ k :: ks2 /\
    run_reads demo_env ks1
      {| sv_session := session_create;
         sv_socket := {| sk_in := join_message demo_joiner; sk_out := [] |};
         sv_cluster := demo_seed |} = (true, sv1) /\
    sv_cluster sv1 = demo_seed /\
    rpc_on_client_event (with_recv demo_env k) EVENT_READ sv1
    = processed (with_recv demo_env k) (join_header demo_joiner) demo_join_payload demo_seed.
Proof.
  apply (session_reassembles demo_env (join_header demo_joiner) demo_join_payload demo_seed
           (replicate 179 1%nat)).
  - constructor; [constructor; (done || vm_compute; reflexivity)|reflexivity|reflexivity|].
    vm_compute. discriminate.
  - reflexivity.
  - apply Forall_replicate. lia.
  - vm_compute. lia.
Defined.

(** ** Responses *)

Definition with_send (env : SessionEnv) (k : nat) : SessionEnv := {| env with io_send := IoBytes k |}.

Fixpoint run_writes (env : SessionEnv) (ks : list nat) (sv : Server) : bool * Server :=
  match ks with
  | [] => (true, sv)
  | k :: ks' =>
      match rpc_on_client_event (with_send env k) EVENT_WRITE sv with
      | (true, sv1) => run_writes env ks' sv1
      | dead => dead
      end
  end.

(** The server after [n] bytes of the response. *)
Definition sending_at (sv : Server) (n : nat) : Server :=
  {| sv with
     sv_session := {| (sv_session sv) with response_bytes_sent := n;
                        ss_state := if Nat.eqb n (length (response_buf (sv_session sv)))
                                    then SESSION_DONE else SESSION_SENDING_RESPONSE |};
     sv_socket := {| (sv_socket sv) with
                       sk_out := sk_out (sv_socket sv) ++ take n (response_buf (sv_session sv)) |} |}.

Lemma write_event (env : SessionEnv) (sv : Server) (n k : nat) :
  (0 < k)%nat -> (n < length (response_buf (sv_session sv)))%nat ->
  exists m, (0 < m)%nat /\ (n + m <= length (response_buf (sv_session sv)))%nat /\
    rpc_on_client_event (with_send env k) EVENT_WRITE (sending_at sv n)
    = (true, sending_at sv (n + m)).
Proof.
  intros Hk Hn. set (buf := response_buf (sv_session sv)) in *.
  exists (Nat.min k (length buf - n)). set (m := Nat.min k (length buf - n)).
  assert (0 < m <= length buf - n)%nat as Hm by (unfold m; lia).
  split; [lia|]. split; [lia|]. unfold rpc_on_client_event.
  change (has_event EVENT_WRITE EVENT_ERROR) with false. cbn iota.
  cbn [session_loop]. unfold session_pass, sending_at. cbn [sv_session ss_state sv_socket sv_cluster].
  fold buf. rewrite (proj2 (Nat.eqb_neq n (length buf))) by lia.
  change (has_event EVENT_WRITE EVENT_WRITE) with true. cbn iota.
  unfold handle_sending_response, write_from_buffer.
  cbn [response_buf response_bytes_sent with_send io_send sk_out]. fold buf.
  rewrite (proj2 (Nat.eqb_neq (length buf - n) 0)) by lia. fold m.
  destruct m as [|m'] eqn:Em; [lia|]. rewrite <- Em in *. clear Em m'.
  rewrite <- app_assoc. unfold field. rewrite take_extend.
  by destruct (Nat.eqb_spec (n + m) (length buf)).
Qed.

Lemma sending_at_0 (sv : Server) :
  ss_state (sv_session sv) = SESSION_SENDING_RESPONSE -> response_bytes_sent (sv_session sv) = 0%nat ->
  (0 < length (response_buf (sv_session sv)))%nat -> sending_at sv 0 = sv.
Proof.
  intros Hst Hsent Hpos. unfold sending_at. rewrite (proj2 (Nat.eqb_neq _ _)) by lia.
  rewrite take_0, app_nil_r. destruct sv as [[] [] ?]. cbn in *. by subst.
Qed.

(** From [n] bytes on, enough WRITE events complete the response. *)
Lemma writes_complete (env : SessionEnv) (sv : Server) (ks : list nat) (n : nat)
    (buf := response_buf (sv_session sv)) :
  Forall (fun k => 0 < k)%nat ks -> (n < length buf)%nat -> (length buf <= n + length ks)%nat ->
  exists ks1 ks2, ks = ks1 ++ ks2 /\
    run_writes env ks1 (sending_at sv n) = (true, sending_at sv (length buf)).
Proof.
  intros Hks. revert n. induction ks as [|k ks IH]; intros n Hn Hlen; [cbn [length] in Hlen; lia|].
  apply Forall_cons in Hks as [Hk Hks].
  destruct (write_event env sv n k Hk Hn) as (m & Hm & Hle & Hev).
  destruct (decide (n + m = length buf)%nat) as [He|Hne].
  - exists [k], ks. split; [done|]. cbn [run_writes]. by rewrite Hev, He.
  - destruct (IH Hks (n + m)%nat) as (ks1 & ks2 & -> & Hrun); [unfold buf in *; lia|cbn [length] in Hlen; lia|].
    exists (k :: ks1), ks2. split; [done|]. cbn [run_writes]. by rewrite Hev.
Qed.

Lemma sending_at_end (sv : Server) :
  sk_out (sv_socket (sending_at sv (length (response_buf (sv_session sv)))))
  = sk_out (sv_socket sv) ++ response_buf (sv_session sv) /\
  ss_state (sv_session (sending_at sv (length (response_buf (sv_session sv))))) = SESSION_DONE.
Proof. unfold sending_at. cbn. by rewrite Nat.eqb_refl, firstn_all. Qed.

(** C32: however the kernel splits the writes, a session that is sending puts
    exactly its response on the wire, in order and once, and is then done. *)
Theorem session_sends_response (env : SessionEnv) (sv : Server) (ks : list nat) :
  ss_state (sv_session sv) = SESSION_SENDING_RESPONSE ->
  response_bytes_sent (sv_session sv) = 0%nat ->
  Forall (fun k => 0 < k)%nat ks ->
  (0 < length (response_buf (sv_session sv)) <= length ks)%nat ->
  exists ks1 ks2 sv1, ks = ks1 ++ ks2 /\ run_writes env ks1 sv = (true, sv1) /\
    sk_out (sv_socket sv1) = sk_out (sv_socket sv) ++ response_buf (sv_session sv) /\
    ss_state (sv_session sv1) = SESSION_DONE /\ sv_cluster sv1 = sv_cluster sv.
Proof.
  intros Hst Hsent Hks [Hpos Hlen]. pose proof (sending_at_0 sv Hst Hsent Hpos) as H0.
  destruct (writes_complete env sv ks 0 Hks Hpos Hlen) as (ks1 & ks2 & Hks12 & Hrun).
  rewrite H0 in Hrun. destruct (sending_at_end sv) as [Ho Hd].
  by eexists ks1, ks2, _.
Qed.

Definition demo_sending : Server :=
  {| sv_session := {| session_create with ss_state := SESSION_SENDING_RESPONSE;
                        response_buf := text "pong" |};
     sv_socket := {| sk_in := []; sk_out := [] |}; sv_cluster := demo_seed |}.

Lemma session_sends_response_witness :
  exists ks1 ks2 sv1, [3%nat; 1%nat; 5%nat; 5%nat] = ks1 ++ ks2 /\
    run_writes demo_env ks1 demo_sending = (true, sv1) /\
    sk_out (sv_socket sv1) = text "pong" /\
    ss_state (sv_session sv1) = SESSION_DONE /\ sv_cluster sv1 = demo_seed.
Proof.
  apply (session_sends_response demo_env demo_sending [3%nat; 1%nat; 5%nat; 5%nat]).
  - reflexivity.
  - reflexivity.
  - repeat constructor.
  - vm_compute. lia.
Defined.

(** ** Headers sent as they lie in memory *)

(** The server rejects every header that [rpc_send_message] sends.  That
    function writes the header struct in host byte order, the session reads it
    in network byte order, finds the magic number reversed, and destroys the
    session; so no request that [raft_send_rpc_callback] sends is ever
    processed. *)
Theorem raw_header_rejected (env : SessionEnv) (h : RpcHeader) (payload : option (list byte))
    (cm : ClusterManager) (k : nat) :
  magic h = RPC_MAGIC -> header_fits h -> (RPC_HEADER_SIZE <= k)%nat ->
  exists sv1, rpc_on_client_event (with_recv env k) EVENT_READ
    {| sv_session := session_create;
       sv_socket := {| sk_in := rpc_send_message h payload; sk_out := [] |};
       sv_cluster := cm |} = (false, sv1) /\ sv_cluster sv1 = cm.
Proof.
  intros Hmag [_ _ _ _ Ho Hr] Hk. unfold rpc_on_client_event, session_loop, session_pass.
  change (has_event EVENT_READ EVENT_ERROR) with false. cbn iota.
  cbn [sv_session ss_state session_create sv_socket].
  change (has_event EVENT_READ EVENT_READ) with true. cbn iota.
  unfold handle_reading_header, read_into_buffer. cbn [header_buf with_recv io_recv sk_in length].
  rewrite Nat.sub_0_r, Nat.min_r by done. change (Nat.eqb RPC_HEADER_SIZE 0) with false.
  cbn iota. unfold rpc_send_message.
  rewrite take_app_length' by (unfold rpc_header_image; rewrite !length_app, Ho, Hr; by len).
  destruct (rpc_header_image h) as [|b bs] eqn:E.
  { apply (f_equal length) in E. unfold rpc_header_image in E. rewrite !length_app, Ho in E. cbn in E. lia. }
  rewrite <- E. cbn [header_buf session_create app].
  assert (length (rpc_header_image h) = RPC_HEADER_SIZE) as Hlen
    by (unfold rpc_header_image; rewrite !length_app, Ho, Hr; by len).
  rewrite Hlen. cbn [negb Nat.eqb].
  assert (magic (serializer_unpack_rpc (rpc_header_image h)) =? RPC_MAGIC = false) as ->.
  { unfold serializer_unpack_rpc, rpc_header_image. cbn [magic].
    rewrite field_here by by len. rewrite Hmag. vm_compute. reflexivity. }
  cbn [negb]. eexists. split; reflexivity.
Qed.

Lemma raw_header_rejected_witness :
  exists sv1, rpc_on_client_event (with_recv demo_env 4096) EVENT_READ
    {| sv_session := session_create;
       sv_socket := {| sk_in := rpc_send_message demo_header None; sk_out := [] |};
       sv_cluster := demo_seed |} = (false, sv1) /\ sv_cluster sv1 = demo_seed.
Proof.
  apply (raw_header_rejected demo_env demo_header None demo_seed 4096);
    [reflexivity|exact demo_header_fits|unfold RPC_HEADER_SIZE; lia].
Defined.
