(* ===== verification/JoinFlow.v ===== *)
(** * Joining and leaving, from one node to the other

    Composes both ends of a join: [cluster_join] of [src/cluster/cluster_manager.c]
    on the joining node, and on the seed the session of
    [src/protocol/rpc_handler.c] that reads the request in pieces, lets
    [cluster_handle_join_req] update the members, and writes the answer in
    pieces.  [serve] is what the seed makes of a connection.  [leave_end_to_end] does
    the same for [cluster_leave]. *)

From S2P Require Import Prelude RaftCore Wire RaftRpc Cluster FailureDetector EventLoop Session.

(** The seed's side of a connection on which [bytes] arrive: READ events that move
    up to [ks] bytes each, then WRITE events that move up to [ws].  What it wrote,
    and its cluster. *)
Definition serve (env : SessionEnv) (ks ws : list nat) (seed : ClusterManager) (bytes : list byte)
  : list byte * ClusterManager :=
  let sv := (run_reads env ks
               {| sv_session := session_create; sv_socket := {| sk_in := bytes; sk_out := [] |};
                  sv_cluster := seed |}).2 in
  let sv' := (run_writes env ws sv).2 in
  (sk_out (sv_socket sv'), sv_cluster sv').

(** ** Events that find nothing to do *)

Lemma read_while_sending (env : SessionEnv) (ks : list nat) (sv : Server) :
  ss_state (sv_session sv) = SESSION_SENDING_RESPONSE -> run_reads env ks sv = (true, sv).
Proof.
  intros Hs. induction ks as [|k ks IH]; [done|]. cbn [run_reads].
  assert (rpc_on_client_event (with_recv env k) EVENT_READ sv = (true, sv)) as ->; [|done].
  unfold rpc_on_client_event. cbn [session_loop]. unfold session_pass. by rewrite Hs.
Qed.

Lemma write_when_done (env : SessionEnv) (ks : list nat) (sv : Server) :
  ss_state (sv_session sv) = SESSION_DONE -> (run_writes env ks sv).2 = sv.
Proof.
  intros Hs. destruct ks as [|k ks]; [done|]. cbn [run_writes].
  assert (rpc_on_client_event (with_send env k) EVENT_WRITE sv = (false, sv)) as ->; [|done].
  unfold rpc_on_client_event. cbn [session_loop]. unfold session_pass. by rewrite Hs.
Qed.

Lemma read_when_done (env : SessionEnv) (ks : list nat) (sv : Server) :
  ss_state (sv_session sv) = SESSION_DONE -> (run_reads env ks sv).2 = sv.
Proof.
  intros Hs. destruct ks as [|k ks]; [done|]. cbn [run_reads].
  assert (rpc_on_client_event (with_recv env k) EVENT_READ sv = (false, sv)) as ->; [|done].
  unfold rpc_on_client_event. cbn [session_loop]. unfold session_pass. by rewrite Hs.
Qed.

Lemma run_reads_app (env : SessionEnv) (ks1 ks2 : list nat) (sv sv1 : Server) :
  run_reads env ks1 sv = (true, sv1) -> run_reads env (ks1 ++ ks2) sv = run_reads env ks2 sv1.
Proof.
  revert sv. induction ks1 as [|k ks1 IH]; intros sv; cbn [run_reads app]; [by intros [= ->]|].
  destruct (rpc_on_client_event _ _ sv) as [[] sv2]; [apply IH|done].
Qed.

Lemma run_writes_app (env : SessionEnv) (ks1 ks2 : list nat) (sv sv1 : Server) :
  run_writes env ks1 sv = (true, sv1) -> run_writes env (ks1 ++ ks2) sv = run_writes env ks2 sv1.
Proof.
  revert sv. induction ks1 as [|k ks1 IH]; intros sv; cbn [run_writes app]; [by intros [= ->]|].
  destruct (rpc_on_client_event _ _ sv) as [[] sv2]; [apply IH|done].
Qed.

(** ** The request *)

Lemma join_request_roundtrip (r : JoinRequestPayload) :
  length (jr_node_id r) = 37%nat -> length (jr_ip_address r) = 46%nat ->
  is_u16 (jr_tcp_port r) -> is_u16 (jr_udp_port r) -> is_u16 (jr_role r) ->
  join_request_of (join_request_bytes r) = r.
Proof.
  intros Hid Hip Ht Hu Hr. unfold join_request_of, join_request_bytes.
  do 5 (read_fields; rewrite ?Hid, ?Hip; cbn [Nat.sub]).
  rewrite !of_net_bytes2 by done. by destruct r.
Qed.

(** What the joining node's own entry is, for the message to carry it. *)
Record joiner_ok (cm : ClusterManager) : Prop := {
  jo_self : node_fits (self cm);
  jo_members : cm_members cm = [];
  jo_capacity : member_capacity cm = 0;
}.

Lemma request_arrays (cm : ClusterManager) :
  length (jr_node_id (join_request cm)) = 37%nat /\ length (jr_ip_address (join_request cm)) = 46%nat.
Proof.
  split; cbn; [apply (strncpy37 (zeros 37) _ zeros37)|apply (strncpy46 (zeros 46) _ zeros46)].
Qed.

Lemma length_request (cm : ClusterManager) :
  length (join_request_bytes (join_request cm)) = JOIN_REQUEST_SIZE.
Proof.
  destruct (request_arrays cm) as [Hid Hip]. unfold join_request_bytes.
  rewrite !length_app, Hid, Hip. by len.
Qed.

Lemma join_request_valid (cm : ClusterManager) :
  valid_request (join_header cm) (join_request_bytes (join_request cm)).
Proof.
  constructor; [|done|by rewrite length_request|vm_compute; discriminate].
  constructor; cbn; [vm_compute; split; done..| |done].
  apply (strncpy37 (zeros 37) (ni_node_id (self cm)) zeros37).
Qed.

Lemma request_read (cm : ClusterManager) :
  joiner_ok cm -> join_request_of (join_request_bytes (join_request cm)) = join_request cm.
Proof.
  intros [[_ ? ? ? _] _ _]. destruct (request_arrays cm). by apply join_request_roundtrip.
Qed.

(** ** The seed *)

(** The join keeps what the answer needs of the seed's members. *)
Lemma join_req_fits (al : Alloc) (pads : nat -> list byte) (wall : Z) (cm cm' : ClusterManager)
    (req : JoinRequestPayload) (resp : list byte) :
  cluster_handle_join_req al pads wall cm req = (0, Some resp, cm') ->
  Forall node_fits (cm_members cm) ->
  is_u16 (jr_tcp_port req) -> is_u16 (jr_udp_port req) -> is_u16 (jr_role req) ->
  Forall node_fits (cm_members cm') /\ member_count cm' <= member_count cm + 1 /\ self cm' = self cm.
Proof.
  intros Hj Hf Ht Hu Hr. unfold cluster_handle_join_req in Hj.
  assert (is_u16 NODE_STATUS_ALIVE) as Hst by (vm_compute; done).
  destruct (find_member cm (jr_node_id req)) as [[i m]|] eqn:E.
  - apply find_member_Some in E as [Hi _]. destruct (malloc_ok al); [|done].
    injection Hj as _ <-. unfold member_count. cbn. rewrite length_insert. split_and!; [|lia|done].
    apply Forall_insert; [done|]. rewrite Forall_lookup in Hf. destruct (Hf i m Hi) as [[H1 H2] _ _ _ _].
    constructor; cbn; try done. split; cbn; auto with droole.
  - assert (cm_members (ensure_capacity al cm) = cm_members cm /\ self (ensure_capacity al cm) = self cm)
      as [Hm Hs] by (unfold ensure_capacity; by destruct_ifs).
    destruct (_ >=? _); [done|]. destruct (malloc_ok al); [|done]. injection Hj as _ <-.
    unfold member_count. cbn. rewrite Hm, Hs, length_app. cbn [length]. split_and!; [|lia|done].
    apply Forall_app. split; [done|]. apply Forall_singleton.
    constructor; cbn; try done. split; cbn; auto with droole.
Qed.

(** What the kernel and the allocator of the seed do during the connection. *)
Record serving_ok (env : SessionEnv) (ks ws : list nat) : Prop := {
  so_payload : payload_alloc env = true;
  so_realloc : realloc_ok (join_alloc env) = true;
  so_malloc : malloc_ok (join_alloc env) = true;
  so_response : response_alloc env = true;
  so_mod : mod_fd_ok env = true;
  so_pads : forall k, length (env_pads env k) = 7%nat;
  so_reads : Forall (fun k => 0 < k)%nat ks;
  so_writes : Forall (fun k => 0 < k)%nat ws;
  so_enough : (RPC_HEADER_SIZE + JOIN_REQUEST_SIZE <= length ks)%nat;
}.

(** The answer of a seed whose cluster is [seed'] after the join. *)
Definition join_answer (env : SessionEnv) (cm seed' : ClusterManager) : list byte :=
  let payload := join_response_bytes (env_pads env) seed' in
  serializer_pack_rpc (join_resp_header (join_header cm) (length payload)) ++ payload.

(** The session answers with [join_answer] and keeps the updated cluster. *)
Lemma serve_join (env : SessionEnv) (ks ws : list nat) (cm seed seed' : ClusterManager) :
  serving_ok env ks ws -> joiner_ok cm ->
  cluster_handle_join_req (join_alloc env) (env_pads env) (env_wall env) seed (join_request cm)
    = (0, Some (join_response_bytes (env_pads env) seed'), seed') ->
  (0 < length (join_answer env cm seed') <= length ws)%nat ->
  serve env ks ws seed (join_message cm) = (join_answer env cm seed', seed').
Proof.
  intros [Hp Hre Hma Hr Hmod Hpads Hks Hws Hen] Hcm Hj [Hpos Hlen]. unfold serve, join_message.
  set (h := join_header cm). set (p := join_request_bytes (join_request cm)).
  destruct (reads_complete env h p seed ks 0) as (ks1 & k & ks2 & sv1 & -> & Hrun & Hcl & Hproc);
    [apply join_request_valid|done|done|unfold RPC_HEADER_SIZE; lia| |].
  { unfold p. rewrite length_request. lia. }
  change {| sv_session := session_create; sv_socket := _; sv_cluster := seed |}
    with (server_at h p 0 seed).
  rewrite (run_reads_app _ _ _ _ _ Hrun). cbn [run_reads]. rewrite Hproc. clear Hproc Hrun Hks Hen.
  set (s2 := {| (ready h p) with response_buf := join_answer env cm seed';
                                 ss_state := SESSION_SENDING_RESPONSE |}).
  set (sv2 := {| sv_session := s2; sv_socket := {| sk_in := []; sk_out := [] |}; sv_cluster := seed' |}).
  assert (processed (with_recv env k) h p seed = (true, sv2)) as ->.
  { unfold processed, handle_processing.
    cbn [ss_header ready payload_total payload_buf with_recv join_alloc env_pads env_wall
         response_alloc mod_fd_ok]. unfold h at 1. cbn [command_type join_header].
    rewrite Z.eqb_refl. unfold p at 1. rewrite length_request, Nat.eqb_refl. cbn [negb].
    unfold p at 1. rewrite request_read, Hj, Hr, Hmod by done. done. }
  rewrite read_while_sending by done. cbn [snd].
  destruct (writes_complete env sv2 ws 0 Hws) as (ws1 & ws2 & -> & Hw); [done|done|].
  rewrite sending_at_0 in Hw by done. rewrite (run_writes_app _ _ _ _ _ Hw).
  destruct (sending_at_end sv2) as [Ho Hd]. rewrite write_when_done by exact Hd.
  by rewrite Ho.
Qed.

(** ** The answer *)

Lemma find_member_ext (cm : ClusterManager) (a b : list byte) :
  cstr a = cstr b -> find_member cm a = find_member cm b.
Proof. intros H. unfold find_member, streq. by rewrite H. Qed.

Lemma length_infos (pads : nat -> list byte) (ms : list NodeInfo) :
  (forall k, length (pads k) = 7%nat) -> Forall node_fits ms ->
  length (concat (imap (fun i n => node_info_bytes (pads i) n) ms)) = (NODE_INFO_SIZE * length ms)%nat.
Proof.
  intros Hp Hf. revert pads Hp. induction Hf as [|m ms Hm Hf IH]; intros pads Hp; [done|].
  rewrite imap_cons. cbn [concat length]. rewrite length_app, length_node_info_bytes by (apply Hm || done).
  specialize (IH (pads ∘ S) (fun k => Hp (S k))).
  replace (imap (fun i n => node_info_bytes ((pads ∘ S) i) n) ms)
    with (imap ((fun i n => node_info_bytes (pads i) n) ∘ S) ms) in IH by done.
  rewrite IH. lia.
Qed.

Lemma length_response (pads : nat -> list byte) (cm : ClusterManager) :
  (forall k, length (pads k) = 7%nat) -> Forall node_fits (cm_members cm) ->
  length (join_response_bytes pads cm)
  = (JOIN_RESPONSE_SIZE + NODE_INFO_SIZE * length (cm_members cm))%nat.
Proof.
  intros Hp Hf. unfold join_response_bytes.
  rewrite !length_app, length_infos, length_host_bytes, length_net_bytes by done.
  rewrite length_strncpy by (rewrite length_zeros; lia). rewrite length_zeros.
  unfold JOIN_RESPONSE_SIZE. lia.
Qed.

Lemma resp_header_fits (cm : ClusterManager) (n : nat) :
  Z.of_nat n < 2 ^ 64 -> header_fits (join_resp_header (join_header cm) n).
Proof.
  intros Hn. constructor; cbn; [vm_compute; split; done..|unfold is_u64; lia| |done].
  apply (strncpy37 (zeros 37) _ zeros37).
Qed.

(** ** Properties *)

(** C13: a join, end to end.  A node that calls [cluster_join] on a seed that runs
    the RPC server ends up ACTIVE and with the seed's members other than itself,
    and the seed; and the seed ends up with the node in its member list, alive and
    with the address, ports and role the node announced, its other members
    untouched.  This holds however the network splits the request and the
    response, for every seed whose members fit the wire format. *)
Theorem join_end_to_end (env : SessionEnv) (ks ws : list nat) (al : nat -> Alloc)
    (junk : nat -> Z * Z) (now : Z) (cm seed : ClusterManager) (seed_ip : list byte)
    (seed_port : Z) :
  serving_ok env ks ws -> joiner_ok cm -> (forall k, realloc_ok (al k) = true) ->
  cluster_wf seed -> Forall node_fits (cm_members seed) ->
  member_count seed + 1 < 2 ^ 32 ->
  (RPC_HEADER_SIZE + JOIN_RESPONSE_SIZE + NODE_INFO_SIZE * S (length (cm_members seed))
     <= length ws)%nat ->
  let exchange := fun (_ : list byte) (_ : Z) b => Some (serve env ks ws seed b).1 in
  let seed' := (serve env ks ws seed (join_message cm)).2 in
  (exists m, snd <$> find_member seed' (ni_node_id (self cm)) = Some m /\
     announces (join_request cm) m /\ last_updated_ts m = env_wall env) /\
  (forall id, cstr id <> cstr (ni_node_id (self cm)) ->
     snd <$> find_member seed' id = snd <$> find_member seed id) /\
  exists cm' l, cluster_join exchange true al junk now cm seed_ip seed_port = Returns (0, cm') /\
    cluster_state cm' = CLUSTER_STATE_ACTIVE /\
    Forall2 (learned now) (filter (not_self cm) (cm_members seed')) l /\
    ((cm_members cm' = l /\ cstr (ni_node_id (self seed)) ∈ cm_ids cm') \/
     exists m, cm_members cm' = l ++ [m] /\
       cstr (ni_node_id m) = cstr (ni_node_id (self seed)) /\
       status m = NODE_STATUS_ALIVE /\ tcp_port m = seed_port /\ last_updated_ts m = now).
Proof.
  intros Hs Hc Hal Hseed Hfit Hcnt Hlen. cbn zeta. pose proof Hs as [_ Hre Hma _ _ Hpads _ _ _].
  pose proof Hc as [[[Hid _] Htp Hup Hro _] Hm0 Hc0].
  assert (cstr (jr_node_id (join_request cm)) = cstr (ni_node_id (self cm))) as Hcs
    by (apply cstr_strncpy37; auto with droole).
  destruct (join_req_spec (join_alloc env) (env_pads env) (env_wall env) seed (join_request cm) Hseed)
    as (seed' & Hj & Hwf' & Hm & Hother);
    [unfold req_ok; rewrite Hcs; auto with droole|done|done|lia|].
  destruct (join_req_fits _ _ _ _ _ _ _ Hj Hfit Htp Hup Hro) as (Hfit' & Hcnt' & Hself).
  assert (length (join_response_bytes (env_pads env) seed')
          = JOIN_RESPONSE_SIZE + NODE_INFO_SIZE * length (cm_members seed'))%nat as Hrl
    by by apply length_response.
  assert (length (cm_members seed') <= S (length (cm_members seed)))%nat as Hle
    by (unfold member_count in Hcnt'; lia).
  unfold member_count in Hcnt, Hcnt'.
  assert (header_fits (join_resp_header (join_header cm) (length (join_response_bytes (env_pads env) seed'))))
    as Hhf by (apply resp_header_fits; rewrite Hrl; unfold JOIN_RESPONSE_SIZE, NODE_INFO_SIZE; lia).
  rewrite (serve_join env ks ws cm seed seed' Hs Hc Hj); cbn [fst snd].
  2:{ unfold join_answer. rewrite length_app, length_pack_rpc, Hrl by done.
      unfold RPC_HEADER_SIZE, JOIN_RESPONSE_SIZE, NODE_INFO_SIZE in *. lia. }
  split; [by rewrite (find_member_ext seed' _ _ (eq_sym Hcs))|].
  split; [intros id Hne; apply Hother; congruence|].
  destruct (import_answer al junk (env_pads env) now seed' cm seed_ip seed_port)
    as (cm1 & l & Himp & Hl & Hend); [done|done|unfold member_count; lia|done..|].
  rewrite Hself in Hend. exists {| cm1 with cluster_state := CLUSTER_STATE_ACTIVE |}, l.
  split; [|done].
  eapply join_answered; [exact Hhf|done|done|done| | |exact Himp].
  - intros He. apply (f_equal length) in He. rewrite Hrl in He. done.
  - rewrite (serve_join env ks ws cm seed seed' Hs Hc Hj); [done|].
    unfold join_answer. rewrite length_app, length_pack_rpc, Hrl by done.
    unfold RPC_HEADER_SIZE, JOIN_RESPONSE_SIZE, NODE_INFO_SIZE in *. lia.
Qed.

(** A seed with one member, and a second node that joins; every event moves a few
    bytes only. *)
Definition demo_seed1 : ClusterManager :=
  (cluster_handle_join_req alloc_ok (fun _ => zeros 7) 1700000000 demo_seed
     (join_request demo_joiner)).2.

Lemma join_end_to_end_witness :
  exists cm', cluster_join
      (fun _ _ b => Some (serve demo_env (replicate 179 7%nat) (replicate 359 5%nat) demo_seed1 b).1)
      true (fun _ => alloc_ok) (fun _ => (0, 0)) 900 demo_second (text "10.0.0.1") 9000
      = Returns (0, cm') /\ cluster_state cm' = CLUSTER_STATE_ACTIVE.
Proof.
  destruct (join_end_to_end demo_env (replicate 179 7%nat) (replicate 359 5%nat) (fun _ => alloc_ok)
              (fun _ => (0, 0)) 900 demo_second demo_seed1 (text "10.0.0.1") 9000)
    as (_ & _ & cm' & l & H1 & H2 & _).
  - constructor; try reflexivity; try (apply Forall_replicate; lia).
  - constructor; [|reflexivity|reflexivity].
    constructor; [by repeat split|vm_compute; split; (discriminate || reflexivity)..].
  - reflexivity.
  - constructor.
    + apply (bool_decide_unpack _). vm_compute. exact I.
    + repeat constructor.
    + by repeat split.
    + vm_compute. split; [discriminate|reflexivity].
  - repeat constructor; (discriminate || reflexivity).
  - vm_compute. reflexivity.
  - vm_compute. lia.
  - exists cm'. split; [exact H1|exact H2].
Defined.

(** ** Leaving *)

Lemma leave_request_valid (cm : ClusterManager) : valid_request (leave_header cm) [].
Proof.
  constructor; [|done|done|vm_compute; discriminate].
  constructor; cbn; [vm_compute; split; done..| |done].
  apply (strncpy37 (zeros 37) (ni_node_id (self cm)) zeros37).
Qed.

(** The session that reads a LEAVE marks the sender and answers nothing. *)
Lemma serve_leave (env : SessionEnv) (ks ws : list nat) (cm peer : ClusterManager) :
  payload_alloc env = true -> Forall (fun k => 0 < k)%nat ks -> (RPC_HEADER_SIZE <= length ks)%nat ->
  serve env ks ws peer (serializer_pack_rpc (leave_header cm))
  = ([], (cluster_update_member_status (env_now env) peer (origin_id (leave_header cm))
            NODE_STATUS_DEAD).2).
Proof.
  intros Hp Hks Hlen. unfold serve. set (h := leave_header cm).
  destruct (reads_complete env h [] peer ks 0) as (ks1 & k & ks2 & sv1 & -> & Hrun & Hcl & Hproc);
    [apply leave_request_valid|done|done|unfold RPC_HEADER_SIZE; lia|cbn [length]; lia|].
  unfold server_at in Hrun. cbn [drop] in Hrun. rewrite app_nil_r in Hrun.
  change (session_at h [] 0) with session_create in Hrun.
  rewrite (run_reads_app _ _ _ _ _ Hrun). cbn [run_reads]. rewrite Hproc. clear Hproc Hrun.
  set (sv2 := {| sv_session := {| (ready h []) with ss_state := SESSION_DONE |};
                 sv_socket := {| sk_in := []; sk_out := [] |};
                 sv_cluster := (cluster_update_member_status (env_now env) peer (origin_id h)
                                  NODE_STATUS_DEAD).2 |}).
  assert (processed (with_recv env k) h [] peer = (true, sv2)) as -> by done.
  rewrite read_when_done, write_when_done by done. done.
Qed.

(** The members a LEAVE goes to are alive and are not the sender itself. *)
Lemma leave_targets_alive (send : NodeInfo -> bool) (id : list byte) (k : nat) (ms : list NodeInfo) :
  (length (leave_targets send id k ms) <= 3 - k)%nat /\
  forall m, m ∈ leave_targets send id k ms ->
    m ∈ ms /\ status m = NODE_STATUS_ALIVE /\ cstr (ni_node_id m) <> cstr id /\ send m = true.
Proof.
  revert k. induction ms as [|m ms IH]; intros k; cbn [leave_targets]; [split; [cbn; lia|set_solver]|].
  destruct (3 <=? k)%nat eqn:E3; [split; [cbn; lia|set_solver]|]. apply Nat.leb_gt in E3.
  destruct (streq (ni_node_id m) id) eqn:Eid.
  { destruct (IH k) as [Hl Hm]. split; [done|]. intros x Hx. destruct (Hm x Hx). split; [by right|done]. }
  destruct (_ && _) eqn:Ea; bool_to_prop.
  - destruct (IH (S k)) as [Hl Hm]. split; [cbn [length]; lia|].
    intros x [->|Hx]%elem_of_cons; [split; [left|]; split; [done|]; split; [by apply streq_false|done]|].
    destruct (Hm x Hx). split; [by right|done].
  - destruct (IH k) as [Hl Hm]. split; [done|]. intros x Hx. destruct (Hm x Hx). split; [by right|done].
Qed.

(** C18: a departure, end to end.  [cluster_leave] puts the node in the LEAVING
    state and sends at most three messages, all to other members that it holds
    ALIVE; a peer whose RPC server receives such a message, however the network
    splits it, answers nothing, marks exactly the leaving node DEAD with the time
    of the message, and keeps every other member as it was. *)
Theorem leave_end_to_end (send : NodeInfo -> bool) (cm : ClusterManager) :
  cluster_wf cm ->
  let r := cluster_leave send cm in
  cluster_state r.2 = CLUSTER_STATE_LEAVING /\ (length r.1 <= 3)%nat /\
  forall target msg, (target, msg) ∈ r.1 ->
    (target ∈ cm_members cm /\ status target = NODE_STATUS_ALIVE /\
     cstr (ni_node_id target) <> cstr (ni_node_id (self cm))) /\
    forall env ks ws peer i m,
      payload_alloc env = true -> Forall (fun k => 0 < k)%nat ks -> (RPC_HEADER_SIZE <= length ks)%nat ->
      cluster_wf peer -> cm_members peer !! i = Some m ->
      (serve env ks ws peer msg).1 = [] /\ cluster_wf (serve env ks ws peer msg).2 /\
      cm_members (serve env ks ws peer msg).2 !! i
      = Some (if decide (cstr (ni_node_id m) = cstr (ni_node_id (self cm)))
              then {| m with status := NODE_STATUS_DEAD; last_updated_ts := env_now env |} else m).
Proof.
  intros Hwf r. destruct (leave_targets_alive send (ni_node_id (self cm)) 0 (cm_members cm)) as [Hlen Hm].
  split; [done|]. split; [unfold r; cbn; rewrite length_map; lia|].
  intros target msg (t & Heq & Ht)%list_elem_of_fmap. simplify_eq.
  destruct (Hm _ Ht) as (Hin & Hst & Hne & _). split; [done|].
  intros env ks ws peer i m Hp Hks Hlks Hpw Hi. rewrite serve_leave by done. cbn [fst snd].
  split; [done|]. split; [by apply update_status_wf|].
  rewrite (update_status_lookup _ _ _ _ i m) by done. f_equal.
  assert (cstr (origin_id (leave_header cm)) = cstr (ni_node_id (self cm))) as Hid
    by (apply cstr_strncpy37; [auto with droole|]; apply cstr_length37, (cw_self _ Hwf)).
  unfold streq. rewrite Hid. case_decide; case_bool_decide; congruence || done.
Qed.

Definition demo_leaver : ClusterManager :=
  {| demo_second with member_capacity := 8; cm_members := [self demo_seed] |}.

Lemma leave_end_to_end_witness :
  let msg := serializer_pack_rpc (leave_header demo_leaver) in
  (self demo_seed, msg) ∈ (cluster_leave (fun _ => true) demo_leaver).1 /\
  (serve demo_env (replicate 90 3%nat) [] demo_seed2 msg).1 = [].
Proof.
  assert ((self demo_seed, serializer_pack_rpc (leave_header demo_leaver))
            ∈ (cluster_leave (fun _ => true) demo_leaver).1) as Hin.
  { apply (list_elem_of_lookup_2 _ 0). vm_compute. reflexivity. }
  split; [exact Hin|].
  destruct (leave_end_to_end (fun _ => true) demo_leaver) as (_ & _ & Hall).
  - constructor; [apply NoDup_singleton|by repeat constructor|by repeat split|done].
  - destruct (Hall _ _ Hin) as [_ Hs].
    apply (Hs demo_env (replicate 90 3%nat) [] demo_seed2 0%nat (nth 0 (cm_members demo_seed2) zero_node)).
    + reflexivity.
    + apply Forall_replicate. lia.
    + vm_compute. lia.
    + constructor; [apply (bool_decide_unpack _); vm_compute; exact I|by repeat constructor|by repeat split|done].
    + reflexivity.
Defined.
