(* ===== verification/MemberNet.v ===== *)
(** * Membership across nodes

    Several nodes that run [src/main.c]: each starts with [cluster_init], may join
    through a seed ([cluster_join]) before its event loop runs, then serves
    requests ([handle_processing] of [src/protocol/rpc_handler.c]), receives
    gossip, sends heartbeats, reaps and leaves.  [act] is what one action does to
    the whole fleet; nodes crash and restart at any point, allocations fail,
    connections break and datagrams are arbitrary.  [membership_truthful] says
    that member lists describe real nodes all the same, and
    [membership_does_not_spread] that gossip never extends them. *)

From S2P Require Import Prelude RaftCore Wire RaftRpc Cluster FailureDetector EventLoop Session JoinFlow.

(** ** Data *)

(** The arguments a node is started with. *)
Record NodeArgs : Type := {
  na_id : list byte;
  na_port : Z;
  na_role : Z;
}.

(** A process: whether it has reached [loop_run], and its cluster manager. *)
Record Process : Type := {
  pr_running : bool;
  pr_cluster : ClusterManager;
}.

(** [nt_answers] are the responses the servers wrote, each with the node that
    asked and the node that answered; [nt_sent] the heartbeats, each with its
    sender. *)
Record Net : Type := {
  nt_nodes : gmap nat Process;
  nt_answers : list (nat * nat * list byte);
  nt_sent : list (nat * (NodeInfo * list byte));
}.

(** What can happen.  [i] is the node that acts. *)
Inductive action : Type :=
  | Start (i : nat) (now : Z)
  | Alone (i : nat)
  | Join (i s : nat) (ip : list byte) (port : Z) (answer : option (nat * nat)) (mem : bool)
      (al : nat -> Alloc) (junk : nat -> Z * Z) (now : Z)
  | ServeJoin (i : nat) (joiner : nat) (env : SessionEnv)
  | Serve (i : nat) (env : SessionEnv) (h : RpcHeader) (p : list byte)
  | Gossip (i : nat) (now : Z) (d : list byte)
  | Beat (i : nat) (now rnd : Z)
  | Reaper (i : nat) (now : Z)
  | Depart (i : nat).

Definition actor (a : action) : nat :=
  match a with
  | Start i _ | Alone i | Join i _ _ _ _ _ _ _ _ | ServeJoin i _ _ | Serve i _ _ _
  | Gossip i _ _ | Beat i _ _ | Reaper i _ | Depart i => i
  end.

(** ** Importing without memory *)

(** A failed reallocation ends the import or makes no difference. *)
Lemma import_member_alloc (al : Alloc) (junk : Z * Z) (now : Z) (payload : list byte) (off : nat)
    (cm : ClusterManager) :
  import_member al junk now payload off cm = import_member alloc_ok junk now payload off cm \/
  import_member al junk now payload off cm = None.
Proof.
  unfold import_member, ensure_capacity. destruct (streq _ _); [by left|].
  destruct (Z.ltb_spec (member_count cm) (member_capacity cm)); [by left|].
  destruct (realloc_ok al); [by left|right].
  by rewrite Z.geb_leb, (proj2 (Z.leb_le _ _)).
Qed.

Lemma add_seed_alloc (al : Alloc) (now : Z) (id ip : list byte) (port : Z) (cm : ClusterManager) :
  add_seed al now id ip port cm = add_seed alloc_ok now id ip port cm \/
  add_seed al now id ip port cm = cm.
Proof.
  unfold add_seed, ensure_capacity. destruct (find_member cm id); [by left|].
  destruct (member_count cm <? member_capacity cm) eqn:E; [by left|].
  destruct (realloc_ok al); [by left|right]. by rewrite E.
Qed.

(** The import takes over the entries up to the first one it has no memory for. *)
Lemma import_any (al : nat -> Alloc) (junk : nat -> Z * Z) (now : Z) (payload : list byte)
    (pads : nat -> list byte) (ms : list NodeInfo) (i : nat) (cm : ClusterManager) :
  (forall k, length (pads k) = 7%nat) ->
  Forall node_fits ms -> cap_ok cm -> member_count cm + Z.of_nat (length ms) < 2 ^ 60 ->
  (JOIN_RESPONSE_SIZE + i * NODE_INFO_SIZE <= length payload)%nat ->
  drop (JOIN_RESPONSE_SIZE + i * NODE_INFO_SIZE) payload
    = concat (imap (fun j n => node_info_bytes (pads j) n) ms) ->
  exists k l cap, import_members al junk now payload i (length ms) cm
    = Returns {| cm with cm_members := cm_members cm ++ l; member_capacity := cap |} /\
    Forall2 (learned now) (filter (not_self cm) (take k ms)) l /\
    member_count cm + Z.of_nat (length l) <= cap < 2 ^ 62.
Proof.
  intros Hpads. revert i pads Hpads cm.
  assert (forall cm, cap_ok cm -> Returns cm = Returns {| cm with cm_members := cm_members cm ++ [] |} /\
    member_count cm + Z.of_nat (@length NodeInfo []) <= member_capacity cm < 2 ^ 62) as Hstop.
  { intros cm Hc. rewrite app_nil_r. unfold cap_ok in Hc. split; [by destruct cm|cbn; lia]. }
  induction ms as [|m ms IH]; intros i pads Hpads cm Hfit Hcap Hc Hlen Hdrop; cbn [length import_members].
  { exists 0%nat, [], (member_capacity cm). destruct (Hstop cm Hcap). split; [by destruct cm|]. by split. }
  apply Forall_cons in Hfit as [Hm Hms]. cbn [imap concat] in Hdrop.
  pose proof (f_equal length Hdrop) as Hdl.
  rewrite length_drop, length_app, length_node_info_bytes in Hdl by (done || apply Hm).
  rewrite (proj2 (Nat.ltb_ge _ _)) by lia.
  destruct (import_member_alloc (al i) (junk i) now payload (JOIN_RESPONSE_SIZE + i * NODE_INFO_SIZE) cm)
    as [->| ->].
  2:{ exists 0%nat, [], (member_capacity cm). destruct (Hstop cm Hcap). split; [by destruct cm|]. by split. }
  destruct (import_one alloc_ok (junk i) now payload (pads 0%nat) _ _ m cm Hdrop)
    as (l1 & cap1 & -> & Hl1 & Hcap1); [done|done|done|done|cbn in Hc; lia|].
  assert (length l1 <= 1)%nat as Hl1len.
  { apply Forall2_length in Hl1. rewrite <- Hl1. rewrite filter_cons. case_decide; cbn; lia. }
  destruct (IH (S i) (pads ∘ S) (fun k => Hpads (S k))
     {| cm with cm_members := cm_members cm ++ l1; member_capacity := cap1 |})
    as (k & l2 & cap2 & -> & Hl2 & Hcap2).
  - done.
  - unfold cap_ok, member_count in *. cbn. rewrite length_app. lia.
  - unfold member_count in *. cbn in *. rewrite length_app. lia.
  - lia.
  - replace (JOIN_RESPONSE_SIZE + S i * NODE_INFO_SIZE)%nat
      with ((JOIN_RESPONSE_SIZE + i * NODE_INFO_SIZE) + NODE_INFO_SIZE)%nat by lia.
    rewrite <- drop_drop, Hdrop. apply drop_app_length'.
    symmetry. apply length_node_info_bytes; [apply Hm|done].
  - exists (S k), (l1 ++ l2), cap2. cbn [cm_members take]. rewrite <- app_assoc. split; [done|]. split.
    + change (m :: take k ms) with ([m] ++ take k ms). rewrite filter_app. by apply Forall2_app.
    + unfold member_count in *. cbn in Hcap2. rewrite !length_app in *. lia.
Qed.

(** [cluster_join] on the first [k] bytes of an answer: it fails and changes nothing,
    or imports the whole list. *)
Lemma join_stream (env : SessionEnv) (cj cm seed : ClusterManager) (k : nat) (mem : bool)
    (al : nat -> Alloc) (junk : nat -> Z * Z) (now : Z) (ip : list byte) (port : Z) :
  (forall k, length (env_pads env k) = 7%nat) -> Forall node_fits (cm_members seed) ->
  member_count seed < 2 ^ 32 ->
  let r := cluster_join (fun _ _ _ => Some (take k (join_answer env cj seed))) mem al junk now cm ip port in
  r = Returns (-1, cm) \/
  r = match import_response al junk now ip port (join_response_bytes (env_pads env) seed) cm with
      | Undefined => Undefined
      | Returns cm1 => Returns (0, {| cm1 with cluster_state := CLUSTER_STATE_ACTIVE |})
      end.
Proof.
  intros Hpads Hfit Hcnt r. unfold r, cluster_join, join_answer. clear r.
  set (payload := join_response_bytes (env_pads env) seed).
  set (h := join_resp_header (join_header cj) (length payload)).
  assert (length payload = JOIN_RESPONSE_SIZE + NODE_INFO_SIZE * length (cm_members seed))%nat as Hpl
    by by apply length_response.
  assert (header_fits h) as Hh.
  { apply resp_header_fits. rewrite Hpl. unfold member_count, JOIN_RESPONSE_SIZE, NODE_INFO_SIZE in *. lia. }
  pose proof (length_pack_rpc h Hh) as Hhl.
  rewrite length_take, length_app, Hhl.
  destruct (Nat.ltb_spec (k `min` (RPC_HEADER_SIZE + length payload)) RPC_HEADER_SIZE) as [|Hk]; [by left|].
  rewrite take_app, (take_ge (serializer_pack_rpc h)) by lia.
  rewrite unpack_pack_rpc by done. rewrite drop_app_length' by done. cbn [magic command_type h join_resp_header].
  rewrite !Z.eqb_refl. cbn [negb orb payload_len join_resp_header h].
  rewrite Z.gtb_ltb, (proj2 (Z.ltb_lt _ _)) by (rewrite Hpl; unfold JOIN_RESPONSE_SIZE; lia).
  destruct mem; cbn [negb]; [|by left]. rewrite length_take, Hhl.
  destruct (Z.ltb_spec (Z.of_nat ((k - RPC_HEADER_SIZE) `min` length payload)) (Z.of_nat (length payload)));
    [by left|right].
  by rewrite take_take, Nat2Z.id, (take_ge payload) by lia.
Qed.

(** ** One action *)

Section Fleet.
(** The nodes, and the node that listens at an address. *)
Context (fleet : gmap nat NodeArgs) (resolve : list byte -> Z -> option nat).

(** The cluster manager [main] starts with. *)
Definition node_init (c : NodeArgs) (now : Z) : ClusterManager :=
  (cluster_init (na_role c) (na_id c) (text "0.0.0.0") (na_port c) now).2.

Definition set_node (i : nat) (p : Process) (n : Net) : Net :=
  {| n with nt_nodes := <[i := p]> (nt_nodes n) |}.

Definition looping (n : Net) (i : nat) : option ClusterManager :=
  match nt_nodes n !! i with
  | Some p => if pr_running p then Some (pr_cluster p) else None
  | None => None
  end.

Definition starting (n : Net) (i : nat) : option ClusterManager :=
  match nt_nodes n !! i with
  | Some p => if pr_running p then None else Some (pr_cluster p)
  | None => None
  end.

(** What a joining node reads: nothing when the connection fails, otherwise the
    first [k] bytes of the answer at position [x]. *)
Definition stream_of (n : Net) (i s : nat) (answer : option (nat * nat)) : option (list byte) :=
  match answer with
  | None => None
  | Some (x, k) =>
      match nt_answers n !! x with
      | Some (i', s', b) => if decide (i' = i /\ s' = s) then Some (take k b) else None
      | None => None
      end
  end.

(** [handle_processing] on a request that has arrived in full. *)
Definition respond (env : SessionEnv) (h : RpcHeader) (p : list byte) (cm : ClusterManager)
  : list byte * ClusterManager :=
  let '(rc, s, cm') := handle_processing env (ready h p) cm in
  ((if rc =? 0 then response_buf s else []), cm').

Definition act (a : action) (n : Net) : option Net :=
  match a with
  | Start i now =>
      c ← fleet !! i;
      Some (set_node i {| pr_running := false; pr_cluster := node_init c now |} n)
  | Alone i =>
      cm ← starting n i;
      Some (set_node i {| pr_running := true; pr_cluster := cm |} n)
  | Join i s ip port answer mem al junk now =>
      cm ← starting n i;
      if decide (resolve (cstr ip) port = Some s /\ s <> i) then
        match cluster_join (fun _ _ _ => stream_of n i s answer) mem al junk now cm ip port with
        | Returns (_, cm') => Some (set_node i {| pr_running := true; pr_cluster := cm' |} n)
        | Undefined => None
        end
      else None
  | ServeJoin i joiner env =>
      cm ← looping n i;
      c ← fleet !! joiner;
      if decide (joiner <> i) then
        let cj := node_init c 0 in
        let (resp, cm') := respond env (join_header cj) (join_request_bytes (join_request cj)) cm in
        Some {| (set_node i {| pr_running := true; pr_cluster := cm' |} n) with
                nt_answers := nt_answers n ++ [(joiner, i, resp)] |}
      else None
  | Serve i env h p =>
      cm ← looping n i;
      if command_type h =? RPC_CMD_JOIN_REQ then None
      else Some (set_node i {| pr_running := true; pr_cluster := (respond env h p cm).2 |} n)
  | Gossip i now d =>
      cm ← looping n i;
      Some (set_node i {| pr_running := true; pr_cluster := on_gossip_receive now cm d |} n)
  | Beat i now rnd =>
      cm ← looping n i;
      Some {| n with nt_sent := nt_sent n ++ ((fun x => (i, x)) <$> on_heartbeat_timer now rnd cm) |}
  | Reaper i now =>
      cm ← looping n i;
      Some (set_node i {| pr_running := true; pr_cluster := cluster_reaper_tick now cm |} n)
  | Depart i =>
      cm ← looping n i;
      Some {| n with nt_nodes := delete i (nt_nodes n) |}
  end.

Fixpoint acts (l : list action) (n : Net) : option Net :=
  match l with
  | [] => Some n
  | a :: l' => n' ← act a n; acts l' n'
  end.

Definition net_init : Net := {| nt_nodes := ∅; nt_answers := []; nt_sent := [] |}.

(** ** Truthful member lists *)

(** Documented behaviour of the network: a connection to a port reaches a node
    that listens on this port, and the text of an IPv4 address has at most 15
    characters.  Names are distinct in the 36 characters that are kept. *)
Record fleet_ok : Prop := {
  fo_names : forall i j c d, fleet !! i = Some c -> fleet !! j = Some d ->
    take 36 (cstr (na_id c)) = take 36 (cstr (na_id d)) -> i = j;
  fo_ports : forall i c, fleet !! i = Some c -> is_u16 (na_port c) /\ is_u16 (na_role c);
  fo_size : Z.of_nat (size fleet) < 2 ^ 32;
  fo_resolve : forall ip port i, resolve ip port = Some i ->
    (exists c, fleet !! i = Some c /\ na_port c = port) /\ (length ip <= 15)%nat;
}.

(** The entry [m] in a list of node [i] describes another node of the fleet: its
    name, its ports, and its role unless that is unknown.  The address is the one
    all nodes announce, or one at which the node was reached as a seed. *)
Definition describes (m : NodeInfo) (j : nat) (c : NodeArgs) : Prop :=
  cstr (ni_node_id m) = take 36 (cstr (na_id c)) /\
  tcp_port m = na_port c /\ udp_port m = na_port c /\
  (role m = na_role c \/ role m = ROLE_UNKNOWN) /\
  (cstr (ni_ip_address m) = text "0.0.0.0" \/ resolve (cstr (ni_ip_address m)) (na_port c) = Some j).

Definition real (i : nat) (m : NodeInfo) : Prop :=
  exists j c, fleet !! j = Some c /\ j <> i /\ describes m j c.

Record truthful (i : nat) (cm : ClusterManager) : Prop := {
  tr_wf : cluster_wf cm;
  tr_self : exists c now, fleet !! i = Some c /\ self cm = self (node_init c now);
  tr_fits : Forall node_fits (cm_members cm);
  tr_real : Forall (real i) (cm_members cm);
}.

(** An answer that node [s] wrote for [i]: nothing, or a member list of [s]. *)
Definition answer_ok (x : nat * nat * list byte) : Prop :=
  let '(i, s, b) := x in
  s <> i /\ (b = [] \/ exists c env seed, fleet !! i = Some c /\ truthful s seed /\
    (forall k, length (env_pads env k) = 7%nat) /\ b = join_answer env (node_init c 0) seed).

Record net_inv (n : Net) : Prop := {
  ni_nodes : forall i p, nt_nodes n !! i = Some p -> truthful i (pr_cluster p) /\
    (pr_running p = false -> exists c now, fleet !! i = Some c /\ pr_cluster p = node_init c now);
  ni_answers : Forall answer_ok (nt_answers n);
  ni_sent : Forall (fun x => real x.1 x.2.1 /\
    exists c, fleet !! x.1 = Some c /\ hears (ni_node_id (self (node_init c 0))) x.2.2 = true) (nt_sent n);
}.

(** ** Entries that keep their address *)

(** What identifies and locates a member. *)
Definition addr (m : NodeInfo) : list byte * list byte * Z * Z * Z :=
  (ni_node_id m, ni_ip_address m, tcp_port m, udp_port m, role m).

Definition addrs (cm : ClusterManager) : list (list byte * list byte * Z * Z * Z) :=
  map addr (cm_members cm).

Lemma addrs_lookup (cm cm' : ClusterManager) (k : nat) (m' : NodeInfo) :
  addrs cm' = addrs cm -> cm_members cm' !! k = Some m' ->
  exists m, cm_members cm !! k = Some m /\ addr m' = addr m.
Proof.
  intros Ha Hk. apply (f_equal (fun l => l !! k)) in Ha. unfold addrs in Ha.
  rewrite !list_lookup_fmap, Hk in Ha. destruct (cm_members cm !! k) as [m|]; [|done].
  exists m. split; [done|]. cbn in Ha. congruence.
Qed.

Lemma addrs_forall (P : NodeInfo -> Prop) (cm cm' : ClusterManager) :
  (forall m m', addr m' = addr m -> P m -> P m') -> addrs cm' = addrs cm ->
  Forall P (cm_members cm) -> Forall P (cm_members cm').
Proof.
  intros HP Ha. rewrite !Forall_lookup. intros HF k m' Hk.
  destruct (addrs_lookup cm cm' k m' Ha Hk) as (m & Hm & Heq). eauto.
Qed.

Lemma addrs_ids (cm cm' : ClusterManager) : addrs cm' = addrs cm -> cm_ids cm' = cm_ids cm.
Proof.
  intros Ha. unfold cm_ids.
  assert (forall l, map (fun m => cstr (ni_node_id m)) l
    = map (fun a : list byte * list byte * Z * Z * Z => cstr a.1.1.1.1) (map addr l)) as Hl
    by (intros l; by rewrite map_map).
  rewrite !Hl. unfold addrs in Ha. by rewrite Ha.
Qed.

Definition statuses_fit (cm : ClusterManager) : Prop :=
  Forall (fun m => is_u16 (status m)) (cm_members cm).

(** A change of statuses, loads and time stamps keeps a list truthful. *)
Lemma same_addrs_truthful (i : nat) (cm cm' : ClusterManager) :
  truthful i cm -> self cm' = self cm -> member_capacity cm' = member_capacity cm ->
  addrs cm' = addrs cm -> statuses_fit cm' -> truthful i cm'.
Proof.
  intros [[Hids Hinf Hs Hcap] Hself Hfit Hreal] Hs' Hc' Ha Hst.
  assert (length (cm_members cm') = length (cm_members cm)) as Hl.
  { rewrite <- (length_map addr (cm_members cm')), <- (length_map addr (cm_members cm)).
    unfold addrs in Ha. by rewrite Ha. }
  split; [split| | |].
  - by rewrite (addrs_ids cm cm').
  - revert Ha Hinf. apply addrs_forall. unfold info_ok, addr. intros m m' [= -> -> _ _ _]. done.
  - by rewrite Hs'.
  - unfold member_count in *. by rewrite Hl, Hc'.
  - by rewrite Hs'.
  - unfold statuses_fit in Hst. rewrite Forall_lookup in *. intros k m' Hk.
    destruct (addrs_lookup cm cm' k m' Ha Hk) as (m & Hm & Heq). specialize (Hst k m' Hk).
    destruct (Hfit k m Hm) as [[H1 H2] H3 H4 H5 _]. unfold addr in Heq.
    injection Heq as E1 E2 E3 E4 E5. constructor; [split|..]; congruence.
  - revert Ha Hreal. apply addrs_forall. unfold real, describes, addr.
    intros m m' [= -> -> -> -> ->]. done.
Qed.

Lemma truthful_statuses (i : nat) (cm : ClusterManager) : truthful i cm -> statuses_fit cm.
Proof. intros [_ _ Hf _]. eapply Forall_impl; [exact Hf|]. by intros m []. Qed.

Lemma update_addrs (now st : Z) (cm : ClusterManager) (id : list byte) :
  addrs (cluster_update_member_status now cm id st).2 = addrs cm.
Proof.
  unfold cluster_update_member_status, addrs.
  destruct (find_member cm id) as [[k m]|] eqn:E; [|done]. apply find_member_Some in E as [Hk _]. cbn.
  rewrite list_fmap_insert. apply list_insert_id. by rewrite list_lookup_fmap, Hk.
Qed.

Lemma gossip_addrs (now : Z) (cm : ClusterManager) (d : list byte) :
  addrs (on_gossip_receive now cm d) = addrs cm.
Proof.
  unfold on_gossip_receive. destruct (_ <? _)%nat; [done|]. destruct (negb _); [done|]. apply update_addrs.
Qed.

Lemma reaper_addrs (now : Z) (cm : ClusterManager) : addrs (cluster_reaper_tick now cm) = addrs cm.
Proof. unfold addrs. cbn. rewrite map_map. apply map_ext. intros m. unfold reap. by destruct_ifs. Qed.

Lemma respond_addrs (env : SessionEnv) (h : RpcHeader) (p : list byte) (cm : ClusterManager) :
  command_type h <> RPC_CMD_JOIN_REQ -> addrs (respond env h p cm).2 = addrs cm.
Proof.
  intros Hne. unfold respond, handle_processing. cbn [ss_header ready].
  rewrite (proj2 (Z.eqb_neq _ _)) by done.
  destruct (_ =? RPC_CMD_LEAVE); [apply update_addrs|].
  destruct (_ =? RPC_CMD_SYNC_RULES); [|done]. by destruct (_ <? _)%nat.
Qed.

Lemma update_truthful (i : nat) (now st : Z) (cm : ClusterManager) (id : list byte) :
  truthful i cm -> is_u16 st -> truthful i (cluster_update_member_status now cm id st).2.
Proof.
  intros Ht Hst. pose proof (update_addrs now st cm id) as Ha. revert Ha.
  unfold cluster_update_member_status. destruct (find_member cm id) as [[k m]|]; [|done]. intros Ha.
  apply (same_addrs_truthful i cm); try done.
  apply Forall_insert; [by eapply truthful_statuses|done].
Qed.

Lemma gossip_truthful (i : nat) (now : Z) (cm : ClusterManager) (d : list byte) :
  truthful i cm -> truthful i (on_gossip_receive now cm d).
Proof.
  intros Ht. unfold on_gossip_receive. destruct (_ <? _)%nat; [done|]. destruct (negb _); [done|].
  by apply update_truthful.
Qed.

Lemma reaper_truthful (i : nat) (now : Z) (cm : ClusterManager) :
  truthful i cm -> truthful i (cluster_reaper_tick now cm).
Proof.
  intros Ht. apply (same_addrs_truthful i cm); try done; [apply reaper_addrs|].
  unfold statuses_fit. cbn. apply Forall_map. eapply Forall_impl; [by eapply truthful_statuses|].
  intros m Hm. unfold reap. cbn. by destruct_ifs.
Qed.

(** ** Entries that are added *)

Context (Hfleet : fleet_ok).

Lemma truthful_count (i : nat) (cm : ClusterManager) :
  truthful i cm -> member_count cm <= Z.of_nat (size fleet).
Proof.
  intros [[Hids _ _ _] _ _ Hreal].
  set (names := (fun x : nat * NodeArgs => take 36 (cstr (na_id x.2))) <$> map_to_list fleet).
  assert (cm_ids cm ⊆ names) as Hsub.
  { intros x (m & -> & Hm)%list_elem_of_fmap. rewrite Forall_forall in Hreal.
    destruct (Hreal m Hm) as (j & c & Hj & _ & Hid & _). rewrite Hid. apply list_elem_of_fmap.
    exists (j, c). split; [done|]. by apply elem_of_map_to_list. }
  pose proof (submseteq_length _ _ (NoDup_submseteq _ _ Hids Hsub)) as Hl.
  unfold names in Hl. rewrite length_fmap, length_map_to_list in Hl. unfold cm_ids in Hl.
  rewrite length_fmap in Hl. unfold member_count. lia.
Qed.

(** Making room succeeds, or changes nothing and leaves the array full. *)
Lemma ensure_cases (al : Alloc) (cm : ClusterManager) :
  cap_ok cm -> member_count cm < 2 ^ 60 ->
  (exists cap, ensure_capacity al cm = {| cm with member_capacity := cap |} /\
     member_count cm < cap < 2 ^ 62) \/
  (ensure_capacity al cm = cm /\ member_capacity cm <= member_count cm).
Proof.
  intros Hcap Hc. destruct (realloc_ok al) eqn:E; [left; by apply ensure_capacity_room|].
  unfold ensure_capacity, cap_ok in *. rewrite E.
  destruct (Z.ltb_spec (member_count cm) (member_capacity cm)); [left|right; done].
  exists (member_capacity cm). split; [by destruct cm|lia].
Qed.

(** Appending a truthful entry for a node that is not in the list. *)
Lemma append_truthful (i : nat) (cm : ClusterManager) (m : NodeInfo) (cap : Z) :
  truthful i cm -> node_fits m -> real i m -> cstr (ni_node_id m) ∉ cm_ids cm ->
  member_count cm < cap < 2 ^ 62 ->
  truthful i {| cm with cm_members := cm_members cm ++ [m]; member_capacity := cap |}.
Proof.
  intros [Hwf Hs Hf Hr] Hm Hre Hn Hc. split; [|done|..]; cbn.
  - apply wf_append_member; try done. apply Hm.
  - by apply Forall_app_2; [|apply Forall_singleton].
  - by apply Forall_app_2; [|apply Forall_singleton].
Qed.

Lemma capacity_truthful (i : nat) (cm : ClusterManager) (cap : Z) :
  truthful i cm -> member_count cm <= cap < 2 ^ 62 ->
  truthful i {| cm with member_capacity := cap |}.
Proof. intros [[H1 H2 H3 H4] Hs Hf Hr] Hc. by split; [split|..]. Qed.

Lemma init_self (c : NodeArgs) (now : Z) (j : nat) :
  fleet !! j = Some c ->
  cstr (ni_node_id (self (node_init c now))) = take 36 (cstr (na_id c)) /\
  cstr (ni_ip_address (self (node_init c now))) = text "0.0.0.0" /\ node_fits (self (node_init c now)).
Proof.
  intros Hj. destruct (fo_ports Hfleet j c Hj) as [Hp Hr].
  split; [apply (cstr_strncpy 37); [lia|auto with droole]|]. split; [reflexivity|].
  constructor; cbn; try done. split; cbn; auto with droole.
Qed.

(** The names of two nodes of the fleet differ. *)
Lemma other_name (i j : nat) (c d : NodeArgs) :
  fleet !! i = Some c -> fleet !! j = Some d -> j <> i ->
  take 36 (cstr (na_id d)) <> take 36 (cstr (na_id c)).
Proof. intros Hi Hj Hne He. by apply Hne, (fo_names Hfleet j i d c). Qed.

(** A request of [joiner], handled at another node. *)
Lemma join_req_truthful (i j : nat) (c : NodeArgs) (al : Alloc) (pads : nat -> list byte)
    (wall : Z) (cm : ClusterManager) :
  truthful i cm -> fleet !! j = Some c -> j <> i ->
  truthful i (cluster_handle_join_req al pads wall cm (join_request (node_init c 0))).2.
Proof.
  intros Ht Hj Hne. pose proof (truthful_count i cm Ht) as Hcnt.
  pose proof (fo_size Hfleet) as Hsz. pose proof Ht as [Hwf _ Hf Hr].
  destruct (init_self c 0 j Hj) as (Hid & Hip & [[Hi1 Hi2] Hfp _ Hfr _]).
  set (req := join_request (node_init c 0)).
  assert (cstr (jr_node_id req) = take 36 (cstr (na_id c))) as Hrid.
  { rewrite <- Hid. apply cstr_strncpy37; auto with droole. }
  assert (forall a, char_array 46 a -> cstr (strncpy a (jr_ip_address req) 45) = text "0.0.0.0") as Hrip.
  { intros a Ha. rewrite (cstr_strncpy 46) by (done || lia). reflexivity. }
  assert (is_u16 NODE_STATUS_ALIVE) as Hst by (vm_compute; split; [discriminate|reflexivity]).
  unfold cluster_handle_join_req.
  destruct (find_member cm (jr_node_id req)) as [[k m]|] eqn:E.
  - apply find_member_Some in E as [Hk Hmid].
    set (m' := {| m with ni_ip_address := _; tcp_port := _; udp_port := _; role := _;
                         status := _; last_updated_ts := _ |}).
    pose proof (Forall_lookup_1 _ _ _ _ Hf Hk) as [[Hm1 Hm2] _ _ _ _].
    assert (info_ok m') as Hok by (split; cbn; auto with droole).
    assert (truthful i {| cm with cm_members := <[k := m']> (cm_members cm) |}) as Ht'.
    { destruct Ht as [_ Hs _ _]. split; [by eapply wf_update_member|done|..]; cbn; apply Forall_insert; try done.
      exists j, c. split; [done|]. split; [done|]. split; [cbn; congruence|].
      split; [done|]. split; [done|]. split; [by left|]. left. by apply Hrip. }
    by destruct (malloc_ok al).
  - apply find_member_None in E.
    destruct (ensure_cases al cm (cw_cap _ Hwf)) as [(cap & -> & Hc)|[-> Hfull]]; [lia|..].
    + unfold member_count in *. cbn [cm_members member_capacity].
      rewrite Z.geb_leb, (proj2 (Z.leb_gt _ _)) by lia.
      match goal with |- context [cm_members cm ++ [?x]] => set (m' := x) end.
      assert (cstr (ni_node_id m') = take 36 (cstr (na_id c))) as Hid'.
      { rewrite <- Hrid. apply cstr_strncpy37; [auto with droole|]. rewrite Hrid, length_take. lia. }
      assert (truthful i {| cm with cm_members := cm_members cm ++ [m']; member_capacity := cap |}) as Ht'.
      { apply append_truthful; [done|..].
        - constructor; cbn; try done. split; cbn; auto with droole.
        - exists j, c. split; [done|]. split; [done|]. split; [done|]. split; [done|]. split; [done|].
          split; [by left|]. left. apply Hrip. auto with droole.
        - rewrite Hid', <- Hrid. exact E.
        - done. }
      by destruct (malloc_ok al).
    + rewrite (proj2 (Z.geb_le _ _)) by lia. done.
Qed.

(** Entries learned from a truthful list of [s] are truthful at [i]. *)
Lemma learned_truthful (i s : nat) (c : NodeArgs) (t0 now : Z) (seed : ClusterManager) (k : nat)
    (l : list NodeInfo) (cap : Z) :
  fleet !! i = Some c -> truthful s seed ->
  Forall2 (learned now) (filter (not_self (node_init c t0)) (take k (cm_members seed))) l ->
  Z.of_nat (length l) <= cap < 2 ^ 62 ->
  truthful i {| (node_init c t0) with cm_members := l; member_capacity := cap |}.
Proof.
  intros Hi [[Hids Hinf _ _] _ Hfit Hreal] Hl Hcap.
  set (src := filter (not_self (node_init c t0)) (take k (cm_members seed))) in *.
  assert (src `sublist_of` cm_members seed) as Hsub.
  { unfold src. etrans; [apply sublist_filter|apply sublist_take]. }
  destruct (init_self c t0 i Hi) as (Hid & _ & [Hok _ _ _ _]).
  assert (forall (P : NodeInfo -> Prop), (forall m m', learned now m m' -> m ∈ src -> P m') ->
    Forall P l) as Hall.
  { intros P HP. apply Forall_forall. intros m' Hm'.
    apply list_elem_of_lookup in Hm' as [x Hx]. eapply Forall2_lookup_r in Hl as (m & Hm & Hlm); [|exact Hx].
    eapply HP; [exact Hlm|]. by eapply list_elem_of_lookup_2. }
  assert (forall m, m ∈ src -> m ∈ cm_members seed) as Hin.
  { intros m Hm. by eapply elem_of_sublist. }
  split; [split| | |]; cbn.
  - assert (map (fun m => cstr (ni_node_id m)) l = map (fun m => cstr (ni_node_id m)) src) as Heq.
    { clear -Hl. induction Hl as [|m m' a b Hm _ IH]; [done|]. cbn. rewrite IH. f_equal.
      by rewrite Hm. }
    unfold cm_ids in *. cbn. rewrite Heq. eapply sublist_NoDup; [exact Hids|]. by apply (fmap_sublist (fun m => cstr (ni_node_id m))).

  - apply Hall. intros m m' Hm Hs. rewrite Forall_forall in Hinf. rewrite Hm. apply (Hinf m (Hin m Hs)).
  - done.
  - unfold member_count. cbn. lia.
  - by exists c, t0.
  - apply Hall. intros m m' Hm Hs. rewrite Forall_forall in Hfit.
    destruct (Hfit m (Hin m Hs)) as [H1 H2 H3 H4 H5]. rewrite Hm. by constructor.
  - apply Hall. intros m m' Hm Hs. rewrite Forall_forall in Hreal.
    destruct (Hreal m (Hin m Hs)) as (j & d & Hj & _ & Hd). exists j, d. split; [done|]. split.
    + intros ->. apply list_elem_of_filter in Hs as [Hns _]. apply Hns. rewrite Hid.
      destruct Hd as [Hd _]. rewrite Hd. congruence.
    + rewrite Hm. exact Hd.
Qed.

Lemma state_truthful (i : nat) (cm : ClusterManager) (st : ClusterState) :
  truthful i cm -> truthful i {| cm with cluster_state := st |}.
Proof. intros [[H1 H2 H3 H4] Hs Hf Hr]. by split; [split|..]. Qed.

Lemma init_truthful (i : nat) (c : NodeArgs) (now : Z) :
  fleet !! i = Some c -> truthful i (node_init c now).
Proof.
  intros Hi. destruct (init_self c now i Hi) as (_ & _ & [Hok _ _ _ _]).
  split; [split| | |]; cbn; [apply NoDup_nil_2|done..|by exists c, now|done|done].
Qed.

(** The entry for the seed itself. *)
Lemma add_seed_truthful (i s : nat) (d : NodeArgs) (al : Alloc) (now : Z) (ip : list byte) (port : Z)
    (cm : ClusterManager) (id : list byte) :
  truthful i cm -> fleet !! s = Some d -> s <> i -> cstr id = take 36 (cstr (na_id d)) ->
  resolve (cstr ip) port = Some s -> truthful i (add_seed al now id ip port cm).
Proof.
  intros Ht Hs Hne Hid Hres. destruct (add_seed_alloc al now id ip port cm) as [->| ->]; [|done].
  unfold add_seed. destruct (find_member cm id) as [[k m]|] eqn:E; [done|].
  apply find_member_None in E. pose proof (truthful_count i cm Ht). pose proof (fo_size Hfleet).
  destruct (ensure_capacity_room alloc_ok cm (cw_cap _ (tr_wf _ _ Ht))) as (cap & -> & Hcap); [done|lia|].
  unfold member_count in *. cbn [cm_members member_capacity]. rewrite (proj2 (Z.ltb_lt _ _)) by lia.
  destruct (fo_resolve Hfleet _ _ _ Hres) as [(d' & Hd' & Hp) Hlen].
  rewrite Hs in Hd'. injection Hd' as <-. destruct (fo_ports Hfleet s d Hs) as [Hu _].
  assert (cstr (strncpy (zeros 37) id 36) = take 36 (cstr (na_id d))) as Hid'.
  { rewrite <- Hid. apply cstr_strncpy37; [auto with droole|]. rewrite Hid, length_take. lia. }
  eapply (append_truthful i cm); [done|..|done].
  - constructor; cbn; subst; try done. split; cbn; auto with droole.
  - exists s, d. split; [done|]. split; [done|]. split; [done|]. cbn. subst. split; [done|].
    split; [done|]. split; [by right|]. right. rewrite (cstr_strncpy 46) by (auto with droole || lia).
    rewrite take_ge by (cbn; lia). done.
  - cbn. rewrite Hid', <- Hid. done.
Qed.

(** The import of a member list of [s] by the node [i] that starts. *)
Lemma import_truthful (i s : nat) (c : NodeArgs) (t0 now : Z) (seed : ClusterManager)
    (al : nat -> Alloc) (junk : nat -> Z * Z) (pads : nat -> list byte) (ip : list byte) (port : Z) :
  fleet !! i = Some c -> truthful s seed -> s <> i -> resolve (cstr ip) port = Some s ->
  (forall k, length (pads k) = 7%nat) ->
  exists cm1, import_response al junk now ip port (join_response_bytes pads seed) (node_init c t0)
    = Returns cm1 /\ truthful i cm1.
Proof.
  intros Hi Hs Hne Hres Hpads. pose proof (truthful_count s seed Hs) as Hcnt.
  pose proof (fo_size Hfleet) as Hsz. pose proof Hs as [Hwf (d & t & Hd & Hself) Hfit _].
  destruct (join_response_fields pads seed (cw_self _ Hwf)) as (Hn & Hsid & Hbody & Hlen); [lia|].
  unfold import_response. rewrite (proj2 (Nat.ltb_ge _ _)) by exact Hlen. rewrite Hn, Hsid.
  unfold member_count at 1. rewrite Nat2Z.id.
  destruct (import_any al junk now (join_response_bytes pads seed) pads (cm_members seed) 0 (node_init c t0))
    as (k & l & cap & -> & Hl & Hlc); try done; [unfold member_count in *; cbn; lia|].
  eexists. split; [done|]. apply (add_seed_truthful i s d); try done.
  - by apply (learned_truthful i s c t0 now seed k l cap).
  - rewrite cstr_cstr, Hself. by apply (init_self d t s).
Qed.

(** [cluster_join] returns, with a truthful list, on whatever part of an answer
    the connection delivers. *)
Lemma join_truthful (i s : nat) (c : NodeArgs) (t0 now : Z) (b : list byte) (stream : option (list byte))
    (mem : bool) (al : nat -> Alloc) (junk : nat -> Z * Z) (ip : list byte) (port : Z) :
  fleet !! i = Some c -> resolve (cstr ip) port = Some s -> answer_ok (i, s, b) ->
  (stream = None \/ exists k, stream = Some (take k b)) ->
  exists rc cm', cluster_join (fun _ _ _ => stream) mem al junk now (node_init c t0) ip port
    = Returns (rc, cm') /\ truthful i cm'.
Proof.
  intros Hi Hres [Hne Hb] Hst. pose proof (init_truthful i c t0 Hi) as Ht0.
  destruct Hst as [->|(k & ->)]; [by eexists _, _|].
  destruct Hb as [->|(c' & env & seed & Hc' & Hseed & Hpads & ->)].
  { rewrite take_nil. by eexists _, _. }
  pose proof (truthful_count s seed Hseed) as Hcnt. pose proof (fo_size Hfleet) as Hsz.
  destruct (join_stream env (node_init c' 0) (node_init c t0) seed k mem al junk now ip port) as [-> | ->];
    [done|apply Hseed|lia|by eexists _, _|].
  destruct (import_truthful i s c t0 now seed al junk (env_pads env) ip port)
    as (cm1 & -> & Ht); [done..|]. eexists _, _. split; [done|]. by apply state_truthful.
Qed.

(** ** Serving *)

Lemma join_req_shape (al : Alloc) (pads : nat -> list byte) (wall : Z) (cm : ClusterManager)
    (req : JoinRequestPayload) :
  let '(rc, resp, cm') := cluster_handle_join_req al pads wall cm req in
  resp = None \/ (rc = 0 /\ resp = Some (join_response_bytes pads cm')).
Proof. unfold cluster_handle_join_req. destruct_ifs; auto. Qed.

(** The padding of a [NodeInfo] has seven bytes. *)
Definition action_ok (a : action) : Prop :=
  match a with
  | ServeJoin _ _ env => forall k, length (env_pads env k) = 7%nat
  | _ => True
  end.

Lemma respond_join (i j : nat) (c : NodeArgs) (env : SessionEnv) (cm : ClusterManager) :
  truthful i cm -> fleet !! j = Some c -> j <> i -> (forall k, length (env_pads env k) = 7%nat) ->
  let cj := node_init c 0 in
  let (resp, cm') := respond env (join_header cj) (join_request_bytes (join_request cj)) cm in
  truthful i cm' /\ answer_ok (j, i, resp).
Proof.
  intros Ht Hj Hne Hpads cj. destruct (init_self c 0 j Hj) as (_ & _ & Hfit).
  assert (joiner_ok cj) as Hcj by by constructor.
  unfold respond, handle_processing.
  cbn [ss_header ready command_type join_header payload_total payload_buf].
  rewrite Z.eqb_refl, length_request, Nat.eqb_refl, request_read by done. cbn [negb].
  pose proof (join_req_truthful i j c (join_alloc env) (env_pads env) (env_wall env) cm Ht Hj Hne) as Ht'.
  pose proof (join_req_shape (join_alloc env) (env_pads env) (env_wall env) cm (join_request cj)) as Hsh.
  fold cj in Ht'. destruct (cluster_handle_join_req _ _ _ _ _) as [[rc resp] cm']. cbn in Ht'.
  assert (truthful i cm' /\ answer_ok (j, i, [])) as Hfail by (split; [done|]; split; [congruence|by left]).
  destruct Hsh as [->|[-> ->]]; [by destruct rc|].
  destruct (response_alloc env); cbn [negb]; [|done]. destruct (mod_fd_ok env); cbn [negb]; [|done].
  split; [done|]. split; [congruence|]. right. by exists c, env, cm'.
Qed.

Lemma respond_other (i : nat) (env : SessionEnv) (h : RpcHeader) (p : list byte) (cm : ClusterManager) :
  truthful i cm -> command_type h <> RPC_CMD_JOIN_REQ -> truthful i (respond env h p cm).2.
Proof.
  intros Ht Hne. unfold respond, handle_processing. cbn [ss_header ready].
  rewrite (proj2 (Z.eqb_neq _ _)) by done.
  destruct (_ =? RPC_CMD_LEAVE); [by apply update_truthful|].
  destruct (_ =? RPC_CMD_SYNC_RULES); [|done]. by destruct (_ <? _)%nat.
Qed.

(** ** The invariant *)

Lemma looping_inv (n : Net) (i : nat) (cm : ClusterManager) :
  net_inv n -> looping n i = Some cm -> truthful i cm.
Proof.
  intros [Hn _ _] Hr. unfold looping in Hr. destruct (nt_nodes n !! i) as [p|] eqn:E; [|done].
  destruct (pr_running p); [|done]. injection Hr as <-. by apply Hn.
Qed.

Lemma starting_inv (n : Net) (i : nat) (cm : ClusterManager) :
  net_inv n -> starting n i = Some cm -> exists c now, fleet !! i = Some c /\ cm = node_init c now.
Proof.
  intros [Hn _ _] Hr. unfold starting in Hr. destruct (nt_nodes n !! i) as [p|] eqn:E; [|done].
  destruct (Hn i p E) as [_ Hst]. destruct (pr_running p); [done|]. injection Hr as <-. by apply Hst.
Qed.

Lemma set_running_inv (n : Net) (i : nat) (cm : ClusterManager) :
  net_inv n -> truthful i cm -> net_inv (set_node i {| pr_running := true; pr_cluster := cm |} n).
Proof.
  intros [Hn Ha Hs] Ht. split; [|done|done]. cbn.
  intros j p [[<- <-]|[_ Hj]]%lookup_insert_Some; [done|by apply Hn].
Qed.

Lemma stream_cases (n : Net) (i s : nat) (answer : option (nat * nat)) :
  net_inv n -> s <> i ->
  exists b, answer_ok (i, s, b) /\
    (stream_of n i s answer = None \/ exists k, stream_of n i s answer = Some (take k b)).
Proof.
  intros [_ Ha _] Hne.
  assert (exists b, answer_ok (i, s, b) /\ (@None (list byte) = None \/ exists k, None = Some (take k b)))
    as Hno by (exists []; split; [by split; [|left]|by left]).
  unfold stream_of. destruct answer as [[x k]|]; [|done].
  destruct (nt_answers n !! x) as [[[i' s'] b]|] eqn:E; [|done].
  case_decide as Hc; [|done]. destruct Hc as [-> ->]. exists b. split; [|right; by exists k].
  by apply (Forall_lookup_1 _ _ _ _ Ha E).
Qed.

(** A join never reads past its answer, and leaves a truthful list. *)
Lemma join_act (n : Net) (i s : nat) (ip : list byte) (port : Z) (answer : option (nat * nat)) (mem : bool)
    (al : nat -> Alloc) (junk : nat -> Z * Z) (now : Z) (cm : ClusterManager) :
  net_inv n -> starting n i = Some cm -> resolve (cstr ip) port = Some s -> s <> i ->
  exists rc cm', cluster_join (fun _ _ _ => stream_of n i s answer) mem al junk now cm ip port
    = Returns (rc, cm') /\ truthful i cm'.
Proof.
  intros Hn (c & t0 & Hi & ->)%starting_inv Hres Hne; [|done].
  destruct (stream_cases n i s answer Hn Hne) as (b & Hb & Hst).
  by apply (join_truthful i s c t0 now b).
Qed.

Lemma gossip_targets_members (id : list byte) (k : nat) (ms : list NodeInfo) (m : NodeInfo) :
  m ∈ gossip_targets id k ms -> m ∈ ms.
Proof.
  revert k. induction ms as [|y ms IH]; intros k; cbn [gossip_targets]; [done|].
  destruct (3 <=? k)%nat; [set_solver|]. destruct (streq _ _); [intros; right; eauto|].
  destruct (_ =? _); [intros; right; eauto|]. intros [->|Hm]%elem_of_cons; [left|right; eauto].
Qed.

Lemma beat_members (now rnd : Z) (cm : ClusterManager) (m : NodeInfo) (d : list byte) :
  (m, d) ∈ on_heartbeat_timer now rnd cm -> m ∈ cm_members cm.
Proof.
  unfold on_heartbeat_timer. intros (m' & Heq & Hm)%list_elem_of_fmap. simplify_eq.
  destruct (_ >? 0); [|by apply not_elem_of_nil in Hm]. apply gossip_targets_members in Hm.
  rewrite <- (take_drop (Z.to_nat (rnd mod member_count cm)) (cm_members cm)). set_solver.
Qed.

Lemma beat_inv (n : Net) (i : nat) (now rnd : Z) (cm : ClusterManager) :
  net_inv n -> truthful i cm ->
  net_inv {| n with nt_sent := nt_sent n ++ ((fun x => (i, x)) <$> on_heartbeat_timer now rnd cm) |}.
Proof.
  intros [Hn Ha Hs] [Hwf (c & t & Hc & Hself) _ Hreal]. split; [done|done|]. cbn.
  apply Forall_app. split; [done|]. apply Forall_fmap, Forall_forall. intros [m d] Hm. cbn.
  split; [rewrite Forall_forall in Hreal; by eapply Hreal, beat_members|].
  exists c. split; [done|]. rewrite (heartbeat_heard now rnd cm m d), Hself by done. by apply streq_true.
Qed.

Lemma act_inv (a : action) (n n' : Net) :
  net_inv n -> action_ok a -> act a n = Some n' -> net_inv n'.
Proof.
  intros Hn Ha Hact. destruct a as [i now|i|i s ip port answer mem al junk now|i j env|i env h p|i now d
    |i now rnd|i now|i]; cbn in Hact.
  - destruct (fleet !! i) as [c|] eqn:Ec; [|done]. injection Hact as <-. destruct Hn as [Hn Han Hs].
    split; [|done|done]. cbn. intros j p [[<- <-]|[_ Hj]]%lookup_insert_Some; [|by apply Hn].
    split; [by apply init_truthful|]. intros _. by exists c, now.
  - destruct (starting n i) as [cm|] eqn:E; [|done]. injection Hact as <-.
    apply starting_inv in E as (c & t & Hc & ->); [|done]. by apply set_running_inv, init_truthful.
  - destruct (starting n i) as [cm|] eqn:E; [|done]. cbn in Hact. case_decide as Hc; [|done].
    destruct (join_act n i s ip port answer mem al junk now cm Hn E) as (rc & cm' & Hj & Ht); [by apply Hc..|].
    rewrite Hj in Hact. injection Hact as <-. by apply set_running_inv.
  - destruct (looping n i) as [cm|] eqn:E; [|done]. apply looping_inv in E; [|done]. cbn in Hact.
    destruct (fleet !! j) as [c|] eqn:Ec; [|done]. cbn in Hact. case_decide as Hne; [|done].
    pose proof (respond_join i j c env cm E Ec Hne Ha) as Hr. cbn zeta in Hr.
    destruct (respond _ _ _ _) as [resp cm']. destruct Hr as [Ht Hb]. injection Hact as <-.
    destruct (set_running_inv n i cm' Hn Ht) as [H1 H2 H3]. split; [done| |done]. cbn.
    apply Forall_app. split; [done|by apply Forall_singleton].
  - destruct (looping n i) as [cm|] eqn:E; [|done]. apply looping_inv in E; [|done]. cbn in Hact.
    destruct (Z.eqb_spec (command_type h) RPC_CMD_JOIN_REQ); [done|]. injection Hact as <-.
    by apply set_running_inv, respond_other.
  - destruct (looping n i) as [cm|] eqn:E; [|done]. apply looping_inv in E; [|done]. injection Hact as <-.
    by apply set_running_inv, gossip_truthful.
  - destruct (looping n i) as [cm|] eqn:E; [|done]. apply looping_inv in E; [|done]. injection Hact as <-.
    by apply beat_inv.
  - destruct (looping n i) as [cm|] eqn:E; [|done]. apply looping_inv in E; [|done]. injection Hact as <-.
    by apply set_running_inv, reaper_truthful.
  - destruct (looping n i) as [cm|] eqn:E; [|done]. injection Hact as <-. destruct Hn as [Hn Han Hs].
    split; [|done|done]. cbn. intros j p [_ Hj]%lookup_delete_Some. by apply Hn.
Qed.

Lemma acts_inv (l : list action) (n n' : Net) :
  net_inv n -> Forall action_ok l -> acts l n = Some n' -> net_inv n'.
Proof.
  intros Hn Hl. revert n Hn. induction Hl as [|a l Ha Hl IH]; intros n Hn; cbn [acts]; [by intros [= <-]|].
  destruct (act a n) as [n1|] eqn:E; [|done]. cbn. apply IH. by eapply act_inv.
Qed.

Lemma net_init_inv : net_inv net_init.
Proof. split; cbn; [intros i p; by rewrite lookup_empty|constructor|constructor]. Qed.

(** ** Who extends a member list *)

(** The action starts [i], or is a join of [i] or one that [i] serves. *)
Definition touches (i : nat) (a : action) : bool :=
  match a with
  | Start _ _ | Join _ _ _ _ _ _ _ _ _ | ServeJoin _ _ _ => bool_decide (actor a = i)
  | _ => false
  end.

Lemma set_node_back (i k : nat) (n : Net) (q p' : Process) :
  nt_nodes (set_node k q n) !! i = Some p' ->
  (k = i /\ p' = q) \/ (k <> i /\ nt_nodes n !! i = Some p').
Proof. cbn. intros [[-> ->]|[? ?]]%lookup_insert_Some; auto. Qed.

Lemma looping_node (n : Net) (i : nat) (cm : ClusterManager) :
  looping n i = Some cm -> exists p, nt_nodes n !! i = Some p /\ pr_cluster p = cm.
Proof.
  unfold looping. destruct (nt_nodes n !! i) as [p|]; [|done]. destruct (pr_running p); [|done].
  intros [= <-]. eauto.
Qed.

Lemma starting_node (n : Net) (i : nat) (cm : ClusterManager) :
  starting n i = Some cm -> exists p, nt_nodes n !! i = Some p /\ pr_cluster p = cm.
Proof.
  unfold starting. destruct (nt_nodes n !! i) as [p|]; [|done]. destruct (pr_running p); [done|].
  intros [= <-]. eauto.
Qed.

(** A node that is there after an action that does not touch it was there before,
    with the same addresses. *)
Lemma act_addrs (i : nat) (a : action) (n n' : Net) (p' : Process) :
  touches i a = false -> act a n = Some n' -> nt_nodes n' !! i = Some p' ->
  exists p, nt_nodes n !! i = Some p /\ addrs (pr_cluster p') = addrs (pr_cluster p).
Proof.
  intros Ht Hact Hp.
  assert (forall k cm cm', (exists p, nt_nodes n !! k = Some p /\ pr_cluster p = cm) ->
    (k = i -> addrs cm' = addrs cm) ->
    nt_nodes (set_node k {| pr_running := true; pr_cluster := cm' |} n) !! i = Some p' ->
    exists p, nt_nodes n !! i = Some p /\ addrs (pr_cluster p') = addrs (pr_cluster p)) as Hset.
  { intros k cm cm' (p & Hk & <-) Heq [[-> ->]|[_ Hi]]%set_node_back; [|by exists p'].
    exists p. split; [done|]. cbn. by apply Heq. }
  destruct a as [k now|k|k s ip port answer mem al junk now|k j env|k env h q|k now d
    |k now rnd|k now|k]; cbn in Hact, Ht; rewrite ?bool_decide_eq_false in Ht.
  - destruct (fleet !! k); [|done]. injection Hact as <-.
    apply set_node_back in Hp as [[? _]|[_ Hp]]; [done|by exists p'].
  - destruct (starting n k) as [cm|] eqn:E; [|done]. injection Hact as <-. apply starting_node in E.
    by eapply Hset.
  - destruct (starting n k) as [cm|]; [|done]. cbn in Hact. case_decide; [|done].
    destruct (cluster_join _ _ _ _ _ _ _ _) as [[rc cm']|]; [|done]. injection Hact as <-.
    apply set_node_back in Hp as [[? _]|[_ Hp]]; [done|by exists p'].
  - destruct (looping n k) as [cm|]; [|done]. cbn in Hact. destruct (fleet !! j); [|done]. cbn in Hact.
    case_decide; [|done]. destruct (respond _ _ _ _) as [resp cm']. injection Hact as <-.
    change (nt_nodes (set_node k {| pr_running := true; pr_cluster := cm' |} n) !! i = Some p') in Hp.
    apply set_node_back in Hp as [[? _]|[_ Hp]]; [done|by exists p'].
  - destruct (looping n k) as [cm|] eqn:E; [|done]. apply looping_node in E. cbn in Hact.
    destruct (Z.eqb_spec (command_type h) RPC_CMD_JOIN_REQ); [done|]. injection Hact as <-.
    eapply Hset; [exact E| |exact Hp]. intros _. by apply respond_addrs.
  - destruct (looping n k) as [cm|] eqn:E; [|done]. apply looping_node in E. injection Hact as <-.
    eapply Hset; [exact E| |exact Hp]. intros _. apply gossip_addrs.
  - destruct (looping n k) as [cm|]; [|done]. injection Hact as <-. by exists p'.
  - destruct (looping n k) as [cm|] eqn:E; [|done]. apply looping_node in E. injection Hact as <-.
    eapply Hset; [exact E| |exact Hp]. intros _. apply reaper_addrs.
  - destruct (looping n k) as [cm|]; [|done]. injection Hact as <-. cbn in Hp.
    apply lookup_delete_Some in Hp as [_ Hp]. by exists p'.
Qed.
End Fleet.

(** ** Properties *)

(** C14: member lists describe real nodes.  In a fleet with distinct names in which a
    connection reaches a node that listens on that port, after any sequence of
    starts, crashes, joins, requests, gossip, heartbeats, reaper ticks and
    departures (with failing allocations, broken connections and arbitrary
    datagrams): every member list has distinct ids within its capacity, and each of
    its entries is another node of the fleet, with that node's ports, its role
    unless unknown, and as address either the 0.0.0.0 that every node announces or
    one at which that node is reached; heartbeats go to such entries and are heard
    as their sender; and a join never reads past the answer it got. *)
Theorem membership_truthful (fleet : gmap nat NodeArgs) (resolve : list byte -> Z -> option nat)
    (l : list action) (n : Net) :
  fleet_ok fleet resolve -> Forall action_ok l -> acts fleet resolve l net_init = Some n ->
  (forall i p, nt_nodes n !! i = Some p ->
     NoDup (cm_ids (pr_cluster p)) /\
     member_count (pr_cluster p) <= member_capacity (pr_cluster p) /\
     forall m, m ∈ cm_members (pr_cluster p) ->
       exists j c, fleet !! j = Some c /\ j <> i /\ describes resolve m j c) /\
  (forall i m d, (i, (m, d)) ∈ nt_sent n ->
     (exists j c, fleet !! j = Some c /\ j <> i /\ describes resolve m j c) /\
     exists c, fleet !! i = Some c /\ hears (ni_node_id (self (node_init c 0))) d = true) /\
  (forall i s ip port answer mem al junk now, is_Some (starting n i) ->
     resolve (cstr ip) port = Some s -> s <> i ->
     is_Some (act fleet resolve (Join i s ip port answer mem al junk now) n)).
Proof.
  intros Hf Hl Hn.
  pose proof (acts_inv fleet resolve Hf l net_init n (net_init_inv _ _) Hl Hn) as Hinv.
  pose proof Hinv as [Hnodes _ Hsent]. split; [|split].
  - intros i p Hp. destruct (Hnodes i p Hp) as [[[Hids _ _ Hcap] _ _ Hreal] _].
    split; [done|]. split; [lia|]. rewrite Forall_forall in Hreal. exact Hreal.
  - intros i m d Hm. rewrite Forall_forall in Hsent. apply (Hsent (i, (m, d)) Hm).
  - intros i s ip port answer mem al junk now [cm Hcm] Hres Hne. cbn. rewrite Hcm. cbn.
    rewrite decide_True by done.
    destruct (join_act fleet resolve Hf n i s ip port answer mem al junk now cm) as (rc & cm' & -> & _);
      eauto.
Qed.

(** C15: member lists grow by joins only.  Over any sequence of actions in which a
    node is not restarted, does not join and serves no JOIN_REQ, its entries keep
    their ids, addresses, ports and roles, and none is added or removed: gossip,
    heartbeats, the reaper, LEAVE and SYNC_RULES requests only change statuses.  So a
    node never learns of one that joined elsewhere after it. *)
Theorem membership_does_not_spread (fleet : gmap nat NodeArgs)
    (resolve : list byte -> Z -> option nat) (l : list action) (n n' : Net) (i : nat)
    (p' : Process) :
  acts fleet resolve l n = Some n' -> Forall (fun a => touches i a = false) l ->
  nt_nodes n' !! i = Some p' ->
  exists p, nt_nodes n !! i = Some p /\ addrs (pr_cluster p') = addrs (pr_cluster p).
Proof.
  intros Hl Ht. revert n Hl. induction Ht as [|a l Ha Hl IH]; intros n; cbn [acts].
  { intros [= <-]. eauto. }
  destruct (act fleet resolve a n) as [n1|] eqn:E; [|done]. cbn. intros Hn Hp.
  destruct (IH n1 Hn Hp) as (p1 & Hp1 & Heq).
  destruct (act_addrs fleet resolve i a n n1 p1 Ha E Hp1) as (p & Hi & Heq'). exists p. split; [done|].
  congruence.
Qed.

(** A seed and two workers that join it, one after the other. *)
Definition demo_fleet : gmap nat NodeArgs :=
  {[ 0%nat := {| na_id := text "seed"; na_port := 9000; na_role := ROLE_CONTROL_NODE |};
     1%nat := {| na_id := text "w1"; na_port := 9001; na_role := ROLE_WORKER_NODE |};
     2%nat := {| na_id := text "w2"; na_port := 9002; na_role := ROLE_WORKER_NODE |} ]}.

Definition demo_resolve (ip : list byte) (port : Z) : option nat :=
  if decide (ip = text "10.0.0.1" /\ port = 9000) then Some 0%nat else None.

Definition demo_joins : list action :=
  [Start 0 100; Alone 0; Start 1 200; ServeJoin 0 1 demo_env;
   Join 1 0 (text "10.0.0.1") 9000 (Some (0, 1000)%nat) true (fun _ => alloc_ok) (fun _ => (0, 0)) 250;
   Start 2 300; ServeJoin 0 2 demo_env;
   Join 2 0 (text "10.0.0.1") 9000 (Some (1, 1000)%nat) true (fun _ => alloc_ok) (fun _ => (0, 0)) 350].

(** The heartbeat of the second worker. *)
Definition demo_packet : list byte :=
  serializer_pack_gossip {| g_magic := GOSSIP_MAGIC; g_type := 1; g_sequence := 1000;
                            g_node_id := strncpy (zeros 37) (text "w2") 36 |}.

Definition demo_talk : list action :=
  [Beat 2 1000 0; Gossip 1 1001 demo_packet; Gossip 0 1002 demo_packet; Beat 1 1200 0; Reaper 1 5000].

Definition demo_net (l : list action) : Net :=
  default net_init (acts demo_fleet demo_resolve l net_init).

Definition ids_at (n : Net) (i : nat) : list (list byte) :=
  match nt_nodes n !! i with Some p => cm_ids (pr_cluster p) | None => [] end.

Lemma demo_fleet_ok : fleet_ok demo_fleet demo_resolve.
Proof.
  assert (forall i c, demo_fleet !! i = Some c ->
    (i, c) ∈ [(0%nat, {| na_id := text "seed"; na_port := 9000; na_role := ROLE_CONTROL_NODE |});
              (1%nat, {| na_id := text "w1"; na_port := 9001; na_role := ROLE_WORKER_NODE |});
              (2%nat, {| na_id := text "w2"; na_port := 9002; na_role := ROLE_WORKER_NODE |})]) as Hc.
  { intros i c Hi. unfold demo_fleet in Hi. rewrite !lookup_insert_Some, lookup_singleton_Some in Hi.
    set_solver. }
  split.
  - intros i j c d Hi%Hc Hj%Hc. set_unfold. destruct_or!; simplify_eq; vm_compute; done.
  - intros i c Hi%Hc. set_unfold. destruct_or!; simplify_eq; by vm_compute.
  - by vm_compute.
  - intros ip port i. unfold demo_resolve. case_decide as Hd; [|done]. destruct Hd as [-> ->].
    intros [= <-]. split; [eexists; split; [reflexivity|done]|vm_compute; lia].
Qed.

Lemma demo_joins_ok : Forall action_ok demo_joins.
Proof. repeat constructor; by intros k. Qed.

Lemma membership_truthful_witness :
  exists p m, nt_nodes (demo_net demo_joins) !! 2%nat = Some p /\ m ∈ cm_members (pr_cluster p) /\
    cstr (ni_ip_address m) = text "0.0.0.0" /\
    exists j c, demo_fleet !! j = Some c /\ j <> 2%nat /\ describes demo_resolve m j c.
Proof.
  destruct (membership_truthful demo_fleet demo_resolve demo_joins (demo_net demo_joins))
    as (Hn & _ & _).
  - apply demo_fleet_ok.
  - apply demo_joins_ok.
  - vm_compute. reflexivity.
  - destruct (nt_nodes (demo_net demo_joins) !! 2%nat) as [p|] eqn:E; [|vm_compute in E; discriminate E].
    destruct (cm_members (pr_cluster p)) as [|m ms] eqn:Em.
    { exfalso. vm_compute in E. injection E as <-. discriminate Em. }
    exists p, m. assert (m ∈ cm_members (pr_cluster p)) as Hm by (rewrite Em; left).
    destruct (Hn 2%nat p E) as (_ & _ & Hall). split; [done|]. split; [done|]. split; [|by apply Hall].
    vm_compute in E. injection E as <-. injection Em as <- _. reflexivity.
Defined.

(** After both joined, the second worker knows the first and sends it heartbeats;
    the first never lists the second. *)
Lemma membership_does_not_spread_witness :
  ids_at (demo_net (demo_joins ++ demo_talk)) 2 = [text "w1"; text "seed"] /\
  ids_at (demo_net (demo_joins ++ demo_talk)) 1 = [text "seed"] /\
  exists p p', nt_nodes (demo_net demo_joins) !! 1%nat = Some p /\
    nt_nodes (demo_net (demo_joins ++ demo_talk)) !! 1%nat = Some p' /\
    addrs (pr_cluster p') = addrs (pr_cluster p).
Proof.
  split; [vm_compute; reflexivity|]. split; [vm_compute; reflexivity|].
  destruct (nt_nodes (demo_net (demo_joins ++ demo_talk)) !! 1%nat) as [p'|] eqn:E;
    [|vm_compute in E; discriminate E].
  destruct (membership_does_not_spread demo_fleet demo_resolve demo_talk (demo_net demo_joins)
              (demo_net (demo_joins ++ demo_talk)) 1 p') as (p & Hp & Heq).
  - vm_compute. reflexivity.
  - repeat constructor.
  - exact E.
  - exists p, p'. split; [exact Hp|]. split; [reflexivity|exact Heq].
Defined.
