(* ===== verification/RaftVote.v ===== *)
(** * Leftovers of the Raft RPC layer

    [raft_send_request_vote] and [raft_rpc_destroy] of
    [src/cluster/raft_rpc_integration.c].  The first refers to a request type, to
    fields of the node, to a command code and to a function that no file of the
    repository declares, and nothing calls it: the type follows its initialiser, the
    rest are arguments. *)

From S2P Require Import Prelude RaftCore RaftInv RaftSpec Wire RaftRpc Cluster.

(** ** Direct vote requests *)

Record RequestVoteRequest : Type := {
  rvr_term : Z;
  rvr_candidate_id : list byte;
  rvr_last_log_index : Z;
  rvr_last_log_term : Z;
}.

Section Send.
(** The two fields, the command code and the sending function. *)
Context (field_last_log_index field_last_log_term : RaftNode -> Z) (RPC_CMD_RAFT_VOTE : Z)
  (rpc_send_request : list byte -> Z -> Z -> RequestVoteRequest -> Z).

Definition raft_send_request_vote (raft : RaftNode) (target : NodeInfo) : Z :=
  rpc_send_request (ni_ip_address target) (tcp_port target) RPC_CMD_RAFT_VOTE
    {| rvr_term := current_term raft; rvr_candidate_id := node_id raft;
       rvr_last_log_index := field_last_log_index raft;
       rvr_last_log_term := field_last_log_term raft |}.
End Send.

(** The request as one that [become_candidate] sends. *)
Definition as_request_vote (r : RequestVoteRequest) : RaftRequestVoteReq :=
  {| rv_term := rvr_term r; rv_candidate_id := strncpy (zeros 37) (rvr_candidate_id r) 36;
     rv_last_log_index := rvr_last_log_index r; rv_last_log_term := rvr_last_log_term r |}.

(** With the fields holding what [last_log_index] and [last_log_term] compute, it asks
    a voter for the same vote as the request of [become_candidate]. *)
Lemma send_request_vote_agrees (RPC_CMD_RAFT_VOTE : Z)
    (rpc_send_request : list byte -> Z -> Z -> RequestVoteRequest -> Z) (raft : RaftNode)
    (target : NodeInfo) :
  exists r, raft_send_request_vote last_log_index last_log_term RPC_CMD_RAFT_VOTE rpc_send_request
              raft target
            = rpc_send_request (ni_ip_address target) (tcp_port target) RPC_CMD_RAFT_VOTE r /\
    as_request_vote r
    = {| rv_term := current_term raft; rv_candidate_id := strncpy (zeros 37) (node_id raft) 36;
         rv_last_log_index := last_log_index raft; rv_last_log_term := last_log_term raft |}.
Proof. eexists. split; reflexivity. Qed.

(** ** The context of the callbacks *)

(** The [calloc] and the test of [raft_rpc_init], on the set of allocated blocks. *)
Definition rpc_context_alloc (mem : option positive) (h : gset positive)
  : option positive * gset positive :=
  match mem with
  | None => (None, h)
  | Some p => (Some p, {[p]} ∪ h)
  end.

Definition raft_rpc_destroy (ctx : option positive) (h : gset positive) : gset positive :=
  match ctx with
  | None => h
  | Some p => h ∖ {[p]}
  end.

(** Initialising and destroying leaves no block behind. *)
Lemma rpc_context_balanced (mem : option positive) (h : gset positive) :
  (forall p, mem = Some p -> p ∉ h) ->
  let (ctx, h') := rpc_context_alloc mem h in raft_rpc_destroy ctx h' = h.
Proof.
  intros Hm. destruct mem as [p|]; [|done]. cbn. specialize (Hm p eq_refl). set_solver.
Qed.
