(* ===== verification/Transport.v ===== *)
(** * Transport

    Models [src/transport/tcp_transport.c], [udp_transport.c] and [net_utils.c].
    The descriptors the process has open are a finite set; the results of the
    system calls are arguments.  The loops of [tcp_send_all] and [tcp_recv_all]
    run over the results of their [send] and [recv] calls, one per round. *)

From S2P Require Import Prelude RaftCore.

(** ** Data *)

Abbreviation fds := (gset Z).

Record TcpConnection : Type := {
  sockfd : Z;
  remote_ip : list byte;
  remote_port : Z;
}.

Record UdpSocket : Type := {
  u_sockfd : Z;
  bind_port : Z;
}.

(** Results of the calls that set up a socket: the descriptor [socket] returns
    (negative on failure), and whether each later call succeeds. *)
Record SetupEnv : Type := {
  se_socket : Z;
  se_setsockopt : bool;
  se_nonblocking : bool;
  se_pton : bool;
  se_bind : bool;
  se_listen : bool;
  se_connect : bool;
}.

Definition opened (fd : Z) (o : fds) : fds := {[fd]} ∪ o.
Definition close (fd : Z) (o : fds) : fds := o ∖ {[fd]}.

(** ** Set-up *)

Definition tcp_server_listen (env : SetupEnv) (o : fds) : Z * fds :=
  let fd := se_socket env in
  if fd <? 0 then (-1, o)
  else
    let o1 := opened fd o in
    if negb (se_setsockopt env) then (-1, close fd o1)
    else if negb (se_pton env) then (-1, close fd o1)
    else if negb (se_bind env) then (-1, close fd o1)
    else if negb (se_listen env) then (-1, close fd o1)
    else (fd, o1).

(** [net_set_nonblocking] and [set_nonblocking]: [getfl] is what the first [fcntl]
    returns, [setfl] the answer of the second to the flags it gets. *)
Definition O_NONBLOCK : Z := 2048.

Definition net_set_nonblocking (getfl : Z) (setfl : Z -> Z) : Z :=
  if getfl =? -1 then -1 else setfl (Z.lor getfl O_NONBLOCK).

Definition set_nonblocking (getfl : Z) (setfl : Z -> Z) : Z :=
  if getfl =? -1 then -1 else setfl (Z.lor getfl O_NONBLOCK).

Definition tcp_server_listen_nonblock (env : SetupEnv) (o : fds) : Z * fds :=
  let (fd, o1) := tcp_server_listen env o in
  if fd >=? 0 then
    if negb (se_nonblocking env) then (-1, close fd o1) else (fd, o1)
  else (fd, o1).

(** [tcp_server_accept]: [client] is what [accept] returns, [again] whether a
    failure is [EAGAIN]. *)
Definition tcp_server_accept (client : Z) (again : bool) (ip : list byte) (port : Z) (o : fds)
  : Z * option TcpConnection * fds :=
  if client <? 0 then ((if again then -2 else -1), None, o)
  else (0, Some {| sockfd := client; remote_ip := ip; remote_port := port |}, opened client o).

(** [stack] is what the connection's address array held. *)
Definition tcp_client_connect (env : SetupEnv) (stack ip : list byte) (port : Z) (o : fds)
  : Z * option TcpConnection * fds :=
  let fd := se_socket env in
  if fd <? 0 then (-1, None, o)
  else
    let o1 := opened fd o in
    if negb (se_pton env) then (-1, None, close fd o1)
    else if negb (se_connect env) then (-1, None, close fd o1)
    else (0, Some {| sockfd := fd; remote_ip := take 45 (strncpy stack ip 45) ++ [x00];
                     remote_port := port |}, o1).

Definition tcp_close (c : TcpConnection) (o : fds) : TcpConnection * fds :=
  if sockfd c >=? 0 then ({| c with sockfd := -1 |}, close (sockfd c) o) else (c, o).

Definition udp_init (env : SetupEnv) (port : Z) (o : fds) : Z * option UdpSocket * fds :=
  let fd := se_socket env in
  if fd <? 0 then (-1, None, o)
  else
    let o1 := opened fd o in
    if negb (se_nonblocking env) then (-1, None, close fd o1)
    else if negb (se_pton env) then (-1, None, close fd o1)
    else if negb (se_bind env) then (-1, None, close fd o1)
    else (0, Some {| u_sockfd := fd; bind_port := port |}, o1).

Definition udp_close (s : UdpSocket) (o : fds) : UdpSocket * fds :=
  if u_sockfd s >=? 0 then ({| s with u_sockfd := -1 |}, close (u_sockfd s) o) else (s, o).

(** The address [udp_send] fills in: family, port and address in network order. *)
Record sockaddr_in : Type := {
  sin_family : Z;
  sin_port : list byte;
  sin_addr : list byte;
}.

(** [udp_send]: [pton] parses an address; when it fails the address stays zero.
    [sendto] is the system call. *)
Definition udp_send (pton : list byte -> option (list byte)) (sendto : Z -> list byte -> sockaddr_in -> Z)
    (s : UdpSocket) (dest_ip : list byte) (dest_port : Z) (data : list byte) : Z :=
  sendto (u_sockfd s) data
    {| sin_family := 2; sin_port := net_bytes 2 dest_port; sin_addr := default (zeros 4) (pton dest_ip) |}.

(** [udp_recv] with buffer size [max]: a datagram is cut to the buffer.  Its sender
    is the text of its address and its port in network order; the caller's variables
    for the sender are written only when a datagram arrived. *)
Inductive recvfrom : Type :=
  | Datagram (data sender_ip sin_port : list byte)
  | NoData
  | RecvfromError.

Definition udp_recv (r : recvfrom) (max : nat) : Z * list byte * option (list byte * Z) :=
  match r with
  | Datagram d ip port => (Z.of_nat (length (take max d)), take max d, Some (ip, of_net port))
  | NoData => (0, [], None)
  | RecvfromError => (-1, [], None)
  end.

(** An empty datagram is reported like the absence of one, except for the sender. *)
Lemma udp_recv_empty (ip port : list byte) (max : nat) :
  (udp_recv (Datagram [] ip port) max).1 = (udp_recv NoData max).1.
Proof. cbn. by rewrite take_nil. Qed.

(** ** Transfer loops *)

(** What one [send] without [MSG_NOSIGNAL] does.  On a connection whose peer is gone
    it raises SIGPIPE, whose default action ends the process: no file of the
    repository ignores the signal or installs a handler for it. *)
Inductive send_result : Type :=
  | Sent (k : nat)
  | SendInterrupted
  | SendError
  | SendBrokenPipe.

(** A call that waits for another result of the kernel, one that returned, or one
    in which the process was ended. *)
Inductive transfer : Type :=
  | Waiting
  | Returned (rc : Z)
  | Killed.

#[global] Instance transfer_eq_dec : EqDecision transfer.
Proof. solve_decision. Defined.

(** [tcp_send_all]: how the call ends and the bytes that reached the connection.  A
    [send] takes at most what is left. *)
Fixpoint tcp_send_all (rs : list send_result) (data : list byte) : transfer * list byte :=
  match data with
  | [] => (Returned 0, [])
  | _ =>
      match rs with
      | [] => (Waiting, [])
      | SendInterrupted :: rs' => tcp_send_all rs' data
      | SendError :: _ => (Returned (-1), [])
      | SendBrokenPipe :: _ => (Killed, [])
      | Sent k :: rs' =>
          let (rc, wire) := tcp_send_all rs' (drop k data) in (rc, take k data ++ wire)
      end
  end.

Inductive recv_result : Type :=
  | Received (k : nat)
  | RecvInterrupted
  | RecvError
  | RecvClosed.

(** [tcp_recv_all] of [len] bytes from the stream: return code, the buffer and
    the bytes left in the stream. *)
Fixpoint tcp_recv_all (rs : list recv_result) (len : nat) (stream : list byte)
  : option Z * list byte * list byte :=
  match len with
  | O => (Some 0, [], stream)
  | _ =>
      match rs with
      | [] => (None, [], stream)
      | RecvInterrupted :: _ | RecvError :: _ | RecvClosed :: _ => (Some (-1), [], stream)
      | Received k :: rs' =>
          let n := Nat.min k (Nat.min len (length stream)) in
          if Nat.eqb n 0 then (Some (-1), [], stream)
          else
            let '(rc, buf, rest) := tcp_recv_all rs' (len - n) (drop n stream) in
            (rc, take n stream ++ buf, rest)
      end
  end.

(** ** Properties *)

Lemma close_opened (fd : Z) (o : fds) : fd ∉ o -> close fd (opened fd o) = o.
Proof. unfold close, opened. set_solver. Qed.

Lemma listen_success (env : SetupEnv) (o o' : fds) (fd : Z) :
  tcp_server_listen env o = (fd, o') -> 0 <= fd -> o' = opened fd o.
Proof.
  unfold tcp_server_listen. destruct (se_socket env <? 0); [intros [= <- <-]; lia|].
  destruct (se_setsockopt env); cbn [negb]; [|intros [= <- <-]; lia].
  destruct (se_pton env); cbn [negb]; [|intros [= <- <-]; lia].
  destruct (se_bind env); cbn [negb]; [|intros [= <- <-]; lia].
  destruct (se_listen env); cbn [negb]; [by intros [= <- <-]|intros [= <- <-]; lia].
Qed.

Lemma listen_failure (env : SetupEnv) (o' : fds) (fd : Z) :
  tcp_server_listen env ∅ = (fd, o') -> fd < 0 -> o' = ∅.
Proof.
  unfold tcp_server_listen. destruct (Z.ltb_spec (se_socket env) 0); [by intros [= <- <-]|].
  assert (close (se_socket env) (opened (se_socket env) ∅) = ∅) as Hc by (apply close_opened; set_solver).
  destruct (se_setsockopt env), (se_pton env), (se_bind env), (se_listen env); cbn [negb];
    rewrite ?Hc; intros [= <- <-]; by try lia.
Qed.

Lemma udp_success (env : SetupEnv) (port rc : Z) (o o' : fds) (s : UdpSocket) :
  udp_init env port o = (rc, Some s, o') -> o' = opened (u_sockfd s) o /\ 0 <= u_sockfd s.
Proof.
  unfold udp_init. destruct (Z.ltb_spec (se_socket env) 0); [done|].
  destruct (se_nonblocking env); cbn [negb]; [|done]. destruct (se_pton env); cbn [negb]; [|done].
  destruct (se_bind env); cbn [negb]; [|done]. by intros [= <- <- <-].
Qed.

Lemma udp_failure (env : SetupEnv) (port rc : Z) (o o' : fds) :
  udp_init env port o = (rc, None, o') -> o' ⊆ o.
Proof.
  unfold udp_init, close, opened. destruct (Z.ltb_spec (se_socket env) 0); [by intros [= <- <-]|].
  destruct (se_nonblocking env), (se_pton env), (se_bind env); cbn [negb]; intros [= <- <-]; set_solver.
Qed.

(** Success with exactly the socket open in addition, or failure with nothing
    changed. *)
Definition fd_or_nothing (env : SetupEnv) (o : fds) (r : Z * fds) : Prop :=
  (r.1 = se_socket env /\ 0 <= r.1 /\ r.2 = opened (se_socket env) o) \/ (r.1 = -1 /\ r.2 = o).

(** Setting up a socket leaks no descriptor.  Whatever call fails,
    [tcp_server_listen], its non-blocking variant, [tcp_client_connect] and
    [udp_init] either succeed, with exactly their socket open in addition, or
    report failure with the same descriptors open as before; and closing a
    connection closes its descriptor once, a second close nothing. *)
Theorem socket_setup_no_leak (env : SetupEnv) (o : fds) (stack ip : list byte) (port : Z) :
  se_socket env ∉ o ->
  fd_or_nothing env o (tcp_server_listen env o) /\
  fd_or_nothing env o (tcp_server_listen_nonblock env o) /\
  (let '(rc, conn, o') := tcp_client_connect env stack ip port o in
   (rc = 0 /\ exists c, conn = Some c /\ sockfd c = se_socket env /\ remote_port c = port /\
      o' = opened (se_socket env) o /\
      let (c1, o1) := tcp_close c o' in o1 = o /\ tcp_close c1 o1 = (c1, o1)) \/
   (rc = -1 /\ conn = None /\ o' = o)) /\
  (let '(rc, sock, o') := udp_init env port o in
   (rc = 0 /\ exists s, sock = Some s /\ u_sockfd s = se_socket env /\
      o' = opened (se_socket env) o /\
      let (s1, o1) := udp_close s o' in o1 = o /\ udp_close s1 o1 = (s1, o1)) \/
   (rc = -1 /\ sock = None /\ o' = o)).
Proof.
  intros Ho. pose proof (close_opened _ _ Ho) as Hclose.
  unfold fd_or_nothing, tcp_server_listen_nonblock, tcp_server_listen, tcp_client_connect, udp_init,
    tcp_close, udp_close.
  destruct env as [fd sso nb pton bnd lst con]; cbn in *.
  destruct (Z.ltb_spec fd 0) as [Hlt|Hge]; [cbn; split_and!; by right|].
  assert ((fd >=? 0) = true) as Hfd by (apply Z.geb_le; lia).
  split_and!.
  - destruct sso, pton, bnd, lst; cbn; rewrite ?Hclose; auto.
  - destruct sso, pton, bnd, lst; cbn; rewrite ?Hclose, ?Hfd; auto; destruct nb; cbn;
      rewrite ?Hclose; auto.
  - destruct pton, con; cbn; rewrite ?Hclose; auto. left. split; [done|]. eexists.
    repeat (split; [done|]). cbn. rewrite Hfd. cbn. by rewrite Hclose.
  - destruct nb, pton, bnd; cbn; rewrite ?Hclose; auto. left. split; [done|]. eexists.
    repeat (split; [done|]). cbn. rewrite Hfd. cbn. by rewrite Hclose.
Qed.

Lemma socket_setup_no_leak_witness :
  let env := {| se_socket := 5; se_setsockopt := true; se_nonblocking := true; se_pton := true;
                se_bind := false; se_listen := true; se_connect := true |} in
  tcp_server_listen env {[3]} = (-1, {[3]}).
Proof.
  intros env. destruct (socket_setup_no_leak env {[3]} [] [] 80) as [H _].
  - vm_compute. intros H. set_solver.
  - destruct H as [(H1 & _)|[H1 H2]]; [vm_compute in H1; discriminate H1|].
    destruct (tcp_server_listen env {[3]}) as [rc o]. cbn in *. by subst.
Defined.

(** Results of a connection that makes progress: positive counts, and for [send]
    also interruptions. *)
Definition send_progress (r : send_result) : Prop :=
  match r with Sent k => (0 < k)%nat | SendInterrupted => True | _ => False end.

Definition sent_count (r : send_result) : nat :=
  match r with Sent k => k | _ => 0 end.

Lemma send_all_ok (rs : list send_result) (data : list byte) :
  Forall send_progress rs -> (length data <= sum_list (map sent_count rs))%nat ->
  tcp_send_all rs data = (Returned 0, data).
Proof.
  revert data. induction rs as [|r rs IH]; intros data Hp Hs; cbn in Hs.
  { destruct data; cbn in *; [done|lia]. }
  apply Forall_cons in Hp as [Hr Hp]. destruct data as [|b data]; [by destruct r|].
  cbn [tcp_send_all]. destruct r as [k| | |]; [|by apply IH|done|done].
  rewrite IH; [|done|cbn in Hs; rewrite length_drop; cbn; lia]. by rewrite take_drop.
Qed.

(** Whatever the kernel answers, what [tcp_send_all] put on the wire is a prefix of
    the data, and all of it on success; the process ends only by a broken pipe. *)
Lemma send_all_prefix (rs : list send_result) (data : list byte) :
  let (t, wire) := tcp_send_all rs data in
  wire `prefix_of` data /\ (t = Returned 0 -> wire = data) /\
  (t = Killed -> SendBrokenPipe ∈ rs) /\ (forall rc, t = Returned rc -> rc = 0 \/ rc = -1).
Proof.
  revert data. induction rs as [|r rs IH]; intros [|b data]; cbn [tcp_send_all].
  1,3: split_and!; [done..|]; intros rc [= <-]; by left.
  { split_and!; [apply prefix_nil|done..]. }
  destruct r as [k| | |].
  - specialize (IH (drop k (b :: data))). destruct (tcp_send_all rs _) as [t wire].
    destruct IH as (Hpre & Hall & Hkill & Hrc). split_and!; [| |intros ->; right; auto|done].
    + rewrite <- (take_drop k (b :: data)) at 2. by apply prefix_app.
    + intros ->. rewrite Hall by done. apply take_drop.
  - specialize (IH (b :: data)). destruct (tcp_send_all rs _) as [t wire].
    destruct IH as (Hpre & Hall & Hkill & Hrc). split_and!; [done|done|intros ->; right; auto|done].
  - split_and!; [apply prefix_nil|done|done|]. intros rc [= <-]. by right.
  - split_and!; [apply prefix_nil|done|left|done].
Qed.

(** A [recv] that does not deliver: interrupted, failed, or the end of the stream. *)
Definition recv_fails (r : recv_result) : Prop :=
  match r with Received _ => False | _ => True end.

(** Receptions that arrive in pieces [ks] and are then cut short: complete when the
    pieces cover the data, failed after their bytes otherwise. *)
Lemma recv_all_pieces (ks : list nat) (rr : list recv_result) (data rest : list byte) :
  Forall (fun k => 0 < k)%nat ks -> (forall r, head rr = Some r -> recv_fails r) ->
  tcp_recv_all (map Received ks ++ rr) (length data) (data ++ rest)
  = if (length data <=? sum_list ks)%nat then (Some 0, data, rest)
    else (match rr with [] => None | _ => Some (-1) end, take (sum_list ks) data,
          drop (sum_list ks) data ++ rest).
Proof.
  intros Hk Hr. revert data. induction Hk as [|k ks Hk Hks IH]; intros data.
  { destruct data as [|b data]; [by destruct rr|]. destruct rr as [|r rr]; [done|].
    specialize (Hr r eq_refl). by destruct r. }
  destruct data as [|b data]; [done|].
  assert (exists len', length (b :: data) = S len') as [len' Hlen] by (cbn; eauto).
  cbn [map]. rewrite <- app_comm_cons. remember (b :: data) as d eqn:Ed. clear Ed b data.
  rewrite Hlen at 1. cbn [tcp_recv_all]. rewrite <- Hlen, length_app. set (n := Nat.min k _).
  assert (n = Nat.min k (length d) /\ 0 < n)%nat as [Hn H0] by (unfold n; lia).
  rewrite (proj2 (Nat.eqb_neq n 0)) by lia.
  rewrite (take_app_le _ _ n), (drop_app_le _ _ n) by lia.
  replace (length d - n)%nat with (length (drop n d)) by apply length_drop.
  rewrite IH, length_drop. change (sum_list (k :: ks)) with (k + sum_list ks)%nat.
  destruct (Nat.leb_spec (length d - n) (sum_list ks)) as [H1|H1].
  - rewrite (proj2 (Nat.leb_le _ _)) by lia. by rewrite take_drop.
  - rewrite (proj2 (Nat.leb_gt _ _)) by lia.
    assert (n = k) as -> by lia. by rewrite take_take_drop, drop_drop.
Qed.

Lemma recv_all_ok (ks : list nat) (data rest : list byte) :
  Forall (fun k => 0 < k)%nat ks -> (length data <= length ks)%nat ->
  tcp_recv_all (map Received ks) (length data) (data ++ rest) = (Some 0, data, rest).
Proof.
  intros Hk Hl. pose proof (recv_all_pieces ks [] data rest Hk ltac:(done)) as H.
  rewrite app_nil_r in H. rewrite H, (proj2 (Nat.leb_le _ _)); [done|].
  enough (length ks <= sum_list ks)%nat by lia. clear -Hk.
  induction Hk as [|k ks Hk Hks IH]; [done|]. change (sum_list (k :: ks)) with (k + sum_list ks)%nat. cbn. lia.
Qed.

(** C34: exact transfer.  Sending: when every [send] takes some bytes or is
    interrupted, [tcp_send_all] puts exactly its bytes on the connection and returns 0;
    whatever the kernel answers, what reached the connection is a prefix of them, all of
    them if 0 is returned, the only other return code is -1, and the process is ended
    only by a [send] on a broken connection.  Receiving: when [recv] delivers pieces [ks]
    and then fails, is interrupted or finds the connection closed, [tcp_recv_all] takes
    exactly the bytes sent and returns 0 if the pieces cover them; otherwise it returns
    -1 after the bytes of the pieces, which are lost, so an interruption before the last
    byte fails the reception. *)
Theorem tcp_exact_transfer (rs : list send_result) (ks : list nat) (r : recv_result)
    (rr : list recv_result) (data rest : list byte) :
  Forall (fun k => 0 < k)%nat ks -> recv_fails r ->
  (Forall send_progress rs -> (length data <= sum_list (map sent_count rs))%nat ->
   tcp_send_all rs data = (Returned 0, data)) /\
  (let (t, wire) := tcp_send_all rs data in
   wire `prefix_of` data /\ (t = Returned 0 -> wire = data) /\
   (t = Killed -> SendBrokenPipe ∈ rs) /\ (forall rc, t = Returned rc -> rc = 0 \/ rc = -1)) /\
  tcp_recv_all (map Received ks ++ r :: rr) (length data) (data ++ rest)
  = if (length data <=? sum_list ks)%nat then (Some 0, data, rest)
    else (Some (-1), take (sum_list ks) data, drop (sum_list ks) data ++ rest).
Proof.
  intros Hk Hr. split; [apply send_all_ok|]. split; [apply send_all_prefix|].
  apply (recv_all_pieces ks (r :: rr)); [done|]. by intros ? [= <-].
Qed.

Lemma tcp_exact_transfer_witness :
  tcp_send_all [Sent 2; SendInterrupted; Sent 9] (text "hello") = (Returned 0, text "hello") /\
  tcp_recv_all [Received 1; Received 4; RecvClosed] 5 (text "hello!") = (Some 0, text "hello", text "!") /\
  tcp_recv_all [Received 1; Received 2; RecvInterrupted] 5 (text "hello!")
  = (Some (-1), text "hel", text "lo!").
Proof.
  destruct (tcp_exact_transfer [Sent 2; SendInterrupted; Sent 9] [1; 4]%nat RecvClosed []
              (text "hello") (text "!")) as (H1 & _ & H2); [repeat constructor; lia|exact I|].
  destruct (tcp_exact_transfer [] [1; 2]%nat RecvInterrupted [] (text "hello") (text "!"))
    as (_ & _ & H3); [repeat constructor; lia|exact I|].
  split; [apply H1; [repeat constructor; cbn; lia|cbn; lia]|]. split; [exact H2|exact H3].
Defined.
