(* ===== verification/TransportTest.v ===== *)
(** * The transport tests

    The programs [tests/test_udp.c], [tests/test_gossip.c] and [tests/test_tcp.c] over
    the functions of [Transport.v] and [Wire.v].  Results of system calls are
    arguments; the theorems say what the kernel has to do for a test to pass. *)

From S2P Require Import Prelude RaftCore Wire Transport.

(** How a test program ends: with the descriptors still open, in an assertion, or
    with status 1. *)
Inductive verdict : Type :=
  | Passed (open : fds)
  | AssertFails
  | Returns1.

(** What the kernel answers: the calls of the set-up, [inet_pton], [sendto], and the
    [i]-th [recvfrom]. *)
Record UdpKernel : Type := {
  uk_setup : SetupEnv;
  uk_pton : list byte -> option (list byte);
  uk_sendto : Z -> list byte -> sockaddr_in -> Z;
  uk_recv : nat -> recvfrom;
}.

(** The polling loop with [tries] attempts left; [last] is the previous result. *)
Fixpoint poll (recv : nat -> recvfrom) (max tries i : nat) (last : Z * list byte * option (list byte * Z))
  : Z * list byte * option (list byte * Z) :=
  match tries with
  | O => last
  | S tries' =>
      let r := udp_recv (recv i) max in
      if r.1.1 >? 0 then r else poll recv max tries' (S i) r
  end.

Definition UDP_MESSAGE : list byte := text "UDP_NONBLOCK_TEST".

(** [main] of [test_udp.c]. *)
Definition test_udp (k : UdpKernel) : verdict :=
  match udp_init (uk_setup k) 9091 ∅ with
  | (_, None, _) => AssertFails
  | (_, Some s, o) =>
      let len := Z.of_nat (length UDP_MESSAGE) in
      if negb (udp_send (uk_pton k) (uk_sendto k) s (text "127.0.0.1") 9091 UDP_MESSAGE =? len)
      then AssertFails
      else
        let '(received, buf, sender) := poll (uk_recv k) 63 100 0 (0, [], None) in
        if negb (received =? len) then AssertFails
        else if negb (streq buf UDP_MESSAGE) then AssertFails
        else match sender with
             | Some (_, port) => if port =? 9091 then Passed (udp_close s o).2 else AssertFails
             | None => AssertFails
             end
  end.

Definition test_packet : GossipPacket :=
  {| g_magic := GOSSIP_MAGIC; g_type := 1; g_sequence := 1;
     g_node_id := strncpy (zeros 37) (text "test-node") 36 |}.

(** [main] of [test_gossip.c]. *)
Definition test_gossip (k : UdpKernel) : verdict :=
  match udp_init (uk_setup k) 9090 ∅ with
  | (_, None, _) => Returns1
  | (_, Some s, o) =>
      let buffer := serializer_pack_gossip test_packet in
      if negb (udp_send (uk_pton k) (uk_sendto k) s (text "127.0.0.1") 9090 buffer >? 0) then AssertFails
      else
        let '(received, buf, _) := poll (uk_recv k) GOSSIP_SIZE 100 0 (0, [], None) in
        if negb (received =? Z.of_nat GOSSIP_SIZE) then AssertFails
        else
          let p := serializer_unpack_gossip buf in
          if negb (g_magic p =? GOSSIP_MAGIC) then AssertFails
          else if negb (g_sequence p =? 1) then AssertFails
          else if negb (streq (g_node_id p) (text "test-node")) then AssertFails
          else Passed (udp_close s o).2
  end.

(** The child of [test_tcp.c] on the bytes that reach it, with the bytes it sends (a
    process that is ended by SIGPIPE fails like one whose assertion does);
    [client] is what [accept] returns. *)
Definition tcp_test_server (env : SetupEnv) (client : Z) (ip : list byte) (port : Z)
    (rr : list recv_result) (sr : list send_result) (input : list byte) : verdict * list byte :=
  let (s_fd, o1) := tcp_server_listen env ∅ in
  if s_fd <? 0 then (AssertFails, [])
  else
    match tcp_server_accept client false ip port o1 with
    | (_, None, _) => (AssertFails, [])
    | (_, Some c, o2) =>
        let '(rc, buf, _) := tcp_recv_all rr 4 input in
        if decide (rc <> Some 0 \/ streq buf (text "PING") = false) then (AssertFails, [])
        else
          let (rc2, wire) := tcp_send_all sr (text "PONG") in
          if decide (rc2 <> Returned 0) then (AssertFails, wire)
          else (Passed (close s_fd (tcp_close c o2).2), wire)
    end.

(** The parent, up to the bytes it sends, and from the bytes it receives on. *)
Definition tcp_test_client_send (env : SetupEnv) (stack : list byte) (sr : list send_result)
  : option (TcpConnection * fds) * list byte :=
  match tcp_client_connect env stack (text "127.0.0.1") 9090 ∅ with
  | (_, None, _) => (None, [])
  | (_, Some c, o) =>
      let (rc, wire) := tcp_send_all sr (text "PING") in
      if decide (rc = Returned 0) then (Some (c, o), wire) else (None, wire)
  end.

Definition tcp_test_client_recv (conn : option (TcpConnection * fds)) (rr : list recv_result)
    (input : list byte) : verdict :=
  match conn with
  | None => AssertFails
  | Some (c, o) =>
      let '(rc, buf, _) := tcp_recv_all rr 4 input in
      if decide (rc <> Some 0 \/ streq buf (text "PONG") = false) then AssertFails
      else Passed (tcp_close c o).2
  end.

(** ** What the kernel has to do *)

(** Every call of the set-up succeeds. *)
Definition setup_works (env : SetupEnv) : Prop :=
  0 <= se_socket env /\ se_setsockopt env = true /\ se_nonblocking env = true /\
  se_pton env = true /\ se_bind env = true /\ se_listen env = true /\ se_connect env = true.

(** [sendto] takes the whole datagram, and it comes back within 100 polls from the
    port it was sent from. *)
Record loopback (k : UdpKernel) (port : Z) (data : list byte) : Prop := {
  lo_setup : setup_works (uk_setup k);
  lo_send : forall fd a, uk_sendto k fd data a = Z.of_nat (length data);
  lo_back : exists n ip, (n < 100)%nat /\ uk_recv k n = Datagram data ip (net_bytes 2 port) /\
    forall i, (i < n)%nat -> uk_recv k i = NoData;
}.

Lemma poll_delivers (recv : nat -> recvfrom) (max tries n i : nat) (data ip port : list byte)
    (last : Z * list byte * option (list byte * Z)) :
  (i <= n < i + tries)%nat -> recv n = Datagram data ip port ->
  (forall j, (j < n)%nat -> recv j = NoData) -> (0 < length data <= max)%nat ->
  poll recv max tries i last = (Z.of_nat (length data), data, Some (ip, of_net port)).
Proof.
  revert i last. induction tries as [|tries IH]; intros i last Hn Hd Hno Hlen; [lia|].
  cbn [poll]. destruct (decide (i = n)) as [->|Hne].
  - rewrite Hd. cbn [udp_recv]. rewrite take_ge by lia. cbn [fst].
    by rewrite Z.gtb_ltb, (proj2 (Z.ltb_lt _ _)) by lia.
  - rewrite Hno by lia. cbn. apply IH; try done. lia.
Qed.

Lemma udp_init_works (env : SetupEnv) (port : Z) :
  setup_works env ->
  udp_init env port ∅ = (0, Some {| u_sockfd := se_socket env; bind_port := port |}, opened (se_socket env) ∅).
Proof.
  intros (H0 & _ & H2 & H3 & H4 & _). unfold udp_init.
  by rewrite (proj2 (Z.ltb_ge _ _)), H2, H3, H4 by done.
Qed.

Lemma udp_closed (env : SetupEnv) (port : Z) :
  0 <= se_socket env ->
  (udp_close {| u_sockfd := se_socket env; bind_port := port |} (opened (se_socket env) ∅)).2 = ∅.
Proof.
  intros H. unfold udp_close. cbn [u_sockfd]. rewrite (proj2 (Z.geb_le _ _)) by lia. cbn.
  apply close_opened. set_solver.
Qed.

(** The UDP tests pass on every kernel that loops datagrams back within 100 polls, and
    leave no descriptor open. *)
Theorem udp_tests_pass (k1 k2 : UdpKernel) :
  loopback k1 9091 UDP_MESSAGE -> loopback k2 9090 (serializer_pack_gossip test_packet) ->
  test_udp k1 = Passed ∅ /\ test_gossip k2 = Passed ∅.
Proof.
  intros [Hs1 Hk1 (n1 & ip1 & Hn1 & Hr1 & Hq1)] [Hs2 Hk2 (n2 & ip2 & Hn2 & Hr2 & Hq2)]. split.
  - unfold test_udp, udp_send. rewrite udp_init_works, Hk1, Z.eqb_refl by done. cbn [negb].
    rewrite (poll_delivers _ _ _ n1 _ UDP_MESSAGE ip1 (net_bytes 2 9091)) by (done || (cbn; lia)).
    rewrite Z.eqb_refl. cbn [negb]. rewrite udp_closed by apply Hs1. done.
  - unfold test_gossip, udp_send. rewrite udp_init_works, Hk2 by done.
    change (length (serializer_pack_gossip test_packet)) with GOSSIP_SIZE. cbn [Z.gtb negb].
    rewrite (poll_delivers _ _ _ n2 _ (serializer_pack_gossip test_packet) ip2 (net_bytes 2 9090))
      by (done || (vm_compute; lia) || lia).
    rewrite udp_closed by apply Hs2. vm_compute. reflexivity.
Qed.

(** The TCP test passes for every way the kernel splits the four bytes each way, and
    both processes close what they opened. *)
Theorem tcp_test_passes (es ec : SetupEnv) (client port : Z) (ip stack : list byte)
    (cs ss : list send_result) (ck sk : list nat) :
  setup_works es -> setup_works ec -> 0 <= client -> client <> se_socket es ->
  Forall send_progress cs -> (4 <= sum_list (map sent_count cs))%nat ->
  Forall send_progress ss -> (4 <= sum_list (map sent_count ss))%nat ->
  Forall (fun k => 0 < k)%nat ck -> (4 <= length ck)%nat ->
  Forall (fun k => 0 < k)%nat sk -> (4 <= length sk)%nat ->
  let (conn, to_server) := tcp_test_client_send ec stack cs in
  let (v, to_client) := tcp_test_server es client ip port (map Received sk) ss to_server in
  v = Passed ∅ /\ tcp_test_client_recv conn (map Received ck) to_client = Passed ∅.
Proof.
  intros (S0 & S1 & S2 & S3 & S4 & S5 & S6) (C0 & C1 & C2 & C3 & C4 & C5 & C6) Hc Hne
    Hcs Lcs Hss Lss Hck Lck Hsk Lsk.
  unfold tcp_test_client_send, tcp_client_connect.
  rewrite (proj2 (Z.ltb_ge (se_socket ec) 0)), C3, C6 by done. cbn [negb].
  rewrite (send_all_ok cs (text "PING")), decide_True by done.
  unfold tcp_test_server, tcp_server_listen.
  rewrite (proj2 (Z.ltb_ge (se_socket es) 0)), S1, S3, S4, S5 by done. cbn [negb].
  rewrite (proj2 (Z.ltb_ge (se_socket es) 0)) by done.
  unfold tcp_server_accept. rewrite (proj2 (Z.ltb_ge client 0)) by done.
  pose proof (recv_all_ok sk (text "PING") [] Hsk Lsk) as HR. rewrite app_nil_r in HR.
  change (length (text "PING")) with 4%nat in HR. rewrite HR.
  rewrite decide_False by (intros [?|?]; done).
  rewrite (send_all_ok ss (text "PONG")), decide_False by (done || by intros ?).
  pose proof (recv_all_ok ck (text "PONG") [] Hck Lck) as HC. rewrite app_nil_r in HC.
  change (length (text "PONG")) with 4%nat in HC.
  unfold tcp_test_client_recv. rewrite HC, decide_False by (intros [?|?]; done).
  unfold tcp_close. cbn [sockfd]. rewrite !(proj2 (Z.geb_le _ _)) by lia. cbn [snd].
  split; f_equal; unfold close, opened; set_solver.
Qed.

(** A kernel that delivers at the third poll. *)
Definition demo_udp_kernel (port : Z) (data : list byte) : UdpKernel :=
  {| uk_setup := {| se_socket := 3; se_setsockopt := true; se_nonblocking := true; se_pton := true;
                    se_bind := true; se_listen := true; se_connect := true |};
     uk_pton := fun _ => Some [x7f; x00; x00; x01];
     uk_sendto := fun _ d _ => Z.of_nat (length d);
     uk_recv := fun i => if Nat.eqb i 2 then Datagram data (text "127.0.0.1") (net_bytes 2 port)
                         else NoData |}.

Lemma demo_loopback (port : Z) (data : list byte) : loopback (demo_udp_kernel port data) port data.
Proof.
  split; [by repeat split|done|]. exists 2%nat, (text "127.0.0.1"). split; [lia|]. split; [done|].
  intros i Hi. cbn. by rewrite (proj2 (Nat.eqb_neq _ _)) by lia.
Qed.

Lemma udp_tests_pass_witness :
  test_udp (demo_udp_kernel 9091 UDP_MESSAGE) = Passed ∅ /\
  test_gossip (demo_udp_kernel 9090 (serializer_pack_gossip test_packet)) = Passed ∅.
Proof. apply udp_tests_pass; apply demo_loopback. Defined.

(** The polling gives up: without an answer the assertion fails. *)
Example test_udp_no_answer :
  test_udp {| (demo_udp_kernel 9091 UDP_MESSAGE) with uk_recv := fun _ => NoData |} = AssertFails.
Proof. vm_compute. reflexivity. Qed.

Lemma tcp_test_passes_witness :
  let env := uk_setup (demo_udp_kernel 0 []) in
  let (conn, to_server) := tcp_test_client_send env (zeros 46) [Sent 1; SendInterrupted; Sent 3] in
  let (v, to_client) := tcp_test_server env 4 (zeros 46) 4000 (map Received [2; 1; 1; 1]%nat) [Sent 4]
                          to_server in
  v = Passed ∅ /\ tcp_test_client_recv conn (map Received [4; 1; 1; 1]%nat) to_client = Passed ∅.
Proof.
  apply (tcp_test_passes (uk_setup (demo_udp_kernel 0 [])) (uk_setup (demo_udp_kernel 0 [])) 4 4000
           (zeros 46) (zeros 46) [Sent 1; SendInterrupted; Sent 3] [Sent 4] [4; 1; 1; 1]%nat
           [2; 1; 1; 1]%nat); try (by repeat split); try (by repeat constructor); cbn; lia.
Defined.
