(* ===== verification/KvRules.v ===== *)
(** * Rule store and rule engine

    Models [src/cluster/kv_store.c] and [src/cluster/rule_engine.c] with the
    rule types of [include/common/types.h].  The store owns its [RuleConfig]
    objects, so the array with its count is a list of them; it keeps the address
    of a rule chain that belongs to the caller, so rules live in a heap. *)

From stdpp Require Import finite.
From S2P Require Import Prelude RaftCore.

(** ** Data *)

Definition MAX_KV_ENTRIES : Z := 1024.

Abbreviation rule_ptr := positive.

Record Rule : Type := {
  rule_definition : list byte;
  rule_definition_len : Z;
  rule_next : option rule_ptr;
}.

Record RuleConfig : Type := {
  rc_key : list byte;
  rule_head : option rule_ptr;
}.

Definition store_count (st : list RuleConfig) : Z := Z.of_nat (length st).

(** ** Store *)

Definition kv_init : Z * list RuleConfig := (0, []).

Definition find_config (st : list RuleConfig) (key : list byte) : option (nat * RuleConfig) :=
  list_find (fun c => streq (rc_key c) key = true) st.

Definition kv_update_rule (alloc : bool) (st : list RuleConfig) (key : list byte)
    (rules : option rule_ptr) : Z * list RuleConfig :=
  match find_config st key with
  | Some (i, c) => (0, <[i := {| c with rule_head := rules |}]> st)
  | None =>
      if store_count st >=? MAX_KV_ENTRIES then (-1, st)
      else if negb alloc then (-1, st)
      else (0, st ++ [{| rc_key := strncpy (zeros 64) key 63; rule_head := rules |}])
  end.

(** NULL for an unknown key. *)
Definition kv_get_rules (st : list RuleConfig) (key : list byte) : option rule_ptr :=
  match find_config st key with
  | Some (_, c) => rule_head c
  | None => None
  end.

Definition kv_destroy (st : list RuleConfig) : list RuleConfig := [].

(** ** Rule engine *)

Fixpoint starts_with (needle hay : list byte) : bool :=
  match needle, hay with
  | [], _ => true
  | n :: needle', h :: hay' => Byte.eqb n h && starts_with needle' hay'
  | _, [] => false
  end.

(** [strstr(hay, needle) != NULL], on the bytes before the terminator. *)
Fixpoint has_substring (needle hay : list byte) : bool :=
  starts_with needle hay ||
  match hay with
  | [] => false
  | _ :: hay' => has_substring needle hay'
  end.

Definition strstr (hay needle : list byte) : bool := has_substring (cstr needle) (cstr hay).

Definition REJECT : list byte := text "REJECT".

(** The largest [int]. *)
Definition INT_MAX : Z := 2 ^ 31 - 1.

(** The [while] loop; [n] is the [int] [rule_count], whose overflow is undefined.
    [None] when it is still running after [fuel] rounds; otherwise the return code
    and the number of rules applied. *)
Fixpoint execute_loop (fuel : nat) (h : gmap rule_ptr Rule) (current : option rule_ptr) (n : Z)
  : option (outcome (Z * Z)) :=
  match fuel with
  | O => None
  | S fuel' =>
      match current with
      | None => Some (Returns (0, n))
      | Some p =>
          if n >=? INT_MAX then Some Undefined
          else
          match h !! p with
          | None => Some Undefined
          | Some r =>
              if strstr (rule_definition r) REJECT then Some (Returns (-1, n + 1))
              else execute_loop fuel' h (rule_next r) (n + 1)
          end
      end
  end.

Definition execute_rules (fuel : nat) (h : gmap rule_ptr Rule) (rule_chain : option rule_ptr)
  : option (outcome (Z * Z)) :=
  execute_loop fuel h rule_chain 0.

(** ** The store as a map *)

Definition kv_map (st : list RuleConfig) : gmap (list byte) (option rule_ptr) :=
  list_to_map (map (fun c => (cstr (rc_key c), rule_head c)) st).

(** Stored keys are terminated arrays, and distinct. *)
Record kv_wf (st : list RuleConfig) : Prop := {
  kv_arrays : Forall (fun c => char_array 64 (rc_key c)) st;
  kv_nodup : NoDup (map (fun c => cstr (rc_key c)) st);
}.

Lemma kv_keys (st : list RuleConfig) :
  (map (fun c => (cstr (rc_key c), rule_head c)) st).*1 = map (fun c => cstr (rc_key c)) st.
Proof. induction st as [|c st IH]; [done|]. cbn. by f_equal. Qed.

Lemma find_config_Some (st : list RuleConfig) (key : list byte) (i : nat) (c : RuleConfig) :
  kv_wf st -> find_config st key = Some (i, c) ->
  st !! i = Some c /\ cstr (rc_key c) = cstr key /\ kv_map st !! cstr key = Some (rule_head c).
Proof.
  intros [_ Hnd] Hf. apply list_find_Some in Hf as (Hi & Hk & _). apply streq_true in Hk.
  split; [done|]. split; [done|]. apply elem_of_list_to_map_1; [by rewrite kv_keys|].
  apply list_elem_of_fmap. exists c. split; [by rewrite Hk|]. by eapply list_elem_of_lookup_2.
Qed.

Lemma find_config_None (st : list RuleConfig) (key : list byte) :
  find_config st key = None ->
  (cstr key ∉ map (fun c => cstr (rc_key c)) st) /\ kv_map st !! cstr key = None.
Proof.
  intros Hf. apply list_find_None in Hf.
  assert (cstr key ∉ map (fun c => cstr (rc_key c)) st) as Hn.
  { intros (c & Hk & Hc)%list_elem_of_fmap. eapply Forall_forall in Hf; [|done]. apply Hf.
    by apply streq_true. }
  split; [done|]. apply not_elem_of_list_to_map_1. by rewrite kv_keys.
Qed.

(** Replacing the chain of an entry. *)
Lemma kv_set_head (st : list RuleConfig) (i : nat) (c : RuleConfig) (rules : option rule_ptr) :
  let c' := {| c with rule_head := rules |} in
  kv_wf st -> st !! i = Some c ->
  kv_wf (<[i := c']> st) /\ kv_map (<[i := c']> st) = <[cstr (rc_key c) := rules]> (kv_map st).
Proof.
  intros c' [Ha Hnd] Hi.
  assert (map (fun c => cstr (rc_key c)) (<[i := c']> st) = map (fun c => cstr (rc_key c)) st)
    as Hkeys.
  { rewrite list_fmap_insert. apply list_insert_id. by rewrite list_lookup_fmap, Hi. }
  split.
  { split; [|by rewrite Hkeys]. apply Forall_insert; [done|]. cbn.
    eapply Forall_lookup_1 in Ha; done. }
  apply map_eq. intros k. unfold kv_map. destruct (decide (k = cstr (rc_key c))) as [->|Hne].
  - rewrite lookup_insert_eq. apply elem_of_list_to_map_1; [by rewrite kv_keys, Hkeys|].
    apply list_elem_of_fmap. exists c'. split; [done|].
    eapply list_elem_of_lookup_2, list_lookup_insert_eq. by eapply lookup_lt_Some.
  - rewrite lookup_insert_ne by done.
    apply option_eq. intros v. rewrite <- !elem_of_list_to_map by by rewrite kv_keys, ?Hkeys.
    rewrite !list_elem_of_fmap. split; intros (d & [= -> ->] & Hd); exists d; (split; [done|]).
    + apply list_elem_of_lookup in Hd as [j Hj]. apply list_lookup_insert_Some in Hj.
      destruct Hj as [(-> & <- & _)|[_ Hj]]; [by destruct Hne|by eapply list_elem_of_lookup_2].
    + apply list_elem_of_lookup in Hd as [j Hj]. apply (list_elem_of_lookup_2 _ j).
      rewrite list_lookup_insert_ne; [done|]. intros ->. simplify_eq.
Qed.

Lemma key64 (key : list byte) :
  char_array 64 (strncpy (zeros 64) key 63) /\
  cstr (strncpy (zeros 64) key 63) = take 63 (cstr key).
Proof.
  assert (0 < 64)%nat as H0 by lia. split.
  - apply (strncpy_char_array 64); [done|by apply char_array_zeros].
  - apply (cstr_strncpy 64); [done|by apply char_array_zeros].
Qed.

(** Appending an entry with a new key. *)
Lemma kv_append (st : list RuleConfig) (c : RuleConfig) :
  kv_wf st -> char_array 64 (rc_key c) -> (cstr (rc_key c) ∉ map (fun c => cstr (rc_key c)) st) ->
  kv_wf (st ++ [c]) /\ kv_map (st ++ [c]) = <[cstr (rc_key c) := rule_head c]> (kv_map st).
Proof.
  intros [Ha Hnd] Hc Hn. split.
  - split; [apply Forall_app; split; [done|by constructor]|].
    rewrite map_app. apply NoDup_app. split; [done|]. split; [set_solver|apply NoDup_singleton].
  - unfold kv_map. rewrite map_app, list_to_map_app. cbn [map list_to_map foldr].
    fold (kv_map st). cbn. rewrite <- insert_union_r, (right_id_L ∅ (∪)); [done|].
    apply not_elem_of_list_to_map_1. by rewrite kv_keys.
Qed.

(** C33: the rule store is a map.  [kv_get_rules] returns what the map holds for
    the key, as a C string, and NULL otherwise.  For keys of at most 63 bytes
    [kv_update_rule] succeeds exactly when the key is present or there is room
    (1024 entries) and memory; it then sets the key's chain and no other, keeping
    keys distinct; on failure nothing changes. *)
Theorem kv_refines_map (alloc : bool) (st : list RuleConfig) (key : list byte)
    (rules : option rule_ptr) :
  kv_wf st ->
  kv_get_rules st key = mjoin (kv_map st !! cstr key) /\
  ((length (cstr key) < 64)%nat ->
   let (rc, st') := kv_update_rule alloc st key rules in
   kv_wf st' /\
   if decide (is_Some (kv_map st !! cstr key) \/ store_count st < MAX_KV_ENTRIES /\ alloc = true)
   then rc = 0 /\ kv_map st' = <[cstr key := rules]> (kv_map st)
   else rc = -1 /\ st' = st).
Proof.
  intros Hwf. unfold kv_get_rules, kv_update_rule.
  destruct (find_config st key) as [[i c]|] eqn:E.
  - apply find_config_Some in E as (Hi & Hk & Hm); [|done]. rewrite Hm. split; [done|].
    intros Hlen. destruct (kv_set_head st i c rules Hwf Hi) as [Hwf' Hmap]. split; [done|].
    rewrite decide_True by (left; eauto). split; [done|]. by rewrite <- Hk.
  - apply find_config_None in E as [Hn Hm]. rewrite Hm. split; [done|]. intros Hlen.
    destruct (Z.geb_spec (store_count st) MAX_KV_ENTRIES) as [Hfull|Hroom].
    { split; [done|]. rewrite decide_False; [done|]. intros [[]|[]]; [done|lia]. }
    destruct alloc; cbn [negb].
    2:{ split; [done|]. rewrite decide_False; [done|]. by intros [[]|[]]. }
    destruct (key64 key) as [Ha Hck]. rewrite take_ge in Hck by lia.
    destruct (kv_append st {| rc_key := strncpy (zeros 64) key 63; rule_head := rules |})
      as [Hwf' Hmap]; [done|done|cbn; by rewrite Hck|]. cbn in Hmap. rewrite Hck in Hmap.
    split; [done|]. rewrite decide_True by (right; split; [lia|done]). done.
Qed.

Definition demo_store : list RuleConfig :=
  (kv_update_rule true [] (text "limits") (Some 1%positive)).2.

Lemma kv_empty_wf : kv_wf [].
Proof. split; constructor. Qed.

Lemma demo_store_wf : kv_wf demo_store.
Proof.
  split; repeat constructor; try (vm_compute; done). cbn. set_solver.
Qed.

Lemma kv_refines_map_witness :
  kv_get_rules demo_store (text "limits") = Some 1%positive /\
  (kv_update_rule true demo_store (text "quota") None).1 = 0.
Proof.
  destruct (kv_refines_map true demo_store (text "limits") None demo_store_wf) as [Hg _].
  destruct (kv_refines_map true demo_store (text "quota") None demo_store_wf) as [_ Hu].
  split; [rewrite Hg; vm_compute; reflexivity|].
  destruct (kv_update_rule true demo_store (text "quota") None) as [rc st'].
  destruct Hu as [_ Hu]; [vm_compute; lia|]. rewrite decide_True in Hu; [apply Hu|].
  right. split; [vm_compute; reflexivity|reflexivity].
Defined.

(** A key of 64 bytes or more is lost.  It is stored cut to 63 bytes, the
    search compares the whole key, so it never finds it again: every update of
    the key reports success and uses up another entry, until the store is full,
    and [kv_get_rules] keeps returning NULL for it. *)
Theorem kv_long_key_lost (st : list RuleConfig) (key : list byte) (rules : list (option rule_ptr)) :
  Forall (fun c => char_array 64 (rc_key c)) st -> (64 <= length (cstr key))%nat ->
  store_count st + Z.of_nat (length rules) <= MAX_KV_ENTRIES ->
  let st' := foldl (fun s r => (kv_update_rule true s key r).2) st rules in
  (forall r, store_count st < MAX_KV_ENTRIES -> (kv_update_rule true st key r).1 = 0) /\
  store_count st' = store_count st + Z.of_nat (length rules) /\ kv_get_rules st' key = None.
Proof.
  intros Ha Hlen. assert (forall s, Forall (fun c => char_array 64 (rc_key c)) s ->
    find_config s key = None) as Hnone.
  { intros s Hs. apply list_find_None. eapply Forall_impl; [exact Hs|]. intros c Hc.
    rewrite streq_true. intros He. apply (f_equal length) in He.
    pose proof (cstr_char_array_length 64 (rc_key c) ltac:(lia) Hc). lia. }
  intros Hroom. cbn zeta. split.
  { intros r Hr. unfold kv_update_rule. rewrite (Hnone st Ha).
    by destruct (Z.geb_spec (store_count st) MAX_KV_ENTRIES); [lia|]. }
  revert st Ha Hroom. induction rules as [|r rules IH]; intros st Ha Hroom; cbn [foldl].
  { unfold kv_get_rules. rewrite (Hnone st Ha). split; [cbn; lia|done]. }
  cbn [length] in Hroom.
  assert ((kv_update_rule true st key r).2
          = st ++ [{| rc_key := strncpy (zeros 64) key 63; rule_head := r |}]) as ->.
  { unfold kv_update_rule. rewrite (Hnone st Ha).
    destruct (Z.geb_spec (store_count st) MAX_KV_ENTRIES); [lia|done]. }
  destruct (IH (st ++ [{| rc_key := strncpy (zeros 64) key 63; rule_head := r |}])) as [Hc Hg].
  - apply Forall_app. split; [done|]. constructor; [|done]. apply key64.
  - unfold store_count in *. rewrite length_app. cbn. lia.
  - split; [|done]. rewrite Hc. unfold store_count. rewrite length_app. cbn. lia.
Qed.

Lemma kv_long_key_lost_witness :
  let key := replicate 70 x61 in
  let st' := foldl (fun s r => (kv_update_rule true s key r).2) demo_store [Some 2%positive; None] in
  store_count st' = 3 /\ kv_get_rules st' key = None.
Proof.
  intros key st'.
  destruct (kv_long_key_lost demo_store key [Some 2%positive; None]) as (_ & Hc & Hg).
  - apply demo_store_wf.
  - vm_compute. lia.
  - vm_compute. discriminate.
  - split; [exact Hc|exact Hg].
Defined.

(** ** Rule chains *)

Lemma starts_with_spec (needle hay : list byte) :
  starts_with needle hay = true <-> needle `prefix_of` hay.
Proof.
  revert hay. induction needle as [|n needle IH]; intros [|h hay]; cbn.
  - split; [intros; apply prefix_nil|done].
  - split; [intros; apply prefix_nil|done].
  - split; [done|]. by intros ?%prefix_nil_not.
  - rewrite andb_true_iff, IH. split.
    + intros [->%Byte.byte_dec_bl Hp]. by apply prefix_cons.
    + intros Hp. split; [|by eapply prefix_cons_inv_2]. apply prefix_cons_inv_1 in Hp as ->.
      by apply Byte.byte_dec_lb.
Qed.

Lemma has_substring_spec (needle hay : list byte) :
  has_substring needle hay = true <-> exists a b, hay = a ++ needle ++ b.
Proof.
  revert needle. induction hay as [|h hay IH]; intros needle; cbn; rewrite orb_true_iff, starts_with_spec.
  - split.
    + intros [[b Hb]|?]; [|done]. by exists [], b.
    + intros (a & b & Hab). left. symmetry in Hab. apply app_eq_nil in Hab as [-> Hab]. by exists b.
  - rewrite IH. split.
    + intros [[b Hb]|(a & b & ->)]; [by exists [], b|by exists (h :: a), b].
    + intros ([|x a] & b & Hab); [left; by exists b|right]. cbn in Hab. injection Hab as -> ->. eauto.
Qed.

(** [o] heads a chain of rules with the definitions [ds] in memory [h], through
    the addresses [ps]. *)
Fixpoint rule_chain (h : gmap rule_ptr Rule) (o : option rule_ptr) (ps : list rule_ptr)
    (ds : list (list byte)) : Prop :=
  match ps, ds with
  | [], [] => o = None
  | p :: ps', d :: ds' => o = Some p /\
      exists r, h !! p = Some r /\ rule_definition r = d /\ rule_chain h (rule_next r) ps' ds'
  | _, _ => False
  end.

Definition rejects (d : list byte) : Prop := exists a b, cstr d = a ++ REJECT ++ b.

Lemma strstr_rejects (d : list byte) : strstr d REJECT = true <-> rejects d.
Proof. unfold strstr, rejects. change (cstr REJECT) with REJECT. apply has_substring_spec. Qed.

#[export] Instance rejects_dec (d : list byte) : Decision (rejects d).
Proof.
  refine (cast_if (decide (strstr d REJECT = true))); by rewrite <- strstr_rejects.
Defined.

(** What applying rules with the definitions [ds] comes to when [n] were applied
    before: -1 at the first one that rejects, 0 after the last, and the overflow
    of the counter when that comes first. *)
Definition rules_verdict (ds : list (list byte)) (n : Z) : outcome (Z * Z) :=
  match list_find rejects ds with
  | Some (i, _) =>
      if decide (n + Z.of_nat i < INT_MAX) then Returns (-1, n + Z.of_nat i + 1) else Undefined
  | None =>
      if decide (n + Z.of_nat (length ds) <= INT_MAX) then Returns (0, n + Z.of_nat (length ds))
      else Undefined
  end.

Lemma rules_verdict_pass (d : list byte) (ds : list (list byte)) (n : Z) :
  ~ rejects d -> rules_verdict (d :: ds) n = rules_verdict ds (n + 1).
Proof.
  intros Hd. unfold rules_verdict. cbn [list_find length]. rewrite decide_False by done.
  destruct (list_find rejects ds) as [[i x]|]; cbn; repeat case_decide; try lia; do 2 f_equal; lia.
Qed.

Lemma execute_loop_spec (h : gmap rule_ptr Rule) (ps : list rule_ptr) (ds : list (list byte))
    (fuel : nat) (n : Z) (o : option rule_ptr) :
  rule_chain h o ps ds -> (length ps < fuel)%nat -> n <= INT_MAX ->
  execute_loop fuel h o n = Some (rules_verdict ds n).
Proof.
  revert ds fuel n o. induction ps as [|p ps IH]; intros [|d ds] [|fuel] n o Hc Hl Hn;
    cbn [rule_chain length] in Hc, Hl; try done; try lia.
  { subst. unfold rules_verdict. cbn. rewrite Z.add_0_r. by rewrite decide_True. }
  destruct Hc as (-> & r & Hp & <- & Hc). cbn [execute_loop]. rewrite Hp, Z.geb_leb.
  destruct (Z.leb_spec INT_MAX n) as [Ho|Ho].
  { f_equal. unfold rules_verdict. destruct (list_find _ _) as [[i x]|]; [|cbn [length]];
      rewrite decide_False; [done|lia|done|lia]. }
  destruct (strstr (rule_definition r) REJECT) eqn:E.
  { apply strstr_rejects in E. unfold rules_verdict. cbn [list_find]. rewrite decide_True by done.
    cbn. by rewrite decide_True, Z.add_0_r by lia. }
  rewrite rules_verdict_pass by (by rewrite <- strstr_rejects, E).
  apply IH; [done|lia|lia].
Qed.

(** C38: the rule engine stops at the first rejecting rule.  On a chain of [k] rules
    in memory [execute_rules] ends within [k + 1] rounds: when rule number [i]
    (counted from 1) is the first whose definition contains the text REJECT it
    returns -1 with exactly [i] rules applied, when there is none it returns 0 with
    all [k] applied, and when the number of rules applied would exceed an [int] the
    behaviour is undefined. *)
Theorem execute_rules_rejects (h : gmap rule_ptr Rule) (o : option rule_ptr)
    (ps : list rule_ptr) (ds : list (list byte)) (fuel : nat) :
  rule_chain h o ps ds -> (length ps < fuel)%nat ->
  execute_rules fuel h o = Some
    match list_find rejects ds with
    | Some (i, _) => if decide (Z.of_nat i < INT_MAX) then Returns (-1, Z.of_nat i + 1) else Undefined
    | None =>
        if decide (Z.of_nat (length ds) <= INT_MAX) then Returns (0, Z.of_nat (length ds)) else Undefined
    end.
Proof.
  intros Hc Hfuel. unfold execute_rules. by rewrite (execute_loop_spec h ps ds fuel 0 o Hc Hfuel).
Qed.

Definition demo_rules : gmap rule_ptr Rule :=
  {[ 1%positive := {| rule_definition := text "allow"; rule_definition_len := 5;
                      rule_next := Some 2%positive |};
     2%positive := {| rule_definition := text "if x then REJECT"; rule_definition_len := 16;
                      rule_next := Some 3%positive |};
     3%positive := {| rule_definition := text "log"; rule_definition_len := 3;
                      rule_next := None |} ]}.

Lemma execute_rules_rejects_witness :
  execute_rules 4 demo_rules (Some 1%positive) = Some (Returns (-1, 2)).
Proof.
  rewrite (execute_rules_rejects demo_rules (Some 1%positive) [1; 2; 3]%positive
             [text "allow"; text "if x then REJECT"; text "log"] 4).
  - reflexivity.
  - cbn. split; [done|]. eexists. split; [reflexivity|]. split; [done|].
    split; [done|]. eexists. split; [reflexivity|]. split; [done|].
    split; [done|]. eexists. split; [reflexivity|]. split; done.
  - cbn. lia.
Defined.

(** ** Termination of the rule engine *)

(** The rule after [k] more rounds, while they pass rules in memory. *)
Fixpoint rule_after (h : gmap rule_ptr Rule) (k : nat) (o : option rule_ptr) : option rule_ptr :=
  match k with
  | O => o
  | S k' => r ← o ≫= (fun p => h !! p); rule_after h k' (rule_next r)
  end.

(** The round at [o] goes on to the next rule. *)
Definition passes (h : gmap rule_ptr Rule) (o : option rule_ptr) : Prop :=
  exists p r, o = Some p /\ h !! p = Some r /\ strstr (rule_definition r) REJECT = false.

Lemma rule_after_add (h : gmap rule_ptr Rule) (j k : nat) (o : option rule_ptr) :
  (forall i, (i < j)%nat -> passes h (rule_after h i o)) ->
  rule_after h (j + k) o = rule_after h k (rule_after h j o).
Proof.
  revert o. induction j as [|j IH]; intros o Hp; [done|].
  destruct (Hp 0%nat) as (p & r & Ho & Hr & _); [lia|]. cbn in Ho. subst o. cbn. rewrite Hr. cbn.
  apply IH. intros i Hi. specialize (Hp (S i)). cbn in Hp. rewrite Hr in Hp. apply Hp. lia.
Qed.

(** The loop is running after [fuel] rounds exactly when all of them passed a rule
    and the counter has not overflowed. *)
Lemma still_running (h : gmap rule_ptr Rule) (fuel : nat) (n : Z) (o : option rule_ptr) :
  n <= INT_MAX ->
  (execute_loop fuel h o n = None <->
   n + Z.of_nat fuel <= INT_MAX /\ forall i, (i < fuel)%nat -> passes h (rule_after h i o)).
Proof.
  revert n o. induction fuel as [|fuel IH]; intros n o Hn; cbn [execute_loop].
  { split; [intros _; split; lia|done]. }
  rewrite Z.geb_leb. split.
  - intros He. destruct o as [p|]; [|done]. destruct (Z.leb_spec INT_MAX n); [done|].
    destruct (h !! p) as [r|] eqn:Er; [|done]. destruct (strstr _ _) eqn:E; [done|].
    apply IH in He as [Hf Hp]; [|lia]. split; [lia|]. intros [|i] Hi; cbn; [by exists p, r|].
    rewrite Er. cbn. apply Hp. lia.
  - intros [Hf Hp]. destruct (Hp 0%nat) as (p & r & Ho & Hr & E); [lia|]. cbn in Ho. subst o.
    destruct (Z.leb_spec INT_MAX n); [lia|]. rewrite Hr, E. apply IH; [lia|]. split; [lia|].
    intros i Hi. specialize (Hp (S i)). cbn in Hp. rewrite Hr in Hp. apply Hp. lia.
Qed.

(** A loop that passes every rule overflows its counter. *)
Lemma counter_overflows (h : gmap rule_ptr Rule) (fuel : nat) (n : Z) (o : option rule_ptr) :
  (forall i, passes h (rule_after h i o)) -> n <= INT_MAX -> INT_MAX < n + Z.of_nat fuel ->
  execute_loop fuel h o n = Some Undefined.
Proof.
  revert n o. induction fuel as [|fuel IH]; intros n o Hp Hn Hf; [lia|]. cbn [execute_loop].
  destruct (Hp 0%nat) as (p & r & Ho & Hr & E). cbn in Ho. subst o. rewrite Z.geb_leb.
  destruct (Z.leb_spec INT_MAX n); [done|]. rewrite Hr, E. apply IH; [|lia|lia].
  intros i. specialize (Hp (S i)). cbn in Hp. by rewrite Hr in Hp.
Qed.

Lemma execute_loop_mono (h : gmap rule_ptr Rule) (fuel fuel' : nat) (n : Z) (o : option rule_ptr)
    (r : outcome (Z * Z)) :
  execute_loop fuel h o n = Some r -> (fuel <= fuel')%nat -> execute_loop fuel' h o n = Some r.
Proof.
  revert fuel' n o. induction fuel as [|fuel IH]; intros [|fuel'] n o; cbn; try done; try lia.
  intros He Hle. destruct o as [p|]; [|done]. destruct (n >=? INT_MAX); [done|].
  destruct (h !! p); [|done]. destruct (strstr _ _); [done|]. apply IH; [done|lia].
Qed.

(** Among the rules passed in more rounds than memory holds rules, one occurs
    twice. *)
Lemma passes_repeat (h : gmap rule_ptr Rule) (o : option rule_ptr) :
  (forall i, (i < S (size h))%nat -> passes h (rule_after h i o)) ->
  exists i j, (i < j <= size h)%nat /\ rule_after h i o = rule_after h j o.
Proof.
  intros Hp. set (l := map (fun i => rule_after h i o) (seq 0 (S (size h)))).
  destruct (list_pigeonhole l (Some <$> (map_to_list h).*1)) as (i & j & x & Hij & Hi & Hj).
  - intros x (i & -> & Hi%elem_of_seq)%list_elem_of_fmap.
    destruct (Hp i) as (p & r & -> & Hr & _); [lia|]. apply list_elem_of_fmap. exists p. split; [done|].
    apply list_elem_of_fmap. exists (p, r). split; [done|]. by apply elem_of_map_to_list.
  - unfold l. rewrite !length_fmap, length_map_to_list, length_seq. lia.
  - unfold l in Hi, Hj. rewrite list_lookup_fmap in Hi, Hj.
    apply fmap_Some in Hi as (a & [-> Ha]%lookup_seq & Hi).
    apply fmap_Some in Hj as (b & [-> Hb]%lookup_seq & Hj).
    cbn [Nat.add] in *. exists i, j. split; [lia|congruence].
Qed.

(** C39: termination of the rule engine.  One round more than there are rules in
    memory decides it.  An [execute_rules] that has ended by then ends in the same
    way for every larger number of rounds.  One that has not is on a chain of rules
    without REJECT that leads back into itself: it goes on for 2^31 - 1 rounds and
    then overflows its counter, which is undefined behaviour; it never returns. *)
Theorem execute_rules_terminates (h : gmap rule_ptr Rule) (o : option rule_ptr) :
  match execute_rules (S (size h)) h o with
  | Some r => forall fuel, (S (size h) <= fuel)%nat -> execute_rules fuel h o = Some r
  | None =>
      (forall fuel, execute_rules fuel h o =
         if decide (Z.of_nat fuel <= INT_MAX) then None else Some Undefined) /\
      exists i j, (i < j <= size h)%nat /\ rule_after h i o = rule_after h j o /\
        is_Some (rule_after h i o)
  end.
Proof.
  unfold execute_rules. destruct (execute_loop (S (size h)) h o 0) as [r|] eqn:E.
  - intros fuel Hle. by eapply execute_loop_mono.
  - apply still_running in E as [_ E]; [|done]. destruct (passes_repeat h o E) as (i & j & Hij & Heq).
    assert (forall k, passes h (rule_after h k o)) as Hall.
    { intros k. induction k as [k IH] using lt_wf_ind.
      destruct (decide (k < S (size h))%nat) as [Hk|Hk]; [by apply E|].
      replace k with (j + (k - j))%nat by lia. rewrite rule_after_add by (intros; apply IH; lia).
      rewrite <- Heq, <- rule_after_add by (intros; apply IH; lia). apply IH. lia. }
    split.
    { intros fuel. case_decide as Hf; [apply still_running; [done|]; split; [lia|auto]|].
      apply counter_overflows; [done|done|lia]. }
    exists i, j. split; [done|]. split; [done|]. destruct (Hall i) as (p & r & -> & _). eauto.
Qed.

(** Two rules that lead to each other. *)
Definition demo_cycle : gmap rule_ptr Rule :=
  {[ 1%positive := {| rule_definition := text "allow"; rule_definition_len := 5;
                      rule_next := Some 2%positive |};
     2%positive := {| rule_definition := text "log"; rule_definition_len := 3;
                      rule_next := Some 1%positive |} ]}.

Lemma execute_rules_terminates_witness :
  execute_rules 500 demo_cycle (Some 1%positive) = None /\
  execute_rules (Z.to_nat (INT_MAX + 1)) demo_cycle (Some 1%positive) = Some Undefined.
Proof.
  pose proof (execute_rules_terminates demo_cycle (Some 1%positive)) as H.
  replace (execute_rules (S (size demo_cycle)) demo_cycle (Some 1%positive))
    with (@None (outcome (Z * Z))) in H by (vm_compute; reflexivity).
  destruct H as [Hf _]. split.
  - rewrite (Hf 500%nat), decide_True; [reflexivity|]. vm_compute. discriminate.
  - rewrite (Hf (Z.to_nat (INT_MAX + 1))), decide_False; [reflexivity|].
    rewrite Z2Nat.id; [lia|]. vm_compute. discriminate.
Defined.
