(* ===== verification/Logger.v ===== *)
(** * Logger

    Models [src/common/logger.c]: a ring buffer between the thread that calls
    [log_msg] and the thread that runs [logger_worker].  The two threads are
    functions that make one access to shared memory per step; an execution is any
    interleaving of their steps (sequentially consistent: every index access of
    the worker is, and the producer's index accesses are ordered by their
    acquire and release).  The producer is one thread, as in the program.

    The text of a message is what [vsnprintf] would format without a bound; the
    time stamp is the clock's value. *)

From Stdlib Require Import DecimalString.
From S2P Require Import Prelude RaftCore.

(** ** Data *)

Definition LOG_BUFFER_SIZE : nat := 4096.
Definition LOG_MSG_LEN : nat := 128.

Inductive LogLevel : Type := LOG_DEBUG | LOG_INFO | LOG_WARN | LOG_ERROR.

Record LogEntry : Type := {
  timestamp : Z;
  level : LogLevel;
  message : list byte;
}.

(** Where the producer is inside [log_msg]: before the load of [write_idx], after
    it, before the write of each field of the slot, and before the store that
    publishes the slot. *)
Inductive producer : Type :=
  | PIdle
  | PLoadWrite (e : LogEntry)
  | PLoadRead (e : LogEntry) (w : Z)
  | PTimestamp (e : LogEntry) (w : Z)
  | PLevel (e : LogEntry) (w : Z)
  | PMessage (e : LogEntry) (w : Z)
  | PPublish (e : LogEntry) (w : Z).

(** Where the worker is: the two operands of the loop condition, the loads of the
    indices, the idle branch, the two writes of an entry, the store of
    [read_idx], and the end. *)
Inductive worker : Type :=
  | CWhile
  | CWhileIndices
  | CLoadRead
  | CLoadWrite (r : Z)
  | CIdle
  | CFile (r w : Z)
  | COut (r w : Z)
  | CStore (r : Z)
  | CExit.

#[export] Instance worker_eq_dec : EqDecision worker.
Proof. solve_decision. Defined.

(** The shared state, the two threads, and the lines written so far to the log
    file and to [stdout].  [pushed] is a history variable: the entries
    published. *)
Record Logger : Type := {
  ring_buffer : list LogEntry;
  write_idx : Z;
  read_idx : Z;
  lg_running : bool;
  prod : producer;
  cons_ : worker;
  file_lines : list (list byte);
  out_lines : list (list byte);
  pushed : list LogEntry;
}.

(** ** Steps *)

Definition level_str (l : LogLevel) : list byte :=
  text (match l with
        | LOG_ERROR => "ERR" | LOG_WARN => "WARN" | LOG_INFO => "INFO" | LOG_DEBUG => "DEBUG"
        end).

(** [fprintf(fp, "[%lu] [%s] %s\n", ...)] *)
Definition line (e : LogEntry) : list byte :=
  text "[" ++ text (NilZero.string_of_uint (N.to_uint (Z.to_N (timestamp e))))
  ++ text "] [" ++ level_str (level e) ++ text "] " ++ message e ++ [x0a].

(** [vsnprintf(entry->message, LOG_MSG_LEN, ...)] *)
Definition stored_message (txt : list byte) : list byte := take (LOG_MSG_LEN - 1) (cstr txt).

Definition slot (idx : Z) : nat := Z.to_nat (Z.land idx 4095).

Definition set_slot (idx : Z) (f : LogEntry -> LogEntry) (s : Logger) : Logger :=
  {| s with ring_buffer := alter f (slot idx) (ring_buffer s) |}.

(** Entering [log_msg]. *)
Definition log_call (ts : Z) (lv : LogLevel) (txt : list byte) (s : Logger) : Logger :=
  {| s with prod := PLoadWrite {| timestamp := ts; level := lv; message := stored_message txt |} |}.

Definition log_msg_step (s : Logger) : Logger :=
  match prod s with
  | PIdle => s
  | PLoadWrite e => {| s with prod := PLoadRead e (write_idx s) |}
  | PLoadRead e w =>
      if (w -64 read_idx s) >=? Z.of_nat LOG_BUFFER_SIZE then {| s with prod := PIdle |}
      else {| s with prod := PTimestamp e w |}
  | PTimestamp e w =>
      {| (set_slot w (fun x => {| x with timestamp := timestamp e |}) s) with prod := PLevel e w |}
  | PLevel e w =>
      {| (set_slot w (fun x => {| x with level := level e |}) s) with prod := PMessage e w |}
  | PMessage e w =>
      {| (set_slot w (fun x => {| x with message := message e |}) s) with prod := PPublish e w |}
  | PPublish e w =>
      {| s with write_idx := w +64 1; prod := PIdle; pushed := pushed s ++ [e] |}
  end.

(** Reads fields of an updated state. *)
Ltac view :=
  cbn [prod cons_ pushed ring_buffer write_idx read_idx lg_running file_lines out_lines].

Section Worker.
(** Whether [fopen] succeeded. *)
Context (file_open : bool).

Definition read_slot (idx : Z) (s : Logger) : list (list byte) :=
  match ring_buffer s !! slot idx with Some e => [line e] | None => [] end.

Definition logger_worker_step (s : Logger) : Logger :=
  match cons_ s with
  | CWhile => {| s with cons_ := if lg_running s then CLoadRead else CWhileIndices |}
  | CWhileIndices =>
      {| s with cons_ := if read_idx s =? write_idx s then CExit else CLoadRead |}
  | CLoadRead => {| s with cons_ := CLoadWrite (read_idx s) |}
  | CLoadWrite r => {| s with cons_ := if r =? write_idx s then CIdle else CFile r (write_idx s) |}
  | CIdle => {| s with cons_ := if lg_running s then CWhile else CExit |}
  | CFile r w =>
      {| s with file_lines := file_lines s ++ (if file_open then read_slot r s else []);
                cons_ := COut r w |}
  | COut r w =>
      let r' := r +64 1 in
      {| s with out_lines := out_lines s ++ read_slot r s;
                cons_ := if r' =? w then CStore r' else CFile r' w |}
  | CStore r => {| s with read_idx := r; cons_ := CWhile |}
  | CExit => s
  end.

(** [logger_init] with the memory [malloc] returns and the result of
    [pthread_create]. *)
Definition logger_init (mem : option (list LogEntry)) (thread_ok : bool) : Z * option Logger :=
  match mem with
  | None => (-1, None)
  | Some ring =>
      if thread_ok then
        (0, Some {| ring_buffer := ring; write_idx := 0; read_idx := 0; lg_running := true;
                    prod := PIdle; cons_ := CWhile; file_lines := []; out_lines := [];
                    pushed := [] |})
      else (-1, None)
  end.

(** The first statement of [logger_shutdown]; [pthread_join] then waits for
    [CExit]. *)
Definition logger_shutdown (s : Logger) : Logger := {| s with lg_running := false |}.

(** Interleavings.  The producer's thread also runs [logger_shutdown]. *)
Inductive log_step (s : Logger) : Logger -> Prop :=
  | step_call ts lv txt :
      prod s = PIdle -> lg_running s = true -> log_step s (log_call ts lv txt s)
  | step_producer : log_step s (log_msg_step s)
  | step_worker : log_step s (logger_worker_step s)
  | step_shutdown : prod s = PIdle -> log_step s (logger_shutdown s).

Definition log_reachable (s : Logger) : Prop :=
  exists ring s0, length ring = LOG_BUFFER_SIZE /\ logger_init (Some ring) true = (0, Some s0) /\
    rtc log_step s0 s.

(** ** Invariant *)

(** The lines of the first [k] published entries. *)
Definition lines (k : nat) (s : Logger) : list (list byte) := map line (take k (pushed s)).

Definition idx (k : nat) : Z := u64 (Z.of_nat k).

Definition printed (k : nat) (s : Logger) : Prop := out_lines s = lines k s.
Definition filed (k : nat) (s : Logger) : Prop :=
  file_lines s = if file_open then lines k s else [].

(** The slot of the next entry holds what the producer wrote into it so far. *)
Definition prod_ok (R : nat) (s : Logger) : Prop :=
  let N := length (pushed s) in
  let cell := ring_buffer s !! (N mod LOG_BUFFER_SIZE)%nat in
  match prod s with
  | PIdle | PLoadWrite _ => True
  | PLoadRead _ w => w = idx N
  | PTimestamp _ w => w = idx N /\ (N < R + LOG_BUFFER_SIZE)%nat
  | PLevel e w => w = idx N /\ (N < R + LOG_BUFFER_SIZE)%nat /\
      exists x, cell = Some x /\ timestamp x = timestamp e
  | PMessage e w => w = idx N /\ (N < R + LOG_BUFFER_SIZE)%nat /\
      exists x, cell = Some x /\ timestamp x = timestamp e /\ level x = level e
  | PPublish e w => w = idx N /\ (N < R + LOG_BUFFER_SIZE)%nat /\ cell = Some e
  end.

Definition cons_ok (R : nat) (s : Logger) : Prop :=
  let N := length (pushed s) in
  match cons_ s with
  | CWhile | CWhileIndices | CLoadRead | CIdle | CExit => printed R s /\ filed R s
  | CLoadWrite r => r = idx R /\ printed R s /\ filed R s
  | CFile r w => exists a b, r = idx a /\ w = idx b /\ (R <= a < b)%nat /\ (b <= N)%nat /\
      printed a s /\ filed a s
  | COut r w => exists a b, r = idx a /\ w = idx b /\ (R <= a < b)%nat /\ (b <= N)%nat /\
      printed a s /\ filed (S a) s
  | CStore r => exists a, r = idx a /\ (R <= a <= N)%nat /\ printed a s /\ filed a s
  end.

(** [R] entries were consumed for good. *)
Record log_inv (R : nat) (s : Logger) : Prop := {
  li_len : length (ring_buffer s) = LOG_BUFFER_SIZE;
  li_write : write_idx s = idx (length (pushed s));
  li_read : read_idx s = idx R;
  li_bound : (R <= length (pushed s) <= R + LOG_BUFFER_SIZE)%nat;
  li_ring : forall k e, (R <= k)%nat -> pushed s !! k = Some e ->
    ring_buffer s !! (k mod LOG_BUFFER_SIZE)%nat = Some e;
  li_prod : prod_ok R s;
  li_cons : cons_ok R s;
}.

Lemma slot_idx (k : nat) : slot (idx k) = (k mod LOG_BUFFER_SIZE)%nat.
Proof.
  unfold slot, idx, u64. change 4095 with (Z.ones 12). rewrite Z.land_ones by lia.
  rewrite Z.mod_mod_divide by (exists (2 ^ 52); reflexivity).
  apply Nat2Z.inj. rewrite Z2Nat.id, Nat2Z.inj_mod by (apply Z.mod_pos_bound; lia). done.
Qed.

Lemma idx_succ (k : nat) : idx k +64 1 = idx (S k).
Proof.
  unfold idx, u64. rewrite Zplus_mod_idemp_l. f_equal. lia.
Qed.

Lemma idx_full (a b : nat) :
  (a <= b <= a + LOG_BUFFER_SIZE)%nat -> idx b -64 idx a = Z.of_nat b - Z.of_nat a.
Proof.
  intros H. unfold idx, u64. rewrite <- Zminus_mod. apply Z.mod_small.
  assert (Z.of_nat LOG_BUFFER_SIZE = 4096) by done. lia.
Qed.

Lemma idx_eq (a b : nat) :
  (a <= b <= a + LOG_BUFFER_SIZE)%nat -> (idx a =? idx b) = Nat.eqb a b.
Proof.
  intros H. destruct (Nat.eqb_spec a b) as [->|Hne]; [apply Z.eqb_refl|]. apply Z.eqb_neq.
  intros E. pose proof (idx_full a b H) as Hd. rewrite E, Z.sub_diag in Hd.
  change (u64 0) with 0 in Hd. lia.
Qed.

Lemma slot_free (R k N : nat) :
  (R <= k < N)%nat -> (N < R + LOG_BUFFER_SIZE)%nat ->
  (N mod LOG_BUFFER_SIZE)%nat <> (k mod LOG_BUFFER_SIZE)%nat.
Proof.
  intros H1 H2 Heq. assert (LOG_BUFFER_SIZE <> 0)%nat as Hz by done.
  pose proof (Nat.div_mod N LOG_BUFFER_SIZE Hz) as HN.
  pose proof (Nat.div_mod k LOG_BUFFER_SIZE Hz) as Hk. rewrite Heq in HN.
  assert (k / LOG_BUFFER_SIZE < N / LOG_BUFFER_SIZE)%nat as Hq by nia. nia.
Qed.

Lemma lines_push (k : nat) (s : Logger) (e : LogEntry) :
  (k <= length (pushed s))%nat -> map line (take k (pushed s ++ [e])) = lines k s.
Proof. intros Hk. unfold lines. by rewrite take_app_le. Qed.

Lemma lines_succ (k : nat) (s : Logger) (e : LogEntry) :
  pushed s !! k = Some e -> lines (S k) s = lines k s ++ [line e].
Proof. intros He. unfold lines. rewrite (take_S_r _ _ e He), map_app. done. Qed.

(** The cell being read is the entry that was published there. *)
Lemma read_slot_ok (R a : nat) (s : Logger) :
  log_inv R s -> (R <= a < length (pushed s))%nat ->
  lines (S a) s = lines a s ++ read_slot (idx a) s.
Proof.
  intros H [Ha Hn]. destruct (lookup_lt_is_Some_2 (pushed s) a Hn) as [e He].
  unfold read_slot. rewrite slot_idx, (li_ring _ _ H a e Ha He). by apply lines_succ.
Qed.

(** Writing a field of the next free slot disturbs no published entry. *)
Lemma write_slot_ring (R : nat) (s : Logger) (f : LogEntry -> LogEntry) :
  log_inv R s -> (length (pushed s) < R + LOG_BUFFER_SIZE)%nat ->
  let ring := alter f (length (pushed s) mod LOG_BUFFER_SIZE)%nat (ring_buffer s) in
  length ring = LOG_BUFFER_SIZE /\
  (forall k e, (R <= k)%nat -> pushed s !! k = Some e ->
     ring !! (k mod LOG_BUFFER_SIZE)%nat = Some e) /\
  exists x, ring_buffer s !! (length (pushed s) mod LOG_BUFFER_SIZE)%nat = Some x /\
            ring !! (length (pushed s) mod LOG_BUFFER_SIZE)%nat = Some (f x).
Proof.
  intros H Hroom ring. split; [|split].
  - unfold ring. rewrite length_alter. apply H.
  - intros k e Hk He. unfold ring. rewrite list_lookup_alter_ne; [by apply (li_ring _ _ H)|].
    apply lookup_lt_Some in He. by apply (slot_free R).
  - destruct (lookup_lt_is_Some_2 (ring_buffer s) (length (pushed s) mod LOG_BUFFER_SIZE)) as [x Hx].
    { rewrite (li_len _ _ H). apply Nat.mod_upper_bound. done. }
    exists x. split; [done|]. unfold ring. by rewrite list_lookup_alter_eq, Hx.
Qed.

(** ** Preservation *)

Lemma inv_call (R : nat) (s : Logger) (ts : Z) (lv : LogLevel) (txt : list byte) :
  log_inv R s -> log_inv R (log_call ts lv txt s).
Proof. intros []. by split. Qed.

Lemma inv_producer (R : nat) (s : Logger) : log_inv R s -> log_inv R (log_msg_step s).
Proof.
  intros H. pose proof H as [Hl Hw Hr Hb Hring Hp Hc]. unfold log_msg_step.
  unfold prod_ok in Hp. destruct (prod s) as [|e|e w|e w|e w|e w|e w] eqn:E.
  - done.
  - split; try done.
  - subst w. rewrite Hr, idx_full by lia. case_match; split; try done.
    unfold prod_ok. view. split; [done|]. lia.
  - destruct Hp as [-> Hroom]. unfold set_slot. rewrite slot_idx.
    destruct (write_slot_ring R s (fun x => {| x with timestamp := timestamp e |}) H Hroom)
      as (H1 & H2 & x & _ & Hx). split; try done. unfold prod_ok. view. eauto 10.
  - destruct Hp as (-> & Hroom & y & Hy & Hts). unfold set_slot. rewrite slot_idx.
    destruct (write_slot_ring R s (fun x => {| x with level := level e |}) H Hroom)
      as (H1 & H2 & x & Hx0 & Hx). simplify_eq. split; try done. unfold prod_ok. view. eauto 10.
  - destruct Hp as (-> & Hroom & y & Hy & Hts & Hlv). unfold set_slot. rewrite slot_idx.
    destruct (write_slot_ring R s (fun x => {| x with message := message e |}) H Hroom)
      as (H1 & H2 & x & Hx0 & Hx). rewrite Hy in Hx0. injection Hx0 as <-.
    split; try done. unfold prod_ok. view. split; [done|]. split; [done|]. rewrite Hx.
    destruct e, y; cbn in *. by subst.
  - destruct Hp as (-> & Hroom & Hcell). split; view; try done.
    + rewrite length_app, idx_succ. cbn [length]. by rewrite Nat.add_1_r.
    + rewrite length_app. cbn [length]. lia.
    + intros k e' Hk [He|[Hk' He]]%lookup_app_Some; [by apply Hring|].
      assert (k = length (pushed s)) as ->.
      { apply lookup_lt_Some in He. cbn in He. lia. }
      rewrite Nat.sub_diag in He. injection He as <-. done.
    + unfold cons_ok, printed, filed, lines in *. view. rewrite length_app. cbn [length].
      destruct (cons_ s); repeat match goal with
        | H : exists _, _ |- _ => destruct H
        | H : _ /\ _ |- _ => destruct H end;
        rewrite ?take_app_le by lia; repeat eexists; try done; try lia;
        rewrite ?take_app_le by lia; done.
Qed.

Lemma inv_worker (R : nat) (s : Logger) :
  log_inv R s -> exists R', (R <= R')%nat /\ log_inv R' (logger_worker_step s).
Proof.
  intros H. pose proof H as [Hl Hw Hr Hb Hring Hp Hc]. unfold logger_worker_step.
  unfold cons_ok in Hc. destruct (cons_ s) as [| | |r| |r w|r w|r|] eqn:E.
  - exists R. split; [done|]. split; try done. unfold cons_ok. view. by destruct (lg_running s).
  - exists R. split; [done|]. split; try done. unfold cons_ok. view. by destruct (_ =? _).
  - exists R. split; [done|]. split; try done.
  - exists R. split; [done|]. destruct Hc as [-> Hc]. split; try done. unfold cons_ok. view.
    rewrite Hw, idx_eq by lia. destruct (Nat.eqb_spec R (length (pushed s))); [done|].
    exists R, (length (pushed s)). split_and!; try done; try lia; apply Hc.
  - exists R. split; [done|]. split; try done. unfold cons_ok. view. by destruct (lg_running s).
  - exists R. split; [done|]. destruct Hc as (a & b & -> & -> & Ha & Hbn & Hpr & Hfl).
    split; try done. unfold cons_ok. view. exists a, b. split_and!; try done; try lia.
    unfold filed in *. view. rewrite Hfl. destruct file_open; [|done].
    change (lines (S a) _) with (lines (S a) s). rewrite (read_slot_ok R) by (done || lia). done.
  - exists R. split; [done|]. destruct Hc as (a & b & -> & -> & Ha & Hbn & Hpr & Hfl).
    split; try done. unfold cons_ok. view. rewrite idx_succ, idx_eq by lia.
    assert (out_lines s ++ read_slot (idx a) s = lines (S a) s) as Hout.
    { rewrite Hpr. symmetry. apply (read_slot_ok R); [done|lia]. }
    destruct (Nat.eqb_spec (S a) b) as [<-|Hne].
    + exists (S a). split_and!; try done; lia.
    + exists (S a), b. split_and!; try done; lia.
  - destruct Hc as (a & -> & Ha & Hpr & Hfl). exists a. split; [lia|]. split; try done; view.
    + lia.
    + intros k e Hk. apply Hring. lia.
    + revert Hp. unfold prod_ok. view.
      destruct (prod s); try done; intros; destruct_and?; split_and?; try done; lia.
  - exists R. done.
Qed.

Lemma inv_step (R : nat) (s s' : Logger) :
  log_inv R s -> log_step s s' -> exists R', (R <= R')%nat /\ log_inv R' s'.
Proof.
  intros H [ts lv txt Hp Hrun| | |Hp].
  - exists R. split; [done|]. by apply inv_call.
  - exists R. split; [done|]. by apply inv_producer.
  - by apply inv_worker.
  - exists R. split; [done|]. destruct H. by split.
Qed.

Lemma inv_init (ring : list LogEntry) (s : Logger) :
  length ring = LOG_BUFFER_SIZE -> logger_init (Some ring) true = (0, Some s) -> log_inv 0 s.
Proof.
  intros Hl [= <-]. split; view; try done.
  - cbn. lia.
  - unfold cons_ok, printed, filed, lines. cbn. by destruct file_open.
Qed.

Lemma inv_reachable (s : Logger) : log_reachable s -> exists R, log_inv R s.
Proof.
  intros (ring & s0 & Hl & Hi & Hs). pose proof (inv_init ring s0 Hl Hi) as H0. clear Hi.
  revert H0. generalize 0%nat. induction Hs as [s|s0 s1 s Hstep _ IH]; intros R H0; [eauto|].
  destruct (inv_step R s0 s1 H0 Hstep) as (R' & _ & H1). eauto.
Qed.
End Worker.

(** ** Draining *)

(** Steps the worker needs, alone, once the producer has stopped: a full round
    over the entries it has not loaded yet costs [round_cost]. *)
Definition unread (s : Logger) (from : Z) : nat := Z.to_nat (write_idx s -64 from).

Definition round_cost (k : nat) : nat := if Nat.eqb k 0 then 2 else 2 * k + 7.

Definition drain_steps (s : Logger) : nat :=
  match cons_ s with
  | CWhile => round_cost (unread s (read_idx s))
  | CWhileIndices => round_cost (unread s (read_idx s)) - 1
  | CLoadRead => let k := unread s (read_idx s) in if Nat.eqb k 0 then 3 else 2 * k + 5
  | CLoadWrite r => let k := unread s (read_idx s) in if Nat.eqb k 0 then 2 else 2 * k + 4
  | CIdle => 1
  | CFile r w => 2 * Z.to_nat (w -64 r) + 1 + round_cost (unread s w)
  | COut r w => 2 * Z.to_nat (w -64 r) + round_cost (unread s w)
  | CStore r => 1 + round_cost (unread s r)
  | CExit => 0
  end.

(** The producer is done and the worker did not decide on a stale index. *)
Record stopped (s : Logger) : Prop := {
  st_prod : prod s = PIdle;
  st_running : lg_running s = false;
  st_settled : cons_ s = CIdle \/ cons_ s = CExit -> read_idx s = write_idx s;
}.

Section Drain.
Context (file_open : bool).
Abbreviation step := (logger_worker_step file_open).

Lemma stopped_step (R : nat) (s : Logger) :
  log_inv file_open R s -> stopped s -> stopped (step s).
Proof.
  intros H [Hp Hr Hs]. pose proof (li_cons _ _ _ H) as Hc. unfold cons_ok in Hc.
  unfold logger_worker_step. destruct (cons_ s) as [| | |r| |r w|r w|r|] eqn:E;
    split; view; rewrite ?E, ?Hr; try done; try (intros [|]; done); try (by intros; auto).
  - destruct (Z.eqb_spec (read_idx s) (write_idx s)); [done|]. by intros [|].
  - destruct Hc as [-> _]. destruct (Z.eqb_spec (idx R) (write_idx s)) as [He|]; [|by intros [|]].
    intros _. by rewrite (li_read _ _ _ H).
  - destruct (_ =? _); by intros [|].
Qed.

Lemma unread_idx (R a : nat) (s : Logger) :
  log_inv file_open R s -> (R <= a <= length (pushed s))%nat ->
  unread s (idx a) = (length (pushed s) - a)%nat.
Proof.
  intros H Ha. pose proof (li_bound _ _ _ H). unfold unread.
  rewrite (li_write _ _ _ H), idx_full by lia. lia.
Qed.

Lemma drain_step (R : nat) (s : Logger) :
  log_inv file_open R s -> stopped s -> cons_ s <> CExit ->
  S (drain_steps (step s)) = drain_steps s.
Proof.
  intros H [Hp Hr Hs] Hne. pose proof (li_cons _ _ _ H) as Hc. pose proof (li_bound _ _ _ H) as Hb.
  pose proof (unread_idx R R s H ltac:(lia)) as HR.
  unfold cons_ok in Hc. unfold drain_steps, logger_worker_step, unread in *.
  rewrite (li_read _ _ _ H) in *.
  destruct (cons_ s) as [| | |r| |r w|r w|r|] eqn:E; view; rewrite ?Hr, ?HR; try done.
  - unfold round_cost. destruct (Nat.eqb_spec (length (pushed s) - R) 0); lia.
  - rewrite (li_write _ _ _ H), idx_eq by lia. unfold round_cost.
    destruct (Nat.eqb_spec R (length (pushed s))), (Nat.eqb_spec (length (pushed s) - R) 0); view;
      rewrite <- ?(li_write _ _ _ H), ?HR; try lia.
  - by destruct (Nat.eqb_spec (length (pushed s) - R) 0); lia.
  - destruct Hc as [-> _]. rewrite (li_write _ _ _ H), idx_eq by lia.
    destruct (Nat.eqb_spec R (length (pushed s))), (Nat.eqb_spec (length (pushed s) - R) 0); view;
      try lia. rewrite !idx_full by lia. unfold round_cost. rewrite Z.sub_diag.
    change (Z.to_nat 0) with 0%nat. rewrite Nat.eqb_refl. lia.
  - destruct Hc as (a & b & -> & -> & Ha & Hbn & _). rewrite idx_full by lia. lia.
  - destruct Hc as (a & b & -> & -> & Ha & Hbn & _). rewrite idx_succ, idx_eq by lia.
    destruct (Nat.eqb_spec (S a) b) as [<-|Hab]; view; rewrite !idx_full by lia; lia.
Qed.

Lemma drains (n R : nat) (s : Logger) :
  log_inv file_open R s -> stopped s -> drain_steps s = n ->
  let s' := Nat.iter n step s in
  cons_ s' = CExit /\ pushed s' = pushed s /\ stopped s' /\ exists R', log_inv file_open R' s'.
Proof.
  revert R s. induction n as [|n IH]; intros R s H Hst Hn; cbn zeta.
  - cbn. split; [|by eauto]. revert Hn. unfold drain_steps, round_cost.
    pose proof (li_cons _ _ _ H) as Hc. pose proof (li_bound _ _ _ H) as Hb. unfold cons_ok in Hc.
    destruct (cons_ s) as [| | |r| |r w|r w|r|]; try done; try lia;
      repeat destruct (Nat.eqb _ _); lia.
  - rewrite Nat.iter_succ_r. assert (cons_ s <> CExit) as Hne.
    { intros He. unfold drain_steps in Hn. by rewrite He in Hn. }
    destruct (inv_worker file_open R s H) as (R' & _ & H').
    pose proof (drain_step R s H Hst Hne) as Hd.
    destruct (IH R' (step s) H') as (H1 & H2 & H3 & H4); [by eapply stopped_step|lia|].
    split; [done|]. split; [|done]. rewrite H2. unfold logger_worker_step. by destruct (cons_ s).
Qed.
End Drain.

(** ** Properties *)

(** C26: the log is a FIFO without torn entries.  In every interleaving of the two
    threads, [stdout] holds the lines of the first [k] published entries, whole
    and in order, the file the same ones (and possibly the next), and at most
    4096 published entries are still to come; [log_msg] drops a message only
    when exactly 4096 entries wait, also after the indices wrapped around. *)
Theorem logger_fifo (file_open : bool) (s : Logger) :
  log_reachable file_open s ->
  exists k k', out_lines s = map line (take k (pushed s)) /\
    file_lines s = (if file_open then map line (take k' (pushed s)) else []) /\
    (k <= k' <= S k)%nat /\ (k <= length (pushed s) <= k + LOG_BUFFER_SIZE)%nat /\
    forall e w, prod s = PLoadRead e w -> prod (log_msg_step s) = PIdle ->
      (LOG_BUFFER_SIZE <= length (pushed s))%nat /\
      read_idx s = idx (length (pushed s) - LOG_BUFFER_SIZE).
Proof.
  intros (R & H)%inv_reachable. pose proof (li_bound _ _ _ H) as Hb.
  assert (forall e w, prod s = PLoadRead e w -> prod (log_msg_step s) = PIdle ->
            (LOG_BUFFER_SIZE <= length (pushed s))%nat /\
            read_idx s = idx (length (pushed s) - LOG_BUFFER_SIZE)) as Hdrop.
  { intros e w Hp. pose proof (li_prod _ _ _ H) as Hpr. unfold prod_ok, log_msg_step in *.
    rewrite Hp in *. subst w. rewrite (li_read _ _ _ H), idx_full by lia. case_match; [|done].
    intros _. split; [lia|]. f_equal. lia. }
  pose proof (li_cons _ _ _ H) as Hc. unfold cons_ok, printed, filed, lines in Hc.
  destruct (cons_ s); repeat match goal with
    | H : exists _, _ |- _ => destruct H
    | H : _ /\ _ |- _ => destruct H end; eexists _, _; split_and!; try done; lia.
Qed.

(** In the idle branch, or past the loop, the worker prints nothing more. *)
Lemma idle_ends (file_open : bool) (R : nat) (s : Logger) :
  log_inv file_open R s -> lg_running s = false -> cons_ s = CIdle \/ cons_ s = CExit ->
  let s' := Nat.iter (drain_steps s) (logger_worker_step file_open) s in
  cons_ s' = CExit /\ out_lines s' = lines R s /\
  file_lines s' = if file_open then lines R s else [].
Proof.
  intros H Hr Hc. pose proof (li_cons _ _ _ H) as Hok. unfold cons_ok, printed, filed in Hok.
  unfold drain_steps. destruct Hc as [E|E]; rewrite E in *; destruct Hok as [Ho Hf]; cbn; [|by rewrite E].
  unfold logger_worker_step. rewrite E, Hr. by view.
Qed.

(** C36: what shutdown flushes.  When no message is being logged and [logger_shutdown]
    has cleared the flag, the worker alone reaches its end, after [drain_steps] steps.  If
    it is not in the idle branch then (having found the indices equal), every published
    entry is printed and, if the file is open, in the file.  If it is, it prints nothing
    more: the output is the first [k] published entries, all of them exactly when the
    indices are still equal, so that entries published since it loaded them are lost. *)
Theorem logger_drains (file_open : bool) (s : Logger) :
  log_reachable file_open s -> prod s = PIdle -> lg_running s = false ->
  let s' := Nat.iter (drain_steps s) (logger_worker_step file_open) s in
  cons_ s' = CExit /\
  exists k, out_lines s' = map line (take k (pushed s)) /\
    file_lines s' = (if file_open then map line (take k (pushed s)) else []) /\
    (k <= length (pushed s))%nat /\
    (k = length (pushed s) <->
     ~ (cons_ s = CIdle \/ cons_ s = CExit) \/ read_idx s = write_idx s).
Proof.
  intros (R & H)%inv_reachable Hp Hr. pose proof (li_bound _ _ _ H) as Hb.
  assert (read_idx s = write_idx s <-> R = length (pushed s)) as Hrw.
  { rewrite (li_read _ _ _ H), (li_write _ _ _ H), <- Z.eqb_eq, idx_eq by lia. apply Nat.eqb_eq. }
  cbn zeta. destruct (decide (cons_ s = CIdle \/ cons_ s = CExit)) as [Hc|Hc].
  - destruct (idle_ends file_open R s H Hr Hc) as (He & Ho & Hf). split; [done|].
    exists R. split_and!; [done|done|lia|]. rewrite Hrw. tauto.
  - assert (stopped s) as Hst by (split; [done|done|tauto]).
    destruct (drains file_open _ R s H Hst eq_refl) as (He & Hpu & [_ _ Hs] & R' & H').
    split; [done|]. exists (length (pushed s)). pose proof (li_cons _ _ _ H') as Hok.
    unfold cons_ok in Hok. rewrite He in *. destruct Hok as [Hpr Hfl].
    pose proof (li_bound _ _ _ H') as Hb'. specialize (Hs (or_intror eq_refl)).
    rewrite (li_read _ _ _ H'), (li_write _ _ _ H') in Hs.
    apply Z.eqb_eq in Hs. rewrite idx_eq in Hs by lia. apply Nat.eqb_eq in Hs.
    unfold printed, filed, lines in *. rewrite Hpr, Hfl, Hs, Hpu. split_and!; [done..|tauto].
Qed.

Definition demo_log_entry : LogEntry := {| timestamp := 0; level := LOG_DEBUG; message := [] |}.

Definition demo_start : Logger :=
  {| ring_buffer := replicate LOG_BUFFER_SIZE demo_log_entry; write_idx := 0; read_idx := 0;
     lg_running := true; prod := PIdle; cons_ := CWhile; file_lines := []; out_lines := [];
     pushed := [] |}.

(** One message, logged completely. *)
Definition demo_logged (s : Logger) : Logger :=
  Nat.iter 6 log_msg_step (log_call 5 LOG_INFO (text "up") s).

Lemma producer_steps (file_open : bool) (n : nat) (s : Logger) :
  rtc (log_step file_open) s (Nat.iter n log_msg_step s).
Proof. induction n; [done|]. eapply rtc_r; [done|]. apply step_producer. Qed.

Lemma worker_steps (file_open : bool) (n : nat) (s : Logger) :
  rtc (log_step file_open) s (Nat.iter n (logger_worker_step file_open) s).
Proof. induction n; [done|]. eapply rtc_r; [done|]. apply step_worker. Qed.

Lemma logged_steps (file_open : bool) (s : Logger) :
  prod s = PIdle -> lg_running s = true -> rtc (log_step file_open) s (demo_logged s).
Proof.
  intros Hp Hr. eapply rtc_l; [by apply (step_call _ s 5 LOG_INFO (text "up"))|]. apply producer_steps.
Qed.

Lemma start_reachable (file_open : bool) (s : Logger) :
  rtc (log_step file_open) demo_start s -> log_reachable file_open s.
Proof.
  intros Hs. exists (replicate LOG_BUFFER_SIZE demo_log_entry), demo_start.
  split; [apply length_replicate|]. split; [reflexivity|exact Hs].
Qed.

Lemma logger_fifo_witness :
  exists k, out_lines (demo_logged demo_start) = map line (take k (pushed (demo_logged demo_start))).
Proof.
  destruct (logger_fifo true (demo_logged demo_start)) as (k & _ & Hk & _); [|by exists k].
  apply start_reachable, logged_steps; reflexivity.
Defined.

Lemma logger_drains_witness :
  out_lines (Nat.iter (drain_steps (logger_shutdown (demo_logged demo_start)))
               (logger_worker_step true) (logger_shutdown (demo_logged demo_start)))
  = [text "[5] [INFO] up" ++ [x0a]].
Proof.
  destruct (logger_drains true (logger_shutdown (demo_logged demo_start))) as (_ & k & Ho & _ & _ & Hk).
  - apply start_reachable. eapply rtc_r; [apply logged_steps; reflexivity|].
    apply step_shutdown. vm_compute. reflexivity.
  - vm_compute. reflexivity.
  - reflexivity.
  - rewrite Ho, (proj2 Hk).
    + vm_compute. reflexivity.
    + left. intros [H|H]; vm_compute in H; discriminate H.
Defined.

(** The last messages before shutdown can be lost.  The worker loads equal
    indices, the other thread then logs a message and clears the flag, and the
    worker, testing the flag with its old copy of the indices, leaves the loop:
    the run ends with a published entry that is neither printed nor filed. *)
Theorem logger_loses_last_message (file_open : bool) :
  exists s e, log_reachable file_open s /\ cons_ s = CExit /\ lg_running s = false /\
    prod s = PIdle /\ pushed s = [e] /\ out_lines s = [] /\ file_lines s = [].
Proof.
  set (s1 := Nat.iter 3 (logger_worker_step file_open) demo_start).
  set (s2 := demo_logged s1). set (s3 := logger_shutdown s2).
  exists (logger_worker_step file_open s3).
  assert (log_reachable file_open (logger_worker_step file_open s3)) as Hr.
  { apply start_reachable. eapply rtc_r; [|apply step_worker].
    eapply rtc_r; [|apply step_shutdown; vm_compute; reflexivity].
    etrans; [apply (worker_steps file_open 3)|]. apply logged_steps; vm_compute; reflexivity. }
  eexists. split; [exact Hr|]. split_and!; vm_compute; reflexivity.
Qed.
