(* ===== verification/Server.v ===== *)
(** * The server: callbacks on the event loop

    Puts [EventLoop], [Session], [Cluster] and [Transport] together the way
    [src/main.c] and the event callbacks of [src/protocol/rpc_handler.c] do:
    [rpc_on_accept], [rpc_on_client_event] with [session_destroy], the gossip,
    heartbeat and reaper callbacks, and the set-up part of [main].  Sessions live
    in a heap keyed by address; a [FileContext] holds the address of its session
    as context, so a callback for a freed session is [Undefined].

    What the kernel and the allocator answer during one callback is an argument
    that may depend on the state, so that answers can vary from call to call; the
    kernel may also refuse to take a descriptor out of its interest list.  The
    process ends at once when it sends on a broken connection (SIGPIPE). *)

From S2P Require Import Prelude RaftCore Wire RaftRpc Cluster EventLoop Session Transport.

(** ** Data *)

(** Addresses of the callbacks. *)
Definition RPC_ON_ACCEPT : Z := 1.
Definition RPC_ON_CLIENT_EVENT : Z := 2.
Definition ON_GOSSIP_RECEIVE : Z := 3.
Definition ON_HEARTBEAT_TIMER : Z := 4.
Definition CLUSTER_REAPER_TICK : Z := 5.

(** A session object: the fields of [Session.ClientSession] with its connection
    and the state of its socket. *)
Record SessionObj : Type := {
  so_session : ClientSession;
  so_conn : TcpConnection;
  so_socket : Socket;
}.

(** [NodeContext], with the sessions and the open descriptors of the process and
    the datagrams it sent. *)
Record Node : Type := {
  nd_cluster : ClusterManager;
  nd_gossip_sock : UdpSocket;
  nd_tcp_server_fd : Z;
  nd_heartbeat_timer_fd : Z;
  nd_reaper_timer_fd : Z;
  nd_sessions : gmap Z SessionObj;
  nd_open : fds;
  nd_sent : list (NodeInfo * list byte);
}.

(** Answers during one callback: [accept] with the peer's address, [fcntl],
    allocations of the session and of the context, [epoll_ctl] when it adds or
    modifies and when it deletes, what a session reads and writes, a datagram, the
    timer's [read], clock and [rand]. *)
Record CallEnv : Type := {
  ce_accept : Z;
  ce_again : bool;
  ce_ip : list byte;
  ce_port : Z;
  ce_nonblocking : bool;
  ce_session : option Z;
  ce_context : option ptr;
  ce_ctl : bool;
  ce_del : bool;
  ce_input : list byte;
  ce_io : SessionEnv;
  ce_datagram : recvfrom;
  ce_read : bool;
  ce_now : Z;
  ce_rand : Z;
}.

(** ** Callbacks *)

(** [session_destroy]: the context leaves the loop, then the descriptor is closed
    (which takes it out of the interest list even when [EPOLL_CTL_DEL], answered by
    [del], did not), then the session is freed. *)
Definition session_destroy (del : bool) (id : Z) (s : EventLoop * Node) : outcome (EventLoop * Node) :=
  match nd_sessions s.2 !! id with
  | None => Undefined
  | Some so =>
      let finish L :=
        Returns (L, {| (s.2) with nd_open := (tcp_close (so_conn so) (nd_open s.2)).2;
                                  nd_sessions := delete id (nd_sessions s.2) |}) in
      if sockfd (so_conn so) >=? 0 then
        match loop_del_fd del s.1 (sockfd (so_conn so)) with
        | Undefined => Undefined
        | Returns (_, L1) => finish (close_fd (sockfd (so_conn so)) L1)
        end
      else finish s.1
  end.

Definition rpc_on_accept (env : CallEnv) (s : EventLoop * Node) : outcome (EventLoop * Node) :=
  match tcp_server_accept (ce_accept env) (ce_again env) (ce_ip env) (ce_port env) (nd_open s.2) with
  | (_, None, _) => Returns s
  | (_, Some client, o1) =>
      let w1 := {| (s.2) with nd_open := o1 |} in
      let closed := (close_fd (sockfd client) s.1, {| w1 with nd_open := (tcp_close client o1).2 |}) in
      if negb (ce_nonblocking env) then Returns closed
      else
        match ce_session env with
        | None => Returns closed
        | Some id =>
            let so := {| so_session := session_create; so_conn := client;
                         so_socket := {| sk_in := []; sk_out := [] |} |} in
            let w2 := {| w1 with nd_sessions := <[id := so]> (nd_sessions w1) |} in
            match loop_add_fd (ce_context env) (ce_ctl env) s.1 (sockfd client) EVENT_READ
                    RPC_ON_CLIENT_EVENT id with
            | Undefined => Undefined
            | Returns (rc, L1) =>
                if negb (rc =? 0) then session_destroy (ce_del env) id (L1, w2) else Returns (L1, w2)
            end
        end
  end.

(** [rpc_on_client_event] of the session at [id].  [handle_processing] calls
    [loop_mod_fd] when, and only when, it fills the response buffer.  A log line out of
    bounds is undefined. *)
Definition on_client_event (env : CallEnv) (id ev : Z) (s : EventLoop * Node)
  : outcome (EventLoop * Node) :=
  match nd_sessions s.2 !! id with
  | None => Undefined
  | Some so =>
      match loop_mod_fd (ce_ctl env) s.1 (sockfd (so_conn so)) EVENT_WRITE RPC_ON_CLIENT_EVENT id with
      | Undefined => Undefined
      | Returns (rc, Lmod) =>
          let senv := {| (ce_io env) with mod_fd_ok := rc =? 0 |} in
          let sk := {| (so_socket so) with sk_in := sk_in (so_socket so) ++ ce_input env |} in
          let sv0 := {| sv_session := so_session so; sv_socket := sk; sv_cluster := nd_cluster s.2 |} in
          match client_event_lines senv ev sv0 with
          | Undefined => Undefined
          | Returns _ =>
          let (alive, sv) := rpc_on_client_event senv ev sv0 in
          let modified := bool_decide (response_buf (so_session so) = []) &&
                          negb (bool_decide (response_buf (sv_session sv) = [])) in
          let so' := {| so with so_session := sv_session sv; so_socket := sv_socket sv |} in
          let s1 := (if modified then Lmod else s.1,
                     {| (s.2) with nd_cluster := sv_cluster sv;
                                   nd_sessions := <[id := so']> (nd_sessions s.2) |}) in
          if alive then Returns s1 else session_destroy (ce_del env) id s1
          end
      end
  end.

(** [on_gossip_receive] with its [udp_recv] into 2048 bytes. *)
Definition gossip_event (env : CallEnv) (w : Node) : outcome Node :=
  let d := (udp_recv (ce_datagram env) 2048).1.2 in
  match gossip_line (nd_cluster w) d with
  | Undefined => Undefined
  | Returns _ => Returns {| w with nd_cluster := on_gossip_receive (ce_now env) (nd_cluster w) d |}
  end.

(** [on_heartbeat_timer] with its [read] of the timer. *)
Definition heartbeat_event (env : CallEnv) (w : Node) : Node :=
  if negb (ce_read env) then w
  else {| w with nd_sent := nd_sent w ++
            on_heartbeat_timer (ce_now env) (ce_rand env) (nd_cluster w) |}.

Definition reaper_event (env : CallEnv) (w : Node) : Node :=
  {| w with nd_cluster := cluster_reaper_tick (ce_now env) (nd_cluster w) |}.

(** [handle_shutdown]: the loop the global pointer leads to, if it is set. *)
Definition handle_shutdown (global_loop : option EventLoop) : option EventLoop :=
  loop_stop <$> global_loop.

(** [set_timer_ms]: seconds and nanoseconds of the first and of every later
    expiration. *)
Definition set_timer_ms (ms : Z) : (Z * Z) * (Z * Z) :=
  let spec := (ms / 1000, (ms mod 1000) * 1000000) in (spec, spec).

(** The kernel accepts the specification, and it means [ms] milliseconds. *)
Lemma set_timer_ms_exact (ms : Z) :
  let '((s, ns), later) := set_timer_ms ms in
  0 <= ns < 10 ^ 9 /\ s * 10 ^ 9 + ns = ms * 10 ^ 6 /\ later = (s, ns).
Proof.
  cbn. pose proof (Z.mod_pos_bound ms 1000). pose proof (Z.div_mod ms 1000). split; [lia|]. split; [lia|done].
Qed.

Section Callbacks.
Variable answers : EventLoop * Node -> CallEnv.

(** The function behind an address. *)
Definition call (cb ctx fd ev : Z) (s : EventLoop * Node) : outcome (EventLoop * Node) :=
  let env := answers s in
  if cb =? RPC_ON_ACCEPT then rpc_on_accept env s
  else if cb =? RPC_ON_CLIENT_EVENT then on_client_event env ctx ev s
  else if cb =? ON_GOSSIP_RECEIVE then
    match gossip_event env s.2 with Undefined => Undefined | Returns w => Returns (s.1, w) end
  else if cb =? ON_HEARTBEAT_TIMER then Returns (s.1, heartbeat_event env s.2)
  else if cb =? CLUSTER_REAPER_TICK then Returns (s.1, reaper_event env s.2)
  else Undefined.
End Callbacks.

(** ** Start-up *)

(** Answers during the set-up in [main]. *)
Record StartEnv : Type := {
  sa_loop : bool;
  sa_epoll : bool;
  sa_events : bool;
  sa_listen : SetupEnv;
  sa_udp : SetupEnv;
  sa_rpc_ctx : bool;
  sa_context : nat -> option ptr;
  sa_ctl : nat -> bool;
  sa_timer : nat -> Z;
  sa_settime : nat -> bool;
  sa_del : Z -> bool;
  sa_now : Z;
}.

(** Adding a timer also opens its descriptor, which is closed again when it is
    not registered.  The result is that of [loop_add_timer]. *)
Definition start_timer (env : StartEnv) (i : nat) (cb ctx : Z) (s : EventLoop * Node)
  : outcome (Z * (EventLoop * Node)) :=
  match loop_add_timer (sa_timer env i) (sa_settime env i) (sa_context env (2 + i)%nat)
          (sa_ctl env (2 + i)%nat) s.1 cb ctx with
  | Undefined => Undefined
  | Returns (tfd, L1) =>
      Returns (tfd, (L1, if tfd =? -1 then s.2
                         else {| (s.2) with nd_open := opened tfd (nd_open s.2) |}))
  end.

(** [EXIT_FAILURE] with the descriptors still open and the loop that was freed,
    or a running node. *)
Inductive start_result : Type :=
  | ExitFailure (open : fds) (freed : option EventLoop)
  | Started (s : EventLoop * Node).

Definition exit_failure (env : StartEnv) (o : fds) (L : EventLoop) : outcome start_result :=
  match loop_free (sa_del env) L with
  | Undefined => Undefined
  | Returns L' => Returns (ExitFailure o (Some L'))
  end.

(** [main] from the creation of the event loop to the timers.  Failures to
    register a handler are only logged. *)
Definition main_setup (env : StartEnv) (r : Z) (id : list byte) (port : Z) (ctxs : Z * Z * Z)
  : outcome start_result :=
  match loop_create (sa_loop env) (sa_epoll env) (sa_events env) 1024 with
  | None => Returns (ExitFailure ∅ None)
  | Some L =>
      let cm := (cluster_init r id (text "0.0.0.0") port (sa_now env)).2 in
      let (server_fd, o1) := tcp_server_listen (sa_listen env) ∅ in
      if server_fd <? 0 then exit_failure env o1 L
      else
        match udp_init (sa_udp env) port o1 with
        | (_, None, o2) => exit_failure env (close server_fd o2) L
        | (_, Some sock, o2) =>
            if negb (sa_rpc_ctx env) then Undefined
            else
              let w := {| nd_cluster := cm; nd_gossip_sock := sock; nd_tcp_server_fd := server_fd;
                          nd_heartbeat_timer_fd := 0; nd_reaper_timer_fd := 0;
                          nd_sessions := ∅; nd_open := o2; nd_sent := [] |} in
              match loop_add_fd (sa_context env 0) (sa_ctl env 0) L server_fd EVENT_READ
                      RPC_ON_ACCEPT ctxs.1.1 with
              | Undefined => Undefined
              | Returns (_, L1) =>
                  match loop_add_fd (sa_context env 1) (sa_ctl env 1) L1 (u_sockfd sock) EVENT_READ
                          ON_GOSSIP_RECEIVE ctxs.1.2 with
                  | Undefined => Undefined
                  | Returns (_, L2) =>
                      match start_timer env 0 ON_HEARTBEAT_TIMER ctxs.1.2 (L2, w) with
                      | Undefined => Undefined
                      | Returns (hb, s3) =>
                          match start_timer env 1 CLUSTER_REAPER_TICK ctxs.2 s3 with
                          | Undefined => Undefined
                          | Returns (rp, s4) =>
                              Returns (Started (s4.1, {| (s4.2) with nd_heartbeat_timer_fd := hb;
                                                                    nd_reaper_timer_fd := rp |}))
                          end
                      end
                  end
              end
        end
  end.

(** What the join at start-up meets: the exchange with the seed, whether a send of it
    meets a broken connection, allocations, uninitialised stack values and the
    clock. *)
Record JoinEnv : Type := {
  je_exchange : list byte -> Z -> list byte -> option (list byte);
  je_sigpipe : bool;
  je_payload : bool;
  je_alloc : nat -> Alloc;
  je_junk : nat -> Z * Z;
  je_now : Z;
}.

(** The join of [main], when a seed is given; a failure is only logged.  [None]: the
    process was ended by SIGPIPE. *)
Definition main_join (env : JoinEnv) (seed : option (list byte * Z)) (w : Node)
  : outcome (option Node) :=
  match seed with
  | None => Returns (Some w)
  | Some (ip, port) =>
      if je_sigpipe env then Returns None
      else
        match cluster_join (je_exchange env) (je_payload env) (je_alloc env) (je_junk env)
                (je_now env) (nd_cluster w) ip port with
        | Undefined => Undefined
        | Returns (_, cm) => Returns (Some {| w with nd_cluster := cm |})
        end
  end.

(** How sending LEAVE to a member ends. *)
Inductive delivery : Type :=
  | Delivered
  | Undelivered
  | BrokenPipe.

#[export] Instance delivery_eq_dec : EqDecision delivery.
Proof. solve_decision. Defined.

(** Answers during the shutdown: sending to each member, and [EPOLL_CTL_DEL] for each
    descriptor. *)
Record LeaveEnv : Type := {
  le_send : NodeInfo -> delivery;
  le_del : Z -> bool;
}.

Definition delivered (env : LeaveEnv) (m : NodeInfo) : bool := bool_decide (le_send env m = Delivered).

(** The members [cluster_leave] tries to reach, in its order. *)
Fixpoint leave_attempts (send : NodeInfo -> bool) (id : list byte) (sent : nat) (ms : list NodeInfo)
  : list NodeInfo :=
  match ms with
  | [] => []
  | m :: ms' =>
      if (3 <=? sent)%nat then []
      else if streq (ni_node_id m) id then leave_attempts send id sent ms'
      else if status m =? NODE_STATUS_ALIVE
           then m :: leave_attempts send id (if send m then S sent else sent) ms'
           else leave_attempts send id sent ms'
  end.

(** One of them has a broken connection: the process ends there. *)
Definition leave_killed (env : LeaveEnv) (cm : ClusterManager) : bool :=
  existsb (fun m => bool_decide (le_send env m = BrokenPipe))
    (leave_attempts (delivered env) (ni_node_id (self cm)) 0 (cm_members cm)).

(** [main] after [loop_run]: the LEAVE messages, the sockets, the loop.  [None]: the
    process was ended by SIGPIPE. *)
Definition main_shutdown (env : LeaveEnv) (s : EventLoop * Node)
  : outcome (option (list (NodeInfo * list byte) * (EventLoop * Node))) :=
  if leave_killed env (nd_cluster s.2) then Returns None
  else
    let (msgs, cm) := cluster_leave (delivered env) (nd_cluster s.2) in
    match loop_del_fd (le_del env (nd_tcp_server_fd s.2)) s.1 (nd_tcp_server_fd s.2) with
    | Undefined => Undefined
    | Returns (_, L1) =>
        let o1 := close (nd_tcp_server_fd s.2) (nd_open s.2) in
        let gfd := u_sockfd (nd_gossip_sock s.2) in
        match loop_del_fd (le_del env gfd) (close_fd (nd_tcp_server_fd s.2) L1) gfd with
        | Undefined => Undefined
        | Returns (_, L2) =>
            let (sock, o2) := udp_close (nd_gossip_sock s.2) o1 in
            match loop_free (le_del env) (close_fd gfd L2) with
            | Undefined => Undefined
            | Returns L3 =>
                Returns (Some (msgs, (L3, {| (s.2) with nd_cluster := cm; nd_gossip_sock := sock;
                                                        nd_open := o2 |})))
            end
        end
    end.

(** [main] after its arguments are known: the set-up failed, the loop is still
    running after [fuel] rounds, the process was ended by SIGPIPE in this state, or
    the loop ended in the first state and the process in the second. *)
Inductive main_result : Type :=
  | MainFailed (open : fds) (freed : option EventLoop)
  | MainRunning (s : EventLoop * Node)
  | MainKilled (s : EventLoop * Node)
  | MainDone (s : EventLoop * Node) (msgs : list (NodeInfo * list byte)) (s' : EventLoop * Node).

(** [main] once it is set up: the join, the loop, the end. *)
Definition main_run (jenv : JoinEnv) (seed : option (list byte * Z))
    (answers : EventLoop * Node -> CallEnv) (epoll_wait : nat -> EventLoop -> wait_result)
    (lenv : LeaveEnv) (fuel : nat) (s : EventLoop * Node) : outcome main_result :=
  match main_join jenv seed s.2 with
  | Undefined => Undefined
  | Returns None => Returns (MainKilled s)
  | Returns (Some w) =>
      match loop_run (call answers) epoll_wait fuel (s.1, w) with
      | Undefined => Undefined
      | Returns (false, s1) => Returns (MainRunning s1)
      | Returns (true, s1) =>
          match main_shutdown lenv s1 with
          | Undefined => Undefined
          | Returns None => Returns (MainKilled s1)
          | Returns (Some (msgs, s2)) => Returns (MainDone s1 msgs s2)
          end
      end
  end.

Definition main_node (env : StartEnv) (r : Z) (id : list byte) (port : Z) (ctxs : Z * Z * Z)
    (jenv : JoinEnv) (seed : option (list byte * Z)) (answers : EventLoop * Node -> CallEnv)
    (epoll_wait : nat -> EventLoop -> wait_result) (lenv : LeaveEnv) (fuel : nat)
  : outcome main_result :=
  match main_setup env r id port ctxs with
  | Undefined => Undefined
  | Returns (ExitFailure o L) => Returns (MainFailed o L)
  | Returns (Started s) => main_run jenv seed answers epoll_wait lenv fuel s
  end.

(** ** Invariant *)

Definition known_callback (cb : Z) : Prop :=
  cb = RPC_ON_ACCEPT \/ cb = RPC_ON_CLIENT_EVENT \/ cb = ON_GOSSIP_RECEIVE \/
  cb = ON_HEARTBEAT_TIMER \/ cb = CLUSTER_REAPER_TICK.

(** The loop tracks [m]; the open descriptors are the tracked ones and [base],
    which holds the sockets and timers opened at start-up; a client context leads to
    the live session of its descriptor, and every session has its descriptor
    registered; the members' statuses exist. *)
Record server_inv (base : fds) (m : gmap Z (Z * Z)) (s : EventLoop * Node) : Prop := {
  sv_tracks : tracks s.1 m;
  sv_open : nd_open s.2 = dom m ∪ base;
  sv_known : forall fd cb ctx, m !! fd = Some (cb, ctx) -> known_callback cb;
  sv_context : forall fd ctx, m !! fd = Some (RPC_ON_CLIENT_EVENT, ctx) ->
    exists so, nd_sessions s.2 !! ctx = Some so /\ sockfd (so_conn so) = fd;
  sv_live : forall id so, nd_sessions s.2 !! id = Some so ->
    m !! sockfd (so_conn so) = Some (RPC_ON_CLIENT_EVENT, id) /\ sockfd (so_conn so) ∉ base;
  sv_server : nd_tcp_server_fd s.2 ∈ base /\ 0 <= nd_tcp_server_fd s.2;
  sv_gossip : u_sockfd (nd_gossip_sock s.2) ∈ base /\ 0 <= u_sockfd (nd_gossip_sock s.2);
  sv_statuses : statuses_ok (nd_cluster s.2);
}.

(** Documented behaviour of [accept] and [malloc]: a new descriptor is not open
    yet, new memory is not in use. *)
Record answers_ok (answers : EventLoop * Node -> CallEnv) : Prop := {
  an_accept : forall s, 0 <= ce_accept (answers s) -> ce_accept (answers s) ∉ nd_open s.2;
  an_context : forall s p, ce_context (answers s) = Some p -> heap s.1 !! p = None;
  an_session : forall s id, ce_session (answers s) = Some id -> nd_sessions s.2 !! id = None;
}.

(** The contexts of descriptors other than [fd] are unchanged. *)
Definition keeps (fd : Z) (L L' : EventLoop) : Prop :=
  forall q fd' b, bodies L !! q = Some (fd', b.1, b.2) -> fd' <> fd ->
    bodies L' !! q = Some (fd', b.1, b.2).

Lemma keeps_refl (fd : Z) (L : EventLoop) : keeps fd L L.
Proof. by intros q fd' b. Qed.

Lemma keeps_trans (fd : Z) (L1 L2 L3 : EventLoop) : keeps fd L1 L2 -> keeps fd L2 L3 -> keeps fd L1 L3.
Proof. intros H1 H2 q fd' b Hq Hne. apply H2; [|done]. by apply H1. Qed.

(** Adding a descriptor at a fresh address keeps every other context. *)
Lemma keeps_add (fd fd0 cb ctx : Z) (p : ptr) (L L' : EventLoop) :
  bodies L !! p = None -> bodies L' = <[p := (fd0, cb, ctx)]> (bodies L) -> keeps fd L L'.
Proof. intros Hp Hb q fd' b Hq Hne. rewrite Hb, lookup_insert_ne; [done|]. congruence. Qed.

Lemma keeps_mod (fd cb ctx cb0 ctx0 : Z) (p : ptr) (L L' : EventLoop) :
  bodies L !! p = Some (fd, cb0, ctx0) -> bodies L' = <[p := (fd, cb, ctx)]> (bodies L) ->
  keeps fd L L'.
Proof. intros Hp Hb q fd' b Hq Hne. rewrite Hb, lookup_insert_ne; [done|]. congruence. Qed.

Section Inv.
Context (base : fds).

(** Destroying a session whose descriptor is registered. *)
Lemma destroy_inv (del : bool) (m : gmap Z (Z * Z)) (s : EventLoop * Node) (id : Z) (so : SessionObj) :
  server_inv base m s -> nd_sessions s.2 !! id = Some so ->
  exists s', session_destroy del id s = Returns s' /\
    server_inv base (delete (sockfd (so_conn so)) m) s' /\
    keeps (sockfd (so_conn so)) s.1 s'.1.
Proof.
  intros [Ht Ho Hk Hc Hl Hsv Hgs Hst] Hid. destruct (Hl id so Hid) as [Hm Hbase].
  assert (0 <= sockfd (so_conn so)) as Hfd.
  { apply (tr_map _ _ Ht) in Hm as (p & Hp). by apply (tr_valid _ _ Ht) in Hp as []. }
  unfold session_destroy, tcp_close. rewrite Hid, (proj2 (Z.geb_le _ _)) by lia. cbn [snd].
  destruct (del_keeps del s.1 m (sockfd (so_conn so)) Ht) as (rc & L' & -> & Ht' & Hkeep).
  eexists. split; [done|]. split; [|done]. split; cbn; [|..|done|done|done].
  - done.
  - rewrite Ho, dom_delete_L. unfold close. set_solver.
  - intros fd cb ctx [_ Hf]%lookup_delete_Some. by eapply Hk.
  - intros fd ctx [Hne Hf]%lookup_delete_Some. destruct (Hc fd ctx Hf) as (so' & Hs & Hs').
    exists so'. split; [|done]. rewrite lookup_delete_ne; [done|]. intros ->. simplify_eq.
  - intros id' so' [Hne Hs]%lookup_delete_Some. destruct (Hl id' so' Hs) as [Hm' Hb].
    split; [|done]. rewrite lookup_delete_ne; [done|]. intros He. rewrite He in Hm. simplify_eq.
Qed.

(** Destroying a session that could not be registered. *)
Lemma destroy_unregistered (del : bool) (m : gmap Z (Z * Z)) (L : EventLoop) (w : Node) (id : Z) (so : SessionObj) :
  server_inv base m (L, w) -> nd_sessions w !! id = None -> 0 <= sockfd (so_conn so) ->
  sockfd (so_conn so) ∉ nd_open w ->
  session_destroy del id (L, {| w with nd_open := opened (sockfd (so_conn so)) (nd_open w);
                                   nd_sessions := <[id := so]> (nd_sessions w) |})
  = Returns (L, w).
Proof.
  intros [Ht Ho _ _ _ _ _ _] Hid Hfd Hnew. cbn in *. unfold session_destroy, tcp_close.
  cbn [snd nd_sessions nd_open fst]. rewrite lookup_insert_eq, (proj2 (Z.geb_le _ _)) by lia.
  assert (m !! sockfd (so_conn so) = None) as Hm.
  { apply not_elem_of_dom. rewrite Ho in Hnew. set_solver. }
  destruct (del_spec del L m (sockfd (so_conn so)) Ht) as (rc & L' & -> & Hr).
  rewrite decide_False in Hr.
  - destruct Hr as [_ ->]. cbn. rewrite (close_fd_id _ L) by by eapply untracked_epoll.
    rewrite close_opened, delete_insert_id by done. by destruct w.
  - rewrite Hm. by intros [].
Qed.

Lemma accept_inv (m : gmap Z (Z * Z)) (answers : EventLoop * Node -> CallEnv) (fd : Z)
    (s : EventLoop * Node) :
  answers_ok answers -> server_inv base m s ->
  exists m' s', rpc_on_accept (answers s) s = Returns s' /\ server_inv base m' s' /\
    keeps fd s.1 s'.1.
Proof.
  intros [Ha Hcx Hse] H. pose proof H as [Ht Ho Hk Hc Hl Hsv Hgs Hst]. unfold rpc_on_accept, tcp_server_accept.
  destruct (Z.ltb_spec (ce_accept (answers s)) 0) as [Hneg|Hfd].
  { exists m, s. split; [done|]. split; [done|apply keeps_refl]. }
  specialize (Ha s Hfd). set (client := {| sockfd := _ |}). set (cfd := ce_accept (answers s)) in *.
  assert (close cfd (opened cfd (nd_open s.2)) = nd_open s.2) as Hclose by by apply close_opened.
  assert (m !! cfd = None) as Hm.
  { apply not_elem_of_dom. rewrite Ho in Ha. set_solver. }
  assert ((close_fd (sockfd client) s.1,
           {| (s.2) with nd_open := (tcp_close client (opened cfd (nd_open s.2))).2 |}) = s) as Hclosed.
  { unfold tcp_close. rewrite (proj2 (Z.geb_le _ _)) by (cbn; lia). cbn [snd sockfd client].
    rewrite Hclose, close_fd_id by by eapply untracked_epoll. by destruct s as [L []]. }
  assert (forall s0, s0 = s -> exists m' s', Returns s0 = Returns s' /\ server_inv base m' s' /\
            keeps fd s.1 s'.1) as Hback.
  { intros s0 ->. exists m, s. split; [done|]. split; [done|apply keeps_refl]. }
  destruct (ce_nonblocking (answers s)); cbn [negb]; [|apply Hback; exact Hclosed].
  destruct (ce_session (answers s)) as [id|] eqn:Eid; [|apply Hback; exact Hclosed]. clear Hback.
  apply Hse in Eid. set (so := {| so_session := _ |}).
  destruct (add_spec (ce_context (answers s)) (ce_ctl (answers s)) s.1 m cfd EVENT_READ
              RPC_ON_CLIENT_EVENT id Ht (Hcx s)) as (rc & L1 & Hadd & Hr).
  change (sockfd client) with cfd. rewrite Hadd.
  case_decide as Hcase.
  - destruct Hr as (-> & Ht1 & p & Hp & _ & Hb). cbn [Z.eqb negb].
    exists (<[cfd := (RPC_ON_CLIENT_EVENT, id)]> m). eexists. split; [done|]. split.
    + split; cbn; [done|..|done|done|done].
      * rewrite Ho, dom_insert_L. unfold opened. set_solver.
      * intros fd' cb ctx [[<- [= <- <-]]|[_ Hf]]%lookup_insert_Some; [right; by left|by eapply Hk].
      * intros fd' ctx [[<- [= <-]]|[Hne Hf]]%lookup_insert_Some.
        { exists so. by rewrite lookup_insert_eq. }
        destruct (Hc fd' ctx Hf) as (so' & Hs & Hs'). exists so'. split; [|done].
        rewrite lookup_insert_ne; [done|]. congruence.
      * intros id' so' [[<- <-]|[Hne Hs]]%lookup_insert_Some.
        { cbn. split; [apply lookup_insert_eq|]. rewrite Ho in Ha. set_solver. }
        destruct (Hl id' so' Hs) as [Hm' Hb']. split; [|done].
        rewrite lookup_insert_ne; [done|]. congruence.
    + cbn. eapply keeps_add; [|exact Hb]. unfold bodies. by rewrite lookup_fmap, (Hcx s p Hp).
  - destruct Hr as (-> & Ht1 & He1 & Hb1). cbn [Z.eqb negb].
    assert (server_inv base m (L1, s.2)) as H1 by by split.
    exists m, (L1, s.2). split; [|split; [done|]].
    + apply (destroy_unregistered _ m L1 s.2 id so H1); done.
    + intros q fd' b Hq _. cbn. by rewrite Hb1.
Qed.
(** Replacing a session object by one with the same connection. *)
Lemma session_update_inv (m : gmap Z (Z * Z)) (L : EventLoop) (w : Node) (cm : ClusterManager)
    (id : Z) (so so' : SessionObj) :
  server_inv base m (L, w) -> nd_sessions w !! id = Some so -> so_conn so' = so_conn so ->
  statuses_ok cm -> server_inv base m (L, {| w with nd_cluster := cm; nd_sessions := <[id := so']> (nd_sessions w) |}).
Proof.
  intros [Ht Ho Hk Hc Hl Hsv Hgs Hst] Hid Hconn Hcm. split; cbn in *; [done..| | |done|done|done].
  - intros fd ctx Hf. destruct (Hc fd ctx Hf) as (so0 & Hs & Hfd).
    destruct (decide (id = ctx)) as [<-|Hne].
    + exists so'. rewrite lookup_insert_eq, Hconn. by simplify_eq.
    + exists so0. by rewrite lookup_insert_ne.
  - intros id' so0 [[<- <-]|[_ Hs]]%lookup_insert_Some; [rewrite Hconn|]; by apply Hl.
Qed.

Lemma client_inv (m : gmap Z (Z * Z)) (env : CallEnv) (id ev fd : Z) (s : EventLoop * Node) :
  server_inv base m s -> m !! fd = Some (RPC_ON_CLIENT_EVENT, id) ->
  exists m' s', on_client_event env id ev s = Returns s' /\ server_inv base m' s' /\
    keeps fd s.1 s'.1.
Proof.
  intros H Hfd. destruct s as [L w]. pose proof H as [Ht Ho Hk Hc Hl Hsv Hgs Hst].
  destruct (Hc fd id Hfd) as (so & Hid & Hso). unfold on_client_event. cbn [snd fst] in *.
  rewrite Hid, Hso.
  destruct (mod_spec (ce_ctl env) L m fd EVENT_WRITE RPC_ON_CLIENT_EVENT id Ht) as (rc & Lm & -> & Hr).
  rewrite decide_True in Hr.
  2:{ split_and!; [|done|eauto]. apply (tr_map _ _ Ht) in Hfd as (p & Hp).
      by apply (tr_valid _ _ Ht) in Hp as []. }
  destruct Hr as (Htm & (p & cb0 & ctx0 & Hp & Hb) & _). rewrite insert_id in Htm by done.
  match goal with |- context [client_event_lines ?e ev ?v] =>
    destruct (client_event_statuses e ev v Hst) as [Hst' [ls ->]] end.
  destruct (rpc_on_client_event _ _ _) as [alive sv]. cbn [snd] in Hst'.
  match goal with |- context [if ?b then Lm else L] => set (L1 := if b then Lm else L) end.
  assert (tracks L1 m /\ keeps fd L L1) as [Ht1 Hk1].
  { unfold L1. destruct (_ && _); split; try done; [by eapply keeps_mod|apply keeps_refl]. }
  set (so' := {| so_session := sv_session sv |}).
  assert (server_inv base m (L1, {| w with nd_cluster := sv_cluster sv;
            nd_sessions := <[id := so']> (nd_sessions w) |})) as H1.
  { apply session_update_inv with (so := so); [by split|done..]. }
  destruct alive; [by eexists _, _|].
  destruct (destroy_inv (ce_del env) m _ id so' H1) as (s' & Hd & Hinv & Hk2); [apply lookup_insert_eq|].
  eexists _, s'. split; [exact Hd|]. split; [exact Hinv|]. cbn in Hk2. rewrite Hso in Hk2.
  by eapply keeps_trans.
Qed.

(** Callbacks that change neither the loop nor the sessions. *)
Lemma quiet_inv (m : gmap Z (Z * Z)) (L : EventLoop) (w w' : Node) :
  server_inv base m (L, w) -> nd_sessions w' = nd_sessions w -> nd_open w' = nd_open w ->
  nd_tcp_server_fd w' = nd_tcp_server_fd w -> nd_gossip_sock w' = nd_gossip_sock w ->
  statuses_ok (nd_cluster w') -> server_inv base m (L, w').
Proof.
  intros [Ht Ho Hk Hc Hl Hsv Hgs Hst] Hs Hop Hf Hg Hst'. split; cbn in *; rewrite ?Hs, ?Hop, ?Hf, ?Hg; done.
Qed.
End Inv.

(** The callbacks of the server honour the contract of the event loop. *)
Lemma server_own (base : fds) (answers : EventLoop * Node -> CallEnv) :
  answers_ok answers ->
  OwnDescriptor (call answers) (fun s => exists m, server_inv base m s).
Proof.
  intros Ha. split.
  - intros s (m & H). exists m. apply H.
  - intros s r (m & H). exists m. destruct s as [L w], H as [Ht Ho Hk Hc Hl Hsv Hgs Hst].
    split; [by apply tracks_running|done..].
  - intros s p fd cb ctx ev (m & H) Hp. pose proof H as [Ht _ Hk _ _ _ _ Hst].
    assert (m !! fd = Some (cb, ctx)) as Hm by (apply (tr_map _ _ Ht); eauto).
    enough (exists m' s', call answers cb ctx fd ev s = Returns s' /\ server_inv base m' s' /\
              keeps fd s.1 s'.1) as (m' & s' & Hs & Hi & Hkeep) by (exists s'; eauto).
    unfold call. destruct (Hk fd cb ctx Hm) as [->|[->|[->|[->| ->]]]]; cbn [Z.eqb Pos.eqb
      RPC_ON_ACCEPT RPC_ON_CLIENT_EVENT ON_GOSSIP_RECEIVE ON_HEARTBEAT_TIMER CLUSTER_REAPER_TICK].
    + by apply (accept_inv base m).
    + by apply (client_inv base m).
    + unfold gossip_event. destruct (gossip_line_ok _ (udp_recv (ce_datagram (answers s)) 2048).1.2 Hst)
        as [l ->].
      eexists m, _. split; [done|]. split; [|apply keeps_refl]. destruct s.
      eapply (quiet_inv base m); [exact H|done..|]. by apply gossip_statuses.
    + eexists m, _. split; [done|]. split; [|apply keeps_refl]. destruct s as [L w].
      eapply (quiet_inv base m); [exact H|..]; unfold heartbeat_event; cbn; by destruct (ce_read _).
    + eexists m, _. split; [done|]. split; [|apply keeps_refl]. destruct s.
      eapply (quiet_inv base m); [exact H|done..|]. by apply reaper_statuses.
Qed.

(** ** Set-up *)

(** Before any session exists. *)
Record booting (base : fds) (used : list ptr) (s : EventLoop * Node) : Prop := {
  bo_inv : exists m, server_inv base m s;
  bo_sessions : nd_sessions s.2 = ∅;
  bo_used : forall p, is_Some (bodies s.1 !! p) -> p ∈ used;
}.

Lemma open_boot (base : fds) (used : list ptr) (L : EventLoop) (w : Node) (fd : Z) :
  booting base used (L, w) ->
  booting (opened fd base) used (L, {| w with nd_open := opened fd (nd_open w) |}).
Proof.
  unfold opened. intros [(m & [Ht Ho Hk Hc Hl Hsv Hgs Hst]) Hs Hu]. split; cbn in *; [|done|done].
  exists m. split; cbn; [done| |done|done| |set_solver..|done].
  - rewrite Ho. set_solver.
  - intros id so. by rewrite Hs, lookup_empty.
Qed.

(** What registering a descriptor during the set-up leaves: on success the
    descriptor, which is open, is tracked; on failure nothing changed. *)
Lemma register_boot (base : fds) (used : list ptr) (L : EventLoop) (w : Node) (mem : option ptr)
    (ok : bool) (fd cb ctx : Z) :
  booting base used (L, w) -> known_callback cb -> cb <> RPC_ON_CLIENT_EVENT ->
  (forall p, mem = Some p -> p ∉ used) ->
  exists rc L1, loop_add_fd mem ok L fd EVENT_READ cb ctx = Returns (rc, L1) /\
    ((rc = 0 /\ (fd ∈ base -> booting base (used ++ option_list mem) (L1, w))) \/
     (rc = -1 /\ booting base (used ++ option_list mem) (L1, w))).
Proof.
  intros [(m & [Ht Ho Hk Hc Hl Hsv Hgs Hst]) Hs Hu] Hcb Hncb Hmem. cbn in *.
  destruct (add_spec mem ok L m fd EVENT_READ cb ctx Ht) as (rc & L1 & -> & Hr).
  { intros p Hp. destruct (heap L !! p) as [c|] eqn:E; [|done]. destruct (Hmem p Hp).
    apply Hu. unfold bodies. rewrite lookup_fmap, E. eauto. }
  exists rc, L1. split; [done|]. case_decide as Hcase; [left|right].
  - destruct Hr as (-> & Ht1 & p & -> & _ & Hb). split; [done|]. intros Hfd. split; cbn; [|done|].
    + exists (<[fd := (cb, ctx)]> m). split; cbn; [done|..|done|done|done].
      * rewrite Ho, dom_insert_L. set_solver.
      * intros fd' cb' ctx' [[<- [= <- <-]]|[_ Hf]]%lookup_insert_Some; [done|by eapply Hk].
      * intros fd' ctx' [[<- [= Heq _]]|[Hne Hf]]%lookup_insert_Some; [done|by apply Hc].
      * intros id so. by rewrite Hs, lookup_empty.
    + intros q. rewrite Hb, lookup_insert_is_Some. intros [<-|[_ Hq]]; [set_solver|].
      apply elem_of_app. left. by apply Hu.
  - destruct Hr as (-> & Ht1 & _ & Hb). split; [done|]. split; cbn; [|done|].
    + exists m. by split.
    + intros q. rewrite Hb. intros Hq. apply elem_of_app. left. by apply Hu.
Qed.

Lemma timer_boot (base : fds) (used : list ptr) (env : StartEnv) (i : nat) (cb ctx : Z)
    (L : EventLoop) (w : Node) :
  booting base used (L, w) -> known_callback cb -> cb <> RPC_ON_CLIENT_EVENT ->
  (forall p, sa_context env (2 + i)%nat = Some p -> p ∉ used) ->
  exists tfd s1 base1, start_timer env i cb ctx (L, w) = Returns (tfd, s1) /\
    booting base1 (used ++ option_list (sa_context env (2 + i)%nat)) s1.
Proof.
  intros Hb Hcb Hncb Hmem. unfold start_timer, loop_add_timer. cbn [fst snd].
  destruct (_ || _ || _) eqn:E.
  { eexists _, _, base. split; [done|]. destruct Hb as [H1 H2 H3]. split; [done..|].
    intros p Hp. apply elem_of_app. left. by apply H3. }
  apply orb_false_elim in E as [[_ E]%orb_false_elim _].
  destruct (register_boot base used L w (sa_context env (2 + i)%nat) (sa_ctl env (2 + i)%nat)
              (sa_timer env i) cb ctx Hb Hcb Hncb Hmem) as (rc & L1 & Hadd & Hr).
  rewrite Hadd. destruct Hr as [[-> _]|[-> Hr]]; [|by eexists _, _, base].
  eexists _, _, (opened (sa_timer env i) base). split; [done|].
  cbn [Z.eqb]. rewrite E. apply (open_boot base used L w (sa_timer env i)) in Hb.
  destruct (register_boot _ used L _ (sa_context env (2 + i)%nat) (sa_ctl env (2 + i)%nat)
              (sa_timer env i) cb ctx Hb Hcb Hncb Hmem) as (rc & L2 & Hadd2 & Hr).
  rewrite Hadd in Hadd2. injection Hadd2 as <- <-.
  destruct Hr as [[_ Hr]|[? _]]; [|done]. apply Hr. unfold opened. set_solver.
Qed.

(** The loop that [main] starts with. *)
Lemma create_boot (env : StartEnv) (L : EventLoop) (w : Node) :
  loop_create (sa_loop env) (sa_epoll env) (sa_events env) 1024 = Some L ->
  nd_sessions w = ∅ -> statuses_ok (nd_cluster w) -> nd_tcp_server_fd w ∈ nd_open w -> u_sockfd (nd_gossip_sock w) ∈ nd_open w ->
  0 <= nd_tcp_server_fd w -> 0 <= u_sockfd (nd_gossip_sock w) ->
  booting (nd_open w) [] (L, w).
Proof.
  intros EL Hs Hst H1 H2 H3 H4. apply tracks_create in EL as HL. split; cbn; [|done|].
  - exists ∅. split; cbn; [done|set_solver|..]; try done; intros *; [by rewrite lookup_empty..|].
    by rewrite Hs, lookup_empty.
  - unfold loop_create in EL. destruct (_ && _); [|done]. injection EL as <-.
    intros p. unfold bodies. cbn. by rewrite fmap_empty, lookup_empty; intros [].
Qed.

(** The registrations and timers of [main], from a loop without contexts. *)
Lemma register_all (base : fds) (env : StartEnv) (ctxs : Z * Z * Z) (L : EventLoop) (w : Node)
    (sfd ufd : Z) :
  (forall i j p, sa_context env i = Some p -> sa_context env j = Some p -> i = j) ->
  booting base [] (L, w) -> sfd ∈ base -> ufd ∈ base ->
  exists rc1 L1 rc2 L2 hb s3 rp s4 base4 used,
    loop_add_fd (sa_context env 0) (sa_ctl env 0) L sfd EVENT_READ RPC_ON_ACCEPT ctxs.1.1
      = Returns (rc1, L1) /\
    loop_add_fd (sa_context env 1) (sa_ctl env 1) L1 ufd EVENT_READ ON_GOSSIP_RECEIVE ctxs.1.2
      = Returns (rc2, L2) /\
    start_timer env 0 ON_HEARTBEAT_TIMER ctxs.1.2 (L2, w) = Returns (hb, s3) /\
    start_timer env 1 CLUSTER_REAPER_TICK ctxs.2 s3 = Returns (rp, s4) /\
    booting base4 used s4.
Proof.
  intros Hctx Hb0 Hsfd Hufd.
  assert (forall i (used : list nat) p, i ∉ used -> sa_context env i = Some p ->
            p ∉ used ≫= (fun j => option_list (sa_context env j))) as Hnew.
  { intros i used p Hi Hp (j & Hj & Hin)%list_elem_of_bind.
    destruct (sa_context env j) as [q|] eqn:Ej; cbn in Hj; [|set_solver].
    apply list_elem_of_singleton in Hj as ->. by rewrite (Hctx i j q Hp Ej) in Hi. }
  destruct (register_boot base [] L w (sa_context env 0) (sa_ctl env 0) sfd RPC_ON_ACCEPT ctxs.1.1 Hb0)
    as (rc1 & L1 & E1 & H1); [by left|done|set_solver|].
  assert (booting base ([0%nat] ≫= (fun j => option_list (sa_context env j))) (L1, w)) as Hb1.
  { cbn. rewrite app_nil_r. destruct H1 as [[_ H1]|[_ H1]]; [by apply H1|done]. }
  destruct (register_boot base _ L1 w (sa_context env 1) (sa_ctl env 1) ufd
              ON_GOSSIP_RECEIVE ctxs.1.2 Hb1) as (rc2 & L2 & E2 & H2);
    [right; right; by left|done|intros p; apply Hnew; set_solver|].
  assert (booting base ([0; 1]%nat ≫= (fun j => option_list (sa_context env j))) (L2, w)) as Hb2.
  { cbn in *. rewrite app_nil_r in *. destruct H2 as [[_ H2]|[_ H2]]; [by apply H2|done]. }
  destruct (timer_boot base _ env 0 ON_HEARTBEAT_TIMER ctxs.1.2 L2 w Hb2)
    as (hb & [L3 w3] & base3 & E3 & H3);
    [right; right; right; by left|done|intros p; apply Hnew; set_solver|].
  assert (booting base3 ([0; 1; 2]%nat ≫= (fun j => option_list (sa_context env j))) (L3, w3)) as Hb3.
  { cbn in *. rewrite app_nil_r in *. by rewrite <- app_assoc in H3. }
  destruct (timer_boot base3 _ env 1 CLUSTER_REAPER_TICK ctxs.2 L3 w3 Hb3)
    as (rp & s4 & base4 & E4 & H4);
    [by do 4 right|done|intros p; apply Hnew; set_solver|].
  by eexists rc1, L1, rc2, L2, hb, (L3, w3), rp, s4, base4, _.
Qed.

(** A failed set-up closes what it opened and frees the loop. *)
Lemma exit_clean (env : StartEnv) (L : EventLoop) (o : fds) :
  loop_create (sa_loop env) (sa_epoll env) (sa_events env) 1024 = Some L ->
  exists L', exit_failure env o L = Returns (ExitFailure o (Some L')) /\ heap L' = ∅.
Proof.
  intros EL%tracks_create. destruct (free_all (sa_del env) L ∅ EL) as (L' & HL & Hh & _ & _).
  exists L'. unfold exit_failure. rewrite HL. auto.
Qed.

(** The set-up is undefined only when the context of the RPC server is not allocated;
    it fails with nothing open, or leaves a node without members. *)
Lemma setup_boot (env : StartEnv) (r : Z) (id : list byte) (port : Z) (ctxs : Z * Z * Z) :
  (forall i j p, sa_context env i = Some p -> sa_context env j = Some p -> i = j) ->
  match main_setup env r id port ctxs with
  | Undefined => sa_rpc_ctx env = false
  | Returns (ExitFailure o L) => o = ∅ /\ forall L', L = Some L' -> heap L' = ∅
  | Returns (Started s) => exists base m, server_inv base m s
  end.
Proof.
  intros Hctx. unfold main_setup.
  destruct (loop_create _ _ _ _) as [L|] eqn:EL; [|done].
  destruct (tcp_server_listen _ _) as [sfd o1] eqn:E1.
  destruct (Z.ltb_spec sfd 0) as [Hneg|Hsfd].
  { apply listen_failure in E1 as ->; [|done].
    destruct (exit_clean env L ∅ EL) as (L' & -> & H). split; [done|]. by intros ? [= <-]. }
  apply listen_success in E1 as ->; [|done].
  destruct (udp_init _ _ _) as [[rcu [sock|]] o2] eqn:E2.
  2:{ apply udp_failure in E2.
      destruct (exit_clean env L (close sfd o2) EL) as (L' & -> & H).
      split; [|by intros ? [= <-]]. unfold close, opened in *. apply set_eq. set_solver. }
  destruct (sa_rpc_ctx env); cbn [negb]; [|done].
  apply udp_success in E2 as [-> Hufd]. set (w := {| nd_cluster := _ |}).
  assert (booting (nd_open w) [] (L, w)) as Hb0.
  { eapply create_boot; [exact EL|done|by constructor|..]; cbn; unfold opened; try set_solver; done. }
  destruct (register_all _ env ctxs L w sfd (u_sockfd sock) Hctx Hb0)
    as (rc1 & L1 & rc2 & L2 & hb & s3 & rp & s4 & base4 & used & -> & -> & -> & -> & Hb4);
    [cbn; unfold opened; set_solver..|].
  destruct Hb4 as [(m & Hinv) _ _]. exists base4, m. destruct s4 as [L4 w4].
  apply (quiet_inv base4 m L4 w4); try done. apply Hinv.
Qed.

(** ** Shutdown *)

(** A LEAVE goes to at most three members, alive and not the node itself. *)
Lemma leave_targets_spec (send : NodeInfo -> bool) (id : list byte) (ms : list NodeInfo) (k : nat) :
  (length (leave_targets send id k ms) + k <= Nat.max 3 k)%nat /\
  forall x, x ∈ leave_targets send id k ms ->
    x ∈ ms /\ status x = NODE_STATUS_ALIVE /\ streq (ni_node_id x) id = false.
Proof.
  revert k. induction ms as [|y ms IH]; intros k; cbn [leave_targets]; [cbn; split; [lia|set_solver]|].
  destruct (Nat.leb_spec 3 k); [cbn; split; [lia|set_solver]|].
  destruct (streq (ni_node_id y) id) eqn:E.
  { destruct (IH k) as [H1 H2]. split; [done|]. intros x Hx. destruct (H2 x Hx). split; [by right|done]. }
  destruct (Z.eqb_spec (status y) NODE_STATUS_ALIVE); cbn [andb]; [destruct (send y)|].
  1: destruct (IH (S k)) as [H1 H2]; split; [cbn; lia|]; intros x [->|Hx]%elem_of_cons;
       [split; [left|done]|].
  1: destruct (H2 x Hx); split; [by right|done].
  all: destruct (IH k) as [H1 H2]; split; [done|]; intros x Hx; destruct (H2 x Hx); split; [by right|done].
Qed.

(** The members that get a LEAVE are those reached among those tried. *)
Lemma leave_targets_attempts (send : NodeInfo -> bool) (id : list byte) (k : nat) (ms : list NodeInfo) :
  leave_targets send id k ms = filter (fun m => send m = true) (leave_attempts send id k ms).
Proof.
  revert k. induction ms as [|m ms IH]; intros k; cbn [leave_targets leave_attempts]; [done|].
  destruct (3 <=? k)%nat; [done|]. destruct (streq _ _); [apply IH|].
  destruct (status m =? NODE_STATUS_ALIVE); cbn [andb]; [|apply IH].
  destruct (send m) eqn:E; [rewrite filter_cons_True by done|rewrite filter_cons_False by congruence];
    by rewrite IH.
Qed.

(** What is left when [main] returns: no context, neither of its sockets; the
    sessions and their descriptors, and the timers, stay open. *)
Record released (s : EventLoop * Node) (msgs : list (NodeInfo * list byte)) (s' : EventLoop * Node)
    : Prop := {
  re_heap : heap s'.1 = ∅;
  re_open : nd_open s'.2 = nd_open s.2 ∖ {[nd_tcp_server_fd s.2; u_sockfd (nd_gossip_sock s.2)]};
  re_state : cluster_state (nd_cluster s'.2) = CLUSTER_STATE_LEAVING;
  re_leaks : forall id so, nd_sessions s.2 !! id = Some so ->
    nd_sessions s'.2 !! id = Some so /\ sockfd (so_conn so) ∈ nd_open s'.2;
  re_leave : (length msgs <= 3)%nat /\ forall x b, (x, b) ∈ msgs ->
    x ∈ cm_members (nd_cluster s.2) /\ status x = NODE_STATUS_ALIVE /\
    streq (ni_node_id x) (ni_node_id (self (nd_cluster s.2))) = false /\
    b = serializer_pack_rpc (leave_header (nd_cluster s.2));
}.

Lemma shutdown_spec (env : LeaveEnv) (base : fds) (m : gmap Z (Z * Z)) (s : EventLoop * Node) :
  server_inv base m s ->
  match main_shutdown env s with
  | Undefined => False
  | Returns None => leave_killed env (nd_cluster s.2) = true
  | Returns (Some (msgs, s')) => released s msgs s'
  end.
Proof.
  destruct s as [L w]. intros [Ht Ho Hk Hc Hl [Hsv Hsv0] [Hgs Hgs0] Hst]. cbn [fst snd] in *.
  unfold main_shutdown, cluster_leave, udp_close. cbn [fst snd].
  destruct (leave_killed env (nd_cluster w)) eqn:Ek; [done|].
  set (gfd := u_sockfd (nd_gossip_sock w)) in *.
  destruct (del_keeps (le_del env (nd_tcp_server_fd w)) L m (nd_tcp_server_fd w) Ht)
    as (rc1 & L1 & -> & Ht1 & _).
  destruct (del_keeps (le_del env gfd) _ _ gfd Ht1) as (rc2 & L2 & -> & Ht2 & _).
  rewrite (proj2 (Z.geb_le _ _)) by lia. cbv beta iota.
  destruct (free_all (le_del env) _ _ Ht2) as (L3 & -> & Hh & _ & _).
  split; cbn; [done| |done|..].
  - unfold close. set_solver.
  - intros id so Hid. split; [done|]. destruct (Hl id so Hid) as [Hm Hb].
    assert (sockfd (so_conn so) ∈ dom m) by (apply elem_of_dom; eauto).
    rewrite Ho. unfold close. rewrite !elem_of_difference, !elem_of_singleton, elem_of_union.
    split_and!; [by left|..]; intros Heq; by rewrite Heq in Hb.
  - destruct (leave_targets_spec (delivered env) (ni_node_id (self (nd_cluster w))) (cm_members (nd_cluster w)) 0)
      as [Hlen Hin].
    split; [rewrite length_map; lia|]. intros x b (y & [= -> ->] & Hy)%list_elem_of_fmap.
    destruct (Hin y Hy) as (H1 & H2 & H3). auto.
Qed.

(** What every run of the node amounts to. *)
Definition run_ok (res : main_result) : Prop :=
  match res with
  | MainFailed o L => o = ∅ /\ forall L', L = Some L' -> heap L' = ∅
  | MainRunning s => exists base m, server_inv base m s
  | MainKilled s => exists base m, server_inv base m s
  | MainDone s msgs s' => (exists base m, server_inv base m s) /\ released s msgs s'
  end.

(** The join changes the membership only. *)
Lemma join_keeps (env : JoinEnv) (seed : option (list byte * Z)) (w w' : Node) :
  main_join env seed w = Returns (Some w') -> exists cm, w' = {| w with nd_cluster := cm |}.
Proof.
  unfold main_join. destruct seed as [[ip port]|].
  - destruct (je_sigpipe env); [done|].
    destruct (cluster_join _ _ _ _ _ _ _ _) as [[rc cm]|]; [|done]. intros [= <-]. eauto.
  - intros [= <-]. exists (nd_cluster w). by destruct w.
Qed.

(** An answer of the seed that is read out of bounds, or that lists a member with a
    status that does not exist. *)
Definition bad_answer (jenv : JoinEnv) (seed : option (list byte * Z)) (w : Node) : Prop :=
  match main_join jenv seed w with
  | Undefined => True
  | Returns None => False
  | Returns (Some w') => ~ statuses_ok (nd_cluster w')
  end.

#[export] Instance statuses_ok_dec (cm : ClusterManager) : Decision (statuses_ok cm).
Proof. unfold statuses_ok. apply _. Defined.

Section Run.
Context (jenv : JoinEnv) (seed : option (list byte * Z)) (answers : EventLoop * Node -> CallEnv)
  (epoll_wait : nat -> EventLoop -> wait_result) (lenv : LeaveEnv) (fuel : nat).
Hypothesis Hans : answers_ok answers.
Hypothesis Hwait : forall i L b, epoll_wait i L = WaitEvents b -> reported L b.

(** The result is in order, and after a signal in round [k] it is final. *)
Definition runs_ok (res : main_result) : Prop :=
  run_ok res /\
  forall k, (forall L, epoll_wait k L = WaitInterrupted true) -> (k + 2 <= fuel)%nat ->
    forall s, res <> MainRunning s.

Lemma run_from (base : fds) (m : gmap Z (Z * Z)) (s : EventLoop * Node) :
  server_inv base m s ->
  match main_run jenv seed answers epoll_wait lenv fuel s with
  | Undefined => bad_answer jenv seed s.2
  | Returns res => bad_answer jenv seed s.2 \/ runs_ok res
  end.
Proof.
  intros Hinv. unfold main_run, bad_answer.
  destruct (main_join jenv seed s.2) as [[w|]|] eqn:Ej; [|right; split; [cbn; eauto|done]|done].
  destruct (decide (statuses_ok (nd_cluster w))) as [Hst|Hst].
  2:{ destruct (loop_run _ _ _ _) as [[[] s1]|]; [|by left|done].
      destruct (main_shutdown _ _) as [[[msgs s2]|]|]; [by left..|done]. }
  assert (server_inv base m (s.1, w)) as Hinv1.
  { apply join_keeps in Ej as [cm ->]. destruct s as [L0 w0]. by apply (quiet_inv base m L0 w0). }
  pose proof (server_own base answers Hans) as Hown.
  destruct (rounds_safe (call answers) (fun s => exists m, server_inv base m s) epoll_wait fuel 0
              ({| (s.1) with running := true |}, w) Hwait) as (b & s' & Hr & m' & Hinv').
  { exact (@own_running _ _ _ Hown (s.1, w) true (ex_intro _ m Hinv1)). }
  unfold loop_run. cbn [fst snd]. rewrite Hr. destruct b.
  - pose proof (shutdown_spec lenv base m' s' Hinv') as Hsh.
    destruct (main_shutdown lenv s') as [[[msgs s2]|]|]; [..|done]; right; (split; [|done]); cbn; eauto.
  - right. split; [cbn; eauto|]. intros k Hk Hf.
    discriminate (stop_ends (call answers) epoll_wait k fuel 0 _ s' false Hk ltac:(lia) ltac:(lia) Hr).
Qed.

(** Where a run may be undefined, and where it is not covered. *)
Definition excused (env : StartEnv) (r : Z) (id : list byte) (port : Z) (ctxs : Z * Z * Z) : Prop :=
  sa_rpc_ctx env = false \/
  exists s, main_setup env r id port ctxs = Returns (Started s) /\ bad_answer jenv seed s.2.

Lemma main_runs (env : StartEnv) (r : Z) (id : list byte) (port : Z) (ctxs : Z * Z * Z) :
  (forall i j p, sa_context env i = Some p -> sa_context env j = Some p -> i = j) ->
  match main_node env r id port ctxs jenv seed answers epoll_wait lenv fuel with
  | Undefined => excused env r id port ctxs
  | Returns res => excused env r id port ctxs \/ runs_ok res
  end.
Proof.
  intros Hctx. unfold main_node. pose proof (setup_boot env r id port ctxs Hctx) as Hb. unfold excused.
  destruct (main_setup env r id port ctxs) as [[o L|s]|].
  - right. by split.
  - destruct Hb as (base & m & Hinv). pose proof (run_from base m s Hinv) as Hr.
    destruct (main_run _ _ _ _ _ _ _) as [res|]; [destruct Hr as [Hr|Hr]|]; eauto 10.
  - by left.
Qed.
End Run.

(** ** Properties *)


(** A termination signal ends the program.  When the signal handler's
    [loop_stop] interrupts the [k]-th wait, the program leaves its loop within
    [k + 2] rounds: unless the set-up failed or a broken connection ended the process,
    it returns with the loop's contexts freed and its two sockets closed, and LEAVE went
    to at most three members, all alive and none of them the node itself.  Sessions that
    were still open, and their descriptors, are not released. *)
Theorem server_stops (env : StartEnv) (r : Z) (id : list byte) (port : Z) (ctxs : Z * Z * Z)
    (jenv : JoinEnv) (seed : option (list byte * Z)) (answers : EventLoop * Node -> CallEnv)
    (epoll_wait : nat -> EventLoop -> wait_result) (lenv : LeaveEnv) (fuel k : nat) :
  (forall i j p, sa_context env i = Some p -> sa_context env j = Some p -> i = j) ->
  answers_ok answers -> (forall i L b, epoll_wait i L = WaitEvents b -> reported L b) ->
  ~ excused jenv seed env r id port ctxs ->
  (forall L, epoll_wait k L = WaitInterrupted true) -> (k + 2 <= fuel)%nat ->
  exists res, main_node env r id port ctxs jenv seed answers epoll_wait lenv fuel = Returns res /\
    match res with
    | MainFailed o _ => o = ∅
    | MainRunning _ => False
    | MainKilled _ => True
    | MainDone s msgs s' => released s msgs s'
    end.
Proof.
  intros H1 H2 H3 Hex Hk Hf.
  pose proof (main_runs jenv seed answers epoll_wait lenv fuel H2 H3 env r id port ctxs H1) as H.
  destruct (main_node _ _ _ _ _ _ _ _ _ _ _) as [res|]; [|done]. exists res. split; [done|].
  destruct H as [H|[Hok Hend]]; [done|]. destruct res as [o L|s|s|s msgs s'].
  - apply Hok.
  - by destruct (Hend k Hk Hf s).
  - done.
  - apply Hok.
Qed.

(** Answers with a new connection at every accept. *)
Definition demo_answers (s : EventLoop * Node) : CallEnv :=
  {| ce_accept := fresh (nd_open s.2); ce_again := false; ce_ip := zeros 46; ce_port := 4000;
     ce_nonblocking := true; ce_session := Some (fresh (dom (nd_sessions s.2)));
     ce_context := Some (fresh (dom (heap s.1))); ce_ctl := true; ce_del := false; ce_input := [x00];
     ce_io := with_recv demo_env 1; ce_datagram := NoData; ce_read := true; ce_now := 0; ce_rand := 0 |}.

Lemma demo_answers_ok : answers_ok demo_answers.
Proof.
  split.
  - intros s _. apply is_fresh.
  - intros s p [= <-]. apply not_elem_of_dom, is_fresh.
  - intros s x [= <-]. apply not_elem_of_dom, is_fresh.
Qed.

Definition demo_setup (fd : Z) : SetupEnv :=
  {| se_socket := fd; se_setsockopt := true; se_nonblocking := true; se_pton := true;
     se_bind := true; se_listen := true; se_connect := true |}.

Definition demo_start_env : StartEnv :=
  {| sa_loop := true; sa_epoll := true; sa_events := true; sa_listen := demo_setup 4;
     sa_udp := demo_setup 5; sa_rpc_ctx := true; sa_context := fun i => Some (Pos.of_succ_nat i);
     sa_ctl := fun _ => true; sa_timer := fun i => 6 + Z.of_nat i; sa_settime := fun _ => true;
     sa_del := fun _ => false; sa_now := 0 |}.

(** A kernel that reports one registered descriptor. *)
Definition demo_wait (i : nat) (L : EventLoop) : wait_result :=
  match map_to_list (epoll L) with
  | (_, (_, p)) :: _ => WaitEvents [(EPOLLIN, p)]
  | [] => WaitInterrupted false
  end.

(** The same kernel until the signal in round [k]. *)
Definition demo_signal (k i : nat) (L : EventLoop) : wait_result :=
  if Nat.eqb i k then WaitInterrupted true else demo_wait i L.

Lemma demo_reported (i : nat) (L : EventLoop) (b : list (Z * ptr)) :
  demo_wait i L = WaitEvents b -> reported L b.
Proof.
  unfold demo_wait. destruct (map_to_list (epoll L)) as [|[fd [e p]] l] eqn:E; [done|].
  intros [= <-]. split; [cbn; apply NoDup_singleton|].
  intros ev q Hq%list_elem_of_singleton. injection Hq as -> ->. exists fd, e.
  apply elem_of_map_to_list. rewrite E. left.
Qed.

(** A seed that does not answer. *)
Definition demo_join : JoinEnv :=
  {| je_exchange := fun _ _ _ => None; je_sigpipe := false; je_payload := true;
     je_alloc := fun _ => alloc_ok; je_junk := fun _ => (0, 0); je_now := 0 |}.

(** A kernel that refuses every removal, and members that take their LEAVE. *)
Definition demo_leave : LeaveEnv := {| le_send := fun _ => Delivered; le_del := fun _ => false |}.

Lemma demo_contexts (i j : nat) (p : ptr) :
  sa_context demo_start_env i = Some p -> sa_context demo_start_env j = Some p -> i = j.
Proof. cbn. intros [= <-] [= H]. apply SuccNat2Pos.inj in H. by symmetry. Qed.

(** Nothing is excused: the context is allocated and the seed does not answer. *)
Lemma demo_not_excused (seed : option (list byte * Z)) (r : Z) (id : list byte) (port : Z)
    (ctxs : Z * Z * Z) :
  ~ excused demo_join seed demo_start_env r id port ctxs.
Proof.
  intros [H|(s & Hs & Hb)]; [done|].
  assert (nd_cluster s.2 = (cluster_init r id (text "0.0.0.0") port 0).2) as Hcm.
  { destruct ctxs as [[c1 c2] c3]. vm_compute in Hs. injection Hs as <-. reflexivity. }
  assert (statuses_ok (nd_cluster s.2)) as Hst by (rewrite Hcm; constructor).
  unfold bad_answer, main_join, demo_join in Hb. destruct seed as [[ip p]|]; cbn in Hb; [|done].
  apply Hb, Hst.
Qed.


Lemma server_stops_witness :
  exists s msgs s', main_node demo_start_env ROLE_WORKER_NODE (text "n1") 9000 (11, 12, 13) demo_join
      None demo_answers (demo_signal 3) demo_leave 5 = Returns (MainDone s msgs s') /\
    heap s'.1 = ∅.
Proof.
  destruct (server_stops demo_start_env ROLE_WORKER_NODE (text "n1") 9000 (11, 12, 13) demo_join
      None demo_answers (demo_signal 3) demo_leave 5 3) as (res & E & H).
  - exact demo_contexts.
  - exact demo_answers_ok.
  - intros i L b. unfold demo_signal. destruct (Nat.eqb i 3); [done|]. apply demo_reported.
  - apply demo_not_excused.
  - intros L. reflexivity.
  - lia.
  - destruct res as [o L|s|s|s msgs s']; try (exfalso; vm_compute in E; discriminate E).
    exists s, msgs, s'. split; [exact E|]. apply H.
Defined.
