(* ===== verification/Program.v ===== *)
(** * The program and its arguments

    Models [main] of [src/main.c] from its first line: the logger, the usage check,
    the argument loop, the role and seed taken from fixed positions, then the node
    of [Server.v].  [atoi] is the C library's.  [ROLE_CONTROL] and [ROLE_WORKER] are
    declared in no header that [main.c] includes, so they are arguments.  [role] is
    declared twice in one scope, before and after the argument loop; it is one variable
    here, and the second declaration overwrites what the loop stored. *)

From S2P Require Import Prelude RaftCore Wire RaftRpc Cluster EventLoop Session Transport Server.

(** ** The C library's atoi *)

(** [isspace] in the C locale. *)
Definition is_space (b : byte) : bool :=
  let z := Z_of_byte b in (z =? 32) || ((9 <=? z) && (z <=? 13)).

Definition is_digit (b : byte) : bool :=
  let z := Z_of_byte b in (48 <=? z) && (z <=? 57).

Fixpoint skip_spaces (s : list byte) : list byte :=
  match s with
  | b :: s' => if is_space b then skip_spaces s' else s
  | [] => []
  end.

(** The value of the leading digits, after those that gave [acc]. *)
Fixpoint read_digits (acc : Z) (s : list byte) : Z :=
  match s with
  | b :: s' => if is_digit b then read_digits (acc * 10 + (Z_of_byte b - 48)) s' else acc
  | [] => acc
  end.

(** A value that does not fit an [int] is undefined. *)
Definition atoi (s : list byte) : outcome Z :=
  let v :=
    match skip_spaces (cstr s) with
    | x2d :: t => - read_digits 0 t
    | x2b :: t => read_digits 0 t
    | t => read_digits 0 t
    end in
  if (- 2 ^ 31 <=? v) && (v <? 2 ^ 31) then Returns v else Undefined.

(** ** Arguments *)

(** The variables that the argument loop sets; [op_role] is [role]. *)
Record Options : Type := {
  op_node_id : list byte;
  op_port : Z;
  op_role : Z;
  op_join_addr : option (list byte);
}.

Definition default_options : Options :=
  {| op_node_id := text "default"; op_port := 9000; op_role := ROLE_WORKER_NODE;
     op_join_addr := None |}.

Section Arguments.
Context (ROLE_CONTROL ROLE_WORKER : Z).

(** The [for] loop from the argument at its head on.  A flag takes the next
    argument as its value, whatever that is; without one it is skipped. *)
Fixpoint parse_args (args : list (list byte)) (o : Options) : outcome Options :=
  match args with
  | [] => Returns o
  | a :: rest =>
      match rest with
      | [] => Returns o
      | v :: rest' =>
          if streq a (text "--node-id") then parse_args rest' {| o with op_node_id := v |}
          else if streq a (text "--port") then
            match atoi v with
            | Undefined => Undefined
            | Returns p => parse_args rest' {| o with op_port := u16 p |}
            end
          else if streq a (text "--role") then
            parse_args rest' {| o with op_role :=
              if streq v (text "CONTROL") then ROLE_CONTROL else ROLE_WORKER |}
          else if streq a (text "--join") then parse_args rest' {| o with op_join_addr := Some v |}
          else parse_args rest o
      end
  end.

(** What the declaration after the loop stores in [role]: it looks at the fourth
    argument only. *)
Definition main_role (argv : list (list byte)) : Z :=
  if streq (argv !!! 3%nat) (text "-c") then ROLE_CONTROL_NODE else ROLE_WORKER_NODE.

(** The variables with which [main] goes on: [role] is overwritten. *)
Definition main_options (argv : list (list byte)) : outcome Options :=
  match parse_args (drop 1 argv) default_options with
  | Undefined => Undefined
  | Returns o => Returns {| o with op_role := main_role argv |}
  end.

(** The seed, from the fifth and sixth argument; [join_addr] is not used. *)
Definition main_seed (argv : list (list byte)) : outcome (option (list byte * Z)) :=
  if (6 <=? length argv)%nat then
    match atoi (argv !!! 5%nat) with
    | Undefined => Undefined
    | Returns p => Returns (Some (argv !!! 4%nat, u16 p))
    end
  else Returns None.

(** ** The program *)

(** Exits before the node is set up, or what became of the node. *)
Inductive program_result : Type :=
  | NoLogger
  | Usage
  | Ran (r : main_result).

(** The exit status; [None] while the program runs and when a signal ended it. *)
Definition exit_status (r : program_result) : option Z :=
  match r with
  | NoLogger | Usage | Ran (MainFailed _ _) => Some 1
  | Ran (MainRunning _) | Ran (MainKilled _) => None
  | Ran (MainDone _ _ _) => Some 0
  end.

Definition main_program (logger_init : Z) (argv : list (list byte)) (env : StartEnv)
    (ctxs : Z * Z * Z) (jenv : JoinEnv) (answers : EventLoop * Node -> CallEnv)
    (epoll_wait : nat -> EventLoop -> wait_result) (lenv : LeaveEnv) (fuel : nat)
  : outcome program_result :=
  if negb (logger_init =? 0) then Returns NoLogger
  else if (length argv <? 4)%nat then Returns Usage
  else
    match main_options argv with
    | Undefined => Undefined
    | Returns o =>
        match main_setup env (op_role o) (op_node_id o) (op_port o) ctxs with
        | Undefined => Undefined
        | Returns (ExitFailure fds L) => Returns (Ran (MainFailed fds L))
        | Returns (Started s) =>
            match main_seed argv with
            | Undefined => Undefined
            | Returns seed =>
                match main_run jenv seed answers epoll_wait lenv fuel s with
                | Undefined => Undefined
                | Returns r => Returns (Ran r)
                end
            end
        end
    end.
End Arguments.

(** ** Decimal texts *)

Definition digit_byte (d : Z) : byte := byte_of_Z (48 + d).

(** The decimal text of a number below [10 ^ fuel]. *)
Fixpoint decimal_digits (fuel : nat) (z : Z) : list byte :=
  match fuel with
  | O => []
  | S fuel' =>
      if z <? 10 then [digit_byte z] else decimal_digits fuel' (z / 10) ++ [digit_byte (z mod 10)]
  end.

Definition decimal (z : Z) : list byte := decimal_digits 10 z.

Lemma digit_byte_value (d : Z) : 0 <= d < 10 -> Z_of_byte (digit_byte d) = 48 + d.
Proof.
  intros Hd. unfold digit_byte. rewrite coqutil.Byte.byte.unsigned_of_Z.
  apply Z.mod_small. lia.
Qed.

Lemma is_digit_byte (d : Z) : 0 <= d < 10 -> is_digit (digit_byte d) = true.
Proof.
  intros Hd. unfold is_digit. rewrite digit_byte_value by done. apply andb_true_iff.
  rewrite !Z.leb_le. lia.
Qed.

Lemma read_digits_app (s t : list byte) (acc : Z) :
  Forall (fun b => is_digit b = true) s -> read_digits acc (s ++ t) = read_digits (read_digits acc s) t.
Proof.
  intros Hs. revert acc. induction Hs as [|b s Hb Hs IH]; intros acc; [done|]. cbn. rewrite Hb. apply IH.
Qed.

Lemma decimal_digits_spec (fuel : nat) (z : Z) :
  0 <= z < 10 ^ Z.of_nat fuel -> (0 < fuel)%nat ->
  Forall (fun b => is_digit b = true) (decimal_digits fuel z) /\ decimal_digits fuel z <> [] /\
  read_digits 0 (decimal_digits fuel z) = z.
Proof.
  revert z. induction fuel as [|fuel IH]; intros z Hz Hf; [lia|]. cbn [decimal_digits].
  destruct (Z.ltb_spec z 10) as [Hs|Hb].
  { split; [constructor; [apply is_digit_byte; lia|done]|]. split; [done|]. cbn.
    rewrite is_digit_byte, digit_byte_value by lia. lia. }
  pose proof (Z.div_mod z 10 ltac:(lia)) as Hdm. pose proof (Z.mod_pos_bound z 10 ltac:(lia)) as Hm.
  assert (10 ^ Z.of_nat (S fuel) = 10 * 10 ^ Z.of_nat fuel) as Hp
    by (rewrite Nat2Z.inj_succ, Z.pow_succ_r; lia).
  destruct fuel as [|fuel]; [cbn in Hz; lia|].
  destruct (IH (z / 10)) as (Hall & _ & Hv); [split; [apply Z.div_pos; lia|apply Z.div_lt_upper_bound; lia]|lia|].
  split; [apply Forall_app; split; [done|constructor; [apply is_digit_byte; lia|done]]|].
  split; [by destruct (decimal_digits (S fuel) (z / 10))|].
  rewrite read_digits_app, Hv by done. cbn. rewrite is_digit_byte, digit_byte_value by lia. lia.
Qed.

Lemma digits_cstr (s : list byte) : Forall (fun b => is_digit b = true) s -> cstr s = s.
Proof. intros Hs. apply cstr_id. intros H0. rewrite Forall_forall in Hs. by apply Hs in H0. Qed.

(** [atoi] reads a decimal text back. *)
Lemma atoi_decimal (z : Z) : 0 <= z < 2 ^ 31 -> atoi (decimal z) = Returns z.
Proof.
  intros Hz. destruct (decimal_digits_spec 10 z) as (Hall & Hne & Hv); [cbn; lia|lia|].
  unfold atoi, decimal. rewrite (digits_cstr _ Hall).
  destruct (decimal_digits 10 z) as [|b s]; [done|]. apply Forall_cons in Hall as [Hb _].
  assert (skip_spaces (b :: s) = b :: s /\
    match b :: s with x2d :: t => - read_digits 0 t | x2b :: t => read_digits 0 t | t => read_digits 0 t end
    = read_digits 0 (b :: s)) as [-> ->] by (split; destruct b; done).
  rewrite Hv. rewrite (proj2 (Z.leb_le _ _)), (proj2 (Z.ltb_lt _ _)) by lia. done.
Qed.

(** ** Command lines *)

(** What a pair of arguments asks for. *)
Inductive setting : Type :=
  | SetNodeId (id : list byte)
  | SetPort (port : Z)
  | SetRole (control : bool)
  | SetJoin (address : list byte).

Definition setting_ok (s : setting) : Prop :=
  match s with SetPort p => is_u16 p | _ => True end.

Definition render (s : setting) : list (list byte) :=
  match s with
  | SetNodeId id => [text "--node-id"; id]
  | SetPort p => [text "--port"; decimal p]
  | SetRole control => [text "--role"; if control then text "CONTROL" else text "WORKER"]
  | SetJoin a => [text "--join"; a]
  end.

Definition apply_setting (ROLE_CONTROL ROLE_WORKER : Z) (o : Options) (s : setting) : Options :=
  match s with
  | SetNodeId id => {| o with op_node_id := id |}
  | SetPort p => {| o with op_port := p |}
  | SetRole control => {| o with op_role := if control then ROLE_CONTROL else ROLE_WORKER |}
  | SetJoin a => {| o with op_join_addr := Some a |}
  end.

Definition is_flag (a : list byte) : bool :=
  streq a (text "--node-id") || streq a (text "--port") || streq a (text "--role")
  || streq a (text "--join").

Section CommandLine.
Context (RC RW : Z).

Lemma parse_skip (a : list byte) (rest : list (list byte)) (o : Options) :
  is_flag a = false -> parse_args RC RW (a :: rest) o = parse_args RC RW rest o.
Proof.
  unfold is_flag. rewrite !orb_false_iff. intros [[[H1 H2] H3] H4]. destruct rest as [|v rest]; [done|].
  cbn [parse_args]. by rewrite H1, H2, H3, H4.
Qed.

Lemma parse_skip_all (l : list (list byte)) (o : Options) :
  Forall (fun a => is_flag a = false) l -> parse_args RC RW l o = Returns o.
Proof. intros Hl. induction Hl as [|a l Ha Hl IH]; [done|]. by rewrite parse_skip. Qed.

Lemma parse_setting (s : setting) (rest : list (list byte)) (o : Options) :
  setting_ok s ->
  parse_args RC RW (render s ++ rest) o = parse_args RC RW rest (apply_setting RC RW o s).
Proof.
  intros Hs. destruct s as [id|p|control|a]; try done; cbn [render app setting_ok] in *.
  - assert (parse_args RC RW (text "--port" :: decimal p :: rest) o
      = match atoi (decimal p) with
        | Undefined => Undefined
        | Returns p => parse_args RC RW rest {| o with op_port := u16 p |} end) as -> by done.
    rewrite atoi_decimal by (unfold is_u16 in Hs; lia). by rewrite u16_small.
  - by destruct control.
Qed.

Lemma parse_settings (ss : list setting) (o : Options) :
  Forall setting_ok ss ->
  parse_args RC RW (concat (map render ss)) o = Returns (foldl (apply_setting RC RW) o ss).
Proof.
  intros Hs. revert o. induction Hs as [|s ss Hs Hss IH]; intros o; [done|]. cbn [map concat foldl].
  by rewrite parse_setting.
Qed.

Lemma decimal_not_flag (z : Z) : 0 <= z < 2 ^ 31 -> is_flag (decimal z) = false.
Proof.
  intros Hz. destruct (decimal_digits_spec 10 z) as (Hall & Hne & _); [cbn; lia|lia|].
  unfold is_flag, streq, decimal. rewrite (digits_cstr _ Hall).
  destruct (decimal_digits 10 z) as [|b s]; [done|]. apply Forall_cons in Hall as [Hb _].
  assert (b <> x2d) as Hd by (intros ->; done).
  rewrite !orb_false_iff. split_and!; apply bool_decide_eq_false_2;
    intros He%(f_equal (hd x00)); exact (Hd He).
Qed.
End CommandLine.

(** Settings that some code reads. *)
Definition effective (s : setting) : bool :=
  match s with SetNodeId _ | SetPort _ => true | SetRole _ | SetJoin _ => false end.

(** Two sets of variables that agree where the program looks. *)
Definition same_use (o o' : Options) : Prop :=
  op_node_id o = op_node_id o' /\ op_port o = op_port o'.

Lemma settings_used (RC RW : Z) (ss : list setting) (o o' : Options) :
  same_use o o' ->
  same_use (foldl (apply_setting RC RW) o ss)
           (foldl (apply_setting RC RW) o' (filter (fun s => effective s = true) ss)).
Proof.
  revert o o'. induction ss as [|s ss IH]; intros o o' [H1 H2]; [done|]. cbn [foldl].
  destruct (effective s) eqn:E.
  - rewrite filter_cons_True by done. cbn [foldl]. apply IH. by destruct s.
  - rewrite filter_cons_False by congruence. apply IH. by destruct s.
Qed.

(** The command line of the property below. *)
Definition command_line (prog id ip : list byte) (control : bool) (seed_port : Z) (ss : list setting)
  : list (list byte) :=
  [prog; text "--node-id"; id; if control then text "-c" else text "-w"; ip; decimal seed_port]
  ++ concat (map render ss).

Lemma command_line_parsed (RC RW : Z) (prog id ip : list byte) (control : bool) (seed_port : Z)
    (ss : list setting) :
  is_u16 seed_port -> Forall setting_ok ss -> is_flag ip = false ->
  let argv := command_line prog id ip control seed_port ss in
  main_options RC RW argv
  = Returns {| (foldl (apply_setting RC RW) default_options (SetNodeId id :: ss)) with
                 op_role := if control then ROLE_CONTROL_NODE else ROLE_WORKER_NODE |} /\
  main_seed argv = Returns (Some (ip, seed_port)).
Proof.
  intros Hp Hss Hip argv. assert (0 <= seed_port < 2 ^ 31) as Hp' by (unfold is_u16 in Hp; lia).
  split.
  - unfold main_options. change (drop 1 argv) with (render (SetNodeId id) ++
      (if control then text "-c" else text "-w") :: ip :: decimal seed_port :: concat (map render ss)).
    rewrite parse_setting, parse_skip by (done || by destruct control).
    rewrite !parse_skip by (done || by apply decimal_not_flag). rewrite parse_settings by done.
    by destruct control.
  - unfold main_seed. change (6 <=? length argv)%nat with true.
    change (argv !!! 5%nat) with (decimal seed_port). change (argv !!! 4%nat) with ip.
    rewrite atoi_decimal by done. by rewrite u16_small.
Qed.

(** ** Properties *)

(** C35: what a command line means.  Take a line that gives the name first, then the
    role switch and the seed at the positions [main] reads them from, then any further
    flags with their values (values may look like flags).  The name and the port of the
    node are the last ones given by [--node-id] and [--port] (9000 without one), a port
    being the decimal number written; the role is that of the switch and the seed the
    address and port at the fixed positions.  [--role] and [--join] are read and
    discarded: the program does on this line, whatever the kernel answers, exactly what it
    does on the line without them. *)
Theorem command_line_meaning (RC RW : Z) (prog id ip : list byte) (control : bool) (seed_port : Z)
    (ss : list setting) :
  is_u16 seed_port -> Forall setting_ok ss -> is_flag ip = false ->
  let argv := command_line prog id ip control seed_port ss in
  (exists o, main_options RC RW argv = Returns o /\
     op_node_id o = foldl (fun n s => match s with SetNodeId n' => n' | _ => n end) id ss /\
     op_port o = foldl (fun p s => match s with SetPort p' => p' | _ => p end) 9000 ss /\
     op_role o = if control then ROLE_CONTROL_NODE else ROLE_WORKER_NODE) /\
  main_seed argv = Returns (Some (ip, seed_port)) /\
  forall logger_init env ctxs jenv answers epoll_wait lenv fuel,
    main_program RC RW logger_init argv env ctxs jenv answers epoll_wait lenv fuel
    = main_program RC RW logger_init
        (command_line prog id ip control seed_port (filter (fun s => effective s = true) ss))
        env ctxs jenv answers epoll_wait lenv fuel.
Proof.
  intros Hp Hss Hip argv.
  destruct (command_line_parsed RC RW prog id ip control seed_port ss Hp Hss Hip) as [Ho Hs].
  split_and!; [|exact Hs|].
  - eexists. split; [exact Ho|]. cbn [op_node_id op_port op_role foldl]. split_and!; [..|done].
    + change id with (op_node_id (apply_setting RC RW default_options (SetNodeId id))) at 2.
      generalize (apply_setting RC RW default_options (SetNodeId id)). clear.
      induction ss as [|s ss IH]; intros o; [done|]. cbn [foldl]. rewrite IH. by destruct s.
    + change 9000 with (op_port (apply_setting RC RW default_options (SetNodeId id))).
      generalize (apply_setting RC RW default_options (SetNodeId id)). clear.
      induction ss as [|s ss IH]; intros o; [done|]. cbn [foldl]. rewrite IH. by destruct s.
  - intros. set (ss' := filter _ ss).
    assert (Forall setting_ok ss') as Hss'.
    { rewrite Forall_forall in *. intros s [_ Hs0]%list_elem_of_filter. by apply Hss. }
    destruct (command_line_parsed RC RW prog id ip control seed_port ss' Hp Hss' Hip) as [Ho' Hs'].
    unfold main_program. subst argv. rewrite Hs, Hs', Ho, Ho'. cbn [op_role op_node_id op_port foldl].
    destruct (settings_used RC RW ss _ _ (conj eq_refl eq_refl :
      same_use (apply_setting RC RW default_options (SetNodeId id)) _)) as [-> ->].
    done.
Qed.

Lemma command_line_meaning_witness :
  let argv := [text "node"; text "--node-id"; text "n1"; text "-c"; text "10.0.0.1"; text "9000";
               text "--role"; text "WORKER"; text "--port"; text "9001"; text "--join"; text "--port"] in
  (exists o, main_options 1 0 argv = Returns o /\ op_node_id o = text "n1" /\ op_port o = 9001 /\
     op_role o = ROLE_CONTROL_NODE) /\
  main_seed argv = Returns (Some (text "10.0.0.1", 9000)).
Proof.
  destruct (command_line_meaning 1 0 (text "node") (text "n1") (text "10.0.0.1") true 9000
              [SetRole false; SetPort 9001; SetJoin (text "--port")]) as (H1 & H2 & _).
  - split; lia.
  - repeat constructor; lia.
  - reflexivity.
  - split; [exact H1|exact H2].
Defined.

(** The command line of [scripts/raft_cluster_test.py] asks for a CONTROL node and no
    seed; the program starts a WORKER and tries to join through the address that is the
    text of its own port, at port 0. *)
Theorem script_line_misread (RC RW : Z) (prog id : list byte) (port : Z) :
  is_u16 port ->
  let argv := [prog; text "--node-id"; id; text "--port"; decimal port; text "--role"; text "CONTROL"] in
  main_options RC RW argv
  = Returns {| op_node_id := id; op_port := port; op_role := ROLE_WORKER_NODE; op_join_addr := None |} /\
  main_seed argv = Returns (Some (decimal port, 0)).
Proof.
  intros Hp argv. split; [|reflexivity]. unfold main_options.
  change (drop 1 argv) with (concat (map render [SetNodeId id; SetPort port; SetRole true])).
  rewrite parse_settings; [reflexivity|]. by repeat constructor; apply Hp.
Qed.

Lemma script_line_misread_witness :
  main_seed [text "server"; text "--node-id"; text "raft-0"; text "--port"; decimal 9000;
             text "--role"; text "CONTROL"] = Returns (Some (text "9000", 0)).
Proof.
  destruct (script_line_misread 1 0 (text "server") (text "raft-0") 9000) as [_ H]; [split; lia|].
  exact H.
Defined.

(** Where the program may be undefined: a port on the command line that is no [int], the
    unchecked allocation, the answer to the join. *)
Definition program_excused (RC RW : Z) (argv : list (list byte)) (env : StartEnv) (ctxs : Z * Z * Z)
    (jenv : JoinEnv) : Prop :=
  main_options RC RW argv = Undefined \/ main_seed argv = Undefined \/
  exists o seed, main_options RC RW argv = Returns o /\ main_seed argv = Returns seed /\
    excused jenv seed env (op_role o) (op_node_id o) (op_port o) ctxs.


