(* ===== verification/Namesakes.v ===== *)
(** * A fleet started as documented

    The usage text of [src/main.c] gives a node's name and port as its first two
    arguments, but the argument loop reads flags only.  This file follows what that
    means from the command line ([Program.v]) through joins and requests
    ([MemberNet.v]) to the heartbeats: all nodes have the same name, take each other
    for themselves, and stay silent. *)

From S2P Require Import Prelude RaftCore Wire RaftRpc Cluster FailureDetector EventLoop Session JoinFlow MemberNet Transport Server Program.

(** ** Nodes of the same name *)

(** All members carry the node's own name. *)
Definition namesakes (cm : ClusterManager) : Prop :=
  Forall (fun m => streq (ni_node_id m) (ni_node_id (self cm)) = true) (cm_members cm).

(** A node among namesakes sends no heartbeat and no LEAVE, and its reaper never
    changes a status. *)
Lemma namesakes_silent (cm : ClusterManager) (send : NodeInfo -> bool) (now rnd : Z) :
  namesakes cm ->
  on_heartbeat_timer now rnd cm = [] /\ (cluster_leave send cm).1 = [] /\
  cluster_reaper_tick now cm = cm.
Proof.
  unfold namesakes. set (id := ni_node_id (self cm)). intros Hm. split_and!.
  - unfold on_heartbeat_timer. destruct (_ >? 0); [|done]. fold id. set (k := Z.to_nat _).
    assert (Forall (fun m => streq (ni_node_id m) id = true) (drop k (cm_members cm) ++ take k (cm_members cm)))
      as Hr by (apply Forall_app; split; [by apply Forall_drop|by apply Forall_take]).
    assert (forall l, Forall (fun m => streq (ni_node_id m) id = true) l -> gossip_targets id 0 l = []) as ->;
      [|done|done].
    intros l Hl. induction Hl as [|m l Hm0 Hl IH]; [done|]. cbn. by rewrite Hm0.
  - cbn. fold id. induction Hm as [|m l Hm0 Hl IH]; [done|]. cbn. by rewrite Hm0.
  - unfold cluster_reaper_tick. fold id. destruct cm as [sf st ms cap nm hb]. cbn in *. f_equal.
    clearbody id. induction Hm as [|m l Hm0 Hl IH]; [done|]. cbn. f_equal; [|done]. unfold reap.
    by rewrite Hm0.
Qed.

(** ** Fleets of namesakes *)

(** What a node makes of its command line. *)
Definition node_args (RC RW : Z) (argv : list (list byte)) : option NodeArgs :=
  match main_options RC RW argv with
  | Undefined => None
  | Returns o => Some {| na_id := op_node_id o; na_port := op_port o; na_role := op_role o |}
  end.

(** A command line as the usage text documents it. *)
Definition documented (argv : list (list byte)) : Prop :=
  (4 <= length argv)%nat /\ Forall (fun a => is_flag a = false) (drop 1 argv).

(** Whatever name and port it gives, the variables keep their defaults. *)
Lemma documented_options (RC RW : Z) (argv : list (list byte)) :
  documented argv ->
  main_options RC RW argv
  = Returns {| op_node_id := text "default"; op_port := 9000; op_role := main_role argv;
               op_join_addr := None |}.
Proof. intros [_ Hf]. unfold main_options. by rewrite parse_skip_all. Qed.

Lemma documented_args (RC RW : Z) (argv : list (list byte)) :
  documented argv ->
  exists r, is_u16 r /\
    node_args RC RW argv = Some {| na_id := text "default"; na_port := 9000; na_role := r |}.
Proof.
  intros Hd. exists (main_role argv). unfold node_args. rewrite documented_options by done.
  split; [|done]. unfold main_role. by destruct (streq _ _).
Qed.

Section Lone.
Context (fleet : gmap nat NodeArgs) (resolve : list byte -> Z -> option nat) (name : list byte)
  (port0 : Z).
Hypothesis Hfleet : forall i c, fleet !! i = Some c ->
  take 36 (cstr (na_id c)) = name /\ (na_port c = port0 /\ is_u16 (na_port c)) /\ is_u16 (na_role c).
Hypothesis Hresolve : forall ip port i, resolve ip port = Some i -> is_u16 port.

(** A node with the common name and port and at most one member, which has the name
    too. *)
Record lone (cm : ClusterManager) : Prop := {
  lo_self : info_ok (self cm);
  lo_name : cstr (ni_node_id (self cm)) = name;
  lo_fits : Forall node_fits (cm_members cm);
  lo_members : Forall (fun m => cstr (ni_node_id m) = name) (cm_members cm);
  lo_cap : cap_ok cm;
  lo_one : (length (cm_members cm) <= 1)%nat;
  lo_port : tcp_port (self cm) = port0 /\ udp_port (self cm) = port0;
}.

Lemma lone_namesakes (cm : ClusterManager) : lone cm -> namesakes cm.
Proof.
  intros [_ Hn _ Hm _ _ _]. eapply Forall_impl; [exact Hm|]. intros m H. apply streq_true. congruence.
Qed.

Lemma lone_count (cm : ClusterManager) : lone cm -> member_count cm < 2 ^ 32.
Proof. intros []. unfold member_count. lia. Qed.

Lemma lone_init (i : nat) (c : NodeArgs) (now : Z) : fleet !! i = Some c -> lone (node_init c now).
Proof.
  intros Hi. destruct (Hfleet i c Hi) as (Hn & [Hp _] & _). split; cbn; try done; [| |lia].
  - split; cbn; auto with droole.
  - rewrite <- Hn. apply (cstr_strncpy 37); [lia|auto with droole].
Qed.

Lemma lone_state (cm : ClusterManager) (st : ClusterState) :
  lone cm -> lone {| cm with cluster_state := st |}.
Proof. intros []. by split. Qed.

(** Replacing the member at [k] by one with the same name. *)
Lemma lone_insert (cm : ClusterManager) (k : nat) (m' : NodeInfo) :
  lone cm -> node_fits m' -> cstr (ni_node_id m') = name ->
  lone {| cm with cm_members := <[k := m']> (cm_members cm) |}.
Proof.
  intros [] Hf Hn. split; cbn; try done; try (by apply Forall_insert); rewrite ?length_insert; try done.
  unfold cap_ok, member_count in *. cbn. by rewrite length_insert.
Qed.

(** Adding a member to an empty list. *)
Lemma lone_append (cm : ClusterManager) (m' : NodeInfo) (cap : Z) :
  lone cm -> cm_members cm = [] -> node_fits m' -> cstr (ni_node_id m') = name -> 1 <= cap < 2 ^ 62 ->
  lone {| cm with cm_members := cm_members cm ++ [m']; member_capacity := cap |}.
Proof.
  intros [] He Hf Hn Hc. split; cbn; rewrite ?He; cbn; try done; try (by apply Forall_singleton).
Qed.

(** The only member is found under the common name. *)
Lemma lone_not_found (cm : ClusterManager) (id : list byte) :
  lone cm -> cstr id = name -> find_member cm id = None -> cm_members cm = [].
Proof.
  intros [] Hid Hf%find_member_None. destruct (cm_members cm) as [|m ms] eqn:E; [done|].
  destruct Hf. unfold cm_ids. rewrite E. apply Forall_cons in lo_members0 as [Hm _]. cbn.
  rewrite Hm, Hid. left.
Qed.

Lemma lone_update (now st : Z) (cm : ClusterManager) (id : list byte) :
  lone cm -> is_u16 st -> lone (cluster_update_member_status now cm id st).2.
Proof.
  intros Hl Hst. unfold cluster_update_member_status.
  destruct (find_member cm id) as [[k m]|] eqn:E; [|done]. apply find_member_Some in E as [Hk _].
  pose proof (Forall_lookup_1 _ _ _ _ (lo_fits _ Hl) Hk) as [[H1 H1'] H2 H3 H4 H5].
  apply lone_insert; [done|by constructor|]. apply (Forall_lookup_1 _ _ _ _ (lo_members _ Hl) Hk).
Qed.

Lemma lone_gossip (now : Z) (cm : ClusterManager) (d : list byte) :
  lone cm -> lone (on_gossip_receive now cm d).
Proof.
  intros Hl. unfold on_gossip_receive. destruct (_ <? _)%nat; [done|]. destruct (negb _); [done|].
  by apply lone_update.
Qed.

Lemma lone_join_req (j : nat) (c : NodeArgs) (al : Alloc) (pads : nat -> list byte) (wall : Z)
    (cm : ClusterManager) :
  lone cm -> fleet !! j = Some c ->
  lone (cluster_handle_join_req al pads wall cm (join_request (node_init c 0))).2.
Proof.
  intros Hl Hj. pose proof (lone_init j c 0 Hj) as [Hs Hn _ _ _ _ _]. destruct (Hfleet j c Hj) as (_ & [_ Hp] & Hr).
  set (req := join_request (node_init c 0)).
  assert (cstr (jr_node_id req) = name) as Hid.
  { rewrite <- Hn. apply cstr_strncpy37; [auto with droole|]. apply cstr_length37, Hs. }
  unfold cluster_handle_join_req.
  destruct (find_member cm (jr_node_id req)) as [[k m]|] eqn:E.
  - apply find_member_Some in E as [Hk Hm]. set (cm' := {| cm with cm_members := _ |}).
    enough (lone cm') by (by destruct (malloc_ok al)).
    pose proof (Forall_lookup_1 _ _ _ _ (lo_fits _ Hl) Hk) as [[H1 H1'] _ _ _ _].
    apply lone_insert; [done| |cbn; congruence]. constructor; cbn; try done. split; cbn; auto with droole.
  - apply lone_not_found in E; [|done|done].
    destruct (ensure_cases al cm (lo_cap _ Hl)) as [(cap & -> & Hc)|[-> Hfull]];
      [unfold member_count; rewrite E; cbn; lia|..].
    + unfold member_count in *. cbn [cm_members member_capacity].
      rewrite Z.geb_leb, (proj2 (Z.leb_gt _ _)) by lia.
      match goal with |- context [cm_members cm ++ [?x]] => set (m' := x) end.
      enough (lone {| cm with cm_members := cm_members cm ++ [m']; member_capacity := cap |})
        by (by destruct (malloc_ok al)).
      apply lone_append; [done|done| | |rewrite E in Hc; cbn in Hc; lia].
      * constructor; cbn; try done. split; cbn; auto with droole.
      * change (cstr (strncpy (zeros 37) (jr_node_id req) 36) = name).
        rewrite cstr_strncpy37; [done|auto with droole|]. rewrite Hid, <- Hn. apply cstr_length37, Hs.
    + rewrite (proj2 (Z.geb_le _ _)) by lia. done.
Qed.

(** A node that imports the list of a namesake skips every entry but adds the seed. *)
Lemma lone_import (i : nat) (c : NodeArgs) (t0 now : Z) (seed : ClusterManager) (al : nat -> Alloc)
    (junk : nat -> Z * Z) (pads : nat -> list byte) (ip : list byte) (port : Z) :
  fleet !! i = Some c -> lone seed -> is_u16 port -> (forall k, length (pads k) = 7%nat) ->
  exists cm1, import_response al junk now ip port (join_response_bytes pads seed) (node_init c t0)
    = Returns cm1 /\ lone cm1.
Proof.
  intros Hi Hs Hport Hpads. pose proof (lone_init i c t0 Hi) as H0.
  pose proof (lone_count seed Hs) as Hc. pose proof (lo_one _ Hs) as H1.
  destruct (join_response_fields pads seed (lo_self _ Hs) Hc) as (Hn & Hsid & Hbody & Hlen).
  unfold import_response. rewrite (proj2 (Nat.ltb_ge _ _)) by exact Hlen. rewrite Hn, Hsid.
  unfold member_count at 1. rewrite Nat2Z.id.
  destruct (import_any al junk now (join_response_bytes pads seed) pads (cm_members seed) 0 (node_init c t0))
    as (k & l & cap & -> & Hl & Hlc); try done; [apply Hs|unfold member_count; cbn; lia|].
  assert (filter (not_self (node_init c t0)) (take k (cm_members seed)) = []) as Hnil.
  { assert (forall ms, Forall (fun m => cstr (ni_node_id m) = name) ms -> filter (not_self (node_init c t0)) ms = [])
      as Hf.
    { intros ms Hms. induction Hms as [|m ms Hm Hms IH]; [done|]. rewrite filter_cons_False; [done|].
      intros Hne. apply Hne. rewrite (lo_name _ H0). done. }
    apply Hf, Forall_take, Hs. }
  rewrite Hnil in Hl. apply Forall2_nil_inv_l in Hl as ->. eexists. split; [done|].
  set (cm0 := {| (node_init c t0) with cm_members := _; member_capacity := cap |}).
  assert (lone cm0) as Hl0.
  { by destruct H0. }
  destruct (add_seed_alloc (al (Z.to_nat (member_count seed))) now (cstr (ni_node_id (self seed))) ip port cm0)
    as [-> | ->]; [|done].
  unfold add_seed. destruct (find_member cm0 _); [done|].
  destruct (ensure_capacity_room alloc_ok cm0 (lo_cap _ Hl0)) as (cap' & -> & Hcap);
    [done|unfold member_count; cbn; lia|].
  unfold member_count in *. cbn [cm_members member_capacity]. rewrite (proj2 (Z.ltb_lt _ _)) by lia.
  eapply (lone_append cm0); [done|done| | |cbn in Hcap; lia].
  - constructor; cbn; try done. split; cbn; auto with droole.
  - cbn. rewrite cstr_strncpy37, cstr_cstr; [apply Hs|auto with droole|].
    rewrite cstr_cstr. apply cstr_length37, Hs.
Qed.

(** ** The fleet *)

Definition lone_answer (x : nat * nat * list byte) : Prop :=
  x.2 = [] \/ exists cj env seed, lone seed /\ (forall k, length (env_pads env k) = 7%nat) /\
    x.2 = join_answer env cj seed.

Record lone_net (n : Net) : Prop := {
  ln_nodes : forall i p, nt_nodes n !! i = Some p -> lone (pr_cluster p) /\
    (pr_running p = false -> exists c now, fleet !! i = Some c /\ pr_cluster p = node_init c now);
  ln_answers : Forall lone_answer (nt_answers n);
  ln_sent : nt_sent n = [];
}.

Lemma lone_looping (n : Net) (i : nat) (cm : ClusterManager) :
  lone_net n -> looping n i = Some cm -> lone cm.
Proof. intros [Hn _ _] (p & Hp & <-)%looping_node. by apply (Hn i). Qed.

Lemma lone_starting (n : Net) (i : nat) (cm : ClusterManager) :
  lone_net n -> starting n i = Some cm -> exists c now, fleet !! i = Some c /\ cm = node_init c now.
Proof.
  intros [Hn _ _] Hr. unfold starting in Hr. destruct (nt_nodes n !! i) as [p|] eqn:E; [|done].
  destruct (Hn i p E) as [_ Hst]. destruct (pr_running p); [done|]. injection Hr as <-. by apply Hst.
Qed.

Lemma lone_set (n : Net) (i : nat) (cm : ClusterManager) :
  lone_net n -> lone cm -> lone_net (set_node i {| pr_running := true; pr_cluster := cm |} n).
Proof.
  intros [Hn Ha Hs] Ht. split; [|done|done]. intros j p [[-> ->]|[_ Hj]]%set_node_back; [done|by apply Hn].
Qed.

(** Whatever part of an answer arrives. *)
Lemma lone_join (n : Net) (i s : nat) (c : NodeArgs) (t0 : Z) (answer : option (nat * nat)) (mem : bool)
    (al : nat -> Alloc) (junk : nat -> Z * Z) (now : Z) (ip : list byte) (port rc : Z)
    (cm' : ClusterManager) :
  lone_net n -> fleet !! i = Some c -> is_u16 port ->
  cluster_join (fun _ _ _ => stream_of n i s answer) mem al junk now (node_init c t0) ip port
    = Returns (rc, cm') -> lone cm'.
Proof.
  intros [_ Ha _] Hi Hp. pose proof (lone_init i c t0 Hi) as H0. unfold stream_of.
  destruct answer as [[x k]|]; [|by intros [= <- <-]].
  destruct (nt_answers n !! x) as [[[i' s'] b]|] eqn:E; [|by intros [= <- <-]].
  case_decide; [|by intros [= <- <-]].
  destruct (Forall_lookup_1 _ _ _ _ Ha E) as [Hb|(cj & env & seed & Hs & Hpads & Hb)]; cbn in Hb; subst b.
  { rewrite take_nil. by intros [= <- <-]. }
  destruct (join_stream env cj (node_init c t0) seed k mem al junk now ip port) as [-> | ->];
    [done|apply Hs|by apply lone_count|by intros [= <- <-]|].
  destruct (lone_import i c t0 now seed al junk (env_pads env) ip port) as (cm1 & -> & Hl); [done..|].
  intros [= <- <-]. by apply lone_state.
Qed.

Lemma lone_respond_join (i j : nat) (c : NodeArgs) (env : SessionEnv) (cm : ClusterManager) :
  lone cm -> fleet !! j = Some c -> (forall k, length (env_pads env k) = 7%nat) ->
  let cj := node_init c 0 in
  let (resp, cm') := respond env (join_header cj) (join_request_bytes (join_request cj)) cm in
  lone cm' /\ lone_answer (j, i, resp).
Proof.
  intros Hl Hj Hpads cj. pose proof (lone_init j c 0 Hj) as [Hs _ _ _ _ _ _].
  destruct (Hfleet j c Hj) as (_ & [_ Hp] & Hr).
  assert (joiner_ok cj) as Hcj by (by constructor; [constructor|..]).
  unfold respond, handle_processing.
  cbn [ss_header ready command_type join_header payload_total payload_buf].
  rewrite Z.eqb_refl, length_request, Nat.eqb_refl, request_read by done. cbn [negb].
  pose proof (lone_join_req j c (join_alloc env) (env_pads env) (env_wall env) cm Hl Hj) as Hl'.
  pose proof (join_req_shape (join_alloc env) (env_pads env) (env_wall env) cm (join_request cj)) as Hsh.
  fold cj in Hl'. destruct (cluster_handle_join_req _ _ _ _ _) as [[rc resp] cm']. cbn in Hl'.
  assert (lone cm' /\ lone_answer (j, i, [])) as Hfail by (split; [done|by left]).
  destruct Hsh as [->|[-> ->]]; [by destruct rc|].
  destruct (response_alloc env); cbn [negb]; [|done]. destruct (mod_fd_ok env); cbn [negb]; [|done].
  split; [done|]. right. by exists cj, env, cm'.
Qed.

Lemma lone_respond_other (env : SessionEnv) (h : RpcHeader) (p : list byte) (cm : ClusterManager) :
  lone cm -> command_type h <> RPC_CMD_JOIN_REQ -> lone (respond env h p cm).2.
Proof.
  intros Ht Hne. unfold respond, handle_processing. cbn [ss_header ready].
  rewrite (proj2 (Z.eqb_neq _ _)) by done.
  destruct (_ =? RPC_CMD_LEAVE); [by apply lone_update|].
  destruct (_ =? RPC_CMD_SYNC_RULES); [|done]. by destruct (_ <? _)%nat.
Qed.

Lemma lone_act (a : action) (n n' : Net) :
  lone_net n -> action_ok a -> act fleet resolve a n = Some n' -> lone_net n'.
Proof.
  intros Hn Ha Hact. destruct a as [i now|i|i s ip port answer mem al junk now|i j env|i env h p|i now d
    |i now rnd|i now|i]; cbn in Hact.
  - destruct (fleet !! i) as [c|] eqn:Ec; [|done]. injection Hact as <-. destruct Hn as [Hn Han Hs].
    split; [|done|done]. intros j p [[<- ->]|[_ Hj]]%set_node_back; [|by apply Hn].
    split; [by eapply lone_init|]. intros _. by exists c, now.
  - destruct (starting n i) as [cm|] eqn:E; [|done]. injection Hact as <-.
    apply lone_starting in E as (c & t & Hc & ->); [|done]. apply lone_set; [done|by eapply lone_init].
  - destruct (starting n i) as [cm|] eqn:E; [|done]. cbn in Hact. case_decide as Hc; [|done].
    apply lone_starting in E as (c & t & Hi & ->); [|done].
    destruct (cluster_join _ _ _ _ _ _ _ _) as [[rc cm']|] eqn:Ej; [|done]. injection Hact as <-.
    apply lone_set; [done|]. eapply lone_join; [exact Hn|exact Hi| |exact Ej].
    by eapply Hresolve, Hc.
  - destruct (looping n i) as [cm|] eqn:E; [|done]. apply lone_looping in E; [|done]. cbn in Hact.
    destruct (fleet !! j) as [c|] eqn:Ec; [|done]. cbn in Hact. case_decide as Hne; [|done].
    pose proof (lone_respond_join i j c env cm E Ec Ha) as Hr. cbn zeta in Hr.
    destruct (respond _ _ _ _) as [resp cm']. destruct Hr as [Ht Hb]. injection Hact as <-.
    destruct (lone_set n i cm' Hn Ht) as [H1 H2 H3]. split; [done| |done]. cbn.
    apply Forall_app. split; [done|by apply Forall_singleton].
  - destruct (looping n i) as [cm|] eqn:E; [|done]. apply lone_looping in E; [|done]. cbn in Hact.
    destruct (Z.eqb_spec (command_type h) RPC_CMD_JOIN_REQ); [done|]. injection Hact as <-.
    by apply lone_set, lone_respond_other.
  - destruct (looping n i) as [cm|] eqn:E; [|done]. apply lone_looping in E; [|done]. injection Hact as <-.
    by apply lone_set, lone_gossip.
  - destruct (looping n i) as [cm|] eqn:E; [|done]. apply lone_looping in E; [|done]. injection Hact as <-.
    destruct (namesakes_silent cm (fun _ => true) now rnd) as (-> & _ & _); [by apply lone_namesakes|].
    destruct Hn. split; cbn; try done. by rewrite app_nil_r.
  - destruct (looping n i) as [cm|] eqn:E; [|done]. apply lone_looping in E; [|done]. injection Hact as <-.
    destruct (namesakes_silent cm (fun _ => true) now 0) as (_ & _ & ->); [by apply lone_namesakes|].
    by apply lone_set.
  - destruct (looping n i) as [cm|] eqn:E; [|done]. injection Hact as <-. destruct Hn as [Hn Han Hs].
    split; [|done|done]. cbn. intros j p [_ Hj]%lookup_delete_Some. by apply Hn.
Qed.

Lemma lone_acts (l : list action) (n n' : Net) :
  lone_net n -> Forall action_ok l -> acts fleet resolve l n = Some n' -> lone_net n'.
Proof.
  intros Hn Hl. revert n Hn. induction Hl as [|a l Ha Hl IH]; intros n Hn; cbn [acts]; [by intros [= <-]|].
  destruct (act fleet resolve a n) as [n1|] eqn:E; [|done]. cbn. apply IH. by eapply lone_act.
Qed.

Lemma lone_net_init : lone_net net_init.
Proof. split; cbn; [intros i p; by rewrite lookup_empty|constructor|done]. Qed.
End Lone.

(** ** Property *)

(** C16: a fleet started as documented is silent.  When every node is started with the
    arguments of the usage text (name, port, role switch, optional seed, no flags),
    [main] goes on with the name "default" and port 9000, whatever name and port were
    given, and every node carries them.  Over any sequence of joins, requests, gossip,
    timers, crashes and restarts a node then lists at most one member, which carries the
    node's own name; no heartbeat is ever sent, no LEAVE would be, and no reaper tick
    ever changes a status, so failures go unnoticed. *)
Theorem documented_fleet_silent (RC RW : Z) (lines : gmap nat (list (list byte)))
    (resolve : list byte -> Z -> option nat) (l : list action) (n : Net) :
  (forall i argv, lines !! i = Some argv -> documented argv) ->
  (forall ip port i, resolve ip port = Some i -> is_u16 port) -> Forall action_ok l ->
  acts (omap (node_args RC RW) lines) resolve l net_init = Some n ->
  (forall i argv, lines !! i = Some argv ->
     exists o, main_options RC RW argv = Returns o /\ op_node_id o = text "default" /\ op_port o = 9000) /\
  nt_sent n = [] /\
  forall i p, nt_nodes n !! i = Some p ->
    let cm := pr_cluster p in
    cstr (ni_node_id (self cm)) = text "default" /\
    tcp_port (self cm) = 9000 /\ udp_port (self cm) = 9000 /\
    (length (cm_members cm) <= 1)%nat /\
    Forall (fun m => streq (ni_node_id m) (ni_node_id (self cm)) = true) (cm_members cm) /\
    forall now rnd send, on_heartbeat_timer now rnd cm = [] /\ (cluster_leave send cm).1 = [] /\
      cluster_reaper_tick now cm = cm.
Proof.
  intros Hd Hres Hl Hn. set (fleet := omap (node_args RC RW) lines) in *.
  assert (forall i c, fleet !! i = Some c -> take 36 (cstr (na_id c)) = text "default" /\
    (na_port c = 9000 /\ is_u16 (na_port c)) /\ is_u16 (na_role c)) as Hf.
  { intros i c. unfold fleet. rewrite lookup_omap. destruct (lines !! i) as [argv|] eqn:E; [|done]. cbn.
    destruct (documented_args RC RW argv (Hd i argv E)) as (r & Hr & ->). by intros [= <-]. }
  destruct (lone_acts fleet resolve (text "default") 9000 Hf Hres l net_init n (lone_net_init _ _ _) Hl Hn)
    as [Hnodes _ Hsent].
  split; [intros i argv Hi; rewrite documented_options by eauto; by eexists|]. split; [done|].
  intros i p Hp cm. destruct (Hnodes i p Hp) as [Hlo _]. fold cm in Hlo.
  pose proof (lone_namesakes _ _ cm Hlo) as Hns. destruct Hlo as [_ Hname _ _ _ Hone [Ht Hu]].
  split_and!; [done..|]. intros now rnd send. by apply namesakes_silent.
Qed.

Definition demo_lines : gmap nat (list (list byte)) :=
  {[ 0%nat := [text "node"; text "control-1"; text "9000"; text "-c"];
     1%nat := [text "node"; text "worker-1"; text "9001"; text "-w"; text "10.0.0.1"; text "9000"] ]}.

Definition demo_silence : list action :=
  [Start 0 100; Alone 0; Start 1 200; ServeJoin 0 1 demo_env;
   Join 1 0 (text "10.0.0.1") 9000 (Some (0, 1000)%nat) true (fun _ => alloc_ok) (fun _ => (0, 0)) 250;
   Beat 0 1000 0; Beat 1 1000 0].

Lemma documented_fleet_silent_witness :
  let n := default net_init (acts (omap (node_args 1 0) demo_lines) demo_resolve demo_silence net_init) in
  nt_sent n = [] /\ ids_at n 0 = [text "default"] /\ ids_at n 1 = [text "default"].
Proof.
  intros n. destruct (documented_fleet_silent 1 0 demo_lines demo_resolve demo_silence n) as (_ & Hs & _).
  - intros i argv Hi. unfold demo_lines in Hi.
    rewrite lookup_insert_Some, lookup_singleton_Some in Hi.
    destruct Hi as [[_ <-]|[_ [_ <-]]]; (split; [cbn; lia|repeat constructor]).
  - intros ip port i. unfold demo_resolve. case_decide as Hc; [|done]. destruct Hc as [_ ->].
    intros _. split; lia.
  - repeat constructor; by intros k.
  - vm_compute. reflexivity.
  - split; [exact Hs|]. split; vm_compute; reflexivity.
Defined.
